(** * Congress explorer: the ingestion scripts, embedded and verified

    The repository mirrors the congress.gov REST API into a PostgreSQL
    schema with three population scripts (bills, committees, members).
    This development embeds

    - the schema of [dbSetup.js] (tables, NOT NULL, UNIQUE, REFERENCES),
    - the SQL statements the scripts send, with PostgreSQL's reading of
      [INSERT ... ON CONFLICT], [UPDATE] and of transactions,
    - the JavaScript control flow around them (try/catch, for-of loops,
      truthiness tests, the batch loops of [main]),

    and states the properties of the synchronisation engine over them. *)

From Stdlib Require Import ZArith List String Ascii Bool Lia Arith.
From Stdlib Require Import DecimalString DecimalZ.
Import ListNotations.

Open Scope string_scope.
Open Scope Z_scope.

(* ================================================================== *)
(** * 1. SQL values and JavaScript truthiness *)
(* ================================================================== *)

(** A query parameter or a stored cell.  [undefined] and [null] both reach
    PostgreSQL as NULL through the [pg] driver, so one constructor stands
    for the three.  Values are taken after the coercion to the column type;
    a parameter PostgreSQL cannot coerce is one of the server faults of
    section 3. *)
Inductive value : Type :=
| VNull
| VInt (z : Z)
| VText (s : string)
| VBool (b : bool)
| VTime (ms : Z).

Definition value_eqb (a b : value) : bool :=
  match a, b with
  | VNull, VNull => true
  | VInt x, VInt y => Z.eqb x y
  | VText x, VText y => String.eqb x y
  | VBool x, VBool y => Bool.eqb x y
  | VTime x, VTime y => Z.eqb x y
  | _, _ => false
  end.

Definition is_null (v : value) : bool :=
  match v with VNull => true | _ => false end.

(** JavaScript [ToBoolean]: [null], [undefined], [0], the empty string and
    [false] are falsy; a [Date] object is always truthy. *)
Definition truthy (v : value) : bool :=
  match v with
  | VNull => false
  | VInt z => negb (Z.eqb z 0)
  | VText s => negb (String.eqb s "")
  | VBool b => b
  | VTime _ => true
  end.

(** [a || b] of JavaScript. *)
Definition js_or (a b : value) : value := if truthy a then a else b.

(** An optional JSON string field ([undefined] when the key is absent). *)
Definition vtext (o : option string) : value :=
  match o with Some s => VText s | None => VNull end.

Definition truthy_str (o : option string) : bool :=
  match o with Some s => negb (String.eqb s "") | None => false end.

(* ================================================================== *)
(** * 2. The schema of dbSetup.js *)
(* ================================================================== *)

Inductive table_name : Type :=
| members | member_addresses | member_party_history | member_terms
| member_leadership | committees | committee_history | bills
| bill_cosponsors | bill_actions | bill_action_committees | bill_committees
| cbo_cost_estimates | bill_summaries | bill_subjects | bill_titles
| bill_text_versions | related_bills | laws | committee_reports
| report_committees | report_associated_bills.

Definition table_name_eq_dec (a b : table_name) : {a = b} + {a <> b}.
Proof. decide equality. Defined.

Definition table_eqb (a b : table_name) : bool :=
  if table_name_eq_dec a b then true else false.

Record column : Type := mkcol {
  cname : string;
  cnotnull : bool;                         (* NOT NULL or part of the primary key *)
  cserial : bool;                          (* SERIAL: default nextval *)
  cref : option (table_name * string)      (* REFERENCES table(column) *)
}.

Record schema : Type := mkschema {
  columns : list column;
  uniques : list (list string)             (* PRIMARY KEY and UNIQUE constraints *)
}.

Definition col (n : string) : column := mkcol n false false None.
Definition col_nn (n : string) : column := mkcol n true false None.
Definition col_serial (n : string) : column := mkcol n true true None.
Definition col_fk (n : string) (nn : bool) (t : table_name) (c : string) : column :=
  mkcol n nn false (Some (t, c)).

Definition schema_of (t : table_name) : schema :=
  match t with
  | members =>
      mkschema
        [col_nn "bioguide_id"; col "direct_order_name"; col "inverted_order_name";
         col "first_name"; col "middle_name"; col "last_name"; col "suffix_name";
         col "nickname"; col "honorific_name"; col "birth_year"; col "death_year";
         col "official_url"; col "depiction_image_url"; col "depiction_attribution";
         col "is_current_member"; col "updated_at"]
        [["bioguide_id"]]
  | member_addresses =>
      mkschema
        [col_serial "id"; col_fk "member_bioguide_id" true members "bioguide_id";
         col "office_address"; col "city"; col "district"; col "zip_code";
         col "phone_number"]
        [["id"]; ["member_bioguide_id"]]
  | member_party_history =>
      mkschema
        [col_serial "id"; col_fk "member_bioguide_id" true members "bioguide_id";
         col_nn "party_name"; col "party_abbreviation"; col_nn "start_year"]
        [["id"]; ["member_bioguide_id"; "party_name"; "start_year"]]
  | member_terms =>
      mkschema
        [col_serial "id"; col_fk "member_bioguide_id" true members "bioguide_id";
         col_nn "congress"; col_nn "chamber"; col "member_type"; col_nn "state_code";
         col "state_name"; col "district"; col "start_year"; col "end_year"]
        [["id"]; ["member_bioguide_id"; "congress"; "chamber"; "district"]]
  | member_leadership =>
      mkschema
        [col_serial "id"; col_fk "member_bioguide_id" true members "bioguide_id";
         col_nn "congress"; col_nn "leadership_type"; col "is_current"]
        [["id"]; ["member_bioguide_id"; "congress"; "leadership_type"]]
  | committees =>
      mkschema
        [col_nn "system_code"; col_nn "name"; col_nn "chamber";
         col "committee_type_code";
         col_fk "parent_committee_system_code" false committees "system_code";
         col "is_current"; col "updated_at"]
        [["system_code"]]
  | committee_history =>
      mkschema
        [col_serial "id";
         col_fk "committee_system_code" true committees "system_code";
         col "official_name"; col "start_date"; col "end_date";
         col "establishing_authority"]
        [["id"]]
  | bills =>
      mkschema
        [col_serial "id"; col_nn "congress"; col_nn "type"; col_nn "number";
         col "origin_chamber"; col "title"; col "introduced_date";
         col "policy_area_name";
         col_fk "sponsor_bioguide_id" false members "bioguide_id";
         col "is_by_request"; col "constitutional_authority_statement_text";
         col "updated_at"; col "updated_at_including_text"; col "last_processed_at"]
        [["id"]; ["congress"; "type"; "number"]]
  | bill_cosponsors =>
      mkschema
        [col_fk "bill_id" true bills "id";
         col_fk "member_bioguide_id" true members "bioguide_id";
         col_nn "sponsorship_date"; col_nn "is_original_cosponsor";
         col "sponsorship_withdrawn_date"]
        [["bill_id"; "member_bioguide_id"]]
  | bill_actions =>
      mkschema
        [col_serial "id"; col_fk "bill_id" true bills "id"; col_nn "action_date";
         col_nn "text"; col "type"; col "action_code"; col "source_system_name"]
        [["id"]; ["bill_id"; "action_date"; "text"]]
  | bill_action_committees =>
      mkschema
        [col_fk "action_id" true bill_actions "id";
         col_fk "committee_system_code" true committees "system_code"]
        [["action_id"; "committee_system_code"]]
  | bill_committees =>
      mkschema
        [col_serial "id"; col_fk "bill_id" true bills "id";
         col_fk "committee_system_code" true committees "system_code";
         col_nn "activity_name"; col "activity_date"]
        [["id"]; ["bill_id"; "committee_system_code"; "activity_name"; "activity_date"]]
  | cbo_cost_estimates =>
      mkschema
        [col_serial "id"; col_fk "bill_id" true bills "id"; col "url"; col "title";
         col "description"; col "publication_date"]
        [["id"]; ["url"]]
  | bill_summaries =>
      mkschema
        [col_serial "id"; col_fk "bill_id" true bills "id"; col "version_code";
         col "action_description"; col "action_date"; col "text"; col "updated_at"]
        [["id"]; ["bill_id"; "version_code"; "action_date"]]
  | bill_subjects =>
      mkschema
        [col_serial "id"; col_fk "bill_id" true bills "id"; col_nn "name"]
        [["id"]; ["bill_id"; "name"]]
  | bill_titles =>
      mkschema
        [col_serial "id"; col_fk "bill_id" true bills "id"; col "title_type";
         col "title"; col "chamber_code"; col "chamber_name"]
        [["id"]; ["bill_id"; "title_type"; "title"]]
  | bill_text_versions =>
      mkschema
        [col_serial "id"; col_fk "bill_id" true bills "id"; col_nn "type";
         col "date"; col "url"; col "format"]
        [["id"]; ["bill_id"; "type"; "format"]]
  | related_bills =>
      mkschema
        [col_fk "bill_id" true bills "id"; col_fk "related_bill_id" true bills "id";
         col_nn "relationship_type"; col_nn "identified_by"]
        [["bill_id"; "related_bill_id"; "identified_by"]]
  | laws =>
      mkschema
        [col_fk "bill_id" true bills "id"; col_nn "type"; col_nn "number"]
        [["bill_id"]]
  | committee_reports =>
      mkschema
        [col_serial "id"; col_nn "congress"; col_nn "chamber"; col_nn "type";
         col_nn "number"; col "part"; col "citation"; col "title"; col "issue_date";
         col "is_conference_report"; col "updated_at"]
        [["id"]; ["citation"]; ["congress"; "type"; "number"; "part"]]
  | report_committees =>
      mkschema
        [col_fk "report_id" true committee_reports "id";
         col_fk "committee_system_code" true committees "system_code"]
        [["report_id"; "committee_system_code"]]
  | report_associated_bills =>
      mkschema
        [col_fk "report_id" true committee_reports "id";
         col_fk "bill_id" true bills "id"]
        [["report_id"; "bill_id"]]
  end.

(** A row lists its cells in the order of the table's columns; a table is
    the list of its rows in insertion order. *)
Definition row : Type := list value.
Definition tables : Type := table_name -> list row.

Definition empty_tables : tables := fun _ => [].

Definition set_table (tb : tables) (t : table_name) (rows : list row) : tables :=
  fun u => if table_eqb t u then rows else tb u.

Fixpoint col_index (cs : list column) (c : string) : option nat :=
  match cs with
  | [] => None
  | k :: cs' =>
      if String.eqb (cname k) c then Some O
      else option_map S (col_index cs' c)
  end.

(** [r.c]: the cell of column [c] in a row of table [t]. *)
Definition field (t : table_name) (r : row) (c : string) : value :=
  match col_index (columns (schema_of t)) c with
  | Some i => nth i r VNull
  | None => VNull
  end.

(** Cell [i] of the row becomes [v]; a row read as NULL beyond its end is
    written there all the same. *)
Fixpoint set_nth (i : nat) (v : value) (r : row) : row :=
  match i, r with
  | O, [] => [v]
  | O, _ :: r' => v :: r'
  | S j, [] => VNull :: set_nth j v []
  | S j, x :: r' => x :: set_nth j v r'
  end.

Definition set_field (t : table_name) (r : row) (c : string) (v : value) : row :=
  match col_index (columns (schema_of t)) c with
  | Some i => set_nth i v r
  | None => r
  end.

Fixpoint assoc (k : string) (l : list (string * value)) : option value :=
  match l with
  | [] => None
  | (k', v) :: l' => if String.eqb k' k then Some v else assoc k l'
  end.

(* ================================================================== *)
(** * 3. PostgreSQL statements *)
(* ================================================================== *)

Inductive sql_error : Type :=
| NotNullViolation (t : table_name) (c : string)
| UniqueViolation (t : table_name) (k : list string)
| ForeignKeyViolation (t : table_name) (c : string)
| InFailedTransaction        (* "current transaction is aborted" *)
| ServerFault (n : nat).     (* any other failure of statement number n *)

(** The cells of a new row: the listed parameters, [nextval] for a SERIAL
    column that is not listed, NULL for the rest. *)
Definition build_row (t : table_name) (names : list string) (vals : list value)
    (nextid : Z) : row :=
  map (fun c =>
         match assoc (cname c) (combine names vals) with
         | Some v => v
         | None => if cserial c then VInt nextid else VNull
         end)
      (columns (schema_of t)).

Definition has_serial (t : table_name) : bool :=
  existsb cserial (columns (schema_of t)).

Definition not_null_violation (t : table_name) (r : row) : option string :=
  option_map cname
    (find (fun c => cnotnull c && is_null (field t r (cname c)))
          (columns (schema_of t))).

(** Two rows collide on a unique key when they agree on every column of the
    key and none of these cells is NULL: PostgreSQL's unique indexes treat
    NULLs as distinct (the schema never says NULLS NOT DISTINCT). *)
Definition key_match (t : table_name) (k : list string) (r1 r2 : row) : bool :=
  forallb (fun c =>
             negb (is_null (field t r1 c)) && negb (is_null (field t r2 c))
             && value_eqb (field t r1 c) (field t r2 c)) k.

Definition conflicts (t : table_name) (keys : list (list string)) (new old : row)
    : bool :=
  existsb (fun k => key_match t k new old) keys.

Definition unique_violation (t : table_name) (new : row) (others : list row)
    : option (list string) :=
  find (fun k => existsb (key_match t k new) others) (uniques (schema_of t)).

Fixpoint split_conflict (p : row -> bool) (rows : list row)
    : option (list row * row * list row) :=
  match rows with
  | [] => None
  | r :: rs =>
      if p r then Some ([], r, rs)
      else match split_conflict p rs with
           | Some (a, x, b) => Some (r :: a, x, b)
           | None => None
           end
  end.

Definition references (tb : tables) (t2 : table_name) (c2 : string) (v : value)
    : bool :=
  existsb (fun r2 => value_eqb (field t2 r2 c2) v) (tb t2).

(** The first column among [cs] whose non-NULL cell has no referenced row. *)
Definition fk_violation (tb : tables) (t : table_name) (cs : list column) (r : row)
    : option string :=
  option_map cname
    (find (fun c =>
             match cref c with
             | Some (t2, c2) =>
                 negb (is_null (field t r (cname c)))
                 && negb (references tb t2 c2 (field t r (cname c)))
             | None => false
             end) cs).

(** [ON CONFLICT] clauses.  An assignment of [DO UPDATE SET] computes the
    new cell from the existing row and from the row proposed for insertion
    ([EXCLUDED]). *)
Inductive on_conflict : Type :=
| DoNothing (target : option (list string))
| DoUpdate (target : list string) (sets : list (string * (row -> row -> value))).

Definition apply_sets (t : table_name) (sets : list (string * (row -> row -> value)))
    (old excluded : row) : row :=
  fold_left (fun r cf => set_field t r (fst cf) (snd cf old excluded)) sets old.

(** The foreign keys an UPDATE re-checks: those whose cell changed. *)
Definition changed_columns (t : table_name) (old upd : row) : list column :=
  filter (fun c => negb (value_eqb (field t old (cname c)) (field t upd (cname c))))
         (columns (schema_of t)).

(** The unique indexes that arbitrate an [ON CONFLICT]: the one of the
    conflict target, or all of them when DO NOTHING names none. *)
Definition arbiters (t : table_name) (oc : on_conflict) : list (list string) :=
  match oc with
  | DoNothing None => uniques (schema_of t)
  | DoNothing (Some k) => [k]
  | DoUpdate k _ => [k]
  end.

Definition sequences : Type := table_name -> Z.

Definition bump (sq : sequences) (t : table_name) : sequences :=
  fun u => if table_eqb t u then sq u + 1 else sq u.

Definition stmt_result (A : Type) : Type := sequences * (sql_error + (tables * A)).

(** [INSERT INTO t (names) VALUES (vals) ON CONFLICT ... RETURNING id].
    The order is PostgreSQL's: defaults (the sequence advances even if the
    row is not inserted), NOT NULL, the arbiter index, the other unique
    indexes, then the foreign keys at the end of the statement.  The result
    lists the [id] of the row inserted or updated, and is empty after
    DO NOTHING on a conflict. *)
Definition exec_insert (t : table_name) (names : list string) (vals : list value)
    (oc : on_conflict) (tb : tables) (sq : sequences) : stmt_result (list value) :=
  let sq' := if has_serial t then bump sq t else sq in
  let new := build_row t names vals (sq t + 1) in
  match not_null_violation t new with
  | Some c => (sq', inl (NotNullViolation t c))
  | None =>
      match split_conflict (conflicts t (arbiters t oc) new) (tb t) with
      | Some (before, old, after) =>
          match oc with
          | DoNothing _ => (sq', inr (tb, []))
          | DoUpdate _ sets =>
              let upd := apply_sets t sets old new in
              match not_null_violation t upd with
              | Some c => (sq', inl (NotNullViolation t c))
              | None =>
                  match unique_violation t upd (before ++ after) with
                  | Some k => (sq', inl (UniqueViolation t k))
                  | None =>
                      let tb' := set_table tb t (before ++ upd :: after) in
                      match fk_violation tb' t (changed_columns t old upd) upd with
                      | Some c => (sq', inl (ForeignKeyViolation t c))
                      | None => (sq', inr (tb', [field t upd "id"]))
                      end
                  end
              end
          end
      | None =>
          match unique_violation t new (tb t) with
          | Some k => (sq', inl (UniqueViolation t k))
          | None =>
              let tb' := set_table tb t (tb t ++ [new]) in
              match fk_violation tb' t (columns (schema_of t)) new with
              | Some c => (sq', inl (ForeignKeyViolation t c))
              | None => (sq', inr (tb', [field t new "id"]))
              end
          end
      end
  end.

(** The assignments of an UPDATE, each computed from the row as it was. *)
Definition update_row (t : table_name) (sets : list (string * (row -> value)))
    (r : row) : row :=
  fold_left (fun x cf => set_field t x (fst cf) (snd cf r)) sets r.

(** [UPDATE t SET ... WHERE wh], row by row. *)
Fixpoint update_rows (t : table_name) (sets : list (string * (row -> value)))
    (wh : row -> bool) (before after : list row)
    : sql_error + list (row * row) * list row :=
  match after with
  | [] => inr ([], before)
  | r :: rest =>
      if wh r then
        let upd := update_row t sets r in
        match not_null_violation t upd with
        | Some c => inl (NotNullViolation t c)
        | None =>
            match unique_violation t upd (before ++ rest) with
            | Some k => inl (UniqueViolation t k)
            | None =>
                match update_rows t sets wh (before ++ [upd]) rest with
                | inl e => inl e
                | inr (ch, rows) => inr ((r, upd) :: ch, rows)
                end
            end
        end
      else update_rows t sets wh (before ++ [r]) rest
  end.

Fixpoint first_fk_violation (tb : tables) (t : table_name) (ch : list (row * row))
    : option string :=
  match ch with
  | [] => None
  | (old, upd) :: ch' =>
      match fk_violation tb t (changed_columns t old upd) upd with
      | Some c => Some c
      | None => first_fk_violation tb t ch'
      end
  end.

Definition exec_update (t : table_name) (sets : list (string * (row -> value)))
    (wh : row -> bool) (tb : tables) (sq : sequences) : stmt_result unit :=
  match update_rows t sets wh [] (tb t) with
  | inl e => (sq, inl e)
  | inr (ch, rows) =>
      let tb' := set_table tb t rows in
      match first_fk_violation tb' t ch with
      | Some c => (sq, inl (ForeignKeyViolation t c))
      | None => (sq, inr (tb', tt))
      end
  end.

(** [SELECT ... FROM t WHERE wh]. *)
Definition exec_select (t : table_name) (wh : row -> bool) (tb : tables)
    (sq : sequences) : stmt_result (list row) :=
  (sq, inr (tb, filter wh (tb t))).

(* ================================================================== *)
(** * 4. The connection, and JavaScript exceptions around it *)
(* ================================================================== *)

Inductive js_error : Type :=
| SqlError (e : sql_error)     (* client.query rejected *)
| FetchError                   (* fetch or response.json() rejected *)
| TypeError                    (* property access on undefined *)
| RangeError.                  (* maximum call stack size exceeded *)

Inductive outcome (A : Type) : Type :=
| Ret (a : A)
| Throw (e : js_error).
Arguments Ret {A} a.
Arguments Throw {A} e.

Inductive txn_end : Type := Committed | RolledBack.

Record session : Type := mksession {
  tbl : tables;                (* the rows the connection sees *)
  snap : option tables;        (* the rows at BEGIN, while a transaction is open *)
  failed : bool;               (* the open transaction is aborted *)
  seqs : sequences;            (* sequences are not transactional *)
  nstmt : nat;                 (* statements sent so far *)
  errlog : list sql_error;     (* errors raised by the server, latest first *)
  history : list txn_end       (* how the transactions ended, latest first *)
}.

Definition M (A : Type) : Type := session -> outcome A * session.

Definition ret {A} (a : A) : M A := fun s => (Ret a, s).

Definition bind {A B} (m : M A) (f : A -> M B) : M B :=
  fun s => match m s with
           | (Ret a, s') => f a s'
           | (Throw e, s') => (Throw e, s')
           end.

Definition throw {A} (e : js_error) : M A := fun s => (Throw e, s).

(** [try { m } catch (error) { h error }] *)
Definition try_catch {A} (m : M A) (h : js_error -> M A) : M A :=
  fun s => match m s with
           | (Ret a, s') => (Ret a, s')
           | (Throw e, s') => h e s'
           end.

Declare Scope js_scope.
Delimit Scope js_scope with js.
Notation "x <- m ;; k" := (bind m (fun x => k))
  (at level 100, m at next level, right associativity) : js_scope.
Notation "m ;; k" := (bind m (fun _ => k))
  (at level 100, right associativity) : js_scope.
Open Scope js_scope.

(** [for (const x of l) { f x }] *)
Fixpoint for_of {A} (l : list A) (f : A -> M unit) : M unit :=
  match l with
  | [] => ret tt
  | x :: l' => f x ;; for_of l' f
  end.

Definition when (b : bool) (m : M unit) : M unit := if b then m else ret tt.

(** [res.rows[0].id]: a TypeError when no row came back. *)
Definition first_id (ids : list value) : M value :=
  match ids with
  | id :: _ => ret id
  | [] => throw TypeError
  end.

(* ================================================================== *)
(** * 5. The JSON payloads of the API *)
(* ================================================================== *)

(** One record per kind of object the scripts read, with the property names
    of the API.  A scalar the code only passes on to a query is a [value];
    a string the code tests or computes with is an [option string]; an array
    the code guards with [Array.isArray] or a truthiness test is an
    [option (list _)]. *)

Module Activity.
Record t : Type := mk { name : value; date : value }.
End Activity.

Module Committee.
Record t : Type := mk {
  systemCode : option string;
  name : option string;
  chamber : option string;
  committeeTypeCode : value;
  url : option string;
  parent : option (option string);      (* committee.parent, then its systemCode *)
  activities : option (list Activity.t)
}.
End Committee.

Module Action.
Record t : Type := mk {
  actionDate : value;
  text : value;
  type : value;
  actionCode : value;
  sourceSystem_name : value;            (* action.sourceSystem?.name *)
  committees : option (list Committee.t)
}.
End Action.

Module Sponsor.
Record t : Type := mk { bioguideId : option string; isByRequest : value }.
End Sponsor.

Module Cosponsor.
Record t : Type := mk {
  bioguideId : option string;
  sponsorshipDate : value;
  isOriginalCosponsor : value;
  sponsorshipWithdrawnDate : value
}.
End Cosponsor.

Module Address.
Record t : Type := mk {
  officeAddress : value; city : value; district : value;
  zipCode : value; phoneNumber : value
}.
End Address.

Module Party.
Record t : Type := mk {
  partyName : value; partyAbbreviation : value; startYear : value
}.
End Party.

Module Term.
Record t : Type := mk {
  congress : value; chamber : value; memberType : value; stateCode : value;
  stateName : value; district : value; startYear : value; endYear : value
}.
End Term.

Module Role.
Record t : Type := mk { congress : value; type : value; current : value }.
End Role.

Module Member.
Record t : Type := mk {
  bioguideId : option string;
  directOrderName : value; invertedOrderName : value;
  firstName : value; middleName : value; lastName : value; suffixName : value;
  nickName : value; honorificName : value; birthYear : value; deathYear : value;
  officialWebsiteUrl : value;
  depiction_imageUrl : value;           (* member.depiction?.imageUrl *)
  depiction_attribution : value;        (* member.depiction?.attribution *)
  currentMember : value; updateDate : value;
  addressInformation : option Address.t;
  partyHistory : option (list Party.t);
  terms : option (list Term.t);
  leadership : option (list Role.t)
}.
End Member.

Module AssociatedBill.
Record t : Type := mk { congress : value; type : value; number : value }.
End AssociatedBill.

Module Report.
Record t : Type := mk {
  congress : value; chamber : value; type : value; number : value; part : value;
  citation : value; title : value; issueDate : value;
  isConferenceReport : value; updateDate : value;
  associatedBill : option (list AssociatedBill.t)
}.
End Report.

Module ReportStub.
Record t : Type := mk { url : option string; citation : value }.
End ReportStub.

Module Relationship.
Record t : Type := mk { type : value; identifiedBy : value }.
End Relationship.

Module RelatedBill.
Record t : Type := mk {
  congress : value; type : value; number : value; title : value;
  relationshipDetails : option (list Relationship.t)
}.
End RelatedBill.

Module Summary.
Record t : Type := mk {
  versionCode : value; actionDesc : value; actionDate : value;
  text : value; updateDate : value
}.
End Summary.

Module Subjects.
Record t : Type := mk { legislativeSubjects : option (list value) }.  (* subject.name *)
End Subjects.

Module Title.
Record t : Type := mk {
  titleType : value; title : value; chamberCode : value; chamberName : value
}.
End Title.

Module Format.
Record t : Type := mk { url : value; type : value }.
End Format.

Module TextVersion.
Record t : Type := mk { type : value; date : value; formats : option (list Format.t) }.
End TextVersion.

Module Cbo.
Record t : Type := mk { url : value; title : value; description : value; pubDate : value }.
End Cbo.

Module Bill.
Record t : Type := mk {
  congress : value; type : value; number : value;
  originChamber : value; title : value; introducedDate : value;
  policyArea_name : value;              (* bill.policyArea?.name *)
  sponsors : option (list Sponsor.t);
  constitutionalAuthorityStatementText : value;
  updateDate : value; updateDateIncludingText : value;
  actions_url : option string;          (* bill.actions?.url, and so on *)
  committees_url : option string;
  cosponsors_url : option string;
  committeeReports : option (list ReportStub.t);
  relatedBills_url : option string;
  summaries_url : option string;
  subjects_url : option string;
  titles_url : option string;
  textVersions_url : option string;
  cboCostEstimates : option (list Cbo.t)
}.
End Bill.

(** What [fetch] gives: a rejection (transport error, or a body that is not
    JSON), a response that is not [ok], or the decoded body of an [ok] one. *)
Inductive response (A : Type) : Type :=
| HttpFailure
| HttpError (status : Z)
| HttpOk (body : A).
Arguments HttpFailure {A}.
Arguments HttpError {A} status.
Arguments HttpOk {A} body.

(** The upstream API as the bill script sees it during one batch write.
    [fetchPaginatedSubEndpoint] neither throws nor touches the connection:
    each of its failure paths returns the items gathered so far, so its
    result on a URL is read here from [list_*].  (It retries a 429 forever;
    the batch write is studied on the runs where it returns.) *)
Record upstream : Type := mkupstream {
  get_member : string -> response (option Member.t);    (* /member/{id}: body.member *)
  get_report : string -> response (option Report.t);    (* reportStub.url: body.committeeReport *)
  list_actions : string -> list Action.t;
  list_committees : string -> list Committee.t;
  list_cosponsors : string -> list Cosponsor.t;
  list_relatedBills : string -> list RelatedBill.t;
  list_summaries : string -> list Summary.t;
  list_subjects : string -> list Subjects.t;
  list_titles : string -> list Title.t;
  list_textVersions : string -> list TextVersion.t
}.

(* ================================================================== *)
(** * 6. String helpers of JavaScript *)
(* ================================================================== *)

Definition lower_ascii (c : ascii) : ascii :=
  let n := nat_of_ascii c in
  if (Nat.leb 65 n && Nat.leb n 90)%bool then ascii_of_nat (n + 32) else c.

(** [s.toLowerCase()], on the ASCII letters. *)
Fixpoint toLowerCase (s : string) : string :=
  match s with
  | EmptyString => EmptyString
  | String c s' => String (lower_ascii c) (toLowerCase s')
  end.

Definition startsWith (s pat : string) : bool := String.prefix pat s.

Fixpoint includes (s pat : string) : bool :=
  String.prefix pat s ||
  match s with
  | EmptyString => false
  | String _ s' => includes s' pat
  end.

(** [[...new Set(l)]]: the first occurrence of each element, in order. *)
Fixpoint dedup (l : list string) : list string :=
  match l with
  | [] => []
  | x :: l' => x :: filter (fun y => negb (String.eqb x y)) (dedup l')
  end.

(** [l.filter(id => id)] on optional strings. *)
Fixpoint filter_truthy (l : list (option string)) : list string :=
  match l with
  | [] => []
  | o :: l' => if truthy_str o then
                 match o with Some s => s :: filter_truthy l' | None => filter_truthy l' end
               else filter_truthy l'
  end.

Definition mem (x : string) (l : list string) : bool := existsb (String.eqb x) l.

(** The text cells of a result column: [rows.map(r => r.c)]. *)
Fixpoint texts (l : list value) : list string :=
  match l with
  | [] => []
  | VText s :: l' => s :: texts l'
  | _ :: l' => texts l'
  end.

(* ================================================================== *)
(** * 7. client.query *)
(* ================================================================== *)

Section Connection.

(** [fault n] tells whether statement number [n] fails for a reason the
    tables do not explain (bad parameter syntax, lost connection, ...). *)
Variable fault : nat -> bool.

(** The server raises [e]: the promise of [client.query] rejects, and an
    open transaction becomes aborted. *)
Definition raise {A} (e : sql_error) (sq : sequences) : M A :=
  fun s =>
    (Throw (SqlError e),
     mksession (tbl s) (snap s)
               (match snap s with Some _ => true | None => false end)
               sq (S (nstmt s)) (e :: errlog s) (history s)).

Definition client_query {A} (q : tables -> sequences -> stmt_result A) : M A :=
  fun s =>
    if failed s then raise InFailedTransaction (seqs s) s
    else if fault (nstmt s) then raise (ServerFault (nstmt s)) (seqs s) s
    else match q (tbl s) (seqs s) with
         | (sq, inl e) => raise e sq s
         | (sq, inr (tb, a)) =>
             (Ret a,
              mksession tb (snap s) false sq (S (nstmt s)) (errlog s) (history s))
         end.

(** [client.query('BEGIN')] *)
Definition BEGIN : M unit :=
  fun s =>
    if fault (nstmt s) then raise (ServerFault (nstmt s)) (seqs s) s
    else match snap s with
         | Some _ =>  (* already in a transaction: a warning, nothing else *)
             (Ret tt, mksession (tbl s) (snap s) (failed s) (seqs s)
                                (S (nstmt s)) (errlog s) (history s))
         | None =>
             (Ret tt, mksession (tbl s) (Some (tbl s)) false (seqs s)
                                (S (nstmt s)) (errlog s) (history s))
         end.

(** [client.query('COMMIT')].  On an aborted transaction PostgreSQL answers
    COMMIT with a rollback and reports no error. *)
Definition COMMIT : M unit :=
  fun s =>
    match snap s with
    | None =>
        (Ret tt, mksession (tbl s) None false (seqs s)
                           (S (nstmt s)) (errlog s) (history s))
    | Some t0 =>
        if failed s then
          (Ret tt, mksession t0 None false (seqs s)
                             (S (nstmt s)) (errlog s) (RolledBack :: history s))
        else if fault (nstmt s) then raise (ServerFault (nstmt s)) (seqs s) s
        else
          (Ret tt, mksession (tbl s) None false (seqs s)
                             (S (nstmt s)) (errlog s) (Committed :: history s))
    end.

(** [client.query('ROLLBACK')], taken to succeed: when the connection is
    lost the server rolls the transaction back on its own. *)
Definition ROLLBACK : M unit :=
  fun s =>
    match snap s with
    | None =>
        (Ret tt, mksession (tbl s) None false (seqs s)
                           (S (nstmt s)) (errlog s) (history s))
    | Some t0 =>
        (Ret tt, mksession t0 None false (seqs s)
                           (S (nstmt s)) (errlog s) (RolledBack :: history s))
    end.

Definition insert_ (t : table_name) (names : list string) (vals : list value)
    (oc : on_conflict) : M unit :=
  client_query (exec_insert t names vals oc) ;; ret tt.

Definition insert_returning (t : table_name) (names : list string)
    (vals : list value) (oc : on_conflict) : M (list value) :=
  client_query (exec_insert t names vals oc).

End Connection.

(** [c = EXCLUDED.c] *)
Definition excluded (t : table_name) (c : string) : string * (row -> row -> value) :=
  (c, fun _ ex => field t ex c).

(** [COALESCE(a, b)] *)
Definition coalesce (a b : value) : value := if is_null a then b else a.

(** A connection fresh from the pool, on given tables. *)
Definition connect (tb : tables) : session :=
  mksession tb None false (fun _ => 0) O [] [].

(* ================================================================== *)
(** * 8. What the batch loops of the scripts share *)
(* ================================================================== *)

Inductive event : Type :=
| FanOut (urls : list string)       (* Promise.all over the batch *)
| Sleep (ms : Z).

(** What one detail fetch resolves to. *)
Inductive detail (A : Type) : Type :=
| RATE_LIMIT
| Null
| Fetched (x : option A).            (* the [bill] key of the body, maybe undefined *)
Arguments RATE_LIMIT {A}.
Arguments Null {A}.
Arguments Fetched {A} x.

Definition detail_of {A} (r : response (option A)) : detail A :=
  match r with
  | HttpFailure => Null
  | HttpError status => if Z.eqb status 429 then RATE_LIMIT else Null
  | HttpOk body => Fetched body
  end.

Definition is_rate_limit {A} (d : detail A) : bool :=
  match d with RATE_LIMIT => true | _ => false end.

(** [l.slice(i, j)] *)
Definition slice {A} (l : list A) (i j : Z) : list A :=
  let len := Z.of_nat (List.length l) in
  let clamp k := if k <? 0 then Z.max (len + k) 0 else Z.min k len in
  let a := clamp i in
  let b := clamp j in
  firstn (Z.to_nat (b - a)) (skipn (Z.to_nat a) l).

Record world : Type := mkworld {
  sess : session;
  trace : list event;               (* latest first *)
  round : nat                       (* fan-outs issued so far *)
}.

(* ================================================================== *)
(** * 9. The bill script (billDataPopulation.js) *)
(* ================================================================== *)

Module BillScript.

Definition BATCH_SIZE : Z := 15.

(** [inferChamber(committee)].  The function calls itself, on the same
    argument, inside the log message of its last branch; [stack] counts the
    frames left, and [None] is the RangeError of an exhausted stack. *)
Fixpoint inferChamber (stack : nat) (committee : Committee.t) : option string :=
  match stack with
  | O => None
  | S stack' =>
      if truthy_str (Committee.chamber committee) then Committee.chamber committee
      else
        let systemCode :=
          match Committee.systemCode committee with
          | Some s => toLowerCase s      (* "" || "" is "" *)
          | None => ""
          end in
        let name :=
          match Committee.name committee with
          | Some s => toLowerCase s
          | None => ""
          end in
        if startsWith systemCode "s" || startsWith systemCode "ss" then Some "Senate"
        else if startsWith systemCode "h" || startsWith systemCode "hs" then Some "House"
        else if includes systemCode "jt" || includes name "joint" then Some "Joint"
        else if includes name "senate" || includes name "foreign relations"
             then Some "Senate"
        else if includes name "house" || includes name "representatives"
             then Some "House"
        else if negb (truthy_str (Committee.chamber committee)) then
          (* console.log(`Chamber inferred as '${inferChamber(committee)}' ...`) *)
          match inferChamber stack' committee with
          | None => None
          | Some _ => Some "Unknown"
          end
        else Some "Unknown"
  end.

Section Script.

Variable fault : nat -> bool.
Variable up : upstream.
Variable now : Z.              (* NOW(): the start time of the transaction *)
Variable stack_limit : nat.    (* frames left on the call stack *)

Local Abbreviation query := (client_query fault).
Local Abbreviation insert := (insert_ fault).

(** The CASE of the committee upsert: the stored chamber is replaced only
    while it is 'Unknown'. *)
Definition chamber_case (old ex : row) : value :=
  if value_eqb (field committees old "chamber") (VText "Unknown")
  then field committees ex "chamber"
  else field committees old "chamber".

Definition ensureCommitteeExists (committee : Committee.t) : M unit :=
  if negb (truthy_str (Committee.systemCode committee)) then ret tt
  else
    try_catch
      (match inferChamber stack_limit committee with
       | None => throw RangeError
       | Some chamber =>
           insert committees ["system_code"; "name"; "chamber"]
             [vtext (Committee.systemCode committee);
              js_or (vtext (Committee.name committee)) (VText "Unknown Committee");
              VText chamber]
             (DoUpdate ["system_code"]
                [("name", fun old ex =>
                            coalesce (field committees ex "name")
                                     (field committees old "name"));
                 ("chamber", chamber_case)])
       end)
      (fun _ => ret tt).      (* console.error, nothing is rethrown *)

(** The stub of a member fetched from [/member/{id}]. *)
Definition insert_member_stub (member : Member.t) : M unit :=
  insert members
    ["bioguide_id"; "first_name"; "last_name"; "is_current_member"; "updated_at"]
    [vtext (Member.bioguideId member);
     js_or (Member.firstName member) (VText "Unknown");
     js_or (Member.lastName member) (VText "Unknown");
     Member.currentMember member;
     Member.updateDate member]
    (DoNothing None).

Definition fetch_missing_member (id : string) : M unit :=
  match get_member up id with
  | HttpFailure => throw FetchError
  | HttpError _ => ret tt                       (* !res.ok: nothing is inserted *)
  | HttpOk None => ret tt
  | HttpOk (Some member) => insert_member_stub member
  end.

(** [SELECT bioguide_id FROM members WHERE bioguide_id = ANY($1)], then the
    ids of the list that did not come back. *)
Definition missing_members (ids : list string) : M (list string) :=
  rows <- query (exec_select members
                   (fun r => existsb (fun id => value_eqb (field members r "bioguide_id")
                                                           (VText id)) ids)) ;;
  let existing := texts (map (fun r => field members r "bioguide_id") rows) in
  ret (filter (fun id => negb (mem id existing)) ids).

(** [b.sponsors?.[0]?.bioguideId] *)
Definition sponsor0 (b : Bill.t) : option string :=
  match Bill.sponsors b with
  | Some (sp :: _) => Sponsor.bioguideId sp
  | _ => None
  end.

Definition sponsor0_isByRequest (b : Bill.t) : value :=
  match Bill.sponsors b with
  | Some (sp :: _) => Sponsor.isByRequest sp
  | _ => VNull
  end.

Definition ensure_sponsors (batch : list Bill.t) : M unit :=
  let sponsorIds := dedup (filter_truthy (map sponsor0 batch)) in
  match sponsorIds with
  | [] => ret tt
  | _ =>
      missingSponsorIds <- missing_members sponsorIds ;;
      for_of missingSponsorIds fetch_missing_member
  end.

Definition bill_columns : list string :=
  ["congress"; "type"; "number"; "origin_chamber"; "title"; "introduced_date";
   "policy_area_name"; "sponsor_bioguide_id"; "is_by_request";
   "constitutional_authority_statement_text"; "updated_at";
   "updated_at_including_text"; "last_processed_at"].

(** The [values] of the bill upsert; the thirteenth is NOW(). *)
Definition bill_values (bill : Bill.t) : list value :=
  let sponsorId := vtext (sponsor0 bill) in
  [Bill.congress bill; Bill.type bill; Bill.number bill; Bill.originChamber bill;
   js_or (Bill.title bill) (VText "Untitled Bill");
   Bill.introducedDate bill; Bill.policyArea_name bill; sponsorId;
   VBool (value_eqb (sponsor0_isByRequest bill) (VText "Y"));
   Bill.constitutionalAuthorityStatementText bill;
   Bill.updateDate bill; Bill.updateDateIncludingText bill;
   VTime now].

(** Its [DO UPDATE SET] list. *)
Definition bill_sets : list (string * (row -> row -> value)) :=
  [excluded bills "origin_chamber"; excluded bills "title";
   excluded bills "introduced_date"; excluded bills "policy_area_name";
   excluded bills "sponsor_bioguide_id"; excluded bills "is_by_request";
   excluded bills "constitutional_authority_statement_text";
   excluded bills "updated_at"; excluded bills "updated_at_including_text";
   ("last_processed_at", fun _ _ => VTime now)].

(** 1. Upsert core bill info and get its ID. *)
Definition upsert_bill (bill : Bill.t) : M value :=
  billRes <- insert_returning fault bills bill_columns (bill_values bill)
               (DoUpdate ["congress"; "type"; "number"] bill_sets) ;;
  first_id billRes.

Definition save_actions (billId : value) (url : string) : M unit :=
  for_of (list_actions up url) (fun action =>
    actionRes <- insert_returning fault bill_actions
      ["bill_id"; "action_date"; "text"; "type"; "action_code"; "source_system_name"]
      [billId; Action.actionDate action;
       js_or (Action.text action) (VText "No description");
       Action.type action; Action.actionCode action; Action.sourceSystem_name action]
      (DoUpdate ["bill_id"; "action_date"; "text"] [excluded bill_actions "type"]) ;;
    match actionRes with
    | [] => ret tt
    | actionId :: _ =>
        match Action.committees action with
        | None => ret tt
        | Some cs =>
            for_of cs (fun committee =>
              ensureCommitteeExists committee ;;
              when (truthy_str (Committee.systemCode committee))
                (insert bill_action_committees ["action_id"; "committee_system_code"]
                   [actionId; vtext (Committee.systemCode committee)]
                   (DoNothing None)))
        end
    end).

Definition save_committees (billId : value) (url : string) : M unit :=
  for_of (list_committees up url) (fun committee =>
    ensureCommitteeExists committee ;;
    match Committee.activities committee with
    | None => ret tt
    | Some acts =>
        for_of acts (fun activity =>
          insert bill_committees
            ["bill_id"; "committee_system_code"; "activity_name"; "activity_date"]
            [billId; vtext (Committee.systemCode committee);
             Activity.name activity; Activity.date activity]
            (DoNothing (Some ["bill_id"; "committee_system_code"; "activity_name";
                              "activity_date"])))
    end).

Definition save_cosponsors (billId : value) (url : string) : M unit :=
  let cosponsors := list_cosponsors up url in
  let cosponsorIds := filter_truthy (map Cosponsor.bioguideId cosponsors) in
  match cosponsorIds with
  | [] => ret tt
  | _ =>
      missingCosponsorIds <- missing_members cosponsorIds ;;
      for_of missingCosponsorIds fetch_missing_member
  end ;;
  for_of cosponsors (fun cosponsor =>
    when (truthy_str (Cosponsor.bioguideId cosponsor))
      (insert bill_cosponsors
         ["bill_id"; "member_bioguide_id"; "sponsorship_date";
          "is_original_cosponsor"; "sponsorship_withdrawn_date"]
         [billId; vtext (Cosponsor.bioguideId cosponsor);
          Cosponsor.sponsorshipDate cosponsor;
          Cosponsor.isOriginalCosponsor cosponsor;
          Cosponsor.sponsorshipWithdrawnDate cosponsor]
         (DoNothing None))).

Definition report_columns : list string :=
  ["congress"; "chamber"; "type"; "number"; "part"; "citation"; "title";
   "issue_date"; "is_conference_report"; "updated_at"].

Definition save_reports (billId : value) (stubs : list ReportStub.t) : M unit :=
  for_of stubs (fun reportStub =>
    match ReportStub.url reportStub with
    | None => ret tt
    | Some url =>
        if String.eqb url "" then ret tt
        else match get_report up url with
             | HttpFailure => throw FetchError
             | HttpError _ => ret tt
             | HttpOk None => ret tt
             | HttpOk (Some committeeReport) =>
                 reportRes <- insert_returning fault committee_reports report_columns
                   [Report.congress committeeReport;
                    js_or (Report.chamber committeeReport) (VText "Unknown");
                    Report.type committeeReport; Report.number committeeReport;
                    Report.part committeeReport; Report.citation committeeReport;
                    js_or (Report.title committeeReport) (VText "Untitled Report");
                    Report.issueDate committeeReport;
                    Report.isConferenceReport committeeReport;
                    Report.updateDate committeeReport]
                   (DoUpdate ["citation"]
                      [excluded committee_reports "congress";
                       excluded committee_reports "chamber";
                       excluded committee_reports "type";
                       excluded committee_reports "number";
                       excluded committee_reports "part";
                       excluded committee_reports "title";
                       excluded committee_reports "issue_date";
                       excluded committee_reports "is_conference_report";
                       excluded committee_reports "updated_at"]) ;;
                 reportId <- first_id reportRes ;;
                 insert report_associated_bills ["bill_id"; "report_id"]
                   [billId; reportId] (DoNothing None)
             end
    end).

Definition save_relatedBills (billId : value) (url : string) : M unit :=
  for_of (list_relatedBills up url) (fun relatedBill =>
    relatedBillRes <- insert_returning fault bills ["congress"; "type"; "number"; "title"]
      [RelatedBill.congress relatedBill; RelatedBill.type relatedBill;
       RelatedBill.number relatedBill;
       js_or (RelatedBill.title relatedBill) (VText "Untitled Bill")]
      (DoUpdate ["congress"; "type"; "number"] [excluded bills "title"]) ;;
    relatedBillId <- first_id relatedBillRes ;;
    match RelatedBill.relationshipDetails relatedBill with
    | None => ret tt
    | Some rels =>
        for_of rels (fun relationship =>
          insert related_bills
            ["bill_id"; "related_bill_id"; "relationship_type"; "identified_by"]
            [billId; relatedBillId; Relationship.type relationship;
             Relationship.identifiedBy relationship]
            (DoNothing None))
    end).

Definition save_summaries (billId : value) (url : string) : M unit :=
  for_of (list_summaries up url) (fun summary =>
    insert bill_summaries
      ["bill_id"; "version_code"; "action_description"; "action_date"; "text";
       "updated_at"]
      [billId; Summary.versionCode summary; Summary.actionDesc summary;
       Summary.actionDate summary; Summary.text summary; Summary.updateDate summary]
      (DoNothing (Some ["bill_id"; "version_code"; "action_date"]))).

Definition save_subjects (billId : value) (url : string) : M unit :=
  match list_subjects up url with
  | [] => ret tt
  | first :: _ =>
      match Subjects.legislativeSubjects first with
      | None => ret tt
      | Some subjects =>
          for_of subjects (fun subject_name =>
            insert bill_subjects ["bill_id"; "name"] [billId; subject_name]
              (DoNothing (Some ["bill_id"; "name"])))
      end
  end.

Definition save_titles (billId : value) (url : string) : M unit :=
  for_of (list_titles up url) (fun title =>
    insert bill_titles
      ["bill_id"; "title_type"; "title"; "chamber_code"; "chamber_name"]
      [billId; Title.titleType title; Title.title title; Title.chamberCode title;
       Title.chamberName title]
      (DoNothing (Some ["bill_id"; "title_type"; "title"]))).

Definition save_textVersions (billId : value) (url : string) : M unit :=
  for_of (list_textVersions up url) (fun text =>
    match TextVersion.formats text with
    | None => ret tt
    | Some formats =>
        for_of formats (fun format =>
          insert bill_text_versions ["bill_id"; "type"; "date"; "url"; "format"]
            [billId; TextVersion.type text; TextVersion.date text;
             Format.url format; Format.type format]
            (DoNothing (Some ["bill_id"; "type"; "format"])))
    end).

Definition save_cboCostEstimates (billId : value) (cbos : list Cbo.t) : M unit :=
  for_of cbos (fun cbo =>
    insert cbo_cost_estimates
      ["bill_id"; "url"; "title"; "description"; "publication_date"]
      [billId; Cbo.url cbo; Cbo.title cbo; Cbo.description cbo; Cbo.pubDate cbo]
      (DoUpdate ["url"] [excluded cbo_cost_estimates "title"])).

(** [if (bill.x?.url) { ... fetchPaginatedSubEndpoint(bill.x.url) ... }] *)
Definition with_url (o : option string) (k : string -> M unit) : M unit :=
  match o with
  | Some url => if String.eqb url "" then ret tt else k url
  | None => ret tt
  end.

Definition with_list {A} (o : option (list A)) (k : list A -> M unit) : M unit :=
  match o with
  | Some l => k l
  | None => ret tt
  end.

(** 2. Process related data from sub-endpoints (and the inline arrays). *)
Definition save_related_data (bill : Bill.t) (billId : value) : M unit :=
  with_url (Bill.actions_url bill) (save_actions billId) ;;
  with_url (Bill.committees_url bill) (save_committees billId) ;;
  with_url (Bill.cosponsors_url bill) (save_cosponsors billId) ;;
  with_list (Bill.committeeReports bill) (save_reports billId) ;;
  with_url (Bill.relatedBills_url bill) (save_relatedBills billId) ;;
  with_url (Bill.summaries_url bill) (save_summaries billId) ;;
  with_url (Bill.subjects_url bill) (save_subjects billId) ;;
  with_url (Bill.titles_url bill) (save_titles billId) ;;
  with_url (Bill.textVersions_url bill) (save_textVersions billId) ;;
  with_list (Bill.cboCostEstimates bill) (save_cboCostEstimates billId).

(** The body of [for (const bill of billDataBatch)]. *)
Definition save_bill (bill : Bill.t) : M unit :=
  billId <- upsert_bill bill ;;
  save_related_data bill billId.

(** The elements of the batch, or [None] when one of them is [undefined]
    (an ok response without a [bill] key passes the [!== null] filter of
    [main]); reading [b.sponsors] on it is a TypeError. *)
Fixpoint defined_bills (l : list (option Bill.t)) : option (list Bill.t) :=
  match l with
  | [] => Some []
  | Some b :: l' => option_map (cons b) (defined_bills l')
  | None :: _ => None
  end.

(** What runs between BEGIN and COMMIT. *)
Definition batch_body (billDataBatch : list (option Bill.t)) : M unit :=
  match defined_bills billDataBatch with
  | None => throw TypeError
  | Some batch =>
      ensure_sponsors batch ;;
      for_of batch save_bill
  end.

Definition saveBillBatchToDb (billDataBatch : list (option Bill.t)) : M unit :=
  match billDataBatch with
  | [] => ret tt
  | _ =>
      try_catch
        (BEGIN fault ;;
         batch_body billDataBatch ;;
         COMMIT fault)
        (fun _ => ROLLBACK)
  end.


End Script.

(** ** The staleness planner *)

(** [`${v}`] for the cells the planner prints: integers in decimal, text as
    it is.  (A Date would print as a date string; the key columns hold
    none.) *)
Definition show_Z (z : Z) : string := NilZero.string_of_int (Z.to_int z).

Definition template (v : value) : string :=
  match v with
  | VNull => "null"
  | VInt z => show_Z z
  | VText s => s
  | VBool true => "true"
  | VBool false => "false"
  | VTime ms => show_Z ms
  end.

(** An item of the bill listing. *)
Module Listed.
Record t : Type := mk { congress : Z; type : string; number : Z; url : string }.
End Listed.

(** [`${c}-${t}-${n}`] *)
Definition bill_key (congress type number : string) : string :=
  congress ++ "-" ++ type ++ "-" ++ number.

(** [new Map(entries)] and [map.get(k)]: a later entry for a key replaces an
    earlier one. *)
Fixpoint map_get (k : string) (entries : list (string * value)) : option value :=
  match entries with
  | [] => None
  | (k', v) :: rest =>
      match map_get k rest with
      | Some v' => Some v'
      | None => if String.eqb k' k then Some v else None
      end
  end.

Definition SEVEN_DAYS : Z := 7 * 24 * 60 * 60 * 1000.

(** [lastProcessed && new Date(lastProcessed) > sevenDaysAgo]: the driver
    hands a TIMESTAMPTZ cell over as a Date or as null. *)
Definition recently_processed (lastProcessed : option value) (sevenDaysAgo : Z) : bool :=
  match lastProcessed with
  | Some (VTime ms) => Z.ltb sevenDaysAgo ms
  | Some _ => false                   (* null, the only other cell of the column *)
  | None => false
  end.

Section Planner.

Variable fault : nat -> bool.
Variable API_KEY : string.

(** The page read at clock [Date.now()]: its [bills] array, if any. *)
Definition listing_page : Type := Z * response (option (list Listed.t)).

(** [SELECT congress, type, number, last_processed_at FROM bills
     WHERE (congress, type, number) IN (identifiers)] *)
Definition select_listed (apiBills : list Listed.t) : M (list row) :=
  client_query fault
    (exec_select bills (fun r =>
       existsb (fun b =>
                  value_eqb (field bills r "congress") (VInt (Listed.congress b))
                  && value_eqb (field bills r "type") (VText (Listed.type b))
                  && value_eqb (field bills r "number") (VInt (Listed.number b)))
               apiBills)).

Definition dbBillMap_of (rows : list row) : list (string * value) :=
  map (fun r => (bill_key (template (field bills r "congress"))
                          (template (field bills r "type"))
                          (template (field bills r "number")),
                 field bills r "last_processed_at")) rows.

(** The [for (const apiBill of apiBills)] of one page. *)
Definition filter_page (dbBillMap : list (string * value)) (sevenDaysAgo : Z)
    (apiBills : list Listed.t) : list string :=
  map (fun apiBill => Listed.url apiBill ++ "&api_key=" ++ API_KEY)
      (filter (fun apiBill =>
                 let key := bill_key (show_Z (Listed.congress apiBill))
                                     (Listed.type apiBill)
                                     (show_Z (Listed.number apiBill)) in
                 negb (recently_processed (map_get key dbBillMap) sevenDaysAgo))
              apiBills).

(** The [while (nextUrl)] loop with its try/catch: the pages the cursor
    chain yields are listed in order; a page that is not ok, or a failing
    query, ends the walk with the URLs gathered so far. *)
Fixpoint walk_pages (pages : list listing_page) (billUrlsToProcess : list string)
    : session -> list string * session :=
  match pages with
  | [] => fun s => (billUrlsToProcess, s)
  | (date_now, HttpOk data) :: rest =>
      match data with
      | Some (b :: bs) =>
          let apiBills := b :: bs in
          fun s =>
            match select_listed apiBills s with
            | (Ret rows, s') =>
                let dbBillMap := dbBillMap_of rows in
                let sevenDaysAgo := date_now - SEVEN_DAYS in
                walk_pages rest
                  (billUrlsToProcess ++ filter_page dbBillMap sevenDaysAgo apiBills) s'
            | (Throw _, s') => (billUrlsToProcess, s')
            end
      | _ => walk_pages rest billUrlsToProcess
      end
  | (_, _) :: _ => fun s => (billUrlsToProcess, s)
  end.

Definition fetchAndFilterBillUrls (CONGRESS_TO_FETCH : option string)
    (pages : list listing_page) : session -> list string * session :=
  if negb (truthy_str CONGRESS_TO_FETCH) then fun s => ([], s)
  else walk_pages pages [].

End Planner.

(** ** The batch loop of main *)

Section Main.

Variable fault : nat -> bool.
Variable now : nat -> Z.
Variable stack_limit : nat.
(** The API at each fan-out: the detail endpoint, and what the batch write
    of that round reads. *)
Variable get_bill : nat -> string -> response (option Bill.t).
Variable up : nat -> upstream.

(** [results.filter(bill => bill !== null)] *)
Fixpoint not_null {A} (results : list (detail A)) : list (option A) :=
  match results with
  | [] => []
  | Fetched x :: rest => x :: not_null rest
  | _ :: rest => not_null rest
  end.

(** One turn of [for (let i = 0; i < billUrls.length; i += BATCH_SIZE)]:
    the body, then the increment.  The result is the next [i]. *)
Definition main_iteration (billUrls : list string) (i : Z) (w : world) : Z * world :=
  let batchUrls := slice billUrls i (i + BATCH_SIZE) in
  let results := map (fun url => detail_of (get_bill (round w) url)) batchUrls in
  let w1 := mkworld (sess w) (FanOut batchUrls :: trace w) (S (round w)) in
  if existsb is_rate_limit results then
    let w2 := mkworld (sess w1) (Sleep 3601000 :: trace w1) (round w1) in
    let i' := i - BATCH_SIZE in       (* i -= BATCH_SIZE; continue *)
    (i' + BATCH_SIZE, w2)
  else
    let validBillData := not_null results in
    let s' := snd (saveBillBatchToDb fault (up (round w)) (now (round w)) stack_limit
                     validBillData (sess w1)) in
    (i + BATCH_SIZE, mkworld s' (Sleep 2000 :: trace w1) (round w1)).

(** The loop, for at most [fuel] turns; [None] when they do not suffice. *)
Fixpoint main_loop (fuel : nat) (billUrls : list string) (i : Z) (w : world)
    : option world :=
  if i <? Z.of_nat (List.length billUrls) then
    match fuel with
    | O => None
    | S fuel' =>
        let '(i', w') := main_iteration billUrls i w in
        main_loop fuel' billUrls i' w'
    end
  else Some w.

End Main.

(** ** Paginated sub-endpoints *)

(** The body of a page as [fetchPaginatedSubEndpoint] reads it: the array
    under the first key that holds one ([None] when no key does, or when
    that key is the empty string), and [pagination?.next]. *)
Module Page.
Record t (A : Type) : Type := mk { items : option (list A); next : option string }.
Arguments mk {A} items next.
Arguments items {A} t.
Arguments next {A} t.
End Page.

(** What the function does on the network, latest first. *)
Inductive net_event : Type :=
| Get (url : string)
| Wait (ms : Z).

Section Pagination.

Variable A : Type.
Variable API_KEY : string.

(** [fetch n url]: the answer to the request number [n] of the call. *)
Variable fetch : nat -> string -> response (Page.t A).

(** [`${nextUrl}${nextUrl.includes('?') ? '&' : '?'}api_key=${API_KEY}`] *)
Definition keyed (nextUrl : string) : string :=
  nextUrl ++ (if includes nextUrl "?" then "&" else "?") ++ "api_key=" ++ API_KEY.

(** The [while (nextUrl)] loop, for at most [fuel] turns ([None] when they
    do not suffice), from request number [n]. *)
Fixpoint paginate (fuel n : nat) (nextUrl : option string) (items : list A)
    (log : list net_event) : option (list A * list net_event) :=
  if negb (truthy_str nextUrl) then Some (items, log)
  else
    match fuel with
    | O => None
    | S fuel' =>
        let url := keyed (match nextUrl with Some u => u | None => "" end) in
        let log1 := Get url :: log in
        match fetch n url with
        | HttpFailure => Some (items, log1)        (* catch: nextUrl = null *)
        | HttpError status =>
            if Z.eqb status 429
            then paginate fuel' (S n) nextUrl items (Wait 5000 :: log1)   (* continue *)
            else Some (items, log1)                                       (* break *)
        | HttpOk data =>
            let items' :=
              match Page.items data with
              | Some l => (items ++ l)%list      (* items.push(...data[key]) *)
              | None => items
              end in
            let log2 := if truthy_str (Page.next data) then Wait 100 :: log1 else log1 in
            paginate fuel' (S n) (Page.next data) items' log2
        end
    end.

Definition fetchPaginatedSubEndpoint (fuel : nat) (url : string)
    : option (list A * list net_event) :=
  paginate fuel O (Some url) [] [].

End Pagination.

End BillScript.

(* ================================================================== *)
(** * 10. The committee script (committeDataPopulation.js) *)
(* ================================================================== *)

(** [a = b] in a WHERE clause: never true on NULL. *)
Definition sql_eq (a b : value) : bool :=
  negb (is_null a) && negb (is_null b) && value_eqb a b.

(** [`${o}`] of an optional string. *)
Definition template_str (o : option string) : string :=
  match o with Some s => s | None => "undefined" end.

(** The detail of a committee, as [processCommitteeDetailsBatch] reads it. *)
Module HistoryItem.
Record t : Type := mk { officialName : value; startDate : value; endDate : value }.
End HistoryItem.

Module Reports.
Record t : Type := mk {
  url : option string;
  count : option Z                      (* a number when the key is present *)
}.
End Reports.

Module CommitteeDetail.
Record t : Type := mk {
  systemCode : option string;
  isCurrent : value;
  updateDate : value;
  history : option (list HistoryItem.t);          (* Array.isArray(committee.history) *)
  reports : option Reports.t
}.
End CommitteeDetail.

(** An element of [reportUrlData]. *)
Module ReportUrlDatum.
Record t : Type := mk { systemCode : option string; url : string }.
End ReportUrlDatum.

(** [COUNT(DISTINCT ...)]: the values of a column without NULLs and
    repetitions. *)
Fixpoint distinct (l : list value) : list value :=
  match l with
  | [] => []
  | v :: l' =>
      if is_null v || existsb (value_eqb v) l' then distinct l' else v :: distinct l'
  end.

Module CommitteeScript.

Definition BATCH_SIZE : Z := 25.

Section Script.

Variable fault : nat -> bool.
Variable API_KEY : string.

(** The INSERT of pass 1: the parent column is not listed. *)
Definition upsert_committee (committee : Committee.t) : M unit :=
  insert_ fault committees ["system_code"; "name"; "chamber"; "committee_type_code"]
    [vtext (Committee.systemCode committee); vtext (Committee.name committee);
     vtext (Committee.chamber committee); Committee.committeeTypeCode committee]
    (DoUpdate ["system_code"]
       [excluded committees "name"; excluded committees "chamber";
        excluded committees "committee_type_code"]).

(** Pass 1: Insert all committees with NULL for parent.  [detailUrls] is an
    array filled on the way: what was pushed before an exception stays. *)
Fixpoint pass1 (committeesData : list Committee.t) (detailUrls : list string)
    : session -> (outcome unit * list string) * session :=
  match committeesData with
  | [] => fun s => ((Ret tt, detailUrls), s)
  | committee :: rest =>
      let detailUrls' :=
        (detailUrls
         ++ [(template_str (Committee.url committee) ++ "&api_key=" ++ API_KEY)%string])%list in
      fun s =>
        match upsert_committee committee s with
        | (Ret _, s') => pass1 rest detailUrls' s'
        | (Throw e, s') => ((Throw e, detailUrls'), s')
        end
  end.

(** [committee.parent && committee.parent.systemCode] *)
Definition declared_parent (committee : Committee.t) : option string :=
  match Committee.parent committee with
  | Some (Some p) => if String.eqb p "" then None else Some p
  | _ => None
  end.

Definition set_parent (committee : Committee.t) : M unit :=
  match declared_parent committee with
  | Some p =>
      client_query fault
        (exec_update committees
           [("parent_committee_system_code", fun _ => VText p)]
           (fun r => sql_eq (field committees r "system_code")
                            (vtext (Committee.systemCode committee))))
  | None => ret tt
  end.

(** Pass 2: Update parent_committee_system_code for subcommittees. *)
Definition pass2 (committeesData : list Committee.t) : M unit :=
  for_of committeesData set_parent.

Definition upsertBaseCommittees (committeesData : list Committee.t)
    : session -> list string * session :=
  fun s =>
    match BEGIN fault s with
    | (Throw _, s0) => ([], snd (ROLLBACK s0))
    | (Ret _, s0) =>
        match pass1 committeesData [] s0 with
        | ((Throw _, detailUrls), s1) => (detailUrls, snd (ROLLBACK s1))
        | ((Ret _, detailUrls), s1) =>
            (detailUrls,
             snd (try_catch (pass2 committeesData ;; COMMIT fault)
                            (fun _ => ROLLBACK) s1))
        end
    end.

(** ** Reports of a committee *)

Variable CONGRESS_TO_FETCH : option Z.     (* parseInt(CONGRESS_TO_FETCH), NaN as None *)

(** [GET /committee-report/{congress}/{type}/{number}]: the first element
    of [committeeReports], when the body has one. *)
Variable get_report_detail : value -> value -> value -> response (option Report.t).

Definition link_associated_bill (reportId : value) (associatedBill : AssociatedBill.t)
    : M unit :=
  billRes <- insert_returning fault bills ["congress"; "type"; "number"]
    [AssociatedBill.congress associatedBill; AssociatedBill.type associatedBill;
     AssociatedBill.number associatedBill]
    (DoUpdate ["congress"; "type"; "number"] [excluded bills "congress"]) ;;
  billId <- first_id billRes ;;
  insert_ fault report_associated_bills ["report_id"; "bill_id"] [reportId; billId]
    (DoNothing None).

Definition save_report_detail (reportId : value) (report : Report.t) : M unit :=
  match get_report_detail (Report.congress report) (Report.type report)
                          (Report.number report) with
  | HttpFailure => throw FetchError
  | HttpError _ => ret tt
  | HttpOk None => ret tt
  | HttpOk (Some detailedReport) =>
      client_query fault
        (exec_update committee_reports
           [("title", fun r => coalesce (Report.title detailedReport)
                                        (field committee_reports r "title"));
            ("issue_date", fun r => coalesce (Report.issueDate detailedReport)
                                             (field committee_reports r "issue_date"));
            ("is_conference_report",
             fun r => coalesce (Report.isConferenceReport detailedReport)
                               (field committee_reports r "is_conference_report"))]
           (fun r => sql_eq (field committee_reports r "id") reportId)) ;;
      match Report.associatedBill detailedReport with
      | None => ret tt
      | Some l => for_of l (link_associated_bill reportId)
      end
  end.

Definition save_report (systemCode : option string) (report : Report.t) : M unit :=
  let current :=
    match CONGRESS_TO_FETCH with
    | Some c => value_eqb (Report.congress report) (VInt c)
    | None => false
    end in
  if negb current then ret tt       (* skippedCount++; continue *)
  else
    res <- insert_returning fault committee_reports
      ["congress"; "chamber"; "type"; "number"; "part"; "citation"; "updated_at"]
      [Report.congress report; Report.chamber report; Report.type report;
       Report.number report; Report.part report; Report.citation report;
       Report.updateDate report]
      (DoUpdate ["citation"] [excluded committee_reports "updated_at"]) ;;
    reportId <- first_id res ;;
    insert_ fault report_committees ["report_id"; "committee_system_code"]
      [reportId; vtext systemCode] (DoNothing None) ;;
    when (truthy (Report.congress report) && truthy (Report.type report)
          && truthy (Report.number report))
      (try_catch (save_report_detail reportId report) (fun _ => ret tt)).

(** The [while (nextUrl)] loop over the pages the cursor chain yields;
    a page that is not ok breaks out of it. *)
Fixpoint walk_reports (systemCode : option string)
    (pages : list (response (option (list Report.t)))) : M unit :=
  match pages with
  | [] => ret tt
  | HttpFailure :: _ => throw FetchError
  | HttpError _ :: _ => ret tt
  | HttpOk data :: rest =>
      match data with
      | Some reports => for_of reports (save_report systemCode)
      | None => ret tt
      end ;;
      walk_reports systemCode rest
  end.

Definition processCommitteeReports (systemCode : option string)
    (pages : list (response (option (list Report.t)))) : M unit :=
  try_catch
    (BEGIN fault ;;
     walk_reports systemCode pages ;;
     COMMIT fault)
    (fun _ => ROLLBACK).

(** ** The listing of committees *)

(** [fetch n url]: the answer to the request number [n] of the walk, read
    as [data.committees] and [data.pagination.next]. *)
Variable list_page : nat -> string -> response (option (list Committee.t) * option string).

(** The [while (nextUrl)] loop of [fetchAllCommittees], for at most [fuel]
    turns; the URLs asked are logged, latest first.  [nextUrl] is a
    template string or null. *)
Fixpoint walk_committees (fuel n : nat) (nextUrl : option string)
    (allCommittees : list Committee.t) (asked : list string)
    : option (list Committee.t * list string) :=
  match nextUrl with
  | None => Some (allCommittees, asked)
  | Some url =>
      match fuel with
      | O => None
      | S fuel' =>
          match list_page n url with
          | HttpOk (committees_, next) =>
              let allCommittees' :=
                match committees_ with
                | Some l => (allCommittees ++ l)%list
                | None => allCommittees
                end in
              let nextUrl' :=
                if truthy_str next
                then Some (template_str next ++ "&api_key=" ++ API_KEY)
                else None in
              walk_committees fuel' (S n) nextUrl' allCommittees' (url :: asked)
          | _ => Some (allCommittees, url :: asked)     (* catch: nextUrl = null *)
          end
      end
  end.

(** [CURRENT_CONGRESS] is the constant [CONGRESS_TO_FETCH] as the
    environment gives it, a string or undefined; the variable of that name
    above is its [parseInt]. *)
Definition fetchAllCommittees (BASE_API_URL : string) (CURRENT_CONGRESS : option string)
    (fuel : nat) : option (list Committee.t * list string) :=
  if negb (truthy_str CURRENT_CONGRESS) then Some ([], [])
  else
    walk_committees fuel O
      (Some (BASE_API_URL ++ "/committee/" ++ template_str CURRENT_CONGRESS
             ++ "?api_key=" ++ API_KEY ++ "&limit=250"))
      [] [].

(** ** Details and history of a batch of committees *)

(** [fetch(url)] of a detail URL: [body.committee]. *)
Variable get_detail : string -> response (option CommitteeDetail.t).

(** The result row of
    [SELECT COUNT(DISTINCT cr.id), COUNT(DISTINCT rab.report_id)
     FROM committee_reports cr
     INNER JOIN report_committees rc ON cr.id = rc.report_id
     LEFT JOIN report_associated_bills rab ON cr.id = rab.report_id
     WHERE rc.committee_system_code = $1 AND cr.congress = $2]. *)
Definition report_counts (code congress : value) (tb : tables) : Z * Z :=
  let joined :=
    filter (fun cr =>
              sql_eq (field committee_reports cr "congress") congress
              && existsb (fun rc =>
                            sql_eq (field committee_reports cr "id")
                                   (field report_committees rc "report_id")
                            && sql_eq (field report_committees rc "committee_system_code")
                                      code)
                         (tb report_committees))
           (tb committee_reports) in
  let total_reports := distinct (map (fun cr => field committee_reports cr "id") joined) in
  let reports_with_bills :=
    filter (fun id =>
              existsb (fun rab => sql_eq id (field report_associated_bills rab "report_id"))
                      (tb report_associated_bills))
           total_reports in
  (Z.of_nat (List.length total_reports), Z.of_nat (List.length reports_with_bills)).

(** The SELECT as sent: [parseInt(CONGRESS_TO_FETCH)] is its second
    parameter, and NaN is no integer for the server. *)
Definition select_report_counts (code : value) : M (Z * Z) :=
  match CONGRESS_TO_FETCH with
  | Some c =>
      client_query fault (fun tb sq => (sq, inr (tb, report_counts code (VInt c) tb)))
  | None =>
      fun s => client_query fault (fun tb sq => (sq, inl (ServerFault (nstmt s)))) s
  end.

(** [baseUrl.includes('?') ? `${baseUrl}&api_key=...` : `${baseUrl}?api_key=...`] *)
Definition urlWithKey (baseUrl : string) : string :=
  if includes baseUrl "?" then baseUrl ++ "&api_key=" ++ API_KEY
  else baseUrl ++ "?api_key=" ++ API_KEY.

(** The part of the loop body after the fetch: what it pushes on
    [reportUrlData]. *)
Definition save_detail (committee : CommitteeDetail.t) : M (list ReportUrlDatum.t) :=
  let systemCode := vtext (CommitteeDetail.systemCode committee) in
  (* Update committee with `isCurrent` flag and `updateDate` *)
  client_query fault
    (exec_update committees
       [("is_current", fun _ => CommitteeDetail.isCurrent committee);
        ("updated_at", fun _ => CommitteeDetail.updateDate committee)]
       (fun r => sql_eq (field committees r "system_code") systemCode)) ;;
  (* Unpack and save committee history *)
  match CommitteeDetail.history committee with
  | None => ret tt
  | Some l =>
      for_of l (fun historyItem =>
        when (truthy (HistoryItem.officialName historyItem))
          (insert_ fault committee_history
             ["committee_system_code"; "official_name"; "start_date"; "end_date"]
             [systemCode; HistoryItem.officialName historyItem;
              HistoryItem.startDate historyItem; HistoryItem.endDate historyItem]
             (DoNothing None)))
  end ;;
  (* Check if reports need to be updated *)
  match CommitteeDetail.reports committee with
  | None => ret []
  | Some reports =>
      match Reports.url reports with
      | None => ret []
      | Some baseUrl =>
          if String.eqb baseUrl "" then ret []
          else
            counts <- select_report_counts systemCode ;;
            let reportsWithoutBills := fst counts - snd counts in
            let listed := match Reports.count reports with
                          | Some n => 0 <? n
                          | None => false
                          end in
            if (0 <? reportsWithoutBills) || listed
            then ret [ReportUrlDatum.mk (CommitteeDetail.systemCode committee)
                                        (urlWithKey baseUrl)]
            else ret []
      end
  end.

(** The body of [for (const url of detailUrls)]. *)
Definition detail_turn (url : string) : M (list ReportUrlDatum.t) :=
  match get_detail url with
  | HttpFailure => throw FetchError
  | HttpError _ => ret []                 (* console.error; continue *)
  | HttpOk None => ret []                 (* if (!committee) continue *)
  | HttpOk (Some committee) => save_detail committee
  end.

(** The loop; [reportUrlData] is an array filled on the way: what was
    pushed before an exception stays. *)
Fixpoint details_loop (detailUrls : list string) (reportUrlData : list ReportUrlDatum.t)
    : session -> (outcome unit * list ReportUrlDatum.t) * session :=
  match detailUrls with
  | [] => fun s => ((Ret tt, reportUrlData), s)
  | url :: rest =>
      fun s =>
        match detail_turn url s with
        | (Ret pushed, s') => details_loop rest (reportUrlData ++ pushed) s'
        | (Throw e, s') => ((Throw e, reportUrlData), s')
        end
  end.

Definition processCommitteeDetailsBatch (detailUrls : list string)
    : session -> list ReportUrlDatum.t * session :=
  fun s =>
    match BEGIN fault s with
    | (Throw _, s0) => ([], snd (ROLLBACK s0))
    | (Ret _, s0) =>
        match details_loop detailUrls [] s0 with
        | ((Throw _, reportUrlData), s1) => (reportUrlData, snd (ROLLBACK s1))
        | ((Ret _, reportUrlData), s1) =>
            (reportUrlData,
             snd (try_catch (COMMIT fault) (fun _ => ROLLBACK) s1))
        end
    end.

End Script.
End CommitteeScript.

(* ================================================================== *)
(** * 11. The member script (memberDataPopulation.js) *)
(* ================================================================== *)

Module MemberScript.

Definition BATCH_SIZE : Z := 50.

Section Script.

Variable fault : nat -> bool.

Local Abbreviation insert := (insert_ fault).

Definition member_columns : list string :=
  ["bioguide_id"; "direct_order_name"; "inverted_order_name"; "first_name";
   "middle_name"; "last_name"; "suffix_name"; "nickname"; "honorific_name";
   "birth_year"; "death_year"; "official_url"; "depiction_image_url";
   "depiction_attribution"; "is_current_member"; "updated_at"].

(** The body of [for (const member of membersData)]. *)
Definition save_member (member : Member.t) : M unit :=
  let bioguideId := vtext (Member.bioguideId member) in
  (* 1. Upsert the main member data *)
  insert members member_columns
    [bioguideId; Member.directOrderName member; Member.invertedOrderName member;
     Member.firstName member; Member.middleName member; Member.lastName member;
     Member.suffixName member; Member.nickName member; Member.honorificName member;
     Member.birthYear member; Member.deathYear member;
     Member.officialWebsiteUrl member; Member.depiction_imageUrl member;
     Member.depiction_attribution member; Member.currentMember member;
     Member.updateDate member]
    (DoUpdate ["bioguide_id"]
       (map (excluded members)
            ["direct_order_name"; "inverted_order_name"; "first_name"; "middle_name";
             "last_name"; "suffix_name"; "nickname"; "honorific_name"; "birth_year";
             "death_year"; "official_url"; "depiction_image_url";
             "depiction_attribution"; "is_current_member"; "updated_at"])) ;;
  (* 2. Upsert address information *)
  match Member.addressInformation member with
  | None => ret tt
  | Some addr =>
      insert member_addresses
        ["member_bioguide_id"; "office_address"; "city"; "district"; "zip_code";
         "phone_number"]
        [bioguideId; Address.officeAddress addr; Address.city addr;
         Address.district addr; Address.zipCode addr; Address.phoneNumber addr]
        (DoUpdate ["member_bioguide_id"]
           (map (excluded member_addresses)
                ["office_address"; "city"; "district"; "zip_code"; "phone_number"]))
  end ;;
  (* 3. Unpack and upsert party history *)
  match Member.partyHistory member with
  | None => ret tt
  | Some l =>
      for_of l (fun party =>
        insert member_party_history
          ["member_bioguide_id"; "party_name"; "party_abbreviation"; "start_year"]
          [bioguideId; Party.partyName party; Party.partyAbbreviation party;
           Party.startYear party]
          (DoNothing (Some ["member_bioguide_id"; "party_name"; "start_year"])))
  end ;;
  (* 4. Unpack and upsert terms *)
  match Member.terms member with
  | None => ret tt
  | Some l =>
      for_of l (fun term =>
        insert member_terms
          ["member_bioguide_id"; "congress"; "chamber"; "member_type"; "state_code";
           "state_name"; "district"; "start_year"; "end_year"]
          [bioguideId; Term.congress term; Term.chamber term; Term.memberType term;
           Term.stateCode term; Term.stateName term; Term.district term;
           Term.startYear term; Term.endYear term]
          (DoUpdate ["member_bioguide_id"; "congress"; "chamber"; "district"]
             (map (excluded member_terms)
                  ["member_type"; "state_code"; "state_name"; "start_year";
                   "end_year"])))
  end ;;
  (* 5. Unpack and upsert leadership roles *)
  match Member.leadership member with
  | None => ret tt
  | Some l =>
      for_of l (fun role =>
        insert member_leadership
          ["member_bioguide_id"; "congress"; "leadership_type"; "is_current"]
          [bioguideId; Role.congress role; Role.type role; Role.current role]
          (DoUpdate ["member_bioguide_id"; "congress"; "leadership_type"]
             [excluded member_leadership "is_current"]))
  end.

Definition processMemberBatch (membersData : list Member.t) : M unit :=
  match membersData with
  | [] => ret tt
  | _ =>
      try_catch
        (BEGIN fault ;;
         for_of membersData save_member ;;
         COMMIT fault)
        (fun _ => ROLLBACK)
  end.

(** ** The listing of members *)

(** [fetch n url]: the answer to the request number [n] of the walk, read
    as the [url] of each element of [data.members] and as
    [data.pagination.next]. *)
Variable list_page : nat -> string -> response (option (list (option string)) * option string).
Variable API_KEY : string.

(** The [while (nextUrl)] loop of [fetchAllMemberUrls], for at most [fuel]
    turns; the URLs asked are logged, latest first. *)
Fixpoint walk_members (fuel n : nat) (nextUrl : option string)
    (memberUrls : list string) (asked : list string)
    : option (list string * list string) :=
  match nextUrl with
  | None => Some (memberUrls, asked)
  | Some url =>
      match fuel with
      | O => None
      | S fuel' =>
          match list_page n url with
          | HttpOk (members_, next) =>
              let memberUrls' :=
                match members_ with
                | Some l =>
                    (memberUrls
                     ++ map (fun u => (template_str u ++ "&api_key=" ++ API_KEY)%string) l)%list
                | None => memberUrls
                end in
              let nextUrl' :=
                if truthy_str next
                then Some (template_str next ++ "&api_key=" ++ API_KEY)
                else None in
              walk_members fuel' (S n) nextUrl' memberUrls' (url :: asked)
          | _ => Some (memberUrls, url :: asked)        (* catch: nextUrl = null *)
          end
      end
  end.

Definition fetchAllMemberUrls (BASE_API_URL : string) (CONGRESS_TO_FETCH : option string)
    (fuel : nat) : option (list string * list string) :=
  if negb (truthy_str CONGRESS_TO_FETCH) then Some ([], [])
  else
    walk_members fuel O
      (Some (BASE_API_URL ++ "/member/congress/" ++ template_str CONGRESS_TO_FETCH
             ++ "?api_key=" ++ API_KEY ++ "&limit=250"))
      [] [].

(** ** The batch loop of main *)

Variable get_member : nat -> string -> response (option Member.t).

(** [results.filter(m => m != null)]: [undefined] goes too. *)
Fixpoint not_nullish {A} (results : list (detail A)) : list A :=
  match results with
  | [] => []
  | Fetched (Some x) :: rest => x :: not_nullish rest
  | _ :: rest => not_nullish rest
  end.

Definition main_iteration (allMemberUrls : list string) (i : Z) (w : world)
    : Z * world :=
  let batchUrls := slice allMemberUrls i (i + BATCH_SIZE) in
  let results := map (fun url => detail_of (get_member (round w) url)) batchUrls in
  let w1 := mkworld (sess w) (FanOut batchUrls :: trace w) (S (round w)) in
  if existsb is_rate_limit results then
    let w2 := mkworld (sess w1) (Sleep 10000 :: trace w1) (round w1) in
    let i' := i - BATCH_SIZE in       (* i -= BATCH_SIZE; continue *)
    (i' + BATCH_SIZE, w2)
  else
    let membersData := not_nullish results in
    let s' :=
      match membersData with
      | [] => sess w1
      | _ => snd (processMemberBatch membersData (sess w1))
      end in
    (i + BATCH_SIZE, mkworld s' (Sleep 1000 :: trace w1) (round w1)).

Fixpoint main_loop (fuel : nat) (allMemberUrls : list string) (i : Z) (w : world)
    : option world :=
  if i <? Z.of_nat (List.length allMemberUrls) then
    match fuel with
    | O => None
    | S fuel' =>
        let '(i', w') := main_iteration allMemberUrls i w in
        main_loop fuel' allMemberUrls i' w'
    end
  else Some w.

End Script.
End MemberScript.

(* ================================================================== *)
(** * 12. Vocabulary of the specifications *)
(* ================================================================== *)

(** ** The effect of a statement that went through *)

Inductive insert_effect (t : table_name) (new : row) (oc : on_conflict)
    (tb tb' : tables) (ids : list value) : Prop :=
| ins_nothing target old :           (* DO NOTHING on a conflict *)
    oc = DoNothing target ->
    In old (tb t) ->
    conflicts t (arbiters t oc) new old = true ->
    tb' = tb -> ids = [] ->
    insert_effect t new oc tb tb' ids
| ins_updated (before after : list row) (old : row) k sets :
    oc = DoUpdate k sets ->
    tb t = (before ++ old :: after)%list ->
    conflicts t [k] new old = true ->
    (forall r, In r before -> conflicts t [k] new r = false) ->
    not_null_violation t (apply_sets t sets old new) = None ->
    tb' = set_table tb t (before ++ apply_sets t sets old new :: after) ->
    fk_violation tb' t (changed_columns t old (apply_sets t sets old new))
                 (apply_sets t sets old new) = None ->
    ids = [field t (apply_sets t sets old new) "id"] ->
    insert_effect t new oc tb tb' ids
| ins_inserted :
    (forall r, In r (tb t) -> conflicts t (arbiters t oc) new r = false) ->
    not_null_violation t new = None ->
    tb' = set_table tb t (tb t ++ [new]) ->
    fk_violation tb' t (columns (schema_of t)) new = None ->
    ids = [field t new "id"] ->
    insert_effect t new oc tb tb' ids.

(** How an INSERT runs into a foreign key: on the row it appends, or on
    the row its DO UPDATE rewrote. *)
Inductive insert_fk_error (t : table_name) (new : row) (oc : on_conflict)
    (tb : tables) (c : string) : Prop :=
| fk_on_insert :
    fk_violation (set_table tb t (tb t ++ [new])) t (columns (schema_of t)) new
    = Some c ->
    insert_fk_error t new oc tb c
| fk_on_update (before after : list row) (old : row) k sets :
    oc = DoUpdate k sets ->
    tb t = (before ++ old :: after)%list ->
    fk_violation (set_table tb t (before ++ apply_sets t sets old new :: after)) t
                 (changed_columns t old (apply_sets t sets old new))
                 (apply_sets t sets old new) = Some c ->
    insert_fk_error t new oc tb c.

(** A relation between the tables before and after, kept by a piece of
    script whatever it returns or throws. *)
Definition respects (R : tables -> tables -> Prop) {A} (m : M A) : Prop :=
  forall s r s', m s = (r, s') -> R (tbl s) (tbl s').

(** The relations of interest are preorders... *)
Class TableOrder (R : tables -> tables -> Prop) : Prop := {
  R_refl : forall tb, R tb tb;
  R_trans : forall a b c, R a b -> R b c -> R a c
}.

(** ... that look at a few tables only, those [focus] selects. *)
Class Focused (focus : table_name -> bool) (R : tables -> tables -> Prop) : Prop :=
  R_local : forall tb tb', (forall u, focus u = true -> tb' u = tb u) -> R tb tb'.

(** ** Inside a transaction *)

(** What every piece of code run between BEGIN and COMMIT keeps, whatever
    it returns or throws: the snapshot taken at BEGIN, the aborted state
    once entered, and the fact that an error logged by the server leaves
    the transaction aborted. *)
Record step_ok (t0 : tables) (s s' : session) : Prop := mk_step_ok {
  ok_snap : snap s' = Some t0;
  ok_failed : failed s = true -> failed s' = true;
  ok_errors : exists new, errlog s' = (new ++ errlog s)%list
                          /\ (new <> [] -> failed s' = true);
  ok_history : history s' = history s
}.

Definition txn_safe {A} (m : M A) : Prop :=
  forall s r s' t0, snap s = Some t0 -> m s = (r, s') -> step_ok t0 s s'.

(** The session right after a BEGIN that went through. *)
Definition begun (s : session) : session :=
  mksession (tbl s) (Some (tbl s)) false (seqs s) (S (nstmt s)) (errlog s) (history s).

(** How a transaction of the scripts ends, seen from the session before
    and after: rolled back on the tables it started from, or committed on
    what its body left, in which case the server logged no error. *)
Inductive txn_result (body : M unit) (s s' : session) : Prop :=
| txn_rolled_back :
    tbl s' = tbl s ->
    history s' = history s \/ history s' = RolledBack :: history s ->
    txn_result body s s'
| txn_committed (s2 : session) :
    body (begun s) = (Ret tt, s2) ->
    failed s2 = false ->
    tbl s' = tbl s2 ->
    errlog s' = errlog s ->
    history s' = Committed :: history s ->
    txn_result body s s'.

(** The committee of the bill listing that no rule of [inferChamber]
    matches and that carries no chamber. *)
Definition unmatched_committee : Committee.t :=
  Committee.mk (Some "xyz") (Some "Committee on Foo") None VNull None None None.

(** The rules of [inferChamber] on the code prefix and the name tokens,
    without the default: [None] when none applies. *)
Definition chamber_rule (committee : Committee.t) : option string :=
  let systemCode :=
    match Committee.systemCode committee with Some s => toLowerCase s | None => "" end in
  let name :=
    match Committee.name committee with Some s => toLowerCase s | None => "" end in
  if startsWith systemCode "s" || startsWith systemCode "ss" then Some "Senate"
  else if startsWith systemCode "h" || startsWith systemCode "hs" then Some "House"
  else if includes systemCode "jt" || includes name "joint" then Some "Joint"
  else if includes name "senate" || includes name "foreign relations" then Some "Senate"
  else if includes name "house" || includes name "representatives" then Some "House"
  else None.

(** ** Sample data *)

Definition no_fault : nat -> bool := fun _ => false.

Definition sample_member (id : string) : Member.t :=
  Member.mk (Some id) VNull VNull (VText "Ann") VNull (VText "Lee") VNull VNull VNull
            VNull VNull VNull VNull VNull (VBool true) VNull None None None None.

(** An upstream that knows member A000001 only, and no sub-resource. *)
Definition sample_upstream : upstream :=
  mkupstream
    (fun id => if String.eqb id "A000001" then HttpOk (Some (sample_member id))
               else HttpError 404)
    (fun _ => HttpError 404)
    (fun _ => []) (fun _ => []) (fun _ => []) (fun _ => []) (fun _ => [])
    (fun _ => []) (fun _ => []) (fun _ => []).

(** Bill [hr number] of congress 119, sponsored by [sponsor]. *)
Definition sample_bill (number : Z) (sponsor : option string) : Bill.t :=
  Bill.mk (VInt 119) (VText "hr") (VInt number) VNull (VText "A bill") VNull VNull
          (match sponsor with
           | Some id => Some [Sponsor.mk (Some id) VNull]
           | None => None
           end)
          VNull VNull VNull None None None None None None None None None None.

(** A batch of two bills: the sponsor of the first is known upstream, the
    sponsor of the second is not. *)
Definition sample_batch : list (option Bill.t) :=
  [Some (sample_bill 1 (Some "A000001")); Some (sample_bill 2 (Some "B000002"))].

(** ** Committees *)

(** The stored row of a committee, looked up by its primary key. *)
Definition committee_row (tb : tables) (code : string) : option row :=
  find (fun r => sql_eq (field committees r "system_code") (VText code))
       (tb committees).

Definition stored_chamber (tb : tables) (code : string) : option value :=
  option_map (fun r => field committees r "chamber") (committee_row tb code).

Definition stored_parent (tb : tables) (code : string) : option value :=
  option_map (fun r => field committees r "parent_committee_system_code")
             (committee_row tb code).

(** Chamber monotonicity: a stored chamber other than 'Unknown' stays. *)
Definition keeps_known_chambers (tb tb' : tables) : Prop :=
  forall code v,
    stored_chamber tb code = Some v -> v <> VText "Unknown" ->
    stored_chamber tb' code = Some v.

(** The committee table holding the House committee HSAG. *)
Definition house_committee_tables : tables :=
  set_table empty_tables committees
    [[VText "HSAG"; VText "Agriculture"; VText "House"; VNull; VNull; VNull; VNull]].

(** A listing item for HSAG whose [chamber] reads "Unknown". *)
Definition unknown_chamber_payload : Committee.t :=
  Committee.mk (Some "HSAG") (Some "Agriculture") (Some "Unknown") VNull
               (Some "https://api.congress.gov/v3/committee/house/hsag?format=json")
               None None.

(** An upstream whose one action of bill hr 1 names committee HSAG with
    the chamber "Unknown", and the bill that carries that action list. *)
Definition unknown_chamber_upstream : upstream :=
  mkupstream
    (get_member sample_upstream) (get_report sample_upstream)
    (fun _ => [Action.mk (VText "2025-01-03") (VText "Referred to committee")
                         VNull VNull VNull
                         (Some [Committee.mk (Some "HSAG") (Some "Agriculture")
                                             (Some "Unknown") VNull None None None])])
    (fun _ => []) (fun _ => []) (fun _ => []) (fun _ => []) (fun _ => [])
    (fun _ => []) (fun _ => []).

Definition bill_with_actions : Bill.t :=
  Bill.mk (VInt 119) (VText "hr") (VInt 1) VNull (VText "A bill") VNull VNull
          None VNull VNull VNull
          (Some "https://api.congress.gov/v3/bill/119/hr/1/actions")
          None None None None None None None None None.

(** Pass 1 leaves the parent pointers alone: the pointer of a stored
    committee is kept, the pointer of a new one is NULL. *)
Definition parents_untouched (tb tb' : tables) : Prop :=
  forall code,
    match stored_parent tb code with
    | Some w => stored_parent tb' code = Some w
    | None => stored_parent tb' code = None \/ stored_parent tb' code = Some VNull
    end.

(** The committees HSAG00 and HSAG of one page, the child first. *)
Definition child_first_page : list Committee.t :=
  [Committee.mk (Some "HSAG00") (Some "Subcommittee") (Some "House") VNull
                (Some "https://api.congress.gov/v3/committee/house/hsag00?format=json")
                (Some (Some "HSAG")) None;
   Committee.mk (Some "HSAG") (Some "Agriculture") (Some "House") VNull
                (Some "https://api.congress.gov/v3/committee/house/hsag?format=json")
                None None].

(** The same page followed by HSIF00, whose parent HSIF is not listed. *)
Definition child_first_and_orphan : list Committee.t :=
  (child_first_page
   ++ [Committee.mk (Some "HSIF00") (Some "Subcommittee on Health") (Some "House") VNull
         (Some "https://api.congress.gov/v3/committee/house/hsif00?format=json")
         (Some (Some "HSIF")) None])%list.

(** ** The batch loops *)

(** The world after a fan-out over [batchUrls] that met a 429: the pause
    is on the trace, the round has passed, the session is as it was. *)
Definition cooled_down (ms : Z) (batchUrls : list string) (w : world) : world :=
  mkworld (sess w) (Sleep ms :: FanOut batchUrls :: trace w) (S (round w)).

(** Whether the fan-out of round [round w] over the batch at [i] meets a
    429, for a loop with batches of [size]. *)
Definition rate_limited {A} (get : nat -> string -> response (option A))
    (size : Z) (urls : list string) (i : Z) (w : world) : Prop :=
  existsb is_rate_limit
    (map (fun url => detail_of (get (round w) url)) (slice urls i (i + size))) = true.

(** A detail endpoint that answers 429 to everything in round 0 and fails
    afterwards, and 20 URLs to walk. *)
Definition throttled_once {A} : nat -> string -> response (option A) :=
  fun n _ => match n with O => HttpError 429 | S _ => HttpError 500 end.

Definition sample_urls : list string :=
  map (fun n => ("https://api.congress.gov/v3/bill/119/hr/" ++ BillScript.show_Z n)%string)
      [1; 2; 3; 4; 5; 6; 7; 8; 9; 10; 11; 12; 13; 14; 15; 16; 17; 18; 19; 20].

Definition fresh_world : world := mkworld (connect empty_tables) [] O.

(** ** Bills and their watermark *)

(** The stored row of a bill, looked up by its natural key. *)
Definition bill_matches (congress type number : value) (r : row) : bool :=
  sql_eq (field bills r "congress") congress
  && sql_eq (field bills r "type") type
  && sql_eq (field bills r "number") number.

Definition bill_row (tb : tables) (congress type number : value) : option row :=
  find (bill_matches congress type number) (tb bills).

(** [last_processed_at] of a bill; NULL also when the bill has no row. *)
Definition watermark (tb : tables) (congress type number : value) : value :=
  match bill_row tb congress type number with
  | Some r => field bills r "last_processed_at"
  | None => VNull
  end.

(** UNIQUE (congress, type, number) holds in the table. *)
Definition bills_unique (tb : tables) : Prop :=
  forall congress type number,
    (List.length (filter (bill_matches congress type number) (tb bills)) <= 1)%nat.

(** The planner in the words of the specification: a listed bill is due
    unless its watermark exists and is newer than seven days before now. *)
Definition due (tb : tables) (date_now : Z) (b : BillScript.Listed.t) : bool :=
  match watermark tb (VInt (BillScript.Listed.congress b))
                     (VText (BillScript.Listed.type b))
                     (VInt (BillScript.Listed.number b)) with
  | VTime ms => negb (date_now - BillScript.SEVEN_DAYS <? ms)
  | _ => true
  end.

(** The pages the walk reads before the first response that is not ok,
    each with its clock. *)
Fixpoint walked (pages : list BillScript.listing_page)
    : list (Z * list BillScript.Listed.t) :=
  match pages with
  | (date_now, HttpOk (Some apiBills)) :: rest => (date_now, apiBills) :: walked rest
  | (_, HttpOk None) :: rest => walked rest
  | _ => []
  end.

Definition work_list (API_KEY : string) (tb : tables)
    (pages : list BillScript.listing_page) : list string :=
  flat_map (fun page =>
              map (fun b => (BillScript.Listed.url b ++ "&api_key=" ++ API_KEY)%string)
                  (filter (due tb (fst page)) (snd page)))
           (walked pages).

(** The identifiers of a listing are natural numbers. *)
Definition well_formed_listing (pages : list BillScript.listing_page) : Prop :=
  forall page b, In page (walked pages) -> In b (snd page) ->
                 0 <= BillScript.Listed.congress b /\ 0 <= BillScript.Listed.number b.

(** No character of the string is a dash. *)
Fixpoint dashless (s : string) : Prop :=
  match s with
  | EmptyString => True
  | String c s' => c <> "-"%char /\ dashless s'
  end.

(** The last element of the list that satisfies [p]. *)
Fixpoint find_last {A} (p : A -> bool) (l : list A) : option A :=
  match l with
  | [] => None
  | x :: l' =>
      match find_last p l' with
      | Some y => Some y
      | None => if p x then Some x else None
      end
  end.

(** Bills hr 1 (processed on day 8) and hr 2 (never processed) are stored;
    the listing read on day 10 names hr 1, hr 2 and hr 3. *)
Definition day : Z := 24 * 60 * 60 * 1000.

Definition planner_tables : tables :=
  set_table empty_tables bills
    [[VInt 1; VInt 119; VText "hr"; VInt 1; VNull; VText "A bill"; VNull; VNull; VNull;
      VBool false; VNull; VNull; VNull; VTime (8 * day)];
     [VInt 2; VInt 119; VText "hr"; VInt 2; VNull; VText "A stub"; VNull; VNull; VNull;
      VNull; VNull; VNull; VNull; VNull]].

Definition planner_listing : list BillScript.listing_page :=
  [(10 * day,
    HttpOk (Some [BillScript.Listed.mk 119 "hr" 1 "https://api.congress.gov/v3/bill/119/hr/1?format=json";
                  BillScript.Listed.mk 119 "hr" 2 "https://api.congress.gov/v3/bill/119/hr/2?format=json";
                  BillScript.Listed.mk 119 "hr" 3 "https://api.congress.gov/v3/bill/119/hr/3?format=json"]))].

(** A watermark that reads [now] still does afterwards. *)
Definition stamped (now : Z) (congress type number : value) (tb tb' : tables) : Prop :=
  watermark tb congress type number = VTime now ->
  watermark tb' congress type number = VTime now.

(** The watermarks of all bills but those of [K] are as they were. *)
Definition watermarks_kept (K : value -> value -> value -> Prop) (tb tb' : tables)
    : Prop :=
  forall congress type number,
    ~ K congress type number ->
    watermark tb' congress type number = watermark tb congress type number.

(** The natural keys of the top-level records of a batch. *)
Definition batch_key (batch : list Bill.t) (congress type number : value) : Prop :=
  exists b, In b batch /\ Bill.congress b = congress /\ Bill.type b = type
            /\ Bill.number b = number.

Definition no_key (congress type number : value) : Prop := False.

(** An upstream whose bill hr 1 is related to bill s 7, and that bill. *)
Definition related_upstream : upstream :=
  mkupstream
    (get_member sample_upstream) (get_report sample_upstream)
    (fun _ => []) (fun _ => []) (fun _ => [])
    (fun _ => [RelatedBill.mk (VInt 119) (VText "s") (VInt 7) (VText "A related bill")
                              (Some [Relationship.mk (VText "Identical bill")
                                                     (VText "CRS")])])
    (fun _ => []) (fun _ => []) (fun _ => []) (fun _ => []).

Definition bill_with_related : Bill.t :=
  Bill.mk (VInt 119) (VText "hr") (VInt 1) VNull (VText "A bill") VNull VNull
          None VNull VNull VNull None None None None
          (Some "https://api.congress.gov/v3/bill/119/hr/1/relatedbills")
          None None None None None.

(** ** Members referenced by bills *)

Definition has_member (tb : tables) (id : string) : Prop :=
  references tb members "bioguide_id" (VText id) = true.

(** The error of the claim: the sponsor of a bill row names no member. *)
Definition fk_sponsor : sql_error := ForeignKeyViolation bills "sponsor_bioguide_id".

(** Every member of [ids] is stored. *)
Definition members_present (ids : list string) (tb : tables) : Prop :=
  forall id, In id ids -> has_member tb id.

(** A piece of script that keeps the members [ids] stored and, from tables
    where they are, never logs [fk_sponsor]. *)
Definition sponsor_safe (ids : list string) {A} (m : M A) : Prop :=
  forall s r s',
    m s = (r, s') -> members_present ids (tbl s) ->
    members_present ids (tbl s')
    /\ (~ In fk_sponsor (errlog s) -> ~ In fk_sponsor (errlog s')).

(** The sponsor of the bill is stored, or the detail endpoint answers the
    fetch of its id with that member. *)
Definition sponsor_resolvable (up : upstream) (tb : tables) (b : Bill.t) : Prop :=
  forall id,
    BillScript.sponsor0 b = Some id ->
    has_member tb id
    \/ (id <> "" /\ exists m, get_member up id = HttpOk (Some m)
                               /\ Member.bioguideId m = Some id).

(** The sponsors the bills of a batch name. *)
Definition all_sponsors (batch : list Bill.t) : list string :=
  flat_map (fun b => match BillScript.sponsor0 b with Some id => [id] | None => [] end)
           batch.

(** ** Terms of members *)

Definition term_count (tb : tables) : nat := List.length (tb member_terms).

(** The table of terms lost no row. *)
Definition terms_grow (tb tb' : tables) : Prop :=
  (term_count tb <= term_count tb')%nat.

(** A term of the Senate: the upstream record has no [district]. *)
Definition senate_term : Term.t :=
  Term.mk (VInt 119) (VText "Senate") (VText "Senator") (VText "VT")
          (VText "Vermont") VNull (VInt 2025) VNull.

Definition house_term : Term.t :=
  Term.mk (VInt 119) (VText "House of Representatives") (VText "Representative")
          (VText "VT") (VText "Vermont") (VInt 0) (VInt 2025) VNull.

Definition member_with_term (id : string) (term : Term.t) : Member.t :=
  Member.mk (Some id) VNull VNull (VText "Ann") VNull (VText "Lee") VNull VNull VNull
            VNull VNull VNull VNull VNull (VBool true) VNull None None
            (Some [term]) None.

Definition sample_senator : Member.t := member_with_term "S000001" senate_term.

Definition sample_representative : Member.t := member_with_term "R000001" house_term.

(** ** Auxiliary notions of the planner and of the bill upsert *)

(** The decimal digits of a natural number, which [show_Z] spells out. *)
Definition digits (z : Z) : Decimal.uint :=
  match z with
  | Zpos p => Pos.to_uint p
  | _ => Decimal.D0 Decimal.Nil
  end.

(** The rows the planner's query selects for a page. *)
Definition selected (apiBills : list BillScript.Listed.t) (r : row) : bool :=
  existsb (fun b =>
             value_eqb (field bills r "congress") (VInt (BillScript.Listed.congress b))
             && value_eqb (field bills r "type") (VText (BillScript.Listed.type b))
             && value_eqb (field bills r "number") (VInt (BillScript.Listed.number b)))
          apiBills.

(** The row the bill upsert proposes. *)
Definition proposed (now : Z) (bill : Bill.t) (k : Z) : row :=
  build_row bills BillScript.bill_columns (BillScript.bill_values now bill) k.

(** ** A member that cannot be resolved *)

(** No row of [members] carries the id, and no stored bill or
    cosponsorship refers to it. *)
Definition member_unknown (id : string) (tb : tables) : Prop :=
  references tb members "bioguide_id" (VText id) = false
  /\ (forall r, In r (tb bills) -> field bills r "sponsor_bioguide_id" <> VText id)
  /\ (forall r, In r (tb bill_cosponsors) ->
                field bill_cosponsors r "member_bioguide_id" <> VText id).

Definition stays_unknown (id : string) (tb tb' : tables) : Prop :=
  member_unknown id tb -> member_unknown id tb'.

(** The tables [member_unknown] reads. *)
Definition member_tables (t : table_name) : bool :=
  table_eqb members t || table_eqb bills t || table_eqb bill_cosponsors t.

(** The detail endpoint never answers with the member [id]. *)
Definition never_supplied (up : upstream) (id : string) : Prop :=
  forall id' m, get_member up id' = HttpOk (Some m) -> Member.bioguideId m <> Some id.

(** The bill names [id] as its sponsor, or among the cosponsors its
    sub-endpoint lists. *)
Definition names_member (up : upstream) (b : Bill.t) (id : string) : Prop :=
  BillScript.sponsor0 b = Some id
  \/ exists url c, Bill.cosponsors_url b = Some url /\ url <> ""
                   /\ In c (list_cosponsors up url)
                   /\ Cosponsor.bioguideId c = Some id /\ id <> "".

(** An upstream whose cosponsor lists name C000003, a member it does not
    know, and a bill of A000001 with such a list. *)
Definition cosponsor_upstream : upstream :=
  mkupstream
    (get_member sample_upstream) (get_report sample_upstream)
    (fun _ => []) (fun _ => [])
    (fun _ => [Cosponsor.mk (Some "C000003") (VText "2025-01-03") (VBool true) VNull])
    (fun _ => []) (fun _ => []) (fun _ => []) (fun _ => []) (fun _ => []).

Definition bill_with_cosponsors : Bill.t :=
  Bill.mk (VInt 119) (VText "hr") (VInt 2) VNull (VText "A bill") VNull VNull
          (Some [Sponsor.mk (Some "A000001") VNull]) VNull VNull VNull
          None None (Some "https://api.congress.gov/v3/bill/119/hr/2/cosponsors")
          None None None None None None None.

(* ================================================================== *)
(** * 12b. Vocabulary of the further properties *)
(* ================================================================== *)

Definition stored_name (tb : tables) (code : string) : option value :=
  option_map (fun r => field committees r "name") (committee_row tb code).

(** A committee HSAG stored by the committee script, seen again in an
    action of a bill without its name. *)
Definition nameless_committee : Committee.t :=
  Committee.mk (Some "HSAG") None None VNull None None None.

(** ** The batch loops *)

(** The URLs fanned out so far, oldest first. *)
Definition fanned_out (tr : list event) : list string :=
  flat_map (fun e => match e with FanOut urls => urls | Sleep _ => [] end) (rev tr).

(** A detail endpoint that never answers 429. *)
Definition never_limited {A} (get : nat -> string -> response (option A)) : Prop :=
  forall n url, get n url <> HttpError 429.

(** The batches fanned out so far, oldest first. *)
Definition fan_outs (tr : list event) : list (list string) :=
  flat_map (fun e => match e with FanOut urls => [urls] | Sleep _ => [] end) (rev tr).

(** [l] cut into consecutive batches of [k] elements, the last one shorter
    when [k] does not divide the length; at most [fuel] of them. *)
Fixpoint chunks {A} (fuel k : nat) (l : list A) : list (list A) :=
  match fuel with
  | O => []
  | S fuel' =>
      match l with
      | [] => []
      | _ :: _ => firstn k l :: chunks fuel' k (skipn k l)
      end
  end.

Definition batches {A} (k : nat) (l : list A) : list (list A) :=
  chunks (List.length l) k l.

(** No detail fetch of the rounds from [r] on is answered 429. *)
Definition unlimited_from {A} (get : nat -> string -> response (option A)) (r : nat)
    : Prop :=
  forall n url, (r <= n)%nat -> get n url <> HttpError 429.

(** A detail endpoint that is always down. *)
Definition always_down {A} : nat -> string -> response (option A) :=
  fun _ _ => HttpError 503.

(** A detail endpoint that answers every request with an ok body that has
    no [bill] key. *)
Definition bodies_without_bill : nat -> string -> response (option Bill.t) :=
  fun _ _ => HttpOk None.

(** ** Reports of a committee *)

(** The congress column of the stored reports, in row order. *)
Definition report_congresses (tb : tables) : list value :=
  map (fun r => field committee_reports r "congress") (tb committee_reports).

(** The stored reports keep their congress, and the rows added are of
    congress [c]; none is added when [c] is no number. *)
Definition only_congress (c : option Z) (tb tb' : tables) : Prop :=
  exists added,
    report_congresses tb' = (report_congresses tb ++ added)%list
    /\ forall v, In v added -> Some v = option_map VInt c.

(** A page of two reports of committee HSAG, of congresses 119 and 118;
    the detail of the first names a bill without congress. *)
Definition sample_report (congress : Z) (citation : string) : Report.t :=
  Report.mk (VInt congress) (VText "House") (VText "HRPT") (VInt 7) VNull
            (VText citation) VNull VNull VNull (VText "2025-02-01") None.

Definition report_pages : list (response (option (list Report.t))) :=
  [HttpOk (Some [sample_report 119 "H. Rept. 119-7"; sample_report 118 "H. Rept. 118-7"])].

Definition detail_with_bad_bill : value -> value -> value -> response (option Report.t) :=
  fun _ _ _ =>
    HttpOk (Some (Report.mk (VInt 119) (VText "House") (VText "HRPT") (VInt 7) VNull
                            (VText "H. Rept. 119-7") (VText "A report") VNull VNull
                            VNull
                            (Some [AssociatedBill.mk VNull (VText "hr") (VInt 1)]))).

Definition no_detail : value -> value -> value -> response (option Report.t) :=
  fun _ _ _ => HttpError 404.

(** ** Stored members *)

(** The stored row of a member, looked up by its primary key. *)
Definition member_row (tb : tables) (id : string) : option row :=
  find (fun r => sql_eq (field members r "bioguide_id") (VText id)) (tb members).

(** The cells the member upsert sends, by column. *)
Definition member_cells (member : Member.t) : list (string * value) :=
  combine MemberScript.member_columns
    [vtext (Member.bioguideId member); Member.directOrderName member;
     Member.invertedOrderName member; Member.firstName member;
     Member.middleName member; Member.lastName member; Member.suffixName member;
     Member.nickName member; Member.honorificName member; Member.birthYear member;
     Member.deathYear member; Member.officialWebsiteUrl member;
     Member.depiction_imageUrl member; Member.depiction_attribution member;
     Member.currentMember member; Member.updateDate member].

(** The row of [id] reads, column by column, what the payload carries. *)
Definition stores_member (tb : tables) (member : Member.t) (id : string) : Prop :=
  exists r, member_row tb id = Some r
            /\ forall c v, In (c, v) (member_cells member) -> field members r c = v.

(** The row of member [id] is as it was. *)
Definition member_kept (id : string) (tb tb' : tables) : Prop :=
  member_row tb' id = member_row tb id.

(** A member record without its id. *)
Definition anonymous_member : Member.t :=
  Member.mk None VNull VNull (VText "Ann") VNull (VText "Lee") VNull VNull VNull
            VNull VNull VNull VNull VNull (VBool true) VNull None None None None.

(** The member A000001 as the bill script stubs it, and as the member
    script reads it later. *)
Definition stub_tables : tables :=
  set_table empty_tables members
    [[VText "A000001"; VNull; VNull; VText "Ann"; VNull; VText "Lee"; VNull; VNull;
      VNull; VNull; VNull; VNull; VNull; VNull; VBool true; VNull]].

Definition full_member : Member.t :=
  Member.mk (Some "A000001") (VText "Ann B. Lee") (VText "Lee, Ann B.") (VText "Ann")
            (VText "B.") (VText "Lee") VNull VNull (VText "Ms.") (VInt 1970) VNull
            (VText "https://lee.house.gov") VNull VNull (VBool true)
            (VText "2025-03-01") None None (Some [house_term]) None.

(** ** The base upsert of committees *)

(** No stored committee has the code [p], and none names [p] as its
    parent. *)
Definition committee_unknown (p : string) (tb : tables) : Prop :=
  (forall r, In r (tb committees) -> field committees r "system_code" <> VText p)
  /\ (forall r, In r (tb committees) ->
                field committees r "parent_committee_system_code" <> VText p).

(** [`${committee.url}&api_key=${API_KEY}`] *)
Definition detail_url (API_KEY : string) (committee : Committee.t) : string :=
  template_str (Committee.url committee) ++ "&api_key=" ++ API_KEY.

(** A listing of two committees: HSIF, and the subcommittee HSAG00 whose
    parent HSAG is not listed. *)
Definition orphan_page : list Committee.t :=
  [Committee.mk (Some "HSIF") (Some "Energy and Commerce") (Some "House") VNull
                (Some "https://api.congress.gov/v3/committee/house/hsif?format=json")
                None None;
   Committee.mk (Some "HSAG00") (Some "Subcommittee") (Some "House") VNull
                (Some "https://api.congress.gov/v3/committee/house/hsag00?format=json")
                (Some (Some "HSAG")) None].

(** A listing whose first committee carries no system code, followed by
    HSAG. *)
Definition nameless_first_page : list Committee.t :=
  [Committee.mk None (Some "A committee") (Some "House") VNull
                (Some "https://api.congress.gov/v3/committee/house/none?format=json")
                None None;
   Committee.mk (Some "HSAG") (Some "Agriculture") (Some "House") VNull
                (Some "https://api.congress.gov/v3/committee/house/hsag?format=json")
                None None].

(** ** Paginated sub-endpoints *)

(** The URLs requested, oldest first. *)
Definition requested (log : list BillScript.net_event) : list string :=
  flat_map (fun e => match e with BillScript.Get url => [url] | BillScript.Wait _ => [] end)
           (rev log).

(** The answers to the requests [urls], numbered from [n] on. *)
Fixpoint answers {A} (fetch : nat -> string -> response (BillScript.Page.t A))
    (n : nat) (urls : list string) : list (response (BillScript.Page.t A)) :=
  match urls with
  | [] => []
  | url :: rest => fetch n url :: answers fetch (S n) rest
  end.

(** What an answer carries: the array of an ok body. *)
Definition carried {A} (a : response (BillScript.Page.t A)) : list A :=
  match a with
  | HttpOk data => match BillScript.Page.items data with Some l => l | None => [] end
  | _ => []
  end.

(** An answer after which the walk goes on: an ok body that names a next
    page, or a 429. *)
Definition goes_on {A} (a : response (BillScript.Page.t A)) : bool :=
  match a with
  | HttpOk data => truthy_str (BillScript.Page.next data)
  | HttpError status => Z.eqb status 429
  | HttpFailure => false
  end.

(** An endpoint that answers 429 to everything. *)
Definition always_limited {A} : nat -> string -> response (BillScript.Page.t A) :=
  fun _ _ => HttpError 429.

(** Two pages of actions, the second answered 429 once and then 500. *)
Definition two_pages : nat -> string -> response (BillScript.Page.t Z) :=
  fun n _ =>
    match n with
    | O => HttpOk (BillScript.Page.mk (Some [1; 2])
                     (Some "https://api.congress.gov/v3/bill/119/hr/1/actions?offset=2"))
    | S O => HttpError 429
    | _ => HttpError 500
    end.

(** ** Details of a batch of committees *)

(** What the base upsert stores of a committee: every cell but
    [is_current] and [updated_at]. *)
Definition committee_core (r : row) : list value :=
  map (field committees r)
      ["system_code"; "name"; "chamber"; "committee_type_code";
       "parent_committee_system_code"].

(** The committees, core by core, are as they were, and so is every table
    but [committees] and [committee_history]. *)
Definition details_scope (tb tb' : tables) : Prop :=
  map committee_core (tb' committees) = map committee_core (tb committees)
  /\ forall t, t <> committees -> t <> committee_history -> tb' t = tb t.

(** The named items of the histories that the details of [urls] carry. *)
Definition named_items (committee : CommitteeDetail.t) : nat :=
  match CommitteeDetail.history committee with
  | Some l => List.length (filter (fun h => truthy (HistoryItem.officialName h)) l)
  | None => O
  end.

Fixpoint named_history (get_detail : string -> response (option CommitteeDetail.t))
    (urls : list string) : nat :=
  match urls with
  | [] => O
  | url :: rest =>
      (match get_detail url with
       | HttpOk (Some committee) => named_items committee
       | _ => O
       end + named_history get_detail rest)%nat
  end.

(** Every stored history row has an id the sequence has passed. *)
Definition history_ids_issued (s : session) : Prop :=
  forall r, In r (tbl s committee_history) ->
            exists z, field committee_history r "id" = VInt z
                      /\ z <= seqs s committee_history.

(** The detail of HSAG, with one named history item and no reports. *)
Definition hsag_detail : CommitteeDetail.t :=
  CommitteeDetail.mk (Some "HSAG") (VBool true) (VText "2025-01-03")
    (Some [HistoryItem.mk (VText "Committee on Agriculture") (VText "1820-05-03") VNull])
    None.

Definition hsag_url : string :=
  "https://api.congress.gov/v3/committee/house/hsag?format=json&api_key=KEY".

Definition detail_endpoint : string -> response (option CommitteeDetail.t) :=
  fun url => if String.eqb url hsag_url then HttpOk (Some hsag_detail) else HttpFailure.

(** ** Listings walked page by page *)

(** The answers to the requests [urls], numbered from [n] on. *)
Fixpoint replies {B} (fetch : nat -> string -> response B) (n : nat)
    (urls : list string) : list (response B) :=
  match urls with
  | [] => []
  | url :: rest => fetch n url :: replies fetch (S n) rest
  end.

(** The entries of a page of a listing: the array of an ok body. *)
Definition listed {A} (a : response (option (list A) * option string)) : list A :=
  match a with
  | HttpOk (Some l, _) => l
  | _ => []
  end.

(** An answer after which a listing goes on: an ok body that names a next
    page. *)
Definition names_next {A} (a : response (option (list A) * option string)) : bool :=
  match a with
  | HttpOk (_, next) => truthy_str next
  | _ => false
  end.

(** The URL of a member's detail, as [fetchAllMemberUrls] builds it. *)
Definition member_url (API_KEY : string) (u : option string) : string :=
  template_str u ++ "&api_key=" ++ API_KEY.

(** A listing of members on three pages, the second answered 429. *)
Definition limited_listing
    : nat -> string -> response (option (list (option string)) * option string) :=
  fun n _ =>
    match n with
    | O => HttpOk (Some [Some "https://api.congress.gov/v3/member/A000370?format=json"],
                   Some "https://api.congress.gov/v3/member/congress/119?offset=250")
    | S O => HttpError 429
    | _ => HttpOk (Some [Some "https://api.congress.gov/v3/member/Z000017?format=json"],
                   None)
    end.

(** A listing of committees on two pages. *)
Definition committee_listing
    : nat -> string -> response (option (list Committee.t) * option string) :=
  fun n _ =>
    match n with
    | O => HttpOk (Some orphan_page,
                   Some "https://api.congress.gov/v3/committee/119?offset=250")
    | S O => HttpOk (None, Some "")
    | _ => HttpFailure
    end.

(** ** A batch and the planner run that follows *)

(** The UNIQUE constraint of bills, where it held, holds. *)
Definition unique_kept (tb tb' : tables) : Prop :=
  bills_unique tb -> bills_unique tb'.

(** The listed bill is a record of the batch. *)
Definition listed_in_batch (billDataBatch : list (option Bill.t))
    (l : BillScript.Listed.t) : Prop :=
  exists b, In (Some b) billDataBatch
            /\ Bill.congress b = VInt (BillScript.Listed.congress l)
            /\ Bill.type b = VText (BillScript.Listed.type l)
            /\ Bill.number b = VInt (BillScript.Listed.number l).

(** The listing of a later day: bill hr 1 and one more. *)
Definition next_listing (date_now : Z) : list BillScript.listing_page :=
  [(date_now,
    HttpOk (Some [BillScript.Listed.mk 119 "hr" 1
                    "https://api.congress.gov/v3/bill/119/hr/1?format=json";
                  BillScript.Listed.mk 119 "hr" 2
                    "https://api.congress.gov/v3/bill/119/hr/2?format=json"]))].

(** ** Reports fetched inside the batch *)

(** An upstream whose report endpoint drops every connection. *)
Definition dropping_upstream : upstream :=
  mkupstream
    (get_member sample_upstream) (fun _ => HttpFailure)
    (fun _ => []) (fun _ => []) (fun _ => []) (fun _ => [])
    (fun _ => []) (fun _ => []) (fun _ => []) (fun _ => []).

(** A bill that names one committee report, and a bill that names none. *)
Definition hrpt5 : ReportStub.t :=
  ReportStub.mk
    (Some "https://api.congress.gov/v3/committee-report/119/hrpt/5?format=json")
    (VText "H. Rept. 119-5").

Definition bill_with_report : Bill.t :=
  Bill.mk (VInt 119) (VText "hr") (VInt 2) VNull (VText "A bill with a report") VNull
          VNull None VNull VNull VNull None None None (Some [hrpt5])
          None None None None None None.

Definition plain_bill : Bill.t :=
  Bill.mk (VInt 119) (VText "hr") (VInt 1) VNull (VText "A bill") VNull
          VNull None VNull VNull VNull None None None None None None None None None None.

(** ** Titles written through related bills *)

(** The stored title of a bill, looked up by its natural key. *)
Definition bill_title (tb : tables) (congress type number : value) : option value :=
  option_map (fun r => field bills r "title") (bill_row tb congress type number).

(** The title the script sends for a related bill. *)
Definition stub_title (a : RelatedBill.t) : value :=
  js_or (RelatedBill.title a) (VText "Untitled Bill").

(** Two entries of a listing of related bills name the same bill. *)
Definition same_bill (a b : RelatedBill.t) : Prop :=
  RelatedBill.congress a = RelatedBill.congress b
  /\ RelatedBill.type a = RelatedBill.type b
  /\ RelatedBill.number a = RelatedBill.number b.

(** The bill that [rb] names is stored under the title that an entry of
    the listing gave it. *)
Definition titled_by (relatedBills : list RelatedBill.t) (rb : RelatedBill.t)
    (tb : tables) : Prop :=
  exists a, In a relatedBills /\ same_bill a rb
            /\ bill_title tb (RelatedBill.congress rb) (RelatedBill.type rb)
                          (RelatedBill.number rb)
               = Some (stub_title a).

Definition title_from_listing (relatedBills : list RelatedBill.t) (rb : RelatedBill.t)
    (tb tb' : tables) : Prop :=
  titled_by relatedBills rb tb -> titled_by relatedBills rb tb'.

(** Bills s 7 and hr 1 as stored by their own batches, and an upstream
    whose listing of related bills names s 7 without a title. *)
Definition titled_tables : tables :=
  set_table empty_tables bills
    [[VInt 1; VInt 119; VText "s"; VInt 7; VText "Senate"; VText "Clean Water Act";
      VNull; VNull; VNull; VBool false; VNull; VNull; VNull; VTime (8 * day)];
     [VInt 2; VInt 119; VText "hr"; VInt 1; VText "House"; VText "A bill";
      VNull; VNull; VNull; VBool false; VNull; VNull; VNull; VTime (8 * day)]].

Definition untitled_related : RelatedBill.t :=
  RelatedBill.mk (VInt 119) (VText "s") (VInt 7) VNull
                 (Some [Relationship.mk (VText "Identical bill") (VText "CRS")]).

Definition untitled_upstream : upstream :=
  mkupstream
    (get_member sample_upstream) (get_report sample_upstream)
    (fun _ => []) (fun _ => []) (fun _ => [])
    (fun _ => [untitled_related])
    (fun _ => []) (fun _ => []) (fun _ => []) (fun _ => []).

(** ** Answers that skip *)

(** A detail answer after which [processCommitteeDetailsBatch] moves on to
    the next URL: a status that is not ok, or an ok body without a
    committee. *)
Definition detail_skipped (get_detail : string -> response (option CommitteeDetail.t))
    (url : string) : bool :=
  match get_detail url with
  | HttpError _ => true
  | HttpOk None => true
  | _ => false
  end.

(** The detail of HSAG, and 404 for every other URL. *)
Definition refusing_endpoint : string -> response (option CommitteeDetail.t) :=
  fun url => if String.eqb url hsag_url then HttpOk (Some hsag_detail) else HttpError 404.

(** A report stub that the batch writer passes over: no URL, an answer
    that is not ok, or an ok body without a report. *)
Definition report_skipped (up : upstream) (stub : ReportStub.t) : bool :=
  match ReportStub.url stub with
  | None => true
  | Some url =>
      if String.eqb url "" then true
      else match get_report up url with
           | HttpError _ => true
           | HttpOk None => true
           | _ => false
           end
  end.

(** The bill without the report stubs that are passed over. *)
Definition without_skipped_reports (up : upstream) (b : Bill.t) : Bill.t :=
  Bill.mk (Bill.congress b) (Bill.type b) (Bill.number b) (Bill.originChamber b)
          (Bill.title b) (Bill.introducedDate b) (Bill.policyArea_name b)
          (Bill.sponsors b) (Bill.constitutionalAuthorityStatementText b)
          (Bill.updateDate b) (Bill.updateDateIncludingText b)
          (Bill.actions_url b) (Bill.committees_url b) (Bill.cosponsors_url b)
          (option_map (filter (fun stub => negb (report_skipped up stub)))
                      (Bill.committeeReports b))
          (Bill.relatedBills_url b) (Bill.summaries_url b) (Bill.subjects_url b)
          (Bill.titles_url b) (Bill.textVersions_url b) (Bill.cboCostEstimates b).


(* ================================================================== *)
(** * 13. Rows, keys and the effect of a statement *)
(* ================================================================== *)

Lemma value_eqb_eq (a b : value) : value_eqb a b = true <-> a = b.
Proof.
  destruct a, b; simpl; split; intros H; try discriminate; try reflexivity;
    try (apply Z.eqb_eq in H; congruence);
    try (apply String.eqb_eq in H; congruence);
    try (apply Bool.eqb_prop in H; congruence);
    injection H as ->;
    auto using Z.eqb_refl, String.eqb_refl, Bool.eqb_reflx.
Qed.

Lemma value_eqb_refl (a : value) : value_eqb a a = true.
Proof. apply value_eqb_eq. reflexivity. Qed.

Lemma value_eqb_sym (a b : value) : value_eqb a b = value_eqb b a.
Proof.
  destruct (value_eqb a b) eqn:E.
  - apply value_eqb_eq in E. subst. symmetry. apply value_eqb_refl.
  - destruct (value_eqb b a) eqn:E'; [|reflexivity].
    apply value_eqb_eq in E'. subst. rewrite value_eqb_refl in E. discriminate.
Qed.

Lemma table_eqb_refl (t : table_name) : table_eqb t t = true.
Proof. unfold table_eqb. destruct (table_name_eq_dec t t); congruence. Qed.

Lemma table_eqb_neq (t u : table_name) : t <> u -> table_eqb t u = false.
Proof. unfold table_eqb. destruct (table_name_eq_dec t u); congruence. Qed.

Lemma set_table_same (tb : tables) (t : table_name) (rows : list row) :
  set_table tb t rows t = rows.
Proof. unfold set_table. rewrite table_eqb_refl. reflexivity. Qed.

Lemma set_table_other (tb : tables) (t u : table_name) (rows : list row) :
  t <> u -> set_table tb t rows u = tb u.
Proof. intros H. unfold set_table. rewrite table_eqb_neq; auto. Qed.

Lemma nth_set_nth_same (i : nat) (v : value) (r : row) :
  nth i (set_nth i v r) VNull = v.
Proof.
  revert r. induction i as [|i IH]; intros [|x r]; simpl; auto.
Qed.

Lemma nth_set_nth_other (i j : nat) (v : value) (r : row) :
  i <> j -> nth j (set_nth i v r) VNull = nth j r VNull.
Proof.
  revert j r. induction i as [|i IH]; intros [|j] [|x r] H; simpl; auto;
    try congruence.
  - destruct j; reflexivity.
  - rewrite IH by congruence. destruct j; reflexivity.
Qed.

Lemma col_index_name (cs : list column) (c c' : string) (i : nat) :
  col_index cs c = Some i -> col_index cs c' = Some i -> c = c'.
Proof.
  revert i. induction cs as [|k cs IH]; simpl; intros i; [discriminate|].
  destruct (String.eqb (cname k) c) eqn:E1, (String.eqb (cname k) c') eqn:E2.
  - intros _ _. apply String.eqb_eq in E1, E2. congruence.
  - intros [= <-]. destruct (col_index cs c'); discriminate.
  - destruct (col_index cs c); [|discriminate]. intros [= <-]. discriminate.
  - destruct (col_index cs c) as [a|]; [|discriminate].
    destruct (col_index cs c') as [b|]; [|discriminate].
    simpl. intros [= <-] [= ->]. eauto.
Qed.

(** Reading a cell after a write to the same column... *)
Lemma field_set_same (t : table_name) (r : row) (c : string) (v : value) :
  col_index (columns (schema_of t)) c <> None ->
  field t (set_field t r c v) c = v.
Proof.
  unfold field, set_field.
  destruct (col_index (columns (schema_of t)) c) as [i|]; [|congruence].
  intros _. apply nth_set_nth_same.
Qed.

(** ... and to another one. *)
Lemma field_set_other (t : table_name) (r : row) (c c' : string) (v : value) :
  c <> c' -> field t (set_field t r c v) c' = field t r c'.
Proof.
  intros H. unfold field, set_field.
  destruct (col_index (columns (schema_of t)) c) as [i|] eqn:E; [|reflexivity].
  destruct (col_index (columns (schema_of t)) c') as [j|] eqn:E'; [|reflexivity].
  apply nth_set_nth_other. intros ->. apply H. eapply col_index_name; eauto.
Qed.

Lemma split_conflict_some (p : row -> bool) (rows before after : list row) (x : row) :
  split_conflict p rows = Some (before, x, after) ->
  rows = (before ++ x :: after)%list /\ p x = true
  /\ forall r, In r before -> p r = false.
Proof.
  revert before. induction rows as [|r rows IH]; simpl; intros before; [discriminate|].
  destruct (p r) eqn:E.
  - intros [= <- <- <-]. simpl. intuition.
  - destruct (split_conflict p rows) as [[[a y] b]|]; [|discriminate].
    intros [= <- <- <-]. destruct (IH a eq_refl) as (-> & Hy & Ha).
    repeat split; auto. intros r' [<-|Hin]; auto.
Qed.

Lemma split_conflict_none (p : row -> bool) (rows : list row) :
  split_conflict p rows = None -> forall r, In r rows -> p r = false.
Proof.
  induction rows as [|r rows IH]; simpl; [tauto|].
  destruct (p r) eqn:E; [discriminate|].
  destruct (split_conflict p rows) as [[[a y] b]|]; [discriminate|].
  intros _ r' [<-|Hin]; auto.
Qed.

Lemma exec_insert_effect (t : table_name) names vals oc tb sq sq' tb' ids :
  exec_insert t names vals oc tb sq = (sq', inr (tb', ids)) ->
  insert_effect t (build_row t names vals (sq t + 1)) oc tb tb' ids.
Proof.
  unfold exec_insert.
  set (new := build_row t names vals (sq t + 1)).
  destruct (not_null_violation t new) eqn:Enn; [discriminate|].
  destruct (split_conflict (conflicts t (arbiters t oc) new) (tb t))
    as [[[before old] after]|] eqn:Esp.
  - apply split_conflict_some in Esp. destruct Esp as (Hrows & Hold & Hbefore).
    destruct oc as [target|k sets].
    + intros [= _ <- <-]. eapply ins_nothing; try reflexivity; [|exact Hold].
      rewrite Hrows. apply in_elt.
    + destruct (not_null_violation t (apply_sets t sets old new)) eqn:Enn'; [discriminate|].
      destruct (unique_violation t (apply_sets t sets old new) (before ++ after));
        [discriminate|].
      destruct (fk_violation _ t _ (apply_sets t sets old new)) eqn:Efk; [discriminate|].
      intros [= _ <- <-]. eapply ins_updated; eauto.
  - destruct (unique_violation t new (tb t)); [discriminate|].
    destruct (fk_violation _ t _ new) eqn:Efk; [discriminate|].
    intros [= _ <- <-]. apply ins_inserted; auto.
    apply split_conflict_none. exact Esp.
Qed.

Lemma exec_insert_error (t : table_name) names vals oc tb sq sq' e :
  exec_insert t names vals oc tb sq = (sq', inl e) ->
  (exists c, e = NotNullViolation t c)
  \/ (exists k, e = UniqueViolation t k)
  \/ (exists c, e = ForeignKeyViolation t c
                /\ insert_fk_error t (build_row t names vals (sq t + 1)) oc tb c).
Proof.
  unfold exec_insert.
  set (new := build_row t names vals (sq t + 1)).
  destruct (not_null_violation t new) eqn:Enn; [intros [= _ <-]; eauto|].
  destruct (split_conflict (conflicts t (arbiters t oc) new) (tb t))
    as [[[before old] after]|] eqn:Esp.
  - apply split_conflict_some in Esp. destruct Esp as (Hrows & Hold & Hbefore).
    destruct oc as [target|k sets]; [discriminate|].
    destruct (not_null_violation t (apply_sets t sets old new));
      [intros [= _ <-]; eauto|].
    destruct (unique_violation t (apply_sets t sets old new) (before ++ after));
      [intros [= _ <-]; eauto|].
    destruct (fk_violation _ t _ (apply_sets t sets old new)) eqn:Efk; [|discriminate].
    intros [= _ <-]. right. right. eexists. split; [reflexivity|].
    eapply fk_on_update; eauto.
  - destruct (unique_violation t new (tb t)); [intros [= _ <-]; eauto|].
    destruct (fk_violation _ t _ new) eqn:Efk; [|discriminate].
    intros [= _ <-]. right. right. eexists. split; [reflexivity|].
    apply fk_on_insert. exact Efk.
Qed.

(** A statement on one table leaves the others alone. *)
Lemma insert_effect_other (t u : table_name) new oc tb tb' ids :
  insert_effect t new oc tb tb' ids -> t <> u -> tb' u = tb u.
Proof.
  intros [target old _ _ _ -> _|before after old k sets _ _ _ _ _ -> _ _|_ _ -> _ _] H;
    auto using set_table_other.
Qed.

Lemma exec_update_other (t u : table_name) sets wh tb sq sq' tb' a :
  exec_update t sets wh tb sq = (sq', inr (tb', a)) -> t <> u -> tb' u = tb u.
Proof.
  unfold exec_update.
  destruct (update_rows t sets wh [] (tb t)) as [e|[ch rows]]; [discriminate|].
  destruct (first_fk_violation _ t ch); [discriminate|].
  intros [= _ <- _] H. apply set_table_other, H.
Qed.

Lemma exec_select_same (t : table_name) wh tb sq sq' tb' rows :
  exec_select t wh tb sq = (sq', inr (tb', rows)) ->
  tb' = tb /\ rows = filter wh (tb t).
Proof. unfold exec_select. intros [= _ <- <-]. auto. Qed.

Lemma update_rows_map (t : table_name) sets wh (before after : list row) ch rows :
  update_rows t sets wh before after = inr (ch, rows) ->
  rows = (before ++ map (fun r => if wh r then update_row t sets r else r) after)%list.
Proof.
  revert before ch rows. induction after as [|r rest IH]; simpl; intros before ch rows.
  - intros [= _ <-]. rewrite app_nil_r. reflexivity.
  - destruct (wh r).
    + destruct (not_null_violation t (update_row t sets r)); [discriminate|].
      destruct (unique_violation t (update_row t sets r) (before ++ rest));
        [discriminate|].
      destruct (update_rows t sets wh (before ++ [update_row t sets r]) rest)
        as [e|[ch' rows']] eqn:E; [discriminate|].
      intros [= _ <-]. rewrite (IH _ _ _ E), <- app_assoc. reflexivity.
    + intros E. rewrite (IH _ _ _ E), <- app_assoc. reflexivity.
Qed.

Lemma exec_update_effect (t : table_name) sets wh tb sq sq' tb' a :
  exec_update t sets wh tb sq = (sq', inr (tb', a)) ->
  tb' = set_table tb t (map (fun r => if wh r then update_row t sets r else r) (tb t)).
Proof.
  unfold exec_update.
  destruct (update_rows t sets wh [] (tb t)) as [e|[ch rows]] eqn:E; [discriminate|].
  destruct (first_fk_violation _ t ch); [discriminate|].
  intros [= _ <- _]. apply update_rows_map in E. rewrite E. reflexivity.
Qed.

Section QueryResults.

Variable fault : nat -> bool.

(** A query that returns was executed, on a connection that is not in the
    aborted state, and leaves it so. *)
Lemma client_query_ret {A} (q : tables -> sequences -> stmt_result A) s a s' :
  client_query fault q s = (Ret a, s') ->
  exists sq', q (tbl s) (seqs s) = (sq', inr (tbl s', a)) /\ failed s' = false
              /\ snap s' = snap s.
Proof.
  unfold client_query, raise.
  destruct (failed s); [discriminate|].
  destruct (fault (nstmt s)); [discriminate|].
  destruct (q (tbl s) (seqs s)) as [sq [e|[tb x]]]; [discriminate|].
  intros [= <- <-]. simpl. eauto.
Qed.

Lemma insert_ret t names vals oc s a s' :
  insert_ fault t names vals oc s = (Ret a, s') ->
  exists ids, insert_effect t (build_row t names vals (seqs s t + 1)) oc
                            (tbl s) (tbl s') ids
              /\ failed s' = false /\ snap s' = snap s.
Proof.
  unfold insert_, bind.
  destruct (client_query fault (exec_insert t names vals oc) s) as [[ids|e] s1] eqn:E;
    [|discriminate].
  intros [= _ <-]. apply client_query_ret in E. destruct E as (sq' & E & Hf & Hs).
  apply exec_insert_effect in E. eauto.
Qed.

Lemma insert_returning_ret t names vals oc s ids s' :
  insert_returning fault t names vals oc s = (Ret ids, s') ->
  insert_effect t (build_row t names vals (seqs s t + 1)) oc (tbl s) (tbl s') ids
  /\ failed s' = false /\ snap s' = snap s.
Proof.
  intros E. apply client_query_ret in E. destruct E as (sq' & E & Hf & Hs).
  apply exec_insert_effect in E. auto.
Qed.

End QueryResults.

(* ================================================================== *)
(** * 13a. Relations kept by a script *)
(* ================================================================== *)

Section Respects.

Variable fault : nat -> bool.
Context {R : tables -> tables -> Prop} `{HR : TableOrder R}.
Context {focus : table_name -> bool} `{HF : Focused focus R}.

Lemma respects_ret {A} (a : A) : respects R (ret a).
Proof. intros s r s' [= _ <-]. apply R_refl. Qed.

Lemma respects_throw {A} (e : js_error) : respects R (@throw A e).
Proof. intros s r s' [= _ <-]. apply R_refl. Qed.

Lemma respects_bind {A B} (m : M A) (f : A -> M B) :
  respects R m -> (forall a, respects R (f a)) -> respects R (bind m f).
Proof.
  intros Hm Hf s r s'. unfold bind.
  destruct (m s) as [[a|e] s1] eqn:E; intros H.
  - eapply R_trans; [eapply Hm; eauto|eapply Hf; eauto].
  - injection H as _ <-. eapply Hm; eauto.
Qed.

Lemma respects_try_catch {A} (m : M A) (h : js_error -> M A) :
  respects R m -> (forall e, respects R (h e)) -> respects R (try_catch m h).
Proof.
  intros Hm Hh s r s'. unfold try_catch.
  destruct (m s) as [[a|e] s1] eqn:E; intros H.
  - injection H as _ <-. eapply Hm; eauto.
  - eapply R_trans; [eapply Hm; eauto|eapply Hh; eauto].
Qed.

Lemma respects_for_of {A} (l : list A) (f : A -> M unit) :
  (forall x, respects R (f x)) -> respects R (for_of l f).
Proof.
  intros Hf. induction l as [|x l IH]; simpl.
  - apply respects_ret.
  - apply respects_bind; auto.
Qed.

Lemma respects_when (b : bool) (m : M unit) : respects R m -> respects R (when b m).
Proof. destruct b; simpl; auto. intros _. apply respects_ret. Qed.

Lemma respects_first_id (ids : list value) : respects R (first_id ids).
Proof. destruct ids; simpl; [apply respects_throw|apply respects_ret]. Qed.

Lemma respects_query {A} (q : tables -> sequences -> stmt_result A) :
  (forall tb sq sq' tb' a, q tb sq = (sq', inr (tb', a)) -> R tb tb') ->
  respects R (client_query fault q).
Proof.
  intros Hq s r s'. unfold client_query, raise.
  destruct (failed s); [intros [= _ <-]; apply R_refl|].
  destruct (fault (nstmt s)); [intros [= _ <-]; apply R_refl|].
  destruct (q (tbl s) (seqs s)) as [sq [e|[tb a]]] eqn:E.
  - intros [= _ <-]. apply R_refl.
  - intros [= _ <-]. simpl. eapply Hq; eauto.
Qed.

Lemma respects_insert_returning t names vals oc :
  (forall tb n tb' ids,
      insert_effect t (build_row t names vals n) oc tb tb' ids -> R tb tb') ->
  respects R (insert_returning fault t names vals oc).
Proof.
  intros H. apply respects_query. intros tb sq sq' tb' ids E.
  apply exec_insert_effect in E. eapply H; eauto.
Qed.

Lemma respects_insert t names vals oc :
  (forall tb n tb' ids,
      insert_effect t (build_row t names vals n) oc tb tb' ids -> R tb tb') ->
  respects R (insert_ fault t names vals oc).
Proof.
  intros H. apply respects_bind.
  - apply respects_insert_returning, H.
  - intros; apply respects_ret.
Qed.

Lemma respects_select t wh : respects R (client_query fault (exec_select t wh)).
Proof.
  apply respects_query. intros tb sq sq' tb' rows E.
  apply exec_select_same in E. destruct E as [-> _]. apply R_refl.
Qed.

Lemma respects_insert_returning_unfocused t names vals oc :
  focus t = false -> respects R (insert_returning fault t names vals oc).
Proof.
  intros Hf. apply respects_insert_returning. intros tb n tb' ids E.
  apply R_local. intros u Hu. eapply insert_effect_other; eauto. congruence.
Qed.

Lemma respects_insert_unfocused t names vals oc :
  focus t = false -> respects R (insert_ fault t names vals oc).
Proof.
  intros Hf. apply respects_insert. intros tb n tb' ids E.
  apply R_local. intros u Hu. eapply insert_effect_other; eauto. congruence.
Qed.

Lemma respects_update_unfocused t sets wh :
  focus t = false -> respects R (client_query fault (exec_update t sets wh)).
Proof.
  intros Hf. apply respects_query. intros tb sq sq' tb' a E.
  apply R_local. intros u Hu. eapply exec_update_other; eauto. congruence.
Qed.

End Respects.

Create HintDb resp discriminated.

(** A statement on a table out of focus. *)
Ltac unfocused L :=
  lazymatch goal with
  | |- respects ?R _ =>
      let HR := constr:(_ : TableOrder R) in
      let HF := constr:(_ : Focused _ R) in
      apply (L _ R HR _ HF); reflexivity
  end.

(** Walks a script down to the statements on the tables in focus. *)
Ltac respects_step :=
  first
    [ solve [auto 1 with resp nocore]
    | lazymatch goal with
      | |- TableOrder _ => exact _
      | |- Focused _ _ => exact _
      | |- respects _ (ret _) => apply respects_ret
      | |- respects _ (throw _) => apply respects_throw
      | |- respects _ (first_id _) => apply respects_first_id
      | |- respects _ (client_query _ (exec_select _ _)) => apply respects_select
      | |- respects _ (client_query _ (exec_update _ _ _)) =>
          unfocused @respects_update_unfocused
      | |- respects _ (insert_ _ _ _ _ _) => unfocused @respects_insert_unfocused
      | |- respects _ (insert_returning _ _ _ _ _) =>
          unfocused @respects_insert_returning_unfocused
      | |- respects _ (when _ _) => apply respects_when
      | |- respects _ (bind _ _) => apply respects_bind
      | |- respects _ (try_catch _ _) => apply respects_try_catch
      | |- respects _ (for_of _ _) => apply respects_for_of
      | |- respects _ (match ?x with _ => _ end) => destruct x
      | |- respects _ _ => progress cbv beta
      | |- forall _, _ => intro
      end ].

Ltac respects_tac := repeat respects_step.

(* ================================================================== *)
(** * 13b. Chamber inference *)
(* ================================================================== *)

Section InferChamber.

Import BillScript.

Lemma inferChamber_given (stack : nat) (c : Committee.t) :
  truthy_str (Committee.chamber c) = true ->
  inferChamber (S stack) c = Committee.chamber c.
Proof. intros H. simpl. rewrite H. reflexivity. Qed.

(** One frame of [inferChamber] on a committee without chamber: the rule
    that applies, or else the recursive call of the log message. *)
Lemma inferChamber_frame (stack : nat) (c : Committee.t) :
  truthy_str (Committee.chamber c) = false ->
  inferChamber (S stack) c =
  match chamber_rule c with
  | Some v => Some v
  | None => match inferChamber stack c with
            | None => None
            | Some _ => Some "Unknown"
            end
  end.
Proof.
  intros H. cbn [inferChamber]. unfold chamber_rule. rewrite H. cbn [negb].
  repeat match goal with
         | |- (if ?b then _ else _) = _ => destruct b; [reflexivity|]
         end.
  reflexivity.
Qed.

Lemma chamber_rule_values (c : Committee.t) (v : string) :
  chamber_rule c = Some v -> v = "Senate" \/ v = "House" \/ v = "Joint".
Proof.
  unfold chamber_rule.
  repeat match goal with
         | |- (if ?b then _ else _) = _ -> _ => destruct b; [intros [= <-]; auto|]
         end.
  discriminate.
Qed.

(** Without a chamber and without a matching rule the recursion never
    bottoms out: every stack is exhausted. *)
Lemma inferChamber_no_rule (c : Committee.t) :
  truthy_str (Committee.chamber c) = false ->
  chamber_rule c = None ->
  forall stack, inferChamber stack c = None.
Proof.
  intros Hc Hr stack. induction stack as [|n IH]; [reflexivity|].
  rewrite (inferChamber_frame n c Hc), Hr, IH. reflexivity.
Qed.

(** When the chamber is absent and the function returns, a rule matched:
    the default 'Unknown' is never the result. *)
Lemma inferChamber_absent_returns (stack : nat) (c : Committee.t) (v : string) :
  truthy_str (Committee.chamber c) = false ->
  inferChamber stack c = Some v ->
  v = "Senate" \/ v = "House" \/ v = "Joint".
Proof.
  intros Hc. destruct stack as [|n]; [discriminate|].
  rewrite (inferChamber_frame n c Hc).
  destruct (chamber_rule c) as [u|] eqn:Hr.
  - intros [= <-]. eapply chamber_rule_values; eauto.
  - rewrite (inferChamber_no_rule c Hc Hr). discriminate.
Qed.

(** C10, on its failing input: a committee without chamber whose code and
    name match no rule.  Whatever the stack, [inferChamber] does not
    return: the call inside its own log message recurses on the same
    argument until the stack overflows, and 'Unknown' is never produced. *)
Theorem inferChamber_unmatched_overflows :
  forall stack : nat, inferChamber stack unmatched_committee = None.
Proof.
  apply inferChamber_no_rule; reflexivity.
Qed.

End InferChamber.

(* ================================================================== *)
(** * 14. Transactions: what holds between BEGIN and COMMIT *)
(* ================================================================== *)

Section TxnSafe.

Variable fault : nat -> bool.

Lemma step_ok_refl (t0 : tables) (s : session) :
  snap s = Some t0 -> step_ok t0 s s.
Proof.
  intros H. split; auto. exists []. split; [reflexivity|congruence].
Qed.

Lemma step_ok_trans (t0 : tables) (s1 s2 s3 : session) :
  step_ok t0 s1 s2 -> step_ok t0 s2 s3 -> step_ok t0 s1 s3.
Proof.
  intros [Ha Fa (na & Ea & Na) Ia] [Hb Fb (nb & Eb & Nb) Ib]. split; auto.
  exists (nb ++ na)%list. split.
  - rewrite Eb, Ea, app_assoc. reflexivity.
  - intros Hne. destruct nb as [|e nb].
    + apply Fb, Na. exact Hne.
    + apply Nb. discriminate.
  - congruence.
Qed.

Lemma safe_ret {A} (a : A) : txn_safe (ret a).
Proof. intros s r s' t0 Hs [= _ <-]. apply step_ok_refl, Hs. Qed.

Lemma safe_throw {A} (e : js_error) : txn_safe (@throw A e).
Proof. intros s r s' t0 Hs [= _ <-]. apply step_ok_refl, Hs. Qed.

Lemma safe_bind {A B} (m : M A) (f : A -> M B) :
  txn_safe m -> (forall a, txn_safe (f a)) -> txn_safe (bind m f).
Proof.
  intros Hm Hf s r s' t0 Hs. unfold bind.
  destruct (m s) as [[a|e] s1] eqn:E; intros H.
  - apply step_ok_trans with s1; [eapply Hm; eauto|].
    eapply Hf; [|exact H]. eapply ok_snap, Hm; eauto.
  - injection H as _ <-. eapply Hm; eauto.
Qed.

Lemma safe_try_catch {A} (m : M A) (h : js_error -> M A) :
  txn_safe m -> (forall e, txn_safe (h e)) -> txn_safe (try_catch m h).
Proof.
  intros Hm Hh s r s' t0 Hs. unfold try_catch.
  destruct (m s) as [[a|e] s1] eqn:E; intros H.
  - injection H as _ <-. eapply Hm; eauto.
  - apply step_ok_trans with s1; [eapply Hm; eauto|].
    eapply Hh; [|exact H]. eapply ok_snap, Hm; eauto.
Qed.

Lemma safe_for_of {A} (l : list A) (f : A -> M unit) :
  (forall x, txn_safe (f x)) -> txn_safe (for_of l f).
Proof.
  intros Hf. induction l as [|x l IH]; simpl.
  - apply safe_ret.
  - apply safe_bind; auto.
Qed.

Lemma safe_when (b : bool) (m : M unit) : txn_safe m -> txn_safe (when b m).
Proof. destruct b; simpl; auto. intros _. apply safe_ret. Qed.

Lemma safe_first_id (ids : list value) : txn_safe (first_id ids).
Proof. destruct ids; simpl; [apply safe_throw|apply safe_ret]. Qed.

Lemma safe_raise {A} (e : sql_error) (sq : sequences) : txn_safe (@raise A e sq).
Proof.
  intros s r s' t0 Hs [= _ <-]. split; simpl.
  - exact Hs.
  - rewrite Hs. reflexivity.
  - exists [e]. split; [reflexivity|]. rewrite Hs. reflexivity.
  - reflexivity.
Qed.

Lemma safe_query {A} (q : tables -> sequences -> stmt_result A) :
  txn_safe (client_query fault q).
Proof.
  intros s r s' t0 Hs. unfold client_query.
  destruct (failed s) eqn:Ef; [apply safe_raise; exact Hs|].
  destruct (fault (nstmt s)); [apply safe_raise; exact Hs|].
  destruct (q (tbl s) (seqs s)) as [sq [e|[tb a]]].
  - apply safe_raise; exact Hs.
  - intros [= _ <-]. split; simpl; auto; [congruence|].
    exists []. split; [reflexivity|congruence].
Qed.

(** The shape shared by the transactional functions of the scripts:
    [try { BEGIN; body; COMMIT } catch { ROLLBACK }]. *)
Lemma transaction_cases (body : M unit) (s s' : session) (r : outcome unit) :
  txn_safe body ->
  snap s = None ->
  try_catch (BEGIN fault ;; body ;; COMMIT fault) (fun _ => ROLLBACK) s = (r, s') ->
  r = Ret tt /\ snap s' = None /\ failed s' = false /\ txn_result body s s'.
Proof.
  intros Hb Hs. unfold try_catch, bind, BEGIN.
  destruct (fault (nstmt s)) eqn:Hf0.
  { unfold raise, ROLLBACK. simpl. rewrite Hs. simpl.
    intros [= <- <-]. simpl. repeat split; auto.
    apply txn_rolled_back; simpl; auto. }
  rewrite Hs. fold (begun s).
  destruct (body (begun s)) as [[[]|e] s2] eqn:E.
  - assert (Hok : step_ok (tbl s) (begun s) s2) by (eapply Hb; eauto; reflexivity).
    destruct Hok as [Hsn _ (new & Hnew & Hfail) Hh].
    unfold COMMIT. rewrite Hsn.
    destruct (failed s2) eqn:Ef2.
    + intros [= <- <-]. simpl. repeat split; auto.
      apply txn_rolled_back; simpl; auto. right. rewrite Hh. reflexivity.
    + destruct (fault (nstmt s2)).
      * unfold raise, ROLLBACK. simpl. rewrite Hsn. simpl.
        intros [= <- <-]. simpl. repeat split; auto.
        apply txn_rolled_back; simpl; auto. right. rewrite Hh. reflexivity.
      * intros [= <- <-]. simpl. repeat split; auto.
        apply txn_committed with s2; simpl; auto.
        -- destruct new; [exact Hnew|]. discriminate Hfail. discriminate.
        -- rewrite Hh. reflexivity.
  - assert (Hok : step_ok (tbl s) (begun s) s2) by (eapply Hb; eauto; reflexivity).
    destruct Hok as [Hsn _ _ Hh].
    unfold ROLLBACK. rewrite Hsn.
    intros [= <- <-]. simpl. repeat split; auto.
    apply txn_rolled_back; simpl; auto. right. rewrite Hh. reflexivity.
Qed.

Lemma safe_insert (t : table_name) names vals oc :
  txn_safe (insert_ fault t names vals oc).
Proof.
  apply safe_bind; [apply safe_query|intros; apply safe_ret].
Qed.

Lemma safe_insert_returning (t : table_name) names vals oc :
  txn_safe (insert_returning fault t names vals oc).
Proof. apply safe_query. Qed.

End TxnSafe.

Create HintDb txn discriminated.

(** Walks a script down to its statements; [txn] holds the scripts already
    walked. *)
Ltac txn_safe_step :=
  first
    [ solve [auto 1 with txn nocore]
    | lazymatch goal with
      | |- txn_safe (ret _) => apply safe_ret
      | |- txn_safe (throw _) => apply safe_throw
      | |- txn_safe (first_id _) => apply safe_first_id
      | |- txn_safe (client_query _ _) => apply safe_query
      | |- txn_safe (insert_ _ _ _ _ _) => apply safe_insert
      | |- txn_safe (insert_returning _ _ _ _ _) => apply safe_insert_returning
      | |- txn_safe (when _ _) => apply safe_when
      | |- txn_safe (bind _ _) => apply safe_bind
      | |- txn_safe (try_catch _ _) => apply safe_try_catch
      | |- txn_safe (for_of _ _) => apply safe_for_of
      | |- txn_safe (match ?x with _ => _ end) => destruct x
      | |- txn_safe _ => progress cbv beta
      | |- forall _, _ => intro
      end ].

Ltac txn_safe_tac := repeat txn_safe_step.

Section BillBatchSafe.

Import BillScript.

Variable fault : nat -> bool.
Variable up : upstream.
Variable now : Z.
Variable stack_limit : nat.

Lemma safe_ensureCommitteeExists (c : Committee.t) :
  txn_safe (ensureCommitteeExists fault stack_limit c).
Proof. unfold ensureCommitteeExists. txn_safe_tac. Qed.
Hint Resolve safe_ensureCommitteeExists : txn.

Lemma safe_fetch_missing_member (id : string) :
  txn_safe (fetch_missing_member fault up id).
Proof. unfold fetch_missing_member, insert_member_stub. txn_safe_tac. Qed.
Hint Resolve safe_fetch_missing_member : txn.

Lemma safe_missing_members (ids : list string) :
  txn_safe (missing_members fault ids).
Proof. unfold missing_members. txn_safe_tac. Qed.
Hint Resolve safe_missing_members : txn.

Lemma safe_ensure_sponsors (batch : list Bill.t) :
  txn_safe (ensure_sponsors fault up batch).
Proof.
  unfold ensure_sponsors.
  destruct (dedup _); txn_safe_tac.
Qed.
Hint Resolve safe_ensure_sponsors : txn.

Lemma safe_save_bill (bill : Bill.t) :
  txn_safe (save_bill fault up now stack_limit bill).
Proof.
  unfold save_bill, save_related_data, upsert_bill, with_url, with_list, save_actions,
    save_committees, save_cosponsors, save_reports, save_relatedBills, save_summaries,
    save_subjects, save_titles, save_textVersions, save_cboCostEstimates.
  txn_safe_tac.
Qed.
Hint Resolve safe_save_bill : txn.

Lemma safe_batch_body (billDataBatch : list (option Bill.t)) :
  txn_safe (batch_body fault up now stack_limit billDataBatch).
Proof.
  unfold batch_body. txn_safe_tac.
Qed.

End BillBatchSafe.

(* ================================================================== *)
(** * 15. The batch writer is all-or-nothing *)
(* ================================================================== *)

Section BatchWriter.

Import BillScript.

Variable fault : nat -> bool.
Variable up : upstream.
Variable now : Z.
Variable stack_limit : nat.

(** Every run of the batch writer on a connection fresh from the pool
    returns normally, closes its transaction, and either rolled back or
    committed what the body left. *)
Lemma saveBillBatchToDb_cases (billDataBatch : list (option Bill.t))
    (s s' : session) (r : outcome unit) :
  snap s = None ->
  saveBillBatchToDb fault up now stack_limit billDataBatch s = (r, s') ->
  r = Ret tt /\ snap s' = None /\
  (s' = s \/
   failed s' = false /\
   txn_result (batch_body fault up now stack_limit billDataBatch) s s').
Proof.
  intros Hs. unfold saveBillBatchToDb.
  destruct billDataBatch as [|b l].
  - intros [= <- <-]. auto.
  - intros H. apply transaction_cases in H; auto using safe_batch_body.
    destruct H as (? & ? & ? & ?). auto.
Qed.

(** C1. If any statement of a batch write fails (the server logs an error
    during the call), the tables afterwards are the tables before the
    batch began: no row of the batch is persisted.  The call still returns
    normally and leaves the connection outside any transaction, so the
    failure stays with this batch. *)
Theorem saveBillBatchToDb_atomic (billDataBatch : list (option Bill.t))
    (s s' : session) (r : outcome unit) :
  snap s = None ->
  saveBillBatchToDb fault up now stack_limit billDataBatch s = (r, s') ->
  errlog s' <> errlog s ->
  tbl s' = tbl s /\ r = Ret tt /\ snap s' = None /\ failed s' = false.
Proof.
  intros Hs H Herr.
  destruct (saveBillBatchToDb_cases _ _ _ _ Hs H) as (Hr & Hsn & [->|[Hfl Hc]]).
  - contradiction.
  - destruct Hc as [Ht _|s2 _ _ _ He _]; [auto|contradiction].
Qed.

End BatchWriter.

Lemma saveBillBatchToDb_atomic_witness :
  let run := BillScript.saveBillBatchToDb no_fault sample_upstream 1000 50
               sample_batch (connect empty_tables) in
  errlog (snd run) = [ForeignKeyViolation bills "sponsor_bioguide_id"]
  /\ tbl (snd run) = empty_tables.
Proof.
  intros run. split; [reflexivity|].
  apply (saveBillBatchToDb_atomic no_fault sample_upstream 1000 50 sample_batch
           (connect empty_tables) (snd run) (fst run)).
  - reflexivity.
  - apply surjective_pairing.
  - vm_compute. discriminate.
Defined.

(* ================================================================== *)
(** * 16. Chamber monotonicity *)
(* ================================================================== *)

Lemma find_app_cases {A} (p : A -> bool) (l1 l2 : list A) :
  find p (l1 ++ l2) = match find p l1 with Some x => Some x | None => find p l2 end.
Proof.
  induction l1 as [|x l1 IH]; simpl; [reflexivity|].
  destruct (p x); auto.
Qed.

(** Replacing a row by one with the same key keeps what a lookup by key
    reads in a cell, provided the cell is kept when the lookup stops at
    that row. *)
Lemma find_replace {B} (p : row -> bool) (g : row -> B)
    (before after : list row) (old upd : row) :
  p upd = p old ->
  (find p before = None -> p old = true -> g upd = g old) ->
  option_map g (find p (before ++ upd :: after)) =
  option_map g (find p (before ++ old :: after)).
Proof.
  intros Hp Hg. rewrite !find_app_cases.
  destruct (find p before); [reflexivity|]. simpl. rewrite Hp.
  destruct (p old); [|reflexivity]. simpl. f_equal. auto.
Qed.

#[local] Instance keeps_known_chambers_order : TableOrder keeps_known_chambers.
Proof.
  split.
  - intros tb code v H _. exact H.
  - intros a b c Hab Hbc code v H Hv. apply Hbc; auto.
Qed.

#[local] Instance keeps_known_chambers_focus :
  Focused (table_eqb committees) keeps_known_chambers.
Proof.
  intros tb tb' H code v Hs _. unfold stored_chamber, committee_row in *.
  rewrite (H committees (table_eqb_refl _)). exact Hs.
Qed.

Section ChamberMonotone.

Import BillScript.

Variable fault : nat -> bool.
Variable up : upstream.
Variable now : Z.
Variable stack_limit : nat.

(** The upsert of [ensureCommitteeExists]: its CASE keeps a known chamber. *)
Lemma committee_stub_keeps_chamber (code name chamber : value) :
  respects keeps_known_chambers
    (insert_ fault committees ["system_code"; "name"; "chamber"] [code; name; chamber]
       (DoUpdate ["system_code"]
          [("name", fun old ex => coalesce (field committees ex "name")
                                           (field committees old "name"));
           ("chamber", chamber_case)])).
Proof.
  apply respects_insert; [exact _|]. intros tb n tb' ids E.
  unfold keeps_known_chambers.
  intros c v Hc Hv.
  destruct E as [target old0 _ _ _ -> _|before after old k sets [= <- <-] Hrows _ _ _ -> _ _
                |_ _ -> _ _].
  - exact Hc.
  - unfold stored_chamber, committee_row in *.
    rewrite set_table_same. rewrite Hrows in Hc. rewrite <- Hc.
    apply find_replace with (g := fun r => field committees r "chamber").
    + cbn [apply_sets fold_left fst snd].
      rewrite !field_set_other by discriminate. reflexivity.
    + intros Hbefore Hold. cbn [apply_sets fold_left fst snd].
      rewrite field_set_same by discriminate.
      unfold chamber_case.
      destruct (value_eqb (field committees old "chamber") (VText "Unknown")) eqn:Eu;
        [|reflexivity].
      exfalso. apply value_eqb_eq in Eu.
      rewrite find_app_cases, Hbefore in Hc. simpl in Hc. rewrite Hold in Hc.
      simpl in Hc. congruence.
  - unfold stored_chamber, committee_row in *.
    rewrite set_table_same, find_app_cases.
    destruct (find _ (tb committees)); [exact Hc|discriminate].
Qed.

Hint Resolve committee_stub_keeps_chamber : resp.

Lemma ensureCommitteeExists_keeps_chamber (c : Committee.t) :
  respects keeps_known_chambers (ensureCommitteeExists fault stack_limit c).
Proof. unfold ensureCommitteeExists. respects_tac. Qed.
Hint Resolve ensureCommitteeExists_keeps_chamber : resp.

Lemma batch_body_keeps_chamber (billDataBatch : list (option Bill.t)) :
  respects keeps_known_chambers (batch_body fault up now stack_limit billDataBatch).
Proof.
  unfold batch_body, ensure_sponsors, save_bill, save_related_data, upsert_bill,
    with_url, with_list,
    save_actions, save_committees, save_cosponsors, save_reports, save_relatedBills,
    save_summaries, save_subjects, save_titles, save_textVersions,
    save_cboCostEstimates, missing_members, fetch_missing_member, insert_member_stub.
  respects_tac.
Qed.

(** Whatever a batch write of the bill script does, a committee whose
    stored chamber is not 'Unknown' keeps that chamber. *)
Lemma bill_batch_keeps_known_chamber
    (billDataBatch : list (option Bill.t)) (s s' : session) (r : outcome unit)
    (code : string) (v : value) :
  snap s = None ->
  saveBillBatchToDb fault up now stack_limit billDataBatch s = (r, s') ->
  stored_chamber (tbl s) code = Some v ->
  v <> VText "Unknown" ->
  stored_chamber (tbl s') code = Some v.
Proof.
  intros Hs H Hc Hv.
  destruct (saveBillBatchToDb_cases _ _ _ _ _ _ _ _ Hs H) as (_ & _ & [->|[_ Hres]]);
    auto.
  destruct Hres as [Ht _|s2 Hb _ Ht _ _].
  - unfold stored_chamber, committee_row. rewrite Ht. exact Hc.
  - apply batch_body_keeps_chamber in Hb. simpl in Hb.
    unfold stored_chamber, committee_row. rewrite Ht. apply Hb; auto.
Qed.

End ChamberMonotone.

(** C5, as stated, fails on the committee script: pass 1 of
    [upsertBaseCommittees] writes the chamber of the listing over the
    stored one, so a listing that says "Unknown" replaces "House". *)
Lemma upsertBaseCommittees_overwrites_known_chamber :
  let s' := snd (CommitteeScript.upsertBaseCommittees no_fault "KEY"
                   [unknown_chamber_payload] (connect house_committee_tables)) in
  stored_chamber house_committee_tables "HSAG" = Some (VText "House")
  /\ history s' = [Committed]
  /\ stored_chamber (tbl s') "HSAG" = Some (VText "Unknown")
  /\ ~ keeps_known_chambers house_committee_tables (tbl s').
Proof.
  intros s'. repeat split; try reflexivity.
  intros H. specialize (H "HSAG" (VText "House") eq_refl).
  assert (E : stored_chamber (tbl s') "HSAG" = Some (VText "Unknown")) by reflexivity.
  rewrite E in H. discriminate H. discriminate.
Qed.

(* ================================================================== *)
(** * 17. The two passes of the committee upsert *)
(* ================================================================== *)

Lemma sql_eq_true (a b : value) : sql_eq a b = true -> a = b /\ a <> VNull.
Proof.
  unfold sql_eq. intros H. apply andb_prop in H. destruct H as [H Hv].
  apply andb_prop in H. destruct H as [Ha _]. apply value_eqb_eq in Hv.
  split; [exact Hv|]. destruct a; [discriminate|..]; discriminate.
Qed.

Lemma sql_eq_text (a b : string) : sql_eq (VText a) (VText b) = String.eqb a b.
Proof. reflexivity. Qed.

Lemma conflicts_one_column (t : table_name) (c : string) (new old : row) :
  conflicts t [[c]] new old = sql_eq (field t new c) (field t old c).
Proof.
  unfold conflicts, key_match, sql_eq. simpl.
  rewrite !andb_true_r, orb_false_r. reflexivity.
Qed.

Lemma sql_eq_refl_text (a : string) : sql_eq (VText a) (VText a) = true.
Proof. unfold sql_eq. simpl. apply String.eqb_refl. Qed.

Lemma find_map_same_key (q : row -> bool) (f : row -> row) (l : list row) :
  (forall r, q (f r) = q r) -> find q (map f l) = option_map f (find q l).
Proof.
  intros H. induction l as [|r l IH]; simpl; [reflexivity|].
  rewrite H. destruct (q r); auto.
Qed.

#[local] Instance parents_untouched_order : TableOrder parents_untouched.
Proof.
  split.
  - intros tb code. destruct (stored_parent tb code); auto.
  - intros a b c Hab Hbc code. specialize (Hab code). specialize (Hbc code).
    destruct (stored_parent a code) as [w|].
    + rewrite Hab in Hbc. exact Hbc.
    + destruct Hab as [Hab|Hab]; rewrite Hab in Hbc; auto.
Qed.

#[local] Instance parents_untouched_focus :
  Focused (table_eqb committees) parents_untouched.
Proof.
  intros tb tb' H code. unfold stored_parent, committee_row.
  rewrite (H committees (table_eqb_refl _)).
  destruct (option_map _ _); auto.
Qed.

Section TwoPasses.

Import CommitteeScript.

Variable fault : nat -> bool.
Variable API_KEY : string.

(** The key of the row that pass 1 proposes for a committee. *)
Lemma upsert_row_key (c : Committee.t) (n : Z) :
  field committees
    (build_row committees ["system_code"; "name"; "chamber"; "committee_type_code"]
       [vtext (Committee.systemCode c); vtext (Committee.name c);
        vtext (Committee.chamber c); Committee.committeeTypeCode c] n)
    "system_code" = vtext (Committee.systemCode c).
Proof. reflexivity. Qed.

Lemma upsert_row_parent (c : Committee.t) (n : Z) :
  field committees
    (build_row committees ["system_code"; "name"; "chamber"; "committee_type_code"]
       [vtext (Committee.systemCode c); vtext (Committee.name c);
        vtext (Committee.chamber c); Committee.committeeTypeCode c] n)
    "parent_committee_system_code" = VNull.
Proof. reflexivity. Qed.

(** Pass 1 on one committee: parent pointers are not written. *)
Lemma upsert_committee_parents (c : Committee.t) :
  respects parents_untouched (upsert_committee fault c).
Proof.
  unfold upsert_committee. apply respects_insert; [exact _|].
  intros tb n tb' ids E code.
  destruct E as [target old0 [=] _ _ _ _|before after old k sets [= <- <-] Hrows _ _ _ -> _ _
                |_ _ -> _ _].
  - unfold stored_parent, committee_row. rewrite set_table_same, Hrows.
    match goal with
    | |- context [apply_sets committees ?sets old ?new] =>
        set (upd := apply_sets committees sets old new)
    end.
    rewrite (find_replace
               (fun r => sql_eq (field committees r "system_code") (VText code))
               (fun r => field committees r "parent_committee_system_code")
               before after old upd).
    + destruct (option_map _ _); auto.
    + subst upd. cbn [apply_sets fold_left fst snd excluded].
      rewrite !field_set_other by discriminate. reflexivity.
    + intros _ _. subst upd. cbn [apply_sets fold_left fst snd excluded].
      rewrite !field_set_other by discriminate. reflexivity.
  - unfold stored_parent, committee_row. rewrite set_table_same, find_app_cases.
    destruct (find _ (tb committees)) as [r0|]; simpl; [reflexivity|].
    destruct (sql_eq _ _); simpl; auto.
Qed.

(** Pass 1 on one committee, when the statement went through: its row is
    stored. *)
Lemma upsert_committee_stores (c : Committee.t) s s1 :
  upsert_committee fault c s = (Ret tt, s1) ->
  exists code, Committee.systemCode c = Some code
               /\ committee_row (tbl s1) code <> None.
Proof.
  unfold upsert_committee. intros E. apply insert_ret in E.
  destruct E as (ids & E & _).
  destruct E as [target old0 [=] _ _ _ _|before after old k sets [= <- <-] Hrows Hc _ _ -> _ _
                |_ Hnn -> _ _].
  - rewrite conflicts_one_column, upsert_row_key in Hc.
    apply sql_eq_true in Hc. destruct Hc as [Hc Hn].
    destruct (Committee.systemCode c) as [code|]; [|contradiction Hn; reflexivity].
    exists code. split; [reflexivity|].
    unfold committee_row. rewrite set_table_same, find_app_cases.
    destruct (find _ before); [discriminate|]. simpl.
    cbn [apply_sets fold_left fst snd excluded].
    rewrite !field_set_other by discriminate.
    rewrite <- Hc. simpl. rewrite sql_eq_refl_text. discriminate.
  - assert (Hex : exists code, Committee.systemCode c = Some code).
    { destruct (Committee.systemCode c) as [code|]; [eauto|].
      unfold not_null_violation in Hnn; simpl in Hnn; discriminate. }
    destruct Hex as [code Ec]. exists code. split; [exact Ec|].
    unfold committee_row. rewrite set_table_same, find_app_cases.
    destruct (find _ (tbl s committees)); [discriminate|]. simpl.
    rewrite upsert_row_key, Ec. simpl. rewrite sql_eq_refl_text. discriminate.
Qed.

Lemma parents_untouched_row (tb tb' : tables) (code : string) :
  parents_untouched tb tb' ->
  committee_row tb code <> None -> committee_row tb' code <> None.
Proof.
  intros H Hr. specialize (H code). unfold stored_parent in H.
  destruct (committee_row tb code); [|contradiction]. simpl in H.
  destruct (committee_row tb' code); [discriminate|discriminate].
Qed.

(** The statements of pass 1 are those of a for-of loop; the URL array is
    bookkeeping on the side. *)
Lemma pass1_for_of (l : list Committee.t) (acc urls : list string) s r s' :
  pass1 fault API_KEY l acc s = ((r, urls), s') ->
  for_of l (upsert_committee fault) s = (match r with Ret _ => Ret tt | Throw e => Throw e end, s').
Proof.
  revert acc s. induction l as [|c l IH]; simpl; intros acc s.
  - intros [= <- _ <-]. reflexivity.
  - unfold bind. destruct (upsert_committee fault c s) as [[[]|e] s1].
    + apply IH.
    + intros [= <- _ <-]. reflexivity.
Qed.

Lemma pass1_parents (l : list Committee.t) :
  respects parents_untouched (for_of l (upsert_committee fault)).
Proof.
  apply respects_for_of; try exact _. intros c. apply upsert_committee_parents.
Qed.

Lemma pass1_stores (l : list Committee.t) s s1 :
  for_of l (upsert_committee fault) s = (Ret tt, s1) ->
  forall c, In c l ->
  exists code, Committee.systemCode c = Some code
               /\ committee_row (tbl s1) code <> None.
Proof.
  revert s. induction l as [|c0 l IH]; simpl; intros s E c Hin; [contradiction|].
  unfold bind in E.
  destruct (upsert_committee fault c0 s) as [[[]|e] s0] eqn:E0; [|discriminate].
  destruct Hin as [<-|Hin]; [|eauto].
  destruct (upsert_committee_stores _ _ _ E0) as (code & Hc & Hrow).
  exists code. split; [exact Hc|].
  eapply parents_untouched_row; [|exact Hrow].
  eapply (pass1_parents l); eauto.
Qed.

(** Pass 2 on one committee, when its UPDATE went through. *)
Lemma set_parent_tables (c : Committee.t) s s1 :
  set_parent fault c s = (Ret tt, s1) ->
  tbl s1 =
  match declared_parent c with
  | Some p =>
      set_table (tbl s) committees
        (map (fun r => if sql_eq (field committees r "system_code")
                                 (vtext (Committee.systemCode c))
                       then set_field committees r "parent_committee_system_code"
                                      (VText p)
                       else r)
             (tbl s committees))
  | None => tbl s
  end.
Proof.
  unfold set_parent. destruct (declared_parent c) as [p|].
  - intros E. apply client_query_ret in E. destruct E as (sq' & E & _).
    apply exec_update_effect in E. exact E.
  - intros [= <-]. reflexivity.
Qed.

Lemma set_parent_lookup (c : Committee.t) s s1 (code : string) :
  set_parent fault c s = (Ret tt, s1) ->
  (committee_row (tbl s) code <> None -> committee_row (tbl s1) code <> None)
  /\ (Committee.systemCode c <> Some code ->
      stored_parent (tbl s1) code = stored_parent (tbl s) code)
  /\ (forall p, Committee.systemCode c = Some code -> declared_parent c = Some p ->
      committee_row (tbl s) code <> None ->
      stored_parent (tbl s1) code = Some (VText p)).
Proof.
  intros E. apply set_parent_tables in E.
  destruct (declared_parent c) as [p|].
  2:{ rewrite E. repeat split; auto. discriminate. }
  assert (Hrow : committee_row (tbl s1) code =
                 option_map (fun r => if sql_eq (field committees r "system_code")
                                                (vtext (Committee.systemCode c))
                                      then set_field committees r
                                             "parent_committee_system_code" (VText p)
                                      else r)
                            (committee_row (tbl s) code)).
  { unfold committee_row. rewrite E, set_table_same.
    apply find_map_same_key. intros r. destruct (sql_eq _ (vtext _)); [|reflexivity].
    rewrite field_set_other by discriminate. reflexivity. }
  unfold stored_parent. rewrite Hrow. split; [|split].
  - destruct (committee_row (tbl s) code); [discriminate|auto].
  - intros Hne. unfold committee_row.
    destruct (find _ (tbl s committees)) as [r|] eqn:Ef; [|reflexivity]. simpl.
    apply find_some in Ef. destruct Ef as [_ Hq]. apply sql_eq_true in Hq.
    destruct Hq as [Hq _]. rewrite Hq.
    destruct (Committee.systemCode c) as [code0|]; simpl; [|reflexivity].
    rewrite sql_eq_text. destruct (String.eqb code code0) eqn:Ee; [|reflexivity].
    apply String.eqb_eq in Ee. congruence.
  - intros p0 Hc [= <-] Hex. unfold committee_row in *.
    destruct (find _ (tbl s committees)) as [r|] eqn:Ef; [|contradiction]. simpl.
    apply find_some in Ef. destruct Ef as [_ Hq]. apply sql_eq_true in Hq.
    destruct Hq as [Hq _]. rewrite Hq, Hc. simpl. rewrite sql_eq_refl_text.
    rewrite field_set_same by discriminate. reflexivity.
Qed.

Lemma pass2_rows (l : list Committee.t) s s' (code : string) :
  pass2 fault l s = (Ret tt, s') ->
  committee_row (tbl s) code <> None -> committee_row (tbl s') code <> None.
Proof.
  unfold pass2. revert s. induction l as [|c l IH]; simpl; intros s.
  - intros [= <-]. auto.
  - unfold bind. destruct (set_parent fault c s) as [[[]|e] s1] eqn:E; [|discriminate].
    intros El Hrow. eapply IH; eauto. eapply set_parent_lookup; eauto.
Qed.

Lemma pass2_other (l : list Committee.t) s s' (code : string) :
  pass2 fault l s = (Ret tt, s') ->
  (forall c, In c l -> Committee.systemCode c <> Some code) ->
  stored_parent (tbl s') code = stored_parent (tbl s) code.
Proof.
  unfold pass2. revert s. induction l as [|c l IH]; simpl; intros s.
  - intros [= <-]. auto.
  - unfold bind. destruct (set_parent fault c s) as [[[]|e] s1] eqn:E; [|discriminate].
    intros El Hl. rewrite (IH _ El) by auto.
    eapply set_parent_lookup; eauto.
Qed.

Lemma pass2_links (l : list Committee.t) s s' (c : Committee.t) (code p : string) :
  pass2 fault l s = (Ret tt, s') ->
  NoDup (map Committee.systemCode l) ->
  In c l -> Committee.systemCode c = Some code -> declared_parent c = Some p ->
  committee_row (tbl s) code <> None ->
  stored_parent (tbl s') code = Some (VText p).
Proof.
  unfold pass2. revert s. induction l as [|c0 l IH]; simpl; intros s; [tauto|].
  unfold bind. destruct (set_parent fault c0 s) as [[[]|e] s1] eqn:E; [|discriminate].
  intros El Hnd [->|Hin] Hc Hp Hrow.
  - rewrite (pass2_other l s1 s' code El).
    + eapply set_parent_lookup; eauto.
    + intros c' Hin' Hc'. inversion Hnd as [|? ? Hnotin _]. apply Hnotin.
      rewrite Hc, <- Hc'. apply in_map. exact Hin'.
  - inversion Hnd as [|? ? Hnotin Hnd']. eapply IH; eauto.
    eapply set_parent_lookup; eauto.
Qed.

Lemma safe_two_passes (l : list Committee.t) :
  txn_safe (for_of l (upsert_committee fault) ;; pass2 fault l).
Proof. unfold upsert_committee, pass2, set_parent. txn_safe_tac. Qed.

(** The session [upsertBaseCommittees] leaves is that of one transaction
    around the two passes. *)
Lemma upsertBaseCommittees_session (l : list Committee.t) s :
  snd (upsertBaseCommittees fault API_KEY l s) =
  snd (try_catch (BEGIN fault ;;
                  (for_of l (upsert_committee fault) ;; pass2 fault l) ;;
                  COMMIT fault)
                 (fun _ => ROLLBACK) s).
Proof.
  unfold upsertBaseCommittees, try_catch, bind.
  destruct (BEGIN fault s) as [[[]|e] s0]; [|reflexivity].
  destruct (pass1 fault API_KEY l [] s0) as [[r urls] s1] eqn:E1.
  apply pass1_for_of in E1. rewrite E1.
  destruct r as [[]|e]; [|reflexivity]. simpl.
  destruct (pass2 fault l s1) as [[[]|e] s2]; [|reflexivity].
  destruct (COMMIT fault s2) as [[[]|e] s3]; reflexivity.
Qed.

Lemma history_not_extended (h : list txn_end) (e : txn_end) : h <> e :: h.
Proof.
  intros H. apply (f_equal (@List.length _)) in H. simpl in H. lia.
Qed.

(** C7, as amended.  When the two passes over one batch go through (the
    transaction commits) and the batch names each committee once, every
    committee of the batch that declares a parent present in the batch is
    stored with that parent, and the parent is stored too, wherever the
    two records stand in the input.  Pass 1 alone never writes a parent
    pointer: a stored pointer is kept and a new row gets NULL.  When the
    transaction does not commit, the tables are those before the call:
    what the two passes had written is gone. *)
Theorem upsertBaseCommittees_links_parents (committeesData : list Committee.t)
    (s : session) :
  let s' := snd (upsertBaseCommittees fault API_KEY committeesData s) in
  (snap s = None ->
   history s' = Committed :: history s ->
   NoDup (map Committee.systemCode committeesData) ->
   forall child parent code p,
     In child committeesData -> In parent committeesData ->
     Committee.systemCode child = Some code ->
     declared_parent child = Some p ->
     Committee.systemCode parent = Some p ->
     stored_parent (tbl s') code = Some (VText p)
     /\ committee_row (tbl s') code <> None
     /\ committee_row (tbl s') p <> None)
  /\ (forall s0 r urls s1,
        pass1 fault API_KEY committeesData [] s0 = ((r, urls), s1) ->
        parents_untouched (tbl s0) (tbl s1))
  /\ (snap s = None -> history s' <> Committed :: history s -> tbl s' = tbl s).
Proof.
  intros s'. split; [|split].
  3:{ intros Hs Hh. subst s'. rewrite upsertBaseCommittees_session in *.
      destruct (try_catch _ _ s) as [r s'] eqn:E. simpl in *.
      apply transaction_cases in E; auto using safe_two_passes.
      destruct E as (_ & _ & _ & [Ht _|s2 _ _ _ _ Hh']); [exact Ht|contradiction]. }
  - intros Hs Hh Hnd child parent code p Hchild Hparent Hcode Hp Hpc.
    subst s'. rewrite upsertBaseCommittees_session in *.
    destruct (try_catch _ _ s) as [r s'] eqn:E. simpl in *.
    apply transaction_cases in E; auto using safe_two_passes.
    destruct E as (_ & _ & _ & [_ [Hh'|Hh']|s2 Hb _ Ht _ _]).
    + rewrite Hh' in Hh. destruct (history_not_extended _ _ Hh).
    + rewrite Hh' in Hh. discriminate.
    + unfold bind in Hb.
      destruct (for_of committeesData (upsert_committee fault) (begun s))
        as [[[]|e] s1] eqn:E1; [|discriminate].
      destruct (pass1_stores _ _ _ E1 child Hchild) as (code' & Hc' & Hrow).
      assert (code' = code) by congruence. subst code'.
      destruct (pass1_stores _ _ _ E1 parent Hparent) as (p' & Hp' & Hprow).
      assert (p' = p) by congruence. subst p'.
      unfold stored_parent, committee_row in *. rewrite Ht.
      assert (Hlink := pass2_links _ _ _ child code p Hb Hnd Hchild Hcode Hp Hrow).
      unfold stored_parent, committee_row in Hlink. rewrite Hlink.
      repeat split.
      * intros Hn. rewrite Hn in Hlink. discriminate.
      * eapply pass2_rows; eauto.
  - intros s0 r urls s1 E. apply pass1_for_of in E.
    eapply pass1_parents; eauto.
Qed.

End TwoPasses.

Lemma upsertBaseCommittees_links_parents_witness :
  let s' := snd (CommitteeScript.upsertBaseCommittees no_fault "KEY" child_first_page
                   (connect empty_tables)) in
  stored_parent (tbl s') "HSAG00" = Some (VText "HSAG")
  /\ committee_row (tbl s') "HSAG00" <> None
  /\ committee_row (tbl s') "HSAG" <> None.
Proof.
  intros s'.
  apply (proj1 (upsertBaseCommittees_links_parents no_fault "KEY" child_first_page
                  (connect empty_tables)))
    with (child := nth 0 child_first_page unknown_chamber_payload)
         (parent := nth 1 child_first_page unknown_chamber_payload).
  - reflexivity.
  - reflexivity.
  - repeat constructor; simpl; intuition discriminate.
  - simpl; auto.
  - simpl; auto.
  - reflexivity.
  - reflexivity.
  - reflexivity.
Defined.

(** C7, as stated, fails: the two passes run in one transaction, so a
    committee elsewhere in the batch whose parent is neither listed nor
    stored makes the UPDATE of pass 2 violate the foreign key and takes
    the whole batch with it.  HSAG00 names HSAG, both are in the batch,
    and neither row exists afterwards. *)
Lemma orphan_in_batch_unlinks_listed_parent :
  let s' := snd (CommitteeScript.upsertBaseCommittees no_fault "KEY" child_first_and_orphan
                   (connect empty_tables)) in
  (exists child parent,
      In child child_first_and_orphan /\ In parent child_first_and_orphan
      /\ Committee.systemCode child = Some "HSAG00"
      /\ CommitteeScript.declared_parent child = Some "HSAG"
      /\ Committee.systemCode parent = Some "HSAG")
  /\ errlog s' = [ForeignKeyViolation committees "parent_committee_system_code"]
  /\ committee_row (tbl s') "HSAG00" = None
  /\ committee_row (tbl s') "HSAG" = None
  /\ stored_parent (tbl s') "HSAG00" = None.
Proof.
  intros s'. split; [|repeat split; reflexivity].
  exists (nth 0 child_first_and_orphan unknown_chamber_payload),
         (nth 1 child_first_and_orphan unknown_chamber_payload).
  simpl. repeat split; auto.
Qed.

(* ================================================================== *)
(** * 18. Rate limiting in the batch loops *)
(* ================================================================== *)

Lemma firstn_min {A} (k : nat) (l : list A) :
  firstn (Nat.min k (List.length l)) l = firstn k l.
Proof.
  destruct (Nat.le_gt_cases k (List.length l)) as [H|H].
  - rewrite Nat.min_l by exact H. reflexivity.
  - rewrite Nat.min_r by lia. rewrite !firstn_all2 by lia. reflexivity.
Qed.

(** [l.slice(i, i + k)] inside the list: [k] elements from [i] on, fewer
    at the end. *)
Lemma slice_batch {A} (l : list A) (i k : Z) :
  0 <= i <= Z.of_nat (List.length l) -> 0 <= k ->
  slice l i (i + k) = firstn (Z.to_nat k) (skipn (Z.to_nat i) l).
Proof.
  intros Hi Hk. unfold slice.
  destruct (Z.ltb_spec i 0) as [H|_]; [lia|].
  destruct (Z.ltb_spec (i + k) 0) as [H|_]; [lia|].
  rewrite (Z.min_l i) by lia.
  rewrite <- (firstn_min (Z.to_nat k)). f_equal.
  rewrite length_skipn. lia.
Qed.

Lemma fan_outs_turn (ms : Z) (batch : list string) (tr : list event) :
  fan_outs (Sleep ms :: FanOut batch :: tr) = (fan_outs tr ++ [batch])%list.
Proof.
  unfold fan_outs. simpl. rewrite !flat_map_app. simpl.
  rewrite !app_nil_r. reflexivity.
Qed.

Lemma chunks_fuel {A} (k : nat) (fuel fuel' : nat) (l : list A) :
  (0 < k)%nat -> (List.length l <= fuel)%nat -> (List.length l <= fuel')%nat ->
  chunks fuel k l = chunks fuel' k l.
Proof.
  intros Hk. revert fuel' l.
  induction fuel as [|fuel IH]; intros fuel' l H H'.
  - destruct l; [|simpl in H; lia]. destruct fuel'; reflexivity.
  - destruct l as [|x l]; [destruct fuel'; reflexivity|].
    destruct fuel' as [|fuel']; [simpl in H'; lia|].
    cbn [chunks]. f_equal.
    assert (Hl : (List.length (skipn k (x :: l)) <= List.length l)%nat).
    { rewrite length_skipn. cbn [List.length]. lia. }
    cbn [List.length] in H, H'. apply IH; lia.
Qed.

(** The first batch and the batches of what follows it. *)
Lemma batches_cons {A} (k : nat) (l : list A) :
  (0 < k)%nat -> l <> [] ->
  batches k l = firstn k l :: batches k (skipn k l).
Proof.
  intros Hk Hl. unfold batches. destruct l as [|x l]; [contradiction|].
  cbn [List.length chunks]. f_equal. apply chunks_fuel; auto.
  rewrite length_skipn. cbn [List.length]. lia.
Qed.

Lemma batches_nil {A} (k : nat) : batches k (@nil A) = [].
Proof. reflexivity. Qed.

(** The batches of a list are what is left of it, slice by slice. *)
Lemma batches_at {A} (k : Z) (l : list A) (i : Z) :
  0 < k -> 0 <= i < Z.of_nat (List.length l) ->
  batches (Z.to_nat k) (skipn (Z.to_nat i) l)
  = slice l i (i + k) :: batches (Z.to_nat k) (skipn (Z.to_nat (i + k)) l).
Proof.
  intros Hk Hi. rewrite batches_cons.
  - rewrite slice_batch by lia. f_equal. rewrite skipn_skipn. f_equal. f_equal. lia.
  - lia.
  - intros E. apply (f_equal (@List.length _)) in E.
    rewrite length_skipn in E. simpl in E. lia.
Qed.

Lemma round_not_limited {A} (get : nat -> string -> response (option A)) (n : nat)
    (urls : list string) :
  (forall url, get n url <> HttpError 429) ->
  existsb is_rate_limit (map (fun url => detail_of (get n url)) urls) = false.
Proof.
  intros H. induction urls as [|u urls IH]; [reflexivity|]. simpl. rewrite IH.
  specialize (H u). destruct (get n u) as [|status|body]; try reflexivity.
  simpl. destruct (Z.eqb_spec status 429) as [->|_]; [contradiction|reflexivity].
Qed.

Section BillTurns.

Import BillScript.

Variable fault : nat -> bool.
Variable now : nat -> Z.
Variable stack_limit : nat.
Variable get_bill : nat -> string -> response (option Bill.t).
Variable up : nat -> upstream.

(** Every turn of the loop, rate-limited or not, fans out the slice at its
    cursor and then pauses. *)
Lemma bill_iteration_trace (billUrls : list string) (i : Z) (w : world) :
  exists i' ms s',
    main_iteration fault now stack_limit get_bill up billUrls i w
    = (i', mkworld s' (Sleep ms :: FanOut (slice billUrls i (i + BATCH_SIZE)) :: trace w)
                   (S (round w))).
Proof.
  unfold main_iteration. destruct (existsb _ _); do 3 eexists; reflexivity.
Qed.

Lemma bill_iteration_unlimited (billUrls : list string) (i : Z) (w : world) :
  (forall url, get_bill (round w) url <> HttpError 429) ->
  exists s',
    main_iteration fault now stack_limit get_bill up billUrls i w
    = (i + BATCH_SIZE,
       mkworld s' (Sleep 2000 :: FanOut (slice billUrls i (i + BATCH_SIZE)) :: trace w)
               (S (round w))).
Proof.
  intros H. unfold main_iteration. rewrite (round_not_limited get_bill _ _ H).
  eexists. reflexivity.
Qed.

(** The trace of a loop that ends extends the trace it started from. *)
Lemma bill_loop_extends (fuel : nat) (billUrls : list string) (i : Z) (w final : world) :
  main_loop fault now stack_limit get_bill up fuel billUrls i w = Some final ->
  exists rest, fan_outs (trace final) = (fan_outs (trace w) ++ rest)%list.
Proof.
  revert i w. induction fuel as [|fuel IH]; intros i w; cbn [main_loop];
    destruct (i <? Z.of_nat (List.length billUrls)).
  - discriminate.
  - intros [= <-]. exists []. rewrite app_nil_r. reflexivity.
  - destruct (bill_iteration_trace billUrls i w) as (i' & ms & s' & ->).
    intros E. apply IH in E. destruct E as [rest E]. cbn [trace] in E.
    rewrite fan_outs_turn, <- app_assoc in E. eauto.
  - intros [= <-]. exists []. rewrite app_nil_r. reflexivity.
Qed.

(** From a round on from which no fetch is answered 429, the loop ends
    within one turn per batch left and fans out the batches left, one by
    one. *)
Lemma bill_loop_batches (fuel : nat) (billUrls : list string) (i : Z) (w : world) :
  unlimited_from get_bill (round w) ->
  0 <= i -> Z.of_nat (List.length billUrls) - i <= BATCH_SIZE * Z.of_nat fuel ->
  exists final,
    main_loop fault now stack_limit get_bill up fuel billUrls i w = Some final
    /\ fan_outs (trace final)
       = (fan_outs (trace w) ++ batches 15 (skipn (Z.to_nat i) billUrls))%list.
Proof.
  revert i w. unfold BATCH_SIZE.
  induction fuel as [|fuel IH]; intros i w Hget Hi Hfuel; cbn [main_loop].
  - destruct (Z.ltb_spec i (Z.of_nat (List.length billUrls))) as [H|H]; [lia|].
    exists w. split; [reflexivity|].
    rewrite skipn_all2 by lia. rewrite batches_nil, app_nil_r. reflexivity.
  - destruct (Z.ltb_spec i (Z.of_nat (List.length billUrls))) as [H|H].
    + destruct (bill_iteration_unlimited billUrls i w) as (s' & ->).
      { intros url. apply Hget. lia. }
      unfold BATCH_SIZE.
      destruct (IH (i + 15)
                  (mkworld s' (Sleep 2000 :: FanOut (slice billUrls i (i + 15)) :: trace w)
                           (S (round w)))) as (final & E & Hf); [|lia|lia|].
      { intros n url Hn. apply Hget. simpl in Hn. lia. }
      exists final. split; [exact E|]. rewrite Hf. cbn [trace].
      rewrite fan_outs_turn, <- app_assoc. f_equal.
      change 15%nat with (Z.to_nat 15). rewrite (batches_at 15 billUrls i) by lia.
      reflexivity.
    + exists w. split; [reflexivity|].
      rewrite skipn_all2 by lia. rewrite batches_nil, app_nil_r. reflexivity.
Qed.

End BillTurns.

Section MemberTurns.

Import MemberScript.

Variable fault : nat -> bool.
Variable get_member : nat -> string -> response (option Member.t).

Lemma member_iteration_trace (allMemberUrls : list string) (i : Z) (w : world) :
  exists i' ms s',
    main_iteration fault get_member allMemberUrls i w
    = (i', mkworld s' (Sleep ms :: FanOut (slice allMemberUrls i (i + BATCH_SIZE))
                                :: trace w)
                   (S (round w))).
Proof.
  unfold main_iteration. destruct (existsb _ _); do 3 eexists; reflexivity.
Qed.

Lemma member_iteration_unlimited (allMemberUrls : list string) (i : Z) (w : world) :
  (forall url, get_member (round w) url <> HttpError 429) ->
  exists s',
    main_iteration fault get_member allMemberUrls i w
    = (i + BATCH_SIZE,
       mkworld s' (Sleep 1000 :: FanOut (slice allMemberUrls i (i + BATCH_SIZE))
                              :: trace w)
               (S (round w))).
Proof.
  intros H. unfold main_iteration. rewrite (round_not_limited get_member _ _ H).
  eexists. reflexivity.
Qed.

Lemma member_loop_extends (fuel : nat) (allMemberUrls : list string) (i : Z)
    (w final : world) :
  main_loop fault get_member fuel allMemberUrls i w = Some final ->
  exists rest, fan_outs (trace final) = (fan_outs (trace w) ++ rest)%list.
Proof.
  revert i w. induction fuel as [|fuel IH]; intros i w; cbn [main_loop];
    destruct (i <? Z.of_nat (List.length allMemberUrls)).
  - discriminate.
  - intros [= <-]. exists []. rewrite app_nil_r. reflexivity.
  - destruct (member_iteration_trace allMemberUrls i w) as (i' & ms & s' & ->).
    intros E. apply IH in E. destruct E as [rest E]. cbn [trace] in E.
    rewrite fan_outs_turn, <- app_assoc in E. eauto.
  - intros [= <-]. exists []. rewrite app_nil_r. reflexivity.
Qed.

Lemma member_loop_batches (fuel : nat) (allMemberUrls : list string) (i : Z)
    (w : world) :
  unlimited_from get_member (round w) ->
  0 <= i -> Z.of_nat (List.length allMemberUrls) - i <= BATCH_SIZE * Z.of_nat fuel ->
  exists final,
    main_loop fault get_member fuel allMemberUrls i w = Some final
    /\ fan_outs (trace final)
       = (fan_outs (trace w) ++ batches 50 (skipn (Z.to_nat i) allMemberUrls))%list.
Proof.
  revert i w. unfold BATCH_SIZE.
  induction fuel as [|fuel IH]; intros i w Hget Hi Hfuel; cbn [main_loop].
  - destruct (Z.ltb_spec i (Z.of_nat (List.length allMemberUrls))) as [H|H]; [lia|].
    exists w. split; [reflexivity|].
    rewrite skipn_all2 by lia. rewrite batches_nil, app_nil_r. reflexivity.
  - destruct (Z.ltb_spec i (Z.of_nat (List.length allMemberUrls))) as [H|H].
    + destruct (member_iteration_unlimited allMemberUrls i w) as (s' & ->).
      { intros url. apply Hget. lia. }
      unfold BATCH_SIZE.
      destruct (IH (i + 50)
                  (mkworld s' (Sleep 1000 :: FanOut (slice allMemberUrls i (i + 50))
                                          :: trace w)
                           (S (round w)))) as (final & E & Hf); [|lia|lia|].
      { intros n url Hn. apply Hget. simpl in Hn. lia. }
      exists final. split; [exact E|]. rewrite Hf. cbn [trace].
      rewrite fan_outs_turn, <- app_assoc. f_equal.
      change 50%nat with (Z.to_nat 50). rewrite (batches_at 50 allMemberUrls i) by lia.
      reflexivity.
    + exists w. split; [reflexivity|].
      rewrite skipn_all2 by lia. rewrite batches_nil, app_nil_r. reflexivity.
Qed.

End MemberTurns.

Section RateLimit.

Variable fault : nat -> bool.
Variable now : nat -> Z.
Variable stack_limit : nat.
Variable get_bill : nat -> string -> response (option Bill.t).
Variable up : nat -> upstream.
Variable get_member : nat -> string -> response (option Member.t).

Lemma bill_iteration_rate_limited (billUrls : list string) (i : Z) (w : world) :
  rate_limited get_bill BillScript.BATCH_SIZE billUrls i w ->
  BillScript.main_iteration fault now stack_limit get_bill up billUrls i w =
  (i, cooled_down 3601000 (slice billUrls i (i + BillScript.BATCH_SIZE)) w).
Proof.
  unfold rate_limited, BillScript.main_iteration. intros ->.
  unfold cooled_down. simpl. f_equal. lia.
Qed.

Lemma member_iteration_rate_limited (allMemberUrls : list string) (i : Z) (w : world) :
  rate_limited get_member MemberScript.BATCH_SIZE allMemberUrls i w ->
  MemberScript.main_iteration fault get_member allMemberUrls i w =
  (i, cooled_down 10000 (slice allMemberUrls i (i + MemberScript.BATCH_SIZE)) w).
Proof.
  unfold rate_limited, MemberScript.main_iteration. intros ->.
  unfold cooled_down. simpl. f_equal. lia.
Qed.

(** A loop that ends after a rate-limited turn at [i] has fanned out the
    batch at [i] twice in a row. *)
Lemma bill_loop_retries (fuel : nat) (urls : list string) (i : Z) (w final : world) :
  rate_limited get_bill BillScript.BATCH_SIZE urls i w ->
  i < Z.of_nat (List.length urls) ->
  BillScript.main_loop fault now stack_limit get_bill up fuel urls i w = Some final ->
  exists rest,
    fan_outs (trace final)
    = (fan_outs (trace w)
       ++ slice urls i (i + BillScript.BATCH_SIZE)
       :: slice urls i (i + BillScript.BATCH_SIZE) :: rest)%list.
Proof.
  intros H Hi E. apply Z.ltb_lt in Hi.
  destruct fuel as [|fuel]; cbn [BillScript.main_loop] in E; rewrite Hi in E;
    [discriminate|].
  rewrite (bill_iteration_rate_limited urls i w H) in E.
  destruct fuel as [|fuel]; cbn [BillScript.main_loop] in E; rewrite Hi in E;
    [discriminate|].
  destruct (bill_iteration_trace fault now stack_limit get_bill up urls i
              (cooled_down 3601000 (slice urls i (i + BillScript.BATCH_SIZE)) w))
    as (i' & ms & s' & Et).
  rewrite Et in E. apply bill_loop_extends in E. destruct E as [rest E].
  exists rest. rewrite E. cbn [trace cooled_down].
  rewrite !fan_outs_turn, <- !app_assoc. reflexivity.
Qed.

Lemma member_loop_retries (fuel : nat) (urls : list string) (i : Z) (w final : world) :
  rate_limited get_member MemberScript.BATCH_SIZE urls i w ->
  i < Z.of_nat (List.length urls) ->
  MemberScript.main_loop fault get_member fuel urls i w = Some final ->
  exists rest,
    fan_outs (trace final)
    = (fan_outs (trace w)
       ++ slice urls i (i + MemberScript.BATCH_SIZE)
       :: slice urls i (i + MemberScript.BATCH_SIZE) :: rest)%list.
Proof.
  intros H Hi E. apply Z.ltb_lt in Hi.
  destruct fuel as [|fuel]; cbn [MemberScript.main_loop] in E; rewrite Hi in E;
    [discriminate|].
  rewrite (member_iteration_rate_limited urls i w H) in E.
  destruct fuel as [|fuel]; cbn [MemberScript.main_loop] in E; rewrite Hi in E;
    [discriminate|].
  destruct (member_iteration_trace fault get_member urls i
              (cooled_down 10000 (slice urls i (i + MemberScript.BATCH_SIZE)) w))
    as (i' & ms & s' & Et).
  rewrite Et in E. apply member_loop_extends in E. destruct E as [rest E].
  exists rest. rewrite E. cbn [trace cooled_down].
  rewrite !fan_outs_turn, <- !app_assoc. reflexivity.
Qed.

(** C6. When a detail fetch of the batch at cursor [i] answers 429, the
    turn of the loop records the fan-out and the cooldown, leaves the
    session (and with it every batch committed so far) as it was, and
    hands the same [i] to the next turn.  The loop then retries exactly
    that batch: whenever it ends, its trace shows the batch at [i] fanned
    out twice in a row; and when no fetch of a later round is answered
    429 it does end, within one more turn than there are URLs, having
    fanned out the batch at [i], the same batch again, and then the
    batches after it, each once.  This holds for the bill loop (batches of
    15, cooldown 3601000 ms) and for the member loop (batches of 50,
    cooldown 10000 ms). *)
Theorem rate_limited_batch_is_retried (urls : list string) (i : Z) (w : world) :
  (rate_limited get_bill BillScript.BATCH_SIZE urls i w ->
   let batch := slice urls i (i + BillScript.BATCH_SIZE) in
   let w' := cooled_down 3601000 batch w in
   BillScript.main_iteration fault now stack_limit get_bill up urls i w = (i, w')
   /\ tbl (sess w') = tbl (sess w)
   /\ history (sess w') = history (sess w)
   /\ (forall fuel,
        i < Z.of_nat (List.length urls) ->
        BillScript.main_loop fault now stack_limit get_bill up (S fuel) urls i w =
        BillScript.main_loop fault now stack_limit get_bill up fuel urls i w')
   /\ (forall fuel final,
        0 <= i < Z.of_nat (List.length urls) ->
        BillScript.main_loop fault now stack_limit get_bill up fuel urls i w
        = Some final ->
        exists rest,
          fan_outs (trace final) = (fan_outs (trace w) ++ batch :: batch :: rest)%list)
   /\ (0 <= i < Z.of_nat (List.length urls) ->
       unlimited_from get_bill (S (round w)) ->
       exists final,
         BillScript.main_loop fault now stack_limit get_bill up
           (S (List.length urls)) urls i w = Some final
         /\ fan_outs (trace final)
            = (fan_outs (trace w)
               ++ batch :: batch
               :: batches 15 (skipn (Z.to_nat (i + BillScript.BATCH_SIZE)) urls))%list))
  /\
  (rate_limited get_member MemberScript.BATCH_SIZE urls i w ->
   let batch := slice urls i (i + MemberScript.BATCH_SIZE) in
   let w' := cooled_down 10000 batch w in
   MemberScript.main_iteration fault get_member urls i w = (i, w')
   /\ tbl (sess w') = tbl (sess w)
   /\ history (sess w') = history (sess w)
   /\ (forall fuel,
        i < Z.of_nat (List.length urls) ->
        MemberScript.main_loop fault get_member (S fuel) urls i w =
        MemberScript.main_loop fault get_member fuel urls i w')
   /\ (forall fuel final,
        0 <= i < Z.of_nat (List.length urls) ->
        MemberScript.main_loop fault get_member fuel urls i w = Some final ->
        exists rest,
          fan_outs (trace final) = (fan_outs (trace w) ++ batch :: batch :: rest)%list)
   /\ (0 <= i < Z.of_nat (List.length urls) ->
       unlimited_from get_member (S (round w)) ->
       exists final,
         MemberScript.main_loop fault get_member (S (List.length urls)) urls i w
         = Some final
         /\ fan_outs (trace final)
            = (fan_outs (trace w)
               ++ batch :: batch
               :: batches 50 (skipn (Z.to_nat (i + MemberScript.BATCH_SIZE)) urls))%list)).
Proof.
  split; intros H batch w'.
  - pose proof (bill_iteration_rate_limited urls i w H) as E.
    assert (Hstep : forall fuel,
               i < Z.of_nat (List.length urls) ->
               BillScript.main_loop fault now stack_limit get_bill up (S fuel) urls i w =
               BillScript.main_loop fault now stack_limit get_bill up fuel urls i w').
    { intros fuel Hi. cbn [BillScript.main_loop]. apply Z.ltb_lt in Hi.
      rewrite Hi, E. destruct fuel; reflexivity. }
    split; [exact E|]. split; [reflexivity|]. split; [reflexivity|].
    split; [exact Hstep|]. split.
    + intros fuel final Hi Ef. apply (bill_loop_retries fuel urls i w final H); tauto.
    + intros Hi Hlater. rewrite Hstep by tauto.
      destruct (bill_loop_batches fault now stack_limit get_bill up
                  (List.length urls) urls i w') as (final & Ef & Hf).
      * exact Hlater.
      * tauto.
      * unfold BillScript.BATCH_SIZE. lia.
      * exists final. split; [exact Ef|]. rewrite Hf. subst w'. cbn [trace cooled_down].
        rewrite fan_outs_turn, <- app_assoc. f_equal. cbn [app]. f_equal.
        change 15%nat with (Z.to_nat 15).
        rewrite (batches_at 15 urls i) by (unfold BillScript.BATCH_SIZE; lia).
        reflexivity.
  - pose proof (member_iteration_rate_limited urls i w H) as E.
    assert (Hstep : forall fuel,
               i < Z.of_nat (List.length urls) ->
               MemberScript.main_loop fault get_member (S fuel) urls i w =
               MemberScript.main_loop fault get_member fuel urls i w').
    { intros fuel Hi. cbn [MemberScript.main_loop]. apply Z.ltb_lt in Hi.
      rewrite Hi, E. destruct fuel; reflexivity. }
    split; [exact E|]. split; [reflexivity|]. split; [reflexivity|].
    split; [exact Hstep|]. split.
    + intros fuel final Hi Ef. apply (member_loop_retries fuel urls i w final H); tauto.
    + intros Hi Hlater. rewrite Hstep by tauto.
      destruct (member_loop_batches fault get_member
                  (List.length urls) urls i w') as (final & Ef & Hf).
      * exact Hlater.
      * tauto.
      * unfold MemberScript.BATCH_SIZE. lia.
      * exists final. split; [exact Ef|]. rewrite Hf. subst w'. cbn [trace cooled_down].
        rewrite fan_outs_turn, <- app_assoc. f_equal. cbn [app]. f_equal.
        change 50%nat with (Z.to_nat 50).
        rewrite (batches_at 50 urls i) by (unfold MemberScript.BATCH_SIZE; lia).
        reflexivity.
Qed.

End RateLimit.

Lemma rate_limited_batch_is_retried_witness :
  rate_limited (@throttled_once Bill.t) BillScript.BATCH_SIZE sample_urls 15 fresh_world
  /\ BillScript.main_iteration no_fault (fun _ => 1000) 50 throttled_once
       (fun _ => sample_upstream) sample_urls 15 fresh_world
     = (15, cooled_down 3601000 (slice sample_urls 15 30) fresh_world)
  /\ (exists final,
        BillScript.main_loop no_fault (fun _ => 1000) 50 throttled_once
          (fun _ => sample_upstream) 21 sample_urls 15 fresh_world = Some final
        /\ fan_outs (trace final) = [skipn 15 sample_urls; skipn 15 sample_urls])
  /\ rate_limited (@throttled_once Member.t) MemberScript.BATCH_SIZE sample_urls 0
       fresh_world
  /\ MemberScript.main_iteration no_fault throttled_once sample_urls 0 fresh_world
     = (0, cooled_down 10000 (slice sample_urls 0 50) fresh_world)
  /\ (exists final,
        MemberScript.main_loop no_fault throttled_once 21 sample_urls 0 fresh_world
        = Some final
        /\ fan_outs (trace final) = [sample_urls; sample_urls]).
Proof.
  assert (Hb : rate_limited (@throttled_once Bill.t) BillScript.BATCH_SIZE
                 sample_urls 15 fresh_world) by reflexivity.
  assert (Hm : rate_limited (@throttled_once Member.t) MemberScript.BATCH_SIZE
                 sample_urls 0 fresh_world) by reflexivity.
  assert (Hlen : Z.of_nat (List.length sample_urls) = 20) by reflexivity.
  assert (Hlater : forall A, unlimited_from (@throttled_once A) 1).
  { intros A n url Hn. destruct n; [lia|discriminate]. }
  destruct (proj1 (rate_limited_batch_is_retried no_fault (fun _ => 1000) 50
                     throttled_once (fun _ => sample_upstream) throttled_once
                     sample_urls 15 fresh_world) Hb)
    as (Eb & _ & _ & _ & _ & Hbx).
  destruct (proj2 (rate_limited_batch_is_retried no_fault (fun _ => 1000) 50
                     throttled_once (fun _ => sample_upstream) throttled_once
                     sample_urls 0 fresh_world) Hm)
    as (Em & _ & _ & _ & _ & Hmx).
  split; [exact Hb|]. split; [exact Eb|]. split.
  - destruct Hbx as (final & Ef & Hf); [rewrite Hlen; lia|apply Hlater|].
    exists final. split; [exact Ef|]. rewrite Hf. reflexivity.
  - split; [exact Hm|]. split; [exact Em|].
    destruct Hmx as (final & Ef & Hf); [rewrite Hlen; lia|apply Hlater|].
    exists final. split; [exact Ef|]. rewrite Hf. reflexivity.
Defined.

(* ================================================================== *)
(** * 19. The staleness planner *)
(* ================================================================== *)

Section Keys.

Import BillScript.

Lemma dashless_digits (d : Decimal.uint) : dashless (NilEmpty.string_of_uint d).
Proof. induction d; simpl; auto; split; auto; discriminate. Qed.

Lemma show_Z_dashless (z : Z) : 0 <= z -> dashless (show_Z z).
Proof.
  intros Hz. unfold show_Z. destruct z as [|p|p]; [simpl; split; [discriminate|exact I]| |lia].
  simpl. unfold NilZero.string_of_uint.
  destruct (Pos.to_uint p) eqn:E; try apply dashless_digits.
  simpl. split; [discriminate|exact I].
Qed.

Lemma string_of_uint_inj (d d' : Decimal.uint) :
  NilEmpty.string_of_uint d = NilEmpty.string_of_uint d' -> d = d'.
Proof.
  intros H. apply (f_equal NilEmpty.uint_of_string) in H.
  rewrite !NilEmpty.usu in H. congruence.
Qed.

Lemma show_Z_digits (z : Z) :
  0 <= z -> show_Z z = NilEmpty.string_of_uint (digits z)
            /\ Z.to_int z = Decimal.Pos (digits z).
Proof.
  intros Hz. unfold show_Z. destruct z as [|p|p]; [split; reflexivity| |lia].
  simpl. split; [|reflexivity]. unfold NilZero.string_of_uint.
  pose proof (DecimalPos.Unsigned.to_uint_nonnil p) as Hn.
  destruct (Pos.to_uint p); [contradiction|reflexivity..].
Qed.

Lemma show_Z_inj (a b : Z) : 0 <= a -> 0 <= b -> show_Z a = show_Z b -> a = b.
Proof.
  intros Ha Hb H.
  destruct (show_Z_digits a Ha) as [Ea Ia], (show_Z_digits b Hb) as [Eb Ib].
  rewrite Ea, Eb in H. apply string_of_uint_inj in H.
  apply DecimalZ.to_int_inj. congruence.
Qed.

Lemma dashless_app_dash (x y : string) : ~ dashless (x ++ "-" ++ y).
Proof.
  induction x as [|c x IH]; simpl.
  - intros [H _]. apply H. reflexivity.
  - intros [_ H]. auto.
Qed.

Lemma split_at_first_dash (c1 c2 r1 r2 : string) :
  dashless c1 -> dashless c2 ->
  (c1 ++ "-" ++ r1 = c2 ++ "-" ++ r2)%string -> c1 = c2 /\ r1 = r2.
Proof.
  revert c2. induction c1 as [|a c1 IH]; intros [|b c2]; simpl.
  - intros _ _ [= ->]. auto.
  - intros _ [Hb _] [= <-]. contradiction Hb; reflexivity.
  - intros [Ha _] _ [= ->]. contradiction Ha; reflexivity.
  - intros [_ H1] [_ H2] [= -> E]. destruct (IH c2 H1 H2 E) as [-> ->]. auto.
Qed.

Lemma split_at_last_dash (t1 t2 n1 n2 : string) :
  dashless n1 -> dashless n2 ->
  (t1 ++ "-" ++ n1 = t2 ++ "-" ++ n2)%string -> t1 = t2 /\ n1 = n2.
Proof.
  intros H1 H2. revert t2. induction t1 as [|a t1 IH]; intros [|b t2]; simpl.
  - intros [= ->]. auto.
  - intros [= <- ->]. destruct (dashless_app_dash _ _ H1).
  - intros [= -> <-]. destruct (dashless_app_dash _ _ H2).
  - intros [= -> E]. destruct (IH t2 E) as [-> ->]. auto.
Qed.

(** The key of the planner's map tells the bills of a listing apart. *)
Lemma bill_key_inj (c1 c2 n1 n2 : Z) (t1 t2 : string) :
  0 <= c1 -> 0 <= c2 -> 0 <= n1 -> 0 <= n2 ->
  bill_key (show_Z c1) t1 (show_Z n1) = bill_key (show_Z c2) t2 (show_Z n2) ->
  c1 = c2 /\ t1 = t2 /\ n1 = n2.
Proof.
  intros Hc1 Hc2 Hn1 Hn2. unfold bill_key. intros H.
  apply split_at_first_dash in H; auto using show_Z_dashless.
  destruct H as [Hc H].
  apply split_at_last_dash in H; auto using show_Z_dashless.
  destruct H as [Ht Hn].
  repeat split; auto using show_Z_inj.
Qed.

End Keys.

Section Planner.

Import BillScript.

Lemma map_get_find_last (k : string) (kf : row -> string) (vf : row -> value)
    (rows : list row) :
  map_get k (map (fun r => (kf r, vf r)) rows) =
  option_map vf (find_last (fun r => String.eqb (kf r) k) rows).
Proof.
  induction rows as [|r rows IH]; simpl; [reflexivity|].
  rewrite IH. destruct (find_last _ rows); simpl; [reflexivity|].
  destruct (String.eqb (kf r) k); reflexivity.
Qed.

Lemma find_last_filter (sel Q P : row -> bool) (rows : list row) :
  (forall r, sel r = true -> Q r = P r) ->
  (forall r, P r = true -> sel r = true) ->
  find_last Q (filter sel rows) = find_last P rows.
Proof.
  intros HQ HP. induction rows as [|r rows IH]; simpl; [reflexivity|].
  destruct (sel r) eqn:Es; simpl; rewrite IH.
  - rewrite (HQ r Es). reflexivity.
  - destruct (find_last P rows); [reflexivity|].
    destruct (P r) eqn:Ep; [|reflexivity].
    rewrite (HP r Ep) in Es. discriminate.
Qed.

Lemma find_last_no_match {A} (p : A -> bool) (l : list A) :
  filter p l = [] -> find_last p l = None.
Proof.
  induction l as [|x l IH]; simpl; [reflexivity|].
  destruct (p x); [discriminate|]. intros H. rewrite IH by exact H. reflexivity.
Qed.

(** With at most one match, the last match is the first. *)
Lemma find_last_unique {A} (p : A -> bool) (l : list A) :
  (List.length (filter p l) <= 1)%nat -> find_last p l = find p l.
Proof.
  induction l as [|x l IH]; simpl; [reflexivity|].
  destruct (p x) eqn:Ep; simpl; intros H.
  - destruct (filter p l) eqn:E.
    + rewrite (find_last_no_match p l E). reflexivity.
    + simpl in H. lia.
  - rewrite IH by exact H. destruct (find p l); reflexivity.
Qed.

Lemma sql_eq_value_eqb (a b : value) : b <> VNull -> sql_eq a b = value_eqb a b.
Proof.
  intros Hb. unfold sql_eq. destruct (value_eqb a b) eqn:E.
  - apply value_eqb_eq in E. subst. destruct b; [contradiction|..]; reflexivity.
  - apply andb_false_r.
Qed.

Lemma bill_matches_eqb (c n : Z) (t : string) (r : row) :
  bill_matches (VInt c) (VText t) (VInt n) r =
  value_eqb (field bills r "congress") (VInt c)
  && value_eqb (field bills r "type") (VText t)
  && value_eqb (field bills r "number") (VInt n).
Proof.
  unfold bill_matches. rewrite !sql_eq_value_eqb by discriminate. reflexivity.
Qed.

(** On the rows selected for a page of natural-number identifiers, the
    key of the map finds exactly the row of the bill. *)
Lemma key_finds_bill (apiBills : list Listed.t) (b : Listed.t) (r : row) :
  (forall b', In b' apiBills -> 0 <= Listed.congress b' /\ 0 <= Listed.number b') ->
  In b apiBills ->
  selected apiBills r = true ->
  String.eqb (bill_key (template (field bills r "congress"))
                       (template (field bills r "type"))
                       (template (field bills r "number")))
             (bill_key (show_Z (Listed.congress b)) (Listed.type b)
                       (show_Z (Listed.number b)))
  = bill_matches (VInt (Listed.congress b)) (VText (Listed.type b))
                 (VInt (Listed.number b)) r.
Proof.
  intros Hwf Hb Hsel. unfold selected in Hsel. apply existsb_exists in Hsel.
  destruct Hsel as (b' & Hb' & H).
  apply andb_prop in H. destruct H as [H Hn]. apply andb_prop in H.
  destruct H as [Hc Ht]. apply value_eqb_eq in Hc, Ht, Hn.
  rewrite bill_matches_eqb, Hc, Ht, Hn. simpl.
  destruct (Hwf b Hb) as [Hc0 Hn0], (Hwf b' Hb') as [Hc1 Hn1].
  destruct (String.eqb _ _) eqn:E.
  - apply String.eqb_eq in E. apply bill_key_inj in E; auto.
    destruct E as (-> & -> & ->).
    rewrite !Z.eqb_refl, String.eqb_refl. reflexivity.
  - destruct (Z.eqb_spec (Listed.congress b') (Listed.congress b)) as [Ec|]; [|reflexivity].
    destruct (String.eqb_spec (Listed.type b') (Listed.type b)) as [Et|]; [|reflexivity].
    destruct (Z.eqb_spec (Listed.number b') (Listed.number b)) as [En|]; [|reflexivity].
    rewrite Ec, Et, En, String.eqb_refl in E. discriminate.
Qed.

Lemma matching_row_selected (apiBills : list Listed.t) (b : Listed.t) (r : row) :
  In b apiBills ->
  bill_matches (VInt (Listed.congress b)) (VText (Listed.type b))
               (VInt (Listed.number b)) r = true ->
  selected apiBills r = true.
Proof.
  intros Hb H. rewrite bill_matches_eqb in H. unfold selected.
  apply existsb_exists. exists b. auto.
Qed.

(** One page: the loop over its bills keeps those that are due. *)
Lemma filter_page_due (API_KEY : string) (tb : tables) (date_now : Z)
    (apiBills : list Listed.t) :
  bills_unique tb ->
  (forall b, In b apiBills -> 0 <= Listed.congress b /\ 0 <= Listed.number b) ->
  filter_page API_KEY (dbBillMap_of (filter (selected apiBills) (tb bills)))
              (date_now - SEVEN_DAYS) apiBills =
  map (fun b => (Listed.url b ++ "&api_key=" ++ API_KEY)%string)
      (filter (due tb date_now) apiBills).
Proof.
  intros Hu Hwf. unfold filter_page. f_equal. apply filter_ext_in. intros b Hb.
  unfold dbBillMap_of.
  rewrite (map_get_find_last _
             (fun r => bill_key (template (field bills r "congress"))
                                (template (field bills r "type"))
                                (template (field bills r "number")))
             (fun r => field bills r "last_processed_at")).
  rewrite (find_last_filter (selected apiBills) _
             (bill_matches (VInt (Listed.congress b)) (VText (Listed.type b))
                           (VInt (Listed.number b)))).
  - rewrite find_last_unique by apply Hu.
    unfold due, watermark, bill_row.
    destruct (find _ (tb bills)) as [r|]; simpl; [|reflexivity].
    destruct (field bills r "last_processed_at"); reflexivity.
  - intros r Hsel. apply (key_finds_bill apiBills); auto.
  - intros r. apply matching_row_selected. exact Hb.
Qed.

Variable fault : nat -> bool.
Variable API_KEY : string.
Hypothesis no_faults : forall n, fault n = false.

Lemma select_listed_rows (apiBills : list Listed.t) (s : session) :
  failed s = false ->
  exists s', select_listed fault apiBills s
             = (Ret (filter (selected apiBills) (tbl s bills)), s')
             /\ tbl s' = tbl s /\ failed s' = false.
Proof.
  intros Hf. unfold select_listed, client_query. rewrite Hf, no_faults.
  simpl. eexists. split; [reflexivity|]. simpl. auto.
Qed.

Lemma walk_pages_work_list (pages : list listing_page) (acc : list string)
    (s : session) :
  failed s = false ->
  bills_unique (tbl s) ->
  well_formed_listing pages ->
  fst (walk_pages fault API_KEY pages acc s)
  = (acc ++ work_list API_KEY (tbl s) pages)%list.
Proof.
  revert acc s. induction pages as [|[date_now resp] pages IH]; intros acc s Hf Hu Hwf.
  - simpl. rewrite app_nil_r. reflexivity.
  - destruct resp as [|status|[apiBills|]];
      try (simpl; rewrite app_nil_r; reflexivity).
    + assert (Hwf' : well_formed_listing pages).
      { intros page b Hp Hb. apply (Hwf page b); simpl; auto. }
      assert (Hpage : forall b, In b apiBills ->
                                0 <= Listed.congress b /\ 0 <= Listed.number b).
      { intros b Hb. apply (Hwf (date_now, apiBills) b); simpl; auto. }
      unfold work_list. cbn [walked flat_map fst snd]. fold (work_list API_KEY (tbl s) pages).
      destruct apiBills as [|b0 bs].
      * simpl. apply IH; auto.
      * cbn [walk_pages].
        destruct (select_listed_rows (b0 :: bs) s Hf) as (s' & E & Ht & Hf').
        rewrite E. rewrite IH; rewrite ?Ht; auto.
        rewrite filter_page_due by auto. rewrite <- app_assoc. reflexivity.
    + simpl. apply IH; auto.
Qed.

(** C2. On a listing of natural-number identifiers and a bills table that
    satisfies its UNIQUE constraint, when no query of the planner fails,
    the work list is exactly the URLs of the listed bills that are due,
    page after page; a bill is excluded exactly when its stored
    [last_processed_at] is a date later than seven days before the clock
    of its page, and a bill without row, or with a NULL watermark, is
    always due. *)
Theorem fetchAndFilterBillUrls_plans_due (CONGRESS_TO_FETCH : option string)
    (pages : list listing_page) (s : session) :
  truthy_str CONGRESS_TO_FETCH = true ->
  failed s = false ->
  bills_unique (tbl s) ->
  well_formed_listing pages ->
  fst (fetchAndFilterBillUrls fault API_KEY CONGRESS_TO_FETCH pages s)
  = work_list API_KEY (tbl s) pages
  /\ (forall date_now b,
        due (tbl s) date_now b = false <->
        exists ms, watermark (tbl s) (VInt (Listed.congress b))
                             (VText (Listed.type b)) (VInt (Listed.number b))
                   = VTime ms
                   /\ date_now - 7 * 24 * 60 * 60 * 1000 < ms)
  /\ (forall date_now b,
        watermark (tbl s) (VInt (Listed.congress b)) (VText (Listed.type b))
                  (VInt (Listed.number b)) = VNull ->
        due (tbl s) date_now b = true).
Proof.
  intros Hc Hf Hu Hwf. split; [|split].
  - unfold fetchAndFilterBillUrls. rewrite Hc. simpl.
    apply (walk_pages_work_list pages [] s); auto.
  - intros date_now b. unfold due.
    change (7 * 24 * 60 * 60 * 1000) with SEVEN_DAYS.
    destruct (watermark _ _ _ _) as [|z|t|x|ms]; split;
      try discriminate; try (intros (ms' & E & _); discriminate E).
    + intros H. exists ms. split; [reflexivity|].
      apply negb_false_iff, Z.ltb_lt in H. exact H.
    + intros (ms' & E & H). injection E as <-.
      apply negb_false_iff, Z.ltb_lt. exact H.
  - intros date_now b H. unfold due. rewrite H. reflexivity.
Qed.

End Planner.

Lemma planner_tables_unique : bills_unique planner_tables.
Proof.
  intros congress type number. unfold planner_tables. rewrite set_table_same.
  cbn [filter].
  destruct (bill_matches congress type number _) eqn:E1;
    destruct (bill_matches congress type number _) eqn:E2 in |- *; simpl; try lia.
  exfalso. unfold bill_matches in E1, E2.
  apply andb_prop in E1, E2. destruct E1 as [_ E1], E2 as [_ E2].
  apply sql_eq_true in E1, E2. destruct E1 as [E1 _], E2 as [E2 _].
  rewrite <- E1 in E2. discriminate E2.
Qed.

Lemma fetchAndFilterBillUrls_plans_due_witness :
  fst (BillScript.fetchAndFilterBillUrls no_fault "KEY" (Some "119") planner_listing
         (connect planner_tables))
  = ["https://api.congress.gov/v3/bill/119/hr/2?format=json&api_key=KEY";
     "https://api.congress.gov/v3/bill/119/hr/3?format=json&api_key=KEY"].
Proof.
  refine (eq_trans
            (proj1 (fetchAndFilterBillUrls_plans_due no_fault "KEY" (fun _ => eq_refl)
                      (Some "119") planner_listing (connect planner_tables)
                      eq_refl eq_refl planner_tables_unique _))
            _).
  - intros page b [<-|[]] Hb. simpl in Hb.
    destruct Hb as [<-|[<-|[<-|[]]]]; simpl; lia.
  - reflexivity.
Defined.

(* ================================================================== *)
(** * 20. Watermarks *)
(* ================================================================== *)

Lemma apply_sets_other (t : table_name) sets (old new : row) (c : string) :
  forallb (fun cf => negb (String.eqb (fst cf) c)) sets = true ->
  field t (apply_sets t sets old new) c = field t old c.
Proof.
  unfold apply_sets. intros H.
  assert (G : forall acc,
             field t (fold_left (fun r cf => set_field t r (fst cf) (snd cf old new))
                                sets acc) c = field t acc c).
  { induction sets as [|[c0 f] sets IH]; simpl; intros acc; [reflexivity|].
    simpl in H. apply andb_prop in H. destruct H as [Hc H]. rewrite IH by exact H.
    apply field_set_other. intros ->. rewrite String.eqb_refl in Hc. discriminate. }
  apply G.
Qed.

Lemma find_none_forall {A} (p : A -> bool) (l : list A) :
  (forall x, In x l -> p x = false) -> find p l = None.
Proof.
  induction l as [|x l IH]; simpl; intros H; [reflexivity|].
  rewrite (H x) by auto. auto.
Qed.

(** The arbiter of the bill upserts is the natural key. *)
Lemma bill_conflict_matches (new r : row) :
  conflicts bills [["congress"; "type"; "number"]] new r =
  bill_matches (field bills new "congress") (field bills new "type")
               (field bills new "number") r
  && negb (is_null (field bills new "congress"))
  && negb (is_null (field bills new "type"))
  && negb (is_null (field bills new "number")).
Proof.
  unfold conflicts, key_match, bill_matches, sql_eq. simpl.
  rewrite (value_eqb_sym (field bills new "congress")),
          (value_eqb_sym (field bills new "type")),
          (value_eqb_sym (field bills new "number")).
  destruct (is_null (field bills new "congress")),
           (is_null (field bills new "type")),
           (is_null (field bills new "number")),
           (is_null (field bills r "congress")),
           (is_null (field bills r "type")),
           (is_null (field bills r "number")),
           (value_eqb (field bills r "congress") (field bills new "congress")),
           (value_eqb (field bills r "type") (field bills new "type")),
           (value_eqb (field bills r "number") (field bills new "number"));
    reflexivity.
Qed.

Lemma bill_matches_key (c t n c' t' n' : value) (r : row) :
  bill_matches c t n r = true -> bill_matches c' t' n' r = true ->
  c = c' /\ t = t' /\ n = n'.
Proof.
  unfold bill_matches. intros H H'.
  apply andb_prop in H, H'. destruct H as [H Hn], H' as [H' Hn'].
  apply andb_prop in H, H'. destruct H as [Hc Ht], H' as [Hc' Ht'].
  apply sql_eq_true in Hc, Ht, Hn, Hc', Ht', Hn'.
  destruct Hc, Ht, Hn, Hc', Ht', Hn'. repeat split; congruence.
Qed.

(** A row replaced by one with the same key. *)
Lemma watermark_replace (tb : tables) (before after : list row) (old upd : row)
    (c t n : value) :
  tb bills = (before ++ old :: after)%list ->
  field bills upd "congress" = field bills old "congress" ->
  field bills upd "type" = field bills old "type" ->
  field bills upd "number" = field bills old "number" ->
  (find (bill_matches c t n) before = None -> bill_matches c t n old = true ->
   field bills upd "last_processed_at" = field bills old "last_processed_at") ->
  watermark (set_table tb bills (before ++ upd :: after)) c t n = watermark tb c t n.
Proof.
  intros Hrows Hc Ht Hn Hw. unfold watermark, bill_row.
  rewrite set_table_same, Hrows, !find_app_cases.
  destruct (find _ before) as [r|] eqn:Eb; [reflexivity|]. simpl.
  assert (Hm : bill_matches c t n upd = bill_matches c t n old).
  { unfold bill_matches. rewrite Hc, Ht, Hn. reflexivity. }
  rewrite Hm. destruct (bill_matches c t n old) eqn:Eo; [|reflexivity]. auto.
Qed.

(** A row appended. *)
Lemma watermark_append (tb : tables) (new : row) (c t n : value) :
  (bill_row tb c t n = None -> bill_matches c t n new = true ->
   field bills new "last_processed_at" = VNull) ->
  watermark (set_table tb bills (tb bills ++ [new])) c t n = watermark tb c t n.
Proof.
  intros H. unfold watermark, bill_row in *. rewrite set_table_same, find_app_cases.
  destruct (find _ (tb bills)) as [r|]; [reflexivity|]. simpl.
  destruct (bill_matches c t n new) eqn:E; [|reflexivity]. auto.
Qed.

#[local] Instance watermarks_kept_order K : TableOrder (watermarks_kept K).
Proof.
  split.
  - intros tb c t n _. reflexivity.
  - intros a b c Hab Hbc x y z H. rewrite (Hbc x y z H). auto.
Qed.

#[local] Instance watermarks_kept_focus K :
  Focused (table_eqb bills) (watermarks_kept K).
Proof.
  intros tb tb' H c t n _. unfold watermark, bill_row.
  rewrite (H bills (table_eqb_refl _)). reflexivity.
Qed.

#[local] Instance stamped_order now c t n : TableOrder (stamped now c t n).
Proof.
  split.
  - intros tb H. exact H.
  - intros a b d Hab Hbd H. auto.
Qed.

#[local] Instance stamped_focus now c t n : Focused (table_eqb bills) (stamped now c t n).
Proof.
  intros tb tb' H. unfold stamped, watermark, bill_row.
  rewrite (H bills (table_eqb_refl _)). auto.
Qed.

(** Keeping every watermark keeps the stamped ones. *)
Lemma kept_stamped now c t n (tb tb' : tables) :
  watermarks_kept no_key tb tb' -> stamped now c t n tb tb'.
Proof. intros H Hw. rewrite (H c t n); auto. Qed.

Lemma kept_weaken (K : value -> value -> value -> Prop) (tb tb' : tables) :
  watermarks_kept no_key tb tb' -> watermarks_kept K tb tb'.
Proof. intros H c t n _. apply H. intros []. Qed.

Section Stubs.

Variable fault : nat -> bool.

(** The stub of a related bill: a new row carries no watermark, and only
    the title of a stored one is written. *)
Lemma related_stub_keeps_watermarks (congress type number title : value) :
  respects (watermarks_kept no_key)
    (insert_returning fault bills ["congress"; "type"; "number"; "title"]
       [congress; type; number; title]
       (DoUpdate ["congress"; "type"; "number"] [excluded bills "title"])).
Proof.
  apply respects_insert_returning; try exact _.
  intros tb k tb' ids E c t n _.
  destruct E as [target old0 [=] _ _ _ _|before after old key sets [= <- <-] Hrows _ _ _ -> _ _
                |_ _ -> _ _].
  - apply watermark_replace with (old := old); auto;
      intros; apply apply_sets_other; reflexivity.
  - apply watermark_append. reflexivity.
Qed.

(** The stub of a bill associated with a report: the assignment
    [congress = EXCLUDED.congress] rewrites the key cell with the value it
    has. *)
Lemma associated_stub_keeps_watermarks (congress type number : value) :
  respects (watermarks_kept no_key)
    (insert_returning fault bills ["congress"; "type"; "number"]
       [congress; type; number]
       (DoUpdate ["congress"; "type"; "number"] [excluded bills "congress"])).
Proof.
  apply respects_insert_returning; try exact _.
  intros tb k tb' ids E c t n _.
  destruct E as [target old0 [=] _ _ _ _|before after old key sets [= <- <-] Hrows Hc _ _ -> _ _
                |_ _ -> _ _].
  - apply watermark_replace with (old := old); auto;
      try (intros; apply apply_sets_other; reflexivity);
      try (apply apply_sets_other; reflexivity).
    cbn [apply_sets fold_left fst snd excluded].
    rewrite field_set_same by discriminate.
    unfold conflicts, key_match in Hc. simpl in Hc.
    rewrite orb_false_r, !andb_true_r in Hc.
    apply andb_prop in Hc. destruct Hc as [Hc _]. apply andb_prop in Hc.
    destruct Hc as [_ Hc]. apply value_eqb_eq in Hc. exact Hc.
  - apply watermark_append. reflexivity.
Qed.

End Stubs.

Section BillWatermarks.

Import BillScript.

Variable fault : nat -> bool.
Variable up : upstream.
Variable now : Z.
Variable stack_limit : nat.

Lemma proposed_key (bill : Bill.t) (k : Z) :
  field bills (proposed now bill k) "congress" = Bill.congress bill
  /\ field bills (proposed now bill k) "type" = Bill.type bill
  /\ field bills (proposed now bill k) "number" = Bill.number bill
  /\ field bills (proposed now bill k) "last_processed_at" = VTime now
  /\ field bills (proposed now bill k) "sponsor_bioguide_id" = vtext (sponsor0 bill).
Proof. repeat split; reflexivity. Qed.

Lemma bill_sets_key (old new : row) :
  field bills (apply_sets bills (bill_sets now) old new) "congress"
  = field bills old "congress"
  /\ field bills (apply_sets bills (bill_sets now) old new) "type"
     = field bills old "type"
  /\ field bills (apply_sets bills (bill_sets now) old new) "number"
     = field bills old "number"
  /\ field bills (apply_sets bills (bill_sets now) old new) "last_processed_at"
     = VTime now.
Proof.
  repeat split; try (apply apply_sets_other; reflexivity).
  unfold bill_sets. cbn [apply_sets fold_left fst snd].
  apply field_set_same. discriminate.
Qed.

(** The bill upsert writes the watermark of its own bill only. *)
Lemma upsert_bill_keeps_others (K : value -> value -> value -> Prop) (bill : Bill.t) :
  K (Bill.congress bill) (Bill.type bill) (Bill.number bill) ->
  respects (watermarks_kept K)
    (insert_returning fault bills bill_columns (bill_values now bill)
       (DoUpdate ["congress"; "type"; "number"] (bill_sets now))).
Proof.
  intros HK. apply respects_insert_returning; try exact _.
  intros tb k tb' ids E c t n Hn. fold (proposed now bill k) in E.
  destruct (proposed_key bill k) as (Pc & Pt & Pn & _).
  destruct E as [target old0 [=] _ _ _ _|before after old key sets [= <- <-] Hrows Hc _ _ -> _ _
                |_ Hnn -> _ _].
  - destruct (bill_sets_key old (proposed now bill k)) as (Sc & St & Sn & _).
    apply watermark_replace with (old := old); auto.
    intros _ Hm. exfalso. apply Hn.
    rewrite bill_conflict_matches, Pc, Pt, Pn in Hc.
    apply andb_prop in Hc. destruct Hc as [Hc _]. apply andb_prop in Hc.
    destruct Hc as [Hc _]. apply andb_prop in Hc. destruct Hc as [Hc _].
    destruct (bill_matches_key _ _ _ _ _ _ _ Hm Hc) as (-> & -> & ->). exact HK.
  - apply watermark_append. intros _ Hm. exfalso. apply Hn.
    unfold bill_matches in Hm. rewrite Pc, Pt, Pn in Hm.
    apply andb_prop in Hm. destruct Hm as [Hm H3]. apply andb_prop in Hm.
    destruct Hm as [H1 H2]. apply sql_eq_true in H1, H2, H3.
    destruct H1 as [<- _], H2 as [<- _], H3 as [<- _]. exact HK.
Qed.

(** A watermark that reads [now] is not taken back by a later upsert. *)
Lemma upsert_bill_keeps_stamp (c t n : value) (bill : Bill.t) :
  respects (stamped now c t n)
    (insert_returning fault bills bill_columns (bill_values now bill)
       (DoUpdate ["congress"; "type"; "number"] (bill_sets now))).
Proof.
  apply respects_insert_returning; try exact _.
  intros tb k tb' ids E Hw. fold (proposed now bill k) in E.
  destruct E as [target old0 [=] _ _ _ _|before after old key sets [= <- <-] Hrows Hc _ _ -> _ _
                |_ Hnn -> _ _].
  - destruct (bill_sets_key old (proposed now bill k)) as (Sc & St & Sn & Sw).
    unfold watermark, bill_row in *. rewrite set_table_same.
    rewrite Hrows in Hw. rewrite find_app_cases in *.
    destruct (find _ before) as [r|]; [exact Hw|]. simpl in *.
    assert (Hm : bill_matches c t n (apply_sets bills (bill_sets now) old (proposed now bill k))
                 = bill_matches c t n old).
    { unfold bill_matches. rewrite Sc, St, Sn. reflexivity. }
    rewrite Hm. destruct (bill_matches c t n old); [exact Sw|exact Hw].
  - unfold watermark, bill_row in *. rewrite set_table_same, find_app_cases.
    destruct (find _ (tb bills)) as [r|]; [exact Hw|discriminate].
Qed.

(** The bill upsert, when it returns, has stamped its bill. *)
Lemma upsert_bill_stamps (bill : Bill.t) (s s1 : session) (ids : list value) :
  insert_returning fault bills bill_columns (bill_values now bill)
    (DoUpdate ["congress"; "type"; "number"] (bill_sets now)) s = (Ret ids, s1) ->
  watermark (tbl s1) (Bill.congress bill) (Bill.type bill) (Bill.number bill)
  = VTime now.
Proof.
  intros E. apply insert_returning_ret in E. destruct E as (E & _).
  fold (proposed now bill (seqs s bills + 1)) in E.
  set (new := proposed now bill (seqs s bills + 1)) in *.
  destruct (proposed_key bill (seqs s bills + 1)) as (Pc & Pt & Pn & Pw & _).
  fold new in Pc, Pt, Pn, Pw.
  destruct E as [target old0 [=] _ _ _ _|before after old key sets [= <- <-] Hrows Hc Hb _ -> _ _
                |Hnone Hnn -> _ _].
  - destruct (bill_sets_key old new) as (Sc & St & Sn & Sw).
    rewrite bill_conflict_matches, Pc, Pt, Pn in Hc.
    apply andb_prop in Hc. destruct Hc as [Hc _]. apply andb_prop in Hc.
    destruct Hc as [Hc _]. apply andb_prop in Hc. destruct Hc as [Hc _].
    unfold watermark, bill_row. rewrite set_table_same, find_app_cases.
    rewrite find_none_forall.
    + simpl.
      assert (Hm : bill_matches (Bill.congress bill) (Bill.type bill) (Bill.number bill)
                     (apply_sets bills (bill_sets now) old new) = true).
      { unfold bill_matches in *. rewrite Sc, St, Sn. exact Hc. }
      rewrite Hm. exact Sw.
    + intros r Hr. specialize (Hb r Hr).
      rewrite bill_conflict_matches, Pc, Pt, Pn in Hb.
      destruct (bill_matches _ _ _ r); [|reflexivity].
      unfold bill_matches in Hc. apply andb_prop in Hc. destruct Hc as [Hc H3].
      apply andb_prop in Hc. destruct Hc as [H1 H2].
      apply sql_eq_true in H1, H2, H3.
      destruct H1 as [H1 N1], H2 as [H2 N2], H3 as [H3 N3].
      rewrite <- H1, <- H2, <- H3 in Hb.
      destruct (field bills old "congress"); [contradiction N1; reflexivity|..];
        destruct (field bills old "type"); try (contradiction N2; reflexivity);
        destruct (field bills old "number"); try (contradiction N3; reflexivity);
        simpl in Hb; discriminate Hb.
  - assert (Hnz : is_null (Bill.congress bill) = false
                  /\ is_null (Bill.type bill) = false
                  /\ is_null (Bill.number bill) = false).
    { unfold not_null_violation in Hnn. simpl in Hnn.
      fold new in Hnn. rewrite <- Pc, <- Pt, <- Pn.
      destruct (is_null (field bills new "congress")); [discriminate|].
      destruct (is_null (field bills new "type")); [discriminate|].
      destruct (is_null (field bills new "number")); [discriminate|]. auto. }
    destruct Hnz as (N1 & N2 & N3).
    unfold watermark, bill_row. rewrite set_table_same, find_app_cases.
    rewrite find_none_forall.
    + simpl.
      assert (Hm : bill_matches (Bill.congress bill) (Bill.type bill) (Bill.number bill)
                     new = true).
      { unfold bill_matches, sql_eq. rewrite Pc, Pt, Pn, N1, N2, N3, !value_eqb_refl.
        reflexivity. }
      rewrite Hm. exact Pw.
    + intros r Hr. specialize (Hnone r Hr). cbn [arbiters] in Hnone.
      rewrite bill_conflict_matches, Pc, Pt, Pn, N1, N2, N3 in Hnone.
      simpl in Hnone. rewrite !andb_true_r in Hnone. exact Hnone.
Qed.

Lemma respects_weaken {A} (R R' : tables -> tables -> Prop) (m : M A) :
  (forall tb tb', R tb tb' -> R' tb tb') -> respects R m -> respects R' m.
Proof. intros H Hm s r s' E. apply H. eapply Hm; eauto. Qed.

Hint Resolve related_stub_keeps_watermarks : resp.

Lemma ensure_sponsors_keeps_watermarks (batch : list Bill.t) :
  respects (watermarks_kept no_key) (ensure_sponsors fault up batch).
Proof.
  unfold ensure_sponsors, missing_members, fetch_missing_member, insert_member_stub.
  respects_tac.
Qed.

Lemma related_data_keeps_watermarks (bill : Bill.t) (billId : value) :
  respects (watermarks_kept no_key)
           (save_related_data fault up stack_limit bill billId).
Proof.
  unfold save_related_data, with_url, with_list, save_actions, save_committees,
    save_cosponsors, save_reports, save_relatedBills, save_summaries, save_subjects,
    save_titles, save_textVersions, save_cboCostEstimates, ensureCommitteeExists,
    missing_members, fetch_missing_member, insert_member_stub.
  respects_tac.
Qed.

Lemma save_bill_keeps_others (K : value -> value -> value -> Prop) (bill : Bill.t) :
  K (Bill.congress bill) (Bill.type bill) (Bill.number bill) ->
  respects (watermarks_kept K) (save_bill fault up now stack_limit bill).
Proof.
  intros HK. unfold save_bill, upsert_bill.
  apply respects_bind; try exact _.
  - apply respects_bind; try exact _.
    + apply upsert_bill_keeps_others. exact HK.
    + intros ids. apply respects_first_id; exact _.
  - intros billId. eapply respects_weaken; [apply kept_weaken|].
    apply related_data_keeps_watermarks.
Qed.

Lemma save_bill_keeps_stamp (c t n : value) (bill : Bill.t) :
  respects (stamped now c t n) (save_bill fault up now stack_limit bill).
Proof.
  unfold save_bill, upsert_bill.
  apply respects_bind; try exact _.
  - apply respects_bind; try exact _.
    + apply upsert_bill_keeps_stamp.
    + intros ids. apply respects_first_id; exact _.
  - intros billId. eapply respects_weaken; [apply kept_stamped|].
    apply related_data_keeps_watermarks.
Qed.

Lemma save_bill_stamps (bill : Bill.t) (s s' : session) :
  save_bill fault up now stack_limit bill s = (Ret tt, s') ->
  watermark (tbl s') (Bill.congress bill) (Bill.type bill) (Bill.number bill)
  = VTime now.
Proof.
  unfold save_bill, upsert_bill, bind.
  destruct (insert_returning fault bills _ _ _ s) as [[ids|e] s1] eqn:E1; [|discriminate].
  destruct (first_id ids s1) as [[billId|e] s2] eqn:E2; [|discriminate].
  intros E3. apply upsert_bill_stamps in E1.
  assert (s2 = s1) by (destruct ids; unfold first_id, throw, ret in E2; congruence).
  subst s2.
  apply related_data_keeps_watermarks in E3.
  apply (kept_stamped now (Bill.congress bill) (Bill.type bill) (Bill.number bill))
    in E3.
  apply E3. exact E1.
Qed.

Lemma batch_stamps (batch : list Bill.t) (s s' : session) :
  for_of batch (save_bill fault up now stack_limit) s = (Ret tt, s') ->
  forall b, In b batch ->
  watermark (tbl s') (Bill.congress b) (Bill.type b) (Bill.number b) = VTime now.
Proof.
  revert s. induction batch as [|b0 batch IH]; simpl; intros s E b Hb; [contradiction|].
  unfold bind in E.
  destruct (save_bill fault up now stack_limit b0 s) as [[[]|e] s1] eqn:E0;
    [|discriminate].
  destruct Hb as [<-|Hb]; [|eauto].
  apply save_bill_stamps in E0.
  assert (Hk : respects (stamped now (Bill.congress b0) (Bill.type b0) (Bill.number b0))
                 (for_of batch (save_bill fault up now stack_limit))).
  { apply respects_for_of; try exact _. intros x. apply save_bill_keeps_stamp. }
  apply Hk in E. apply E. exact E0.
Qed.

Lemma batch_keeps_others (batch : list Bill.t) :
  respects (watermarks_kept (batch_key batch))
           (for_of batch (save_bill fault up now stack_limit)).
Proof.
  assert (G : forall l, (forall b, In b l -> In b batch) ->
                        respects (watermarks_kept (batch_key batch))
                                 (for_of l (save_bill fault up now stack_limit))).
  { induction l as [|b l IH]; simpl; intros Hl.
    - apply respects_ret; exact _.
    - apply respects_bind; try exact _.
      + apply save_bill_keeps_others. exists b. auto.
      + intros _. apply IH. auto. }
  apply G. auto.
Qed.

End BillWatermarks.

Lemma batch_key_dec (batch : list Bill.t) (c t n : value) :
  batch_key batch c t n \/ ~ batch_key batch c t n.
Proof.
  induction batch as [|b batch IH].
  - right. intros (b & [] & _).
  - destruct IH as [(b' & Hb' & H)|IH]; [left; exists b'; simpl; auto|].
    destruct (value_eqb (Bill.congress b) c) eqn:Ec;
      [destruct (value_eqb (Bill.type b) t) eqn:Et;
       [destruct (value_eqb (Bill.number b) n) eqn:En|]|].
    + left. exists b. apply value_eqb_eq in Ec, Et, En. simpl. auto.
    + right. intros (b' & [<-|Hb'] & Hc & Ht & Hn).
      * rewrite Hn, value_eqb_refl in En. discriminate.
      * apply IH. exists b'. auto.
    + right. intros (b' & [<-|Hb'] & Hc & Ht & Hn).
      * rewrite Ht, value_eqb_refl in Et. discriminate.
      * apply IH. exists b'. auto.
    + right. intros (b' & [<-|Hb'] & Hc & Ht & Hn).
      * rewrite Hc, value_eqb_refl in Ec. discriminate.
      * apply IH. exists b'. auto.
Qed.

Lemma defined_bills_in (l : list (option Bill.t)) (batch : list Bill.t) (b : Bill.t) :
  BillScript.defined_bills l = Some batch -> (In (Some b) l <-> In b batch).
Proof.
  revert batch. induction l as [|[b0|] l IH]; simpl; intros batch.
  - intros [= <-]. tauto.
  - destruct (BillScript.defined_bills l) as [batch'|]; [|discriminate].
    simpl. intros [= <-]. specialize (IH batch' eq_refl). simpl.
    split; intros [H|H]; auto; try (left; congruence); right; apply IH; exact H.
  - discriminate.
Qed.

Section ReportWatermarks.

Import CommitteeScript.

Variable fault : nat -> bool.
Variable CONGRESS_TO_FETCH : option Z.
Variable get_report_detail : value -> value -> value -> response (option Report.t).

Hint Resolve associated_stub_keeps_watermarks : resp.

Lemma walk_reports_keeps_watermarks (systemCode : option string)
    (pages : list (response (option (list Report.t)))) :
  respects (watermarks_kept no_key)
           (walk_reports fault CONGRESS_TO_FETCH get_report_detail systemCode pages).
Proof.
  induction pages as [|page pages IH]; simpl.
  - apply respects_ret; exact _.
  - destruct page as [|status|data].
    + apply respects_throw; exact _.
    + apply respects_ret; exact _.
    + apply respects_bind; try exact _; [|intros _; exact IH].
      unfold save_report, save_report_detail, link_associated_bill.
      respects_tac.
Qed.

Lemma safe_walk_reports (systemCode : option string)
    (pages : list (response (option (list Report.t)))) :
  txn_safe (walk_reports fault CONGRESS_TO_FETCH get_report_detail systemCode pages).
Proof.
  induction pages as [|page pages IH]; simpl.
  - apply safe_ret.
  - destruct page as [|status|data].
    + apply safe_throw.
    + apply safe_ret.
    + apply safe_bind; [|intros _; exact IH].
      unfold save_report, save_report_detail, link_associated_bill.
      txn_safe_tac.
Qed.

Lemma processCommitteeReports_keeps_watermarks (systemCode : option string)
    (pages : list (response (option (list Report.t)))) (s s' : session)
    (r : outcome unit) :
  snap s = None ->
  processCommitteeReports fault CONGRESS_TO_FETCH get_report_detail systemCode pages s
  = (r, s') ->
  forall c t n, watermark (tbl s') c t n = watermark (tbl s) c t n.
Proof.
  intros Hs E c t n. unfold processCommitteeReports in E.
  apply transaction_cases in E; auto using safe_walk_reports.
  destruct E as (_ & _ & _ & [Ht _|s2 Hb _ Ht _ _]).
  - unfold watermark, bill_row. rewrite Ht. reflexivity.
  - apply walk_reports_keeps_watermarks in Hb. simpl in Hb.
    unfold watermark, bill_row in *. rewrite Ht. apply Hb. intros [].
Qed.

End ReportWatermarks.

Section WatermarkClaim.

Import BillScript.

Variable fault : nat -> bool.
Variable up : upstream.
Variable now : Z.
Variable stack_limit : nat.

(** C8. The watermark of a bill is written exactly by the committed write
    of its top-level record.  For a batch write on a connection fresh from
    the pool: if the transaction does not commit, every watermark is as
    before; if it commits, every record of the batch has the watermark
    NOW() of that transaction; and a watermark that changed belongs to a
    record of the batch, in a transaction that committed.  The stubs that
    the bill script writes for related bills, and the report walk of the
    committee script for associated bills, leave every watermark alone. *)
Theorem watermark_iff_committed_write :
  (forall (billDataBatch : list (option Bill.t)) (s s' : session) (r : outcome unit),
      snap s = None ->
      saveBillBatchToDb fault up now stack_limit billDataBatch s = (r, s') ->
      (history s' <> Committed :: history s ->
       forall c t n, watermark (tbl s') c t n = watermark (tbl s) c t n)
      /\ (history s' = Committed :: history s ->
          forall b, In (Some b) billDataBatch ->
          watermark (tbl s') (Bill.congress b) (Bill.type b) (Bill.number b)
          = VTime now)
      /\ (forall c t n,
            watermark (tbl s') c t n <> watermark (tbl s) c t n ->
            history s' = Committed :: history s
            /\ exists b, In (Some b) billDataBatch /\ Bill.congress b = c
                         /\ Bill.type b = t /\ Bill.number b = n))
  /\
  (forall CONGRESS_TO_FETCH get_report_detail systemCode pages (s s' : session)
          (r : outcome unit),
      snap s = None ->
      CommitteeScript.processCommitteeReports fault CONGRESS_TO_FETCH get_report_detail
        systemCode pages s = (r, s') ->
      forall c t n, watermark (tbl s') c t n = watermark (tbl s) c t n).
Proof.
  split.
  2:{ intros. eapply processCommitteeReports_keeps_watermarks; eauto. }
  intros billDataBatch s s' r Hs E.
  destruct (saveBillBatchToDb_cases _ _ _ _ _ _ _ _ Hs E) as (_ & _ & [->|[_ Hres]]).
  { repeat split.
    - intros Hh. destruct (history_not_extended _ _ Hh).
    - contradiction H; reflexivity.
    - contradiction H; reflexivity. }
  destruct Hres as [Ht Hh|s2 Hb _ Ht _ Hh].
  - assert (Hw : forall c t n, watermark (tbl s') c t n = watermark (tbl s) c t n).
    { intros. unfold watermark, bill_row. rewrite Ht. reflexivity. }
    repeat split; auto.
    + intros Hc. exfalso. destruct Hh as [Hh|Hh]; rewrite Hh in Hc.
      * destruct (history_not_extended _ _ Hc).
      * discriminate.
    + contradiction H. apply Hw.
    + contradiction H. apply Hw.
  - unfold batch_body in Hb.
    destruct (defined_bills billDataBatch) as [batch|] eqn:Ed; [|discriminate].
    unfold bind in Hb.
    destruct (ensure_sponsors fault up batch (begun s)) as [[[]|e] s1] eqn:E1;
      [|discriminate].
    apply ensure_sponsors_keeps_watermarks in E1. simpl in E1.
    assert (Hst := batch_stamps fault up now stack_limit batch s1 s2 Hb).
    apply batch_keeps_others in Hb.
    assert (Hw : forall c t n, watermark (tbl s') c t n = watermark (tbl s2) c t n).
    { intros. unfold watermark, bill_row. rewrite Ht. reflexivity. }
    split; [|split].
    + intros Hn. contradiction.
    + intros _ b Hin. rewrite Hw. apply Hst. eapply defined_bills_in; eauto.
    + intros c t n Hne. split; [exact Hh|].
      destruct (batch_key_dec batch c t n) as [(b & Hin & Hc & Htn & Hnn)|Hk].
      * exists b. split; [eapply defined_bills_in; eauto|auto].
      * exfalso. apply Hne. rewrite Hw, (Hb c t n Hk). apply E1. intros [].
Qed.

End WatermarkClaim.

Lemma watermark_iff_committed_write_witness :
  let run := BillScript.saveBillBatchToDb no_fault related_upstream 1000 50
               [Some bill_with_related] (connect empty_tables) in
  history (snd run) = [Committed]
  /\ watermark (tbl (snd run)) (VInt 119) (VText "hr") (VInt 1) = VTime 1000
  /\ bill_row (tbl (snd run)) (VInt 119) (VText "s") (VInt 7) <> None
  /\ watermark (tbl (snd run)) (VInt 119) (VText "s") (VInt 7) = VNull.
Proof.
  intros run. split; [reflexivity|]. split; [|split; [discriminate|reflexivity]].
  apply (proj1 (proj2 (proj1 (watermark_iff_committed_write no_fault related_upstream
                                1000 50)
                         [Some bill_with_related] (connect empty_tables) (snd run)
                         (fst run) eq_refl (surjective_pairing _)))
               eq_refl bill_with_related).
  left. reflexivity.
Defined.

(* ================================================================== *)
(** * 21. Sponsors and the foreign key of bills *)
(* ================================================================== *)

(** The one foreign key of [bills]. *)
Lemma fk_violation_bills (tb : tables) (cs : list column) (r : row) (c : string) :
  (forall k, In k cs -> In k (columns (schema_of bills))) ->
  fk_violation tb bills cs r = Some c ->
  c = "sponsor_bioguide_id"
  /\ In (col_fk "sponsor_bioguide_id" false members "bioguide_id") cs
  /\ is_null (field bills r "sponsor_bioguide_id") = false
  /\ references tb members "bioguide_id" (field bills r "sponsor_bioguide_id") = false.
Proof.
  intros Hcs. unfold fk_violation.
  destruct (find _ cs) as [k|] eqn:E; [|discriminate].
  intros [= <-]. apply find_some in E. destruct E as [Hin Hk].
  specialize (Hcs k Hin). simpl in Hcs.
  repeat (destruct Hcs as [<-|Hcs]; [try discriminate Hk|]); [|contradiction].
  compute [cref col_fk cname] in Hk. apply andb_prop in Hk. destruct Hk as [H1 H2].
  apply negb_true_iff in H1, H2. auto.
Qed.

Lemma changed_columns_incl (t : table_name) (old upd : row) (k : column) :
  In k (changed_columns t old upd) -> In k (columns (schema_of t)).
Proof. unfold changed_columns. intros H. apply filter_In in H. tauto. Qed.

Lemma references_app (tb : tables) (t : table_name) (rows : list row) (c : string)
    (v : value) :
  references tb t c v = true ->
  references (set_table tb t (tb t ++ rows)) t c v = true.
Proof.
  unfold references. rewrite set_table_same, existsb_app. intros ->. reflexivity.
Qed.

Section SponsorSafety.

Variable fault : nat -> bool.
Variable ids : list string.

Lemma sponsor_safe_ret {A} (a : A) : sponsor_safe ids (ret a).
Proof. intros s r s' [= _ <-] H. auto. Qed.

Lemma sponsor_safe_throw {A} (e : js_error) : sponsor_safe ids (@throw A e).
Proof. intros s r s' [= _ <-] H. auto. Qed.

Lemma sponsor_safe_first_id (l : list value) : sponsor_safe ids (first_id l).
Proof. destruct l; simpl; [apply sponsor_safe_throw|apply sponsor_safe_ret]. Qed.

Lemma sponsor_safe_bind {A B} (m : M A) (f : A -> M B) :
  sponsor_safe ids m -> (forall a, sponsor_safe ids (f a)) ->
  sponsor_safe ids (bind m f).
Proof.
  intros Hm Hf s r s'. unfold bind.
  destruct (m s) as [[a|e] s1] eqn:E; intros H HQ.
  - destruct (Hm _ _ _ E HQ) as [HQ1 He1].
    destruct (Hf a _ _ _ H HQ1) as [HQ2 He2]. auto.
  - injection H as _ <-. eapply Hm; eauto.
Qed.

Lemma sponsor_safe_try_catch {A} (m : M A) (h : js_error -> M A) :
  sponsor_safe ids m -> (forall e, sponsor_safe ids (h e)) ->
  sponsor_safe ids (try_catch m h).
Proof.
  intros Hm Hh s r s'. unfold try_catch.
  destruct (m s) as [[a|e] s1] eqn:E; intros H HQ.
  - injection H as _ <-. eapply Hm; eauto.
  - destruct (Hm _ _ _ E HQ) as [HQ1 He1].
    destruct (Hh e _ _ _ H HQ1) as [HQ2 He2]. auto.
Qed.

Lemma sponsor_safe_for_of {A} (l : list A) (f : A -> M unit) :
  (forall x, In x l -> sponsor_safe ids (f x)) -> sponsor_safe ids (for_of l f).
Proof.
  induction l as [|x l IH]; simpl; intros Hf.
  - apply sponsor_safe_ret.
  - apply sponsor_safe_bind; auto.
Qed.

Lemma sponsor_safe_when (b : bool) (m : M unit) :
  sponsor_safe ids m -> sponsor_safe ids (when b m).
Proof. destruct b; simpl; auto. intros _. apply sponsor_safe_ret. Qed.

Lemma sponsor_safe_query {A} (q : tables -> sequences -> stmt_result A) :
  (forall tb sq sq' e, members_present ids tb -> q tb sq = (sq', inl e) ->
                       e <> fk_sponsor) ->
  (forall tb sq sq' tb' a, members_present ids tb -> q tb sq = (sq', inr (tb', a)) ->
                           members_present ids tb') ->
  sponsor_safe ids (client_query fault q).
Proof.
  intros Herr Hok s r s'. unfold client_query, raise.
  destruct (failed s).
  { intros [= _ <-] HQ. simpl. split; [exact HQ|]. intros Hn [H|H]; [discriminate|auto]. }
  destruct (fault (nstmt s)).
  { intros [= _ <-] HQ. simpl. split; [exact HQ|]. intros Hn [H|H]; [discriminate|auto]. }
  destruct (q (tbl s) (seqs s)) as [sq [e|[tb a]]] eqn:E.
  - intros [= _ <-] HQ. simpl. split; [exact HQ|].
    intros Hn [H|H]; [|auto]. eapply Herr; eauto.
  - intros [= _ <-] HQ. simpl. split; [|auto]. eapply Hok; eauto.
Qed.

Lemma sponsor_safe_select t wh : sponsor_safe ids (client_query fault (exec_select t wh)).
Proof.
  apply sponsor_safe_query.
  - intros tb sq sq' e _ [=].
  - intros tb sq sq' tb' a HQ E. apply exec_select_same in E. destruct E as [-> _]. auto.
Qed.

(** What an INSERT must satisfy. *)
Lemma sponsor_safe_insert_returning t names vals oc :
  (forall tb n c, members_present ids tb ->
                  insert_fk_error t (build_row t names vals n) oc tb c ->
                  ForeignKeyViolation t c <> fk_sponsor) ->
  (forall tb n tb' l, members_present ids tb ->
                      insert_effect t (build_row t names vals n) oc tb tb' l ->
                      members_present ids tb') ->
  sponsor_safe ids (insert_returning fault t names vals oc).
Proof.
  intros Herr Hok. apply sponsor_safe_query.
  - intros tb sq sq' e HQ E. apply exec_insert_error in E.
    destruct E as [[c ->]|[[k ->]|(c & -> & E)]]; try discriminate. eauto.
  - intros tb sq sq' tb' a HQ E. apply exec_insert_effect in E. eauto.
Qed.

Lemma members_present_other (tb tb' : tables) :
  tb' members = tb members -> members_present ids tb -> members_present ids tb'.
Proof.
  intros H HQ id Hid. unfold has_member, references. rewrite H. apply HQ, Hid.
Qed.

(** An INSERT into a table other than bills and members. *)
Lemma sponsor_safe_insert_returning_other t names vals oc :
  table_eqb t bills = false -> table_eqb t members = false ->
  sponsor_safe ids (insert_returning fault t names vals oc).
Proof.
  intros Hb Hm. apply sponsor_safe_insert_returning.
  - intros tb n c _ _ [= -> _]. discriminate.
  - intros tb n tb' l HQ E. eapply members_present_other; [|exact HQ].
    eapply insert_effect_other; eauto. intros ->. discriminate.
Qed.

Lemma sponsor_safe_insert_other t names vals oc :
  table_eqb t bills = false -> table_eqb t members = false ->
  sponsor_safe ids (insert_ fault t names vals oc).
Proof.
  intros Hb Hm. apply sponsor_safe_bind.
  - apply sponsor_safe_insert_returning_other; auto.
  - intros; apply sponsor_safe_ret.
Qed.

(** The stub of a member: rows are only added. *)
Lemma sponsor_safe_member_stub names vals target :
  sponsor_safe ids (insert_ fault members names vals (DoNothing target)).
Proof.
  apply sponsor_safe_bind; [|intros; apply sponsor_safe_ret].
  apply sponsor_safe_insert_returning.
  - intros tb n c _ _ [=].
  - intros tb n tb' l HQ E.
    destruct E as [tgt old0 _ _ _ -> _|before after old k sets [=] _ _ _ _ _ _ _|_ _ -> _ _];
      auto.
    intros id Hid. apply references_app. apply HQ, Hid.
Qed.

End SponsorSafety.

Create HintDb sponsor discriminated.

Ltac sponsor_step :=
  first
    [ solve [auto 1 with sponsor nocore]
    | lazymatch goal with
      | |- sponsor_safe _ (ret _) => apply sponsor_safe_ret
      | |- sponsor_safe _ (throw _) => apply sponsor_safe_throw
      | |- sponsor_safe _ (first_id _) => apply sponsor_safe_first_id
      | |- sponsor_safe _ (client_query _ (exec_select _ _)) =>
          apply sponsor_safe_select
      | |- sponsor_safe _ (insert_ _ members _ _ (DoNothing _)) =>
          apply sponsor_safe_member_stub
      | |- sponsor_safe _ (insert_ _ _ _ _ _) =>
          apply sponsor_safe_insert_other; reflexivity
      | |- sponsor_safe _ (insert_returning _ _ _ _ _) =>
          apply sponsor_safe_insert_returning_other; reflexivity
      | |- sponsor_safe _ (when _ _) => apply sponsor_safe_when
      | |- sponsor_safe _ (bind _ _) => apply sponsor_safe_bind
      | |- sponsor_safe _ (try_catch _ _) => apply sponsor_safe_try_catch
      | |- sponsor_safe _ (for_of _ _) => apply sponsor_safe_for_of
      | |- sponsor_safe _ (match ?x with _ => _ end) => destruct x
      | |- sponsor_safe _ _ => progress cbv beta
      | |- forall _, _ => intro
      end ].

Ltac sponsor_tac := repeat sponsor_step.

Section SponsorClaim.

Import BillScript.

Variable fault : nat -> bool.
Variable up : upstream.
Variable now : Z.
Variable stack_limit : nat.
Variable ids : list string.

(** The stub of a related bill names no sponsor. *)
Lemma sponsor_safe_related_stub (congress type number title : value) :
  sponsor_safe ids
    (insert_returning fault bills ["congress"; "type"; "number"; "title"]
       [congress; type; number; title]
       (DoUpdate ["congress"; "type"; "number"] [excluded bills "title"])).
Proof.
  apply sponsor_safe_insert_returning.
  - intros tb n c HQ E _.
    destruct E as [E|before after old k sets [= <- <-] Hrows E].
    + destruct (fk_violation_bills _ _ _ _ (fun k H => H) E) as (_ & _ & E' & _).
      discriminate E'.
    + destruct (fk_violation_bills _ _ _ _ (changed_columns_incl _ _ _) E)
        as (_ & Hin & _).
      unfold changed_columns in Hin.
      apply filter_In in Hin. destruct Hin as [_ Hin]. simpl in Hin.
      rewrite apply_sets_other in Hin by reflexivity.
      rewrite value_eqb_refl in Hin. discriminate.
  - intros tb n tb' l HQ E. eapply members_present_other; [|exact HQ].
    eapply insert_effect_other; eauto. discriminate.
Qed.

(** The bill upsert, when its sponsor is among the stored members. *)
Lemma sponsor_safe_upsert_bill (bill : Bill.t) :
  (forall id, sponsor0 bill = Some id -> In id ids) ->
  sponsor_safe ids
    (insert_returning fault bills bill_columns (bill_values now bill)
       (DoUpdate ["congress"; "type"; "number"] (bill_sets now))).
Proof.
  intros Hsp. apply sponsor_safe_insert_returning.
  - intros tb n c HQ E _.
    assert (Hv : forall tb' v,
               tb' members = tb members ->
               v = vtext (sponsor0 bill) ->
               is_null v = false ->
               references tb' members "bioguide_id" v = false -> False).
    { intros tb' v Hm -> Hnull Href.
      destruct (sponsor0 bill) as [id|]; [|discriminate].
      specialize (HQ id (Hsp id eq_refl)). unfold has_member, references in *.
      rewrite Hm in Href. simpl in Href. congruence. }
    assert (Hne : bills <> members) by discriminate.
    destruct E as [E|before after old k sets [= <- <-] Hrows E].
    + destruct (fk_violation_bills _ _ _ _ (fun k H => H) E) as (_ & _ & Hn & Hr).
      apply (Hv _ _ (set_table_other _ _ _ _ Hne) eq_refl Hn Hr).
    + destruct (fk_violation_bills _ _ _ _ (changed_columns_incl _ _ _) E)
        as (_ & _ & Hn & Hr).
      refine (Hv _ _ (set_table_other _ _ _ _ Hne) _ Hn Hr).
      unfold bill_sets. cbn [apply_sets fold_left fst snd excluded].
      rewrite !field_set_other by discriminate.
      rewrite field_set_same by discriminate. reflexivity.
  - intros tb n tb' l HQ E. eapply members_present_other; [|exact HQ].
    eapply insert_effect_other; eauto. discriminate.
Qed.

Hint Resolve sponsor_safe_related_stub : sponsor.

Lemma sponsor_safe_related_data (bill : Bill.t) (billId : value) :
  sponsor_safe ids (save_related_data fault up stack_limit bill billId).
Proof.
  unfold save_related_data, with_url, with_list, save_actions, save_committees,
    save_cosponsors, save_reports, save_relatedBills, save_summaries, save_subjects,
    save_titles, save_textVersions, save_cboCostEstimates, ensureCommitteeExists,
    missing_members, fetch_missing_member, insert_member_stub.
  sponsor_tac.
Qed.

Lemma sponsor_safe_save_bill (bill : Bill.t) :
  (forall id, sponsor0 bill = Some id -> In id ids) ->
  sponsor_safe ids (save_bill fault up now stack_limit bill).
Proof.
  intros H. unfold save_bill, upsert_bill.
  apply sponsor_safe_bind.
  - apply sponsor_safe_bind; [apply sponsor_safe_upsert_bill, H|].
    intros; apply sponsor_safe_first_id.
  - intros; apply sponsor_safe_related_data.
Qed.

Lemma sponsor_safe_ensure_sponsors (batch : list Bill.t) :
  sponsor_safe ids (ensure_sponsors fault up batch).
Proof.
  unfold ensure_sponsors, missing_members, fetch_missing_member, insert_member_stub.
  sponsor_tac.
Qed.

End SponsorClaim.

Section Resolution.

Import BillScript.

Variable fault : nat -> bool.
Variable up : upstream.
Variable now : Z.
Variable stack_limit : nat.

Lemma in_dedup (x : string) (l : list string) : In x (dedup l) <-> In x l.
Proof.
  induction l as [|y l IH]; simpl; [tauto|].
  rewrite filter_In, IH. split.
  - intros [->|[H _]]; auto.
  - intros [->|H]; auto.
    destruct (String.eqb_spec y x) as [->|Hne]; [left; reflexivity|].
    right. split; [exact H|reflexivity].
Qed.

Lemma in_filter_truthy (x : string) (l : list (option string)) :
  In x (filter_truthy l) <-> In (Some x) l /\ x <> "".
Proof.
  induction l as [|[y|] l IH]; simpl.
  - tauto.
  - destruct (String.eqb_spec y "") as [->|Hne]; simpl.
    + rewrite IH. split; [tauto|]. intros [[[= <-]|H] Hx]; [contradiction|auto].
    + rewrite IH. split.
      * intros [->|[H Hx]]; auto.
      * intros [[[= ->]|H] Hx]; auto.
  - rewrite IH. split; [tauto|]. intros [[[=]|H] Hx]; auto.
Qed.

Lemma in_texts (x : string) (l : list value) : In x (texts l) <-> In (VText x) l.
Proof.
  induction l as [|v l IH]; simpl; [tauto|].
  destruct v; simpl; rewrite IH; split; intros H; auto;
    try (destruct H as [[=]|H]; auto); try (destruct H as [->|H]; auto).
  subst. auto.
Qed.

Lemma mem_in (x : string) (l : list string) : mem x l = true <-> In x l.
Proof.
  unfold mem. rewrite existsb_exists. split.
  - intros (y & Hy & E). apply String.eqb_eq in E. subst. exact Hy.
  - intros H. exists x. split; [exact H|apply String.eqb_refl].
Qed.

Lemma in_all_sponsors (batch : list Bill.t) (id : string) :
  In id (all_sponsors batch) <-> exists b, In b batch /\ sponsor0 b = Some id.
Proof.
  unfold all_sponsors. rewrite in_flat_map. split.
  - intros (b & Hb & H). exists b. split; [exact Hb|].
    destruct (sponsor0 b); simpl in H; [|contradiction].
    destruct H as [->|[]]. reflexivity.
  - intros (b & Hb & H). exists b. split; [exact Hb|]. rewrite H. simpl. auto.
Qed.

Lemma has_member_row (tb : tables) (id : string) (r : row) :
  In r (tb members) -> field members r "bioguide_id" = VText id -> has_member tb id.
Proof.
  intros Hin Hf. unfold has_member, references. apply existsb_exists.
  exists r. split; [exact Hin|]. rewrite Hf. apply value_eqb_refl.
Qed.

(** What the SELECT of the missing ids answers. *)
Lemma missing_members_ret (ids missing : list string) (s s0 : session) :
  missing_members fault ids s = (Ret missing, s0) ->
  tbl s0 = tbl s
  /\ forall id, In id ids -> has_member (tbl s) id \/ In id missing.
Proof.
  unfold missing_members, bind, ret.
  destruct (client_query fault _ s) as [[rows|e] s1] eqn:E; [|discriminate].
  intros [= <- <-]. apply client_query_ret in E. destruct E as (sq' & E & _).
  apply exec_select_same in E. destruct E as [Ht ->]. split; [exact Ht|].
  intros id Hid.
  match goal with
  | |- context [texts ?l] => set (existing := texts l)
  end.
  destruct (mem id existing) eqn:Em.
  - left. subst existing.
    apply mem_in, in_texts, in_map_iff in Em. destruct Em as (r & Hf & Hr).
    apply filter_In in Hr. destruct Hr as [Hr _]. eapply has_member_row; eauto.
  - right. apply filter_In. split; [exact Hid|]. rewrite Em. reflexivity.
Qed.

(** The stub insert, when it returns, has stored the member. *)
Lemma insert_member_stub_stores (m : Member.t) (id : string) (s s' : session) :
  insert_member_stub fault m s = (Ret tt, s') ->
  Member.bioguideId m = Some id ->
  has_member (tbl s') id.
Proof.
  unfold insert_member_stub. intros E Hid. apply insert_ret in E.
  destruct E as (l & E & _).
  destruct E as [tgt old _ Hin Hc -> _|before after old k sets [=] _ _ _ _ _ _ _
                |_ _ -> _ _].
  - cbn [arbiters schema_of uniques] in Hc. rewrite conflicts_one_column in Hc.
    apply sql_eq_true in Hc. destruct Hc as [Hc _].
    eapply has_member_row; [exact Hin|]. rewrite <- Hc.
    change (vtext (Member.bioguideId m) = VText id). rewrite Hid. reflexivity.
  - unfold has_member, references. rewrite set_table_same, existsb_app.
    simpl. rewrite Hid. simpl. rewrite String.eqb_refl.
    rewrite orb_true_r. reflexivity.
Qed.

Lemma fetch_keeps_member (id : string) (l : list string) (s s' : session)
    (r : outcome unit) :
  for_of l (fetch_missing_member fault up) s = (r, s') ->
  has_member (tbl s) id -> has_member (tbl s') id.
Proof.
  intros E H.
  assert (Hs : sponsor_safe [id] (for_of l (fetch_missing_member fault up))).
  { unfold fetch_missing_member, insert_member_stub. sponsor_tac. }
  destruct (Hs _ _ _ E) as [HQ _].
  - intros x [<-|[]]. exact H.
  - apply HQ. simpl. auto.
Qed.

Lemma fetch_resolves (id : string) (m : Member.t) (l : list string) (s s' : session) :
  for_of l (fetch_missing_member fault up) s = (Ret tt, s') ->
  In id l ->
  get_member up id = HttpOk (Some m) -> Member.bioguideId m = Some id ->
  has_member (tbl s') id.
Proof.
  revert s. induction l as [|x l IH]; simpl; intros s E Hin Hg Hm; [contradiction|].
  unfold bind in E.
  destruct (fetch_missing_member fault up x s) as [[[]|e] s1] eqn:E1; [|discriminate].
  destruct Hin as [->|Hin]; [|eauto].
  eapply fetch_keeps_member; [exact E|].
  unfold fetch_missing_member in E1. rewrite Hg in E1.
  eapply insert_member_stub_stores; eauto.
Qed.

(** The pre-pass of the batch writer: when it returns, the sponsor of
    every bill whose sponsor is resolvable is stored. *)
Lemma ensure_sponsors_resolves (batch : list Bill.t) (s s1 : session) :
  ensure_sponsors fault up batch s = (Ret tt, s1) ->
  (forall b, In b batch -> sponsor_resolvable up (tbl s) b) ->
  members_present (all_sponsors batch) (tbl s1).
Proof.
  intros E Hres id Hid. apply in_all_sponsors in Hid. destruct Hid as (b & Hb & Hsp).
  assert (Hkeep : has_member (tbl s) id -> has_member (tbl s1) id).
  { intros H. destruct (sponsor_safe_ensure_sponsors fault up [id] batch _ _ _ E)
      as [HQ _].
    - intros x [<-|[]]. exact H.
    - apply HQ. simpl. auto. }
  destruct (Hres b Hb id Hsp) as [H|(Hne & m & Hg & Hm)]; [auto|].
  assert (Hin : In id (dedup (filter_truthy (map sponsor0 batch)))).
  { apply in_dedup, in_filter_truthy. split; [|exact Hne].
    rewrite <- Hsp. apply in_map. exact Hb. }
  unfold ensure_sponsors in E.
  destruct (dedup (filter_truthy (map sponsor0 batch))) as [|i0 rest] eqn:Ed;
    [contradiction|].
  unfold bind in E.
  destruct (missing_members fault (i0 :: rest) s) as [[missing|e] s0] eqn:E0;
    [|discriminate].
  apply missing_members_ret in E0. destruct E0 as [Ht Hmiss].
  destruct (Hmiss id Hin) as [H|H]; [auto|].
  eapply fetch_resolves; eauto.
Qed.

End Resolution.

Section SponsorTheorem.

Import BillScript.

Variable fault : nat -> bool.
Variable up : upstream.
Variable now : Z.
Variable stack_limit : nat.

Lemma BEGIN_log (s s0 : session) (r0 : outcome unit) (e : sql_error) :
  BEGIN fault s = (r0, s0) ->
  (forall n, e <> ServerFault n) ->
  tbl s0 = tbl s
  /\ (r0 = Ret tt -> errlog s0 = errlog s)
  /\ (~ In e (errlog s) -> ~ In e (errlog s0)).
Proof.
  unfold BEGIN, raise. intros E He.
  destruct (fault (nstmt s)); [|destruct (snap s)]; injection E as <- <-; simpl;
    repeat split; auto; try discriminate.
  intros Hn [H|H]; [eapply He; eauto|auto].
Qed.

Lemma COMMIT_log (s s1 : session) (r1 : outcome unit) (e : sql_error) :
  COMMIT fault s = (r1, s1) ->
  (forall n, e <> ServerFault n) ->
  ~ In e (errlog s) -> ~ In e (errlog s1).
Proof.
  unfold COMMIT, raise. intros E He.
  destruct (snap s); [destruct (failed s); [|destruct (fault (nstmt s))]|];
    injection E as <- <-; simpl; auto.
  intros Hn [H|H]; [eapply He; eauto|auto].
Qed.

Lemma ROLLBACK_log (s s1 : session) (r1 : outcome unit) :
  ROLLBACK s = (r1, s1) -> errlog s1 = errlog s.
Proof. unfold ROLLBACK. destruct (snap s); intros [= _ <-]; reflexivity. Qed.

(** An error that is not a server fault enters the log of a transaction
    only through its body. *)
Lemma transaction_quiet (body : M unit) (e : sql_error) (s s' : session)
    (r : outcome unit) :
  (forall n, e <> ServerFault n) ->
  (forall s0 r2 s2, tbl s0 = tbl s -> errlog s0 = errlog s ->
                    body s0 = (r2, s2) -> ~ In e (errlog s2)) ->
  try_catch (BEGIN fault ;; body ;; COMMIT fault) (fun _ => ROLLBACK) s = (r, s') ->
  ~ In e (errlog s) ->
  ~ In e (errlog s').
Proof.
  intros He Hb E Hn. revert E. unfold try_catch, bind.
  destruct (BEGIN fault s) as [[[]|e0] s0] eqn:E0;
    destruct (BEGIN_log _ _ _ e E0 He) as (Ht & Hl & Hq).
  - specialize (Hl eq_refl).
    destruct (body s0) as [[[]|e1] s2] eqn:E1; specialize (Hb _ _ _ Ht Hl E1).
    + destruct (COMMIT fault s2) as [[[]|e2] s3] eqn:E2;
        pose proof (COMMIT_log _ _ _ e E2 He Hb) as H3.
      * intros [= _ <-]. exact H3.
      * intros E3. rewrite (ROLLBACK_log _ _ _ E3). exact H3.
    + intros E3. rewrite (ROLLBACK_log _ _ _ E3). exact Hb.
  - intros E3. rewrite (ROLLBACK_log _ _ _ E3). auto.
Qed.

Lemma batch_body_sponsor_safe (billDataBatch : list (option Bill.t))
    (s0 s2 : session) (r : outcome unit) :
  (forall b, In (Some b) billDataBatch -> sponsor_resolvable up (tbl s0) b) ->
  batch_body fault up now stack_limit billDataBatch s0 = (r, s2) ->
  (~ In fk_sponsor (errlog s0) -> ~ In fk_sponsor (errlog s2))
  /\ (r = Ret tt ->
      forall b id, In (Some b) billDataBatch -> sponsor0 b = Some id ->
                   has_member (tbl s2) id).
Proof.
  intros Hres. unfold batch_body.
  destruct (defined_bills billDataBatch) as [batch|] eqn:Ed.
  2:{ intros [= <- <-]. split; [auto|discriminate]. }
  unfold bind.
  destruct (ensure_sponsors fault up batch s0) as [[[]|e] s1] eqn:E1.
  - intros E2.
    destruct (sponsor_safe_ensure_sponsors fault up [] batch _ _ _ E1)
      as [_ Hlog1]; [intros x []|].
    assert (HQ : members_present (all_sponsors batch) (tbl s1)).
    { eapply ensure_sponsors_resolves; eauto.
      intros b Hb. apply Hres. eapply defined_bills_in; eauto. }
    assert (Hs : sponsor_safe (all_sponsors batch)
                   (for_of batch (save_bill fault up now stack_limit))).
    { apply sponsor_safe_for_of. intros b Hb. apply sponsor_safe_save_bill.
      intros id Hid. apply in_all_sponsors. eauto. }
    destruct (Hs _ _ _ E2 HQ) as [HQ2 Hlog2]. split; [auto|].
    intros _ b id Hb Hid. apply HQ2, in_all_sponsors. exists b.
    split; [eapply defined_bills_in; eauto|exact Hid].
  - intros [= <- <-].
    destruct (sponsor_safe_ensure_sponsors fault up [] batch _ _ _ E1)
      as [_ Hlog1]; [intros x []|].
    split; [exact Hlog1|discriminate].
Qed.

(** C3, as amended.  When, for every bill of the batch, the sponsor is
    already stored or the member detail endpoint answers the fetch of the
    sponsor's id with that member, no statement of the batch write fails
    the foreign key of [sponsor_bioguide_id]; and if the batch commits,
    the member row of every sponsor is stored with it. *)
Theorem sponsors_resolved_no_fk_violation (billDataBatch : list (option Bill.t))
    (s s' : session) (r : outcome unit) :
  snap s = None ->
  (forall b, In (Some b) billDataBatch -> sponsor_resolvable up (tbl s) b) ->
  saveBillBatchToDb fault up now stack_limit billDataBatch s = (r, s') ->
  (~ In fk_sponsor (errlog s) -> ~ In fk_sponsor (errlog s'))
  /\ (history s' = Committed :: history s ->
      forall b id, In (Some b) billDataBatch -> sponsor0 b = Some id ->
                   has_member (tbl s') id).
Proof.
  intros Hs Hres E. split.
  - unfold saveBillBatchToDb in E. destruct billDataBatch as [|b0 l].
    { injection E as _ <-. auto. }
    intros Hn. eapply transaction_quiet; [| |exact E|exact Hn].
    + unfold fk_sponsor. discriminate.
    + intros s0 r2 s2 Ht Hl EB. rewrite <- Hl in Hn.
      refine (proj1 (batch_body_sponsor_safe (b0 :: l) s0 s2 r2 _ EB) Hn).
      intros b Hb. unfold sponsor_resolvable, has_member, references in *.
      rewrite Ht. apply Hres. exact Hb.
  - intros Hh b id Hb Hid.
    destruct (saveBillBatchToDb_cases _ _ _ _ _ _ _ _ Hs E) as (_ & _ & [->|[_ Hres']]).
    { destruct (history_not_extended _ _ Hh). }
    destruct Hres' as [_ [Hh'|Hh']|s2 EB _ Ht _ _].
    + rewrite Hh' in Hh. destruct (history_not_extended _ _ Hh).
    + rewrite Hh' in Hh. discriminate.
    + unfold has_member, references. rewrite Ht.
      exact (proj2 (batch_body_sponsor_safe billDataBatch (begun s) s2 (Ret tt)
                      Hres EB) eq_refl b id Hb Hid).
Qed.

End SponsorTheorem.

Lemma sponsors_resolved_no_fk_violation_witness :
  let run := BillScript.saveBillBatchToDb no_fault sample_upstream 1000 50
               [Some (sample_bill 1 (Some "A000001"))] (connect empty_tables) in
  history (snd run) = [Committed]
  /\ ~ In fk_sponsor (errlog (snd run))
  /\ has_member (tbl (snd run)) "A000001".
Proof.
  intros run.
  assert (H := sponsors_resolved_no_fk_violation no_fault sample_upstream 1000 50
                 [Some (sample_bill 1 (Some "A000001"))] (connect empty_tables)
                 (snd run) (fst run) eq_refl).
  destruct H as [Hlog Hmem].
  - intros b [[= <-]|[]] id [= <-]. right. split; [discriminate|].
    exists (sample_member "A000001"). split; reflexivity.
  - apply surjective_pairing.
  - split; [reflexivity|]. split.
    + apply Hlog. intros [].
    + apply (Hmem eq_refl (sample_bill 1 (Some "A000001")) "A000001");
        [left; reflexivity|reflexivity].
Defined.

(** C3, as stated, fails: the sponsor B000002 is not stored and the member
    endpoint answers 404, so no stub is inserted and the INSERT of the bill
    row violates the foreign key. *)
Lemma unresolved_sponsor_violates_fk :
  let run := BillScript.saveBillBatchToDb no_fault sample_upstream 1000 50
               [Some (sample_bill 2 (Some "B000002"))] (connect empty_tables) in
  get_member sample_upstream "B000002" = HttpError 404
  /\ In fk_sponsor (errlog (snd run))
  /\ history (snd run) = [RolledBack]
  /\ tbl (snd run) members = [].
Proof.
  intros run. repeat split; try reflexivity. left. reflexivity.
Qed.

(* ================================================================== *)
(** * 22. Running the member script again *)
(* ================================================================== *)

#[local] Instance terms_grow_order : TableOrder terms_grow.
Proof.
  split; unfold terms_grow.
  - intros tb. apply Nat.le_refl.
  - intros a b c. apply Nat.le_trans.
Qed.

#[local] Instance terms_grow_focus : Focused (table_eqb member_terms) terms_grow.
Proof.
  intros tb tb' H. unfold terms_grow, term_count.
  rewrite (H member_terms eq_refl). apply Nat.le_refl.
Qed.

(** A key with a NULL cell matches no row. *)
Lemma key_match_null (t : table_name) (k : list string) (c : string) (new old : row) :
  In c k -> field t new c = VNull -> key_match t k new old = false.
Proof.
  intros Hin Hnull. unfold key_match.
  destruct (forallb _ k) eqn:E; [|reflexivity].
  rewrite forallb_forall in E. specialize (E c Hin).
  rewrite Hnull in E. discriminate.
Qed.

(** An INSERT removes no row, whatever its ON CONFLICT clause. *)
Lemma insert_effect_length (t : table_name) new oc tb tb' ids :
  insert_effect t new oc tb tb' ids ->
  (List.length (tb t) <= List.length (tb' t))%nat.
Proof.
  intros [target old _ _ _ -> _|before after old k sets _ Hrows _ _ _ -> _ _
         |_ _ -> _ _].
  - apply Nat.le_refl.
  - rewrite set_table_same, Hrows, !length_app. simpl. apply Nat.le_refl.
  - rewrite set_table_same, length_app. simpl. apply Nat.le_add_r.
Qed.

(** A sequence that returns ran both of its parts to their end. *)
Lemma bind_ret {A B} (m : M A) (f : A -> M B) (s s' : session) (b : B) :
  bind m f s = (Ret b, s') ->
  exists a s1, m s = (Ret a, s1) /\ f a s1 = (Ret b, s').
Proof.
  unfold bind. destruct (m s) as [[a|e] s1]; [|discriminate].
  intros H. exists a, s1. auto.
Qed.

(** A loop that returns ran the body on each element; when the body never
    lowers a measure of the tables and raises it on [x], the loop raises
    it. *)
Lemma for_of_raises {A} (f : A -> M unit) (mu : tables -> nat) (l : list A) (x : A)
    (s s' : session) :
  (forall a, respects (fun tb tb' => (mu tb <= mu tb')%nat) (f a)) ->
  (forall s1 s2, f x s1 = (Ret tt, s2) -> (mu (tbl s1) < mu (tbl s2))%nat) ->
  In x l -> for_of l f s = (Ret tt, s') -> (mu (tbl s) < mu (tbl s'))%nat.
Proof.
  intros Hle Hlt. revert s. induction l as [|a l IH]; intros s Hin E; [destruct Hin|].
  simpl in E. apply bind_ret in E. destruct E as ([] & s1 & E1 & E2).
  assert (Hrest : (mu (tbl s1) <= mu (tbl s'))%nat).
  { clear - Hle E2. revert s1 E2. induction l as [|b l IH]; intros s1 E2.
    - injection E2 as <-. apply Nat.le_refl.
    - simpl in E2. apply bind_ret in E2. destruct E2 as ([] & s2 & E2 & E3).
      eapply Nat.le_trans; [eapply (Hle b); eauto|eauto]. }
  destruct Hin as [->|Hin].
  - eapply Nat.lt_le_trans; [eapply Hlt; eauto|exact Hrest].
  - eapply Nat.le_lt_trans; [eapply (Hle a); eauto|eauto].
Qed.

Section MemberRerun.

Import MemberScript.

Variable fault : nat -> bool.

(** The row the upsert of a term proposes. *)
Lemma term_row_district (id : value) (term : Term.t) (k : Z) :
  field member_terms
    (build_row member_terms
       ["member_bioguide_id"; "congress"; "chamber"; "member_type"; "state_code";
        "state_name"; "district"; "start_year"; "end_year"]
       [id; Term.congress term; Term.chamber term; Term.memberType term;
        Term.stateCode term; Term.stateName term; Term.district term;
        Term.startYear term; Term.endYear term] k) "district"
  = Term.district term.
Proof. reflexivity. Qed.

Lemma term_upsert_grows (id : value) (term : Term.t) :
  respects terms_grow
    (insert_ fault member_terms
       ["member_bioguide_id"; "congress"; "chamber"; "member_type"; "state_code";
        "state_name"; "district"; "start_year"; "end_year"]
       [id; Term.congress term; Term.chamber term; Term.memberType term;
        Term.stateCode term; Term.stateName term; Term.district term;
        Term.startYear term; Term.endYear term]
       (DoUpdate ["member_bioguide_id"; "congress"; "chamber"; "district"]
          (map (excluded member_terms)
               ["member_type"; "state_code"; "state_name"; "start_year";
                "end_year"]))).
Proof.
  apply respects_insert; try exact _.
  intros tb n tb' ids E. apply insert_effect_length in E. exact E.
Qed.
Hint Resolve term_upsert_grows : resp.

Lemma save_member_grows (member : Member.t) :
  respects terms_grow (save_member fault member).
Proof. unfold save_member. respects_tac. Qed.

(** The upsert of a term without a district finds no row to update: it
    appends one. *)
Lemma term_upsert_appends (id : value) (term : Term.t) (s s' : session) :
  Term.district term = VNull ->
  insert_ fault member_terms
    ["member_bioguide_id"; "congress"; "chamber"; "member_type"; "state_code";
     "state_name"; "district"; "start_year"; "end_year"]
    [id; Term.congress term; Term.chamber term; Term.memberType term;
     Term.stateCode term; Term.stateName term; Term.district term;
     Term.startYear term; Term.endYear term]
    (DoUpdate ["member_bioguide_id"; "congress"; "chamber"; "district"]
       (map (excluded member_terms)
            ["member_type"; "state_code"; "state_name"; "start_year"; "end_year"])) s
  = (Ret tt, s') ->
  (term_count (tbl s) < term_count (tbl s'))%nat.
Proof.
  intros Hd E. apply insert_ret in E. destruct E as (ids & E & _).
  unfold term_count.
  destruct E as [target old [=] _ _ _ _|before after old k sets [= <- <-] _ Hc _ _ _ _ _
                |_ _ -> _ _].
  - unfold conflicts in Hc. cbn [existsb] in Hc. rewrite orb_false_r in Hc.
    rewrite (key_match_null member_terms _ "district") in Hc; [discriminate| |].
    + simpl. auto.
    + rewrite term_row_district. exact Hd.
  - rewrite set_table_same, length_app. simpl. rewrite Nat.add_1_r. apply Nat.lt_succ_diag_r.
Qed.

Lemma grows_then_raises {A B} (m : M A) (f : A -> M B) (s s' : session) (b : B) :
  respects terms_grow m ->
  (forall a s1, f a s1 = (Ret b, s') -> (term_count (tbl s1) < term_count (tbl s'))%nat) ->
  bind m f s = (Ret b, s') -> (term_count (tbl s) < term_count (tbl s'))%nat.
Proof.
  intros Hm Hf E. apply bind_ret in E. destruct E as (a & s1 & E1 & E2).
  apply Nat.le_lt_trans with (term_count (tbl s1)); [exact (Hm _ _ _ E1)|eauto].
Qed.

Lemma raises_then_grows {A B} (m : M A) (f : A -> M B) (s s' : session) (b : B) :
  (forall a s1, m s = (Ret a, s1) -> (term_count (tbl s) < term_count (tbl s1))%nat) ->
  (forall a, respects terms_grow (f a)) ->
  bind m f s = (Ret b, s') -> (term_count (tbl s) < term_count (tbl s'))%nat.
Proof.
  intros Hm Hf E. apply bind_ret in E. destruct E as (a & s1 & E1 & E2).
  apply Nat.lt_le_trans with (term_count (tbl s1)); [eauto|exact (Hf _ _ _ _ E2)].
Qed.

Lemma save_member_raises (member : Member.t) (terms : list Term.t) (term : Term.t)
    (s s' : session) :
  Member.terms member = Some terms -> In term terms -> Term.district term = VNull ->
  save_member fault member s = (Ret tt, s') ->
  (term_count (tbl s) < term_count (tbl s'))%nat.
Proof.
  intros Ht Hin Hd. unfold save_member. rewrite Ht. intros E.
  eapply grows_then_raises; [| |exact E]; [respects_tac|]. clear E. intros ? s1 E.
  eapply grows_then_raises; [| |exact E]; [respects_tac|]. clear E. intros ? s2 E.
  eapply grows_then_raises; [| |exact E]; [respects_tac|]. clear E. intros ? s3 E.
  eapply raises_then_grows; [| |exact E]; [|respects_tac]. clear E. intros [] s4 E.
  eapply (for_of_raises _ term_count); [| |exact Hin|exact E].
  - intros t. change (respects terms_grow
      (insert_ fault member_terms
         ["member_bioguide_id"; "congress"; "chamber"; "member_type"; "state_code";
          "state_name"; "district"; "start_year"; "end_year"]
         [vtext (Member.bioguideId member); Term.congress t; Term.chamber t;
          Term.memberType t; Term.stateCode t; Term.stateName t; Term.district t;
          Term.startYear t; Term.endYear t]
         (DoUpdate ["member_bioguide_id"; "congress"; "chamber"; "district"]
            (map (excluded member_terms)
                 ["member_type"; "state_code"; "state_name"; "start_year";
                  "end_year"])))).
    apply term_upsert_grows.
  - intros s5 s6 E5.
    exact (term_upsert_appends (vtext (Member.bioguideId member)) term s5 s6 Hd E5).
Qed.

Lemma safe_member_batch (membersData : list Member.t) :
  txn_safe (for_of membersData (save_member fault)).
Proof. unfold save_member. txn_safe_tac. Qed.

Lemma processMemberBatch_cases (membersData : list Member.t) (s s' : session)
    (r : outcome unit) :
  snap s = None ->
  processMemberBatch fault membersData s = (r, s') ->
  s' = s \/ txn_result (for_of membersData (save_member fault)) s s'.
Proof.
  intros Hs. unfold processMemberBatch. destruct membersData as [|m l].
  - intros [= _ <-]. auto.
  - intros H. apply transaction_cases in H; auto using safe_member_batch.
    destruct H as (_ & _ & _ & H). auto.
Qed.

(** C9. The second run of the member script is not a no-op: every run
    that commits a batch holding a term without district (the upstream
    gives none for the Senate) adds a row to [member_terms], whatever is
    stored already.  The conflict target of the upsert includes
    [district], and a unique index never matches on a NULL cell. *)
Theorem processMemberBatch_rerun_adds_terms (membersData : list Member.t)
    (member : Member.t) (terms : list Term.t) (term : Term.t) (s s' : session)
    (r : outcome unit) :
  snap s = None ->
  processMemberBatch fault membersData s = (r, s') ->
  history s' = Committed :: history s ->
  In member membersData ->
  Member.terms member = Some terms -> In term terms -> Term.district term = VNull ->
  (term_count (tbl s) < term_count (tbl s'))%nat.
Proof.
  intros Hs E Hh Hm Ht Hin Hd.
  destruct (processMemberBatch_cases _ _ _ _ Hs E) as [->|[_ [Hh'|Hh']|s2 EB _ Htb _ _]].
  - destruct (history_not_extended _ _ Hh).
  - rewrite Hh' in Hh. destruct (history_not_extended _ _ Hh).
  - rewrite Hh' in Hh. discriminate.
  - unfold term_count at 2. rewrite Htb. fold (term_count (tbl s2)).
    change (term_count (tbl s)) with (term_count (tbl (begun s))).
    eapply (for_of_raises _ term_count); [| |exact Hm|exact EB].
    + intros a. apply save_member_grows.
    + intros s3 s4. eapply save_member_raises; eauto.
Qed.

End MemberRerun.

Lemma processMemberBatch_rerun_adds_terms_witness :
  let first := snd (MemberScript.processMemberBatch no_fault [sample_senator]
                      (connect empty_tables)) in
  let second := snd (MemberScript.processMemberBatch no_fault [sample_senator] first) in
  history first = [Committed] /\ history second = [Committed; Committed]
  /\ term_count (tbl first) = 1%nat /\ term_count (tbl second) = 2%nat
  /\ (term_count (tbl first) < term_count (tbl second))%nat.
Proof.
  intros first second. repeat split; try reflexivity.
  apply (processMemberBatch_rerun_adds_terms no_fault [sample_senator] sample_senator
           [senate_term] senate_term first second
           (fst (MemberScript.processMemberBatch no_fault [sample_senator] first))).
  - reflexivity.
  - apply surjective_pairing.
  - reflexivity.
  - left. reflexivity.
  - reflexivity.
  - left. reflexivity.
  - reflexivity.
Defined.

(** The same two runs on a member of the House, whose term has a district:
    the second run finds the row and rewrites it with the same cells. *)
Lemma representative_rerun_is_identical :
  let first := snd (MemberScript.processMemberBatch no_fault [sample_representative]
                      (connect empty_tables)) in
  let second := snd (MemberScript.processMemberBatch no_fault [sample_representative]
                       first) in
  history second = [Committed; Committed]
  /\ term_count (tbl first) = 1%nat
  /\ forall t, tbl second t = tbl first t.
Proof.
  intros first second. split; [reflexivity|]. split; [reflexivity|].
  intros []; reflexivity.
Qed.


(* ================================================================== *)
(** * 23. A member that cannot be resolved *)
(* ================================================================== *)

#[local] Instance stays_unknown_order id : TableOrder (stays_unknown id).
Proof. split; unfold stays_unknown; auto. Qed.

#[local] Instance stays_unknown_focus id : Focused member_tables (stays_unknown id).
Proof.
  intros tb tb' H (Hm & Hb & Hc). unfold member_unknown, references.
  rewrite (H members eq_refl), (H bills eq_refl), (H bill_cosponsors eq_refl).
  auto.
Qed.

Lemma vtext_neq (o : option string) (id : string) :
  o <> Some id -> value_eqb (vtext o) (VText id) = false.
Proof.
  destruct o as [x|]; simpl; [|reflexivity].
  intros H. apply String.eqb_neq. congruence.
Qed.

(** A loop that returns ran its body, to its end, on each element, from
    tables the earlier rounds left. *)
Lemma for_of_reaches {A} (f : A -> M unit) (P : tables -> Prop) (l : list A) (x : A)
    (s s' : session) :
  (forall a, respects (fun tb tb' => P tb -> P tb') (f a)) ->
  P (tbl s) -> In x l -> for_of l f s = (Ret tt, s') ->
  exists s1 s2, P (tbl s1) /\ f x s1 = (Ret tt, s2).
Proof.
  intros Hf. revert s. induction l as [|a l IH]; intros s HP Hin E; [destruct Hin|].
  simpl in E. apply bind_ret in E. destruct E as ([] & s1 & E1 & E2).
  destruct Hin as [->|Hin].
  - exists s, s1. auto.
  - apply (IH s1); auto. exact (Hf a _ _ _ E1 HP).
Qed.

Section Unknown.

Variable id : string.

Lemma unknown_bill_replaced (tb : tables) (before after : list row) (old upd : row) :
  tb bills = (before ++ old :: after)%list ->
  member_unknown id tb ->
  field bills upd "sponsor_bioguide_id" <> VText id ->
  member_unknown id (set_table tb bills (before ++ upd :: after)).
Proof.
  intros Hrows (Hm & Hb & Hc) Hupd. unfold member_unknown, references.
  rewrite set_table_same, !set_table_other by discriminate.
  split; [exact Hm|]. split; [|exact Hc].
  intros r Hr. apply in_app_or in Hr. destruct Hr as [Hr|[<-|Hr]].
  - apply Hb. rewrite Hrows. apply in_or_app. auto.
  - exact Hupd.
  - apply Hb. rewrite Hrows. apply in_or_app. simpl. auto.
Qed.

Lemma unknown_bill_appended (tb : tables) (new : row) :
  member_unknown id tb ->
  field bills new "sponsor_bioguide_id" <> VText id ->
  member_unknown id (set_table tb bills (tb bills ++ [new])).
Proof.
  intros (Hm & Hb & Hc) Hnew. unfold member_unknown, references.
  rewrite set_table_same, !set_table_other by discriminate.
  split; [exact Hm|]. split; [|exact Hc].
  intros r Hr. apply in_app_or in Hr. destruct Hr as [Hr|[<-|[]]]; auto.
Qed.

(** The foreign key of a bill row on an unknown member cannot pass. *)
Lemma fk_sponsor_unknown (tb : tables) (cs : list column) (r : row) :
  fk_violation tb bills cs r = None ->
  In (col_fk "sponsor_bioguide_id" false members "bioguide_id") cs ->
  field bills r "sponsor_bioguide_id" = VText id ->
  references tb members "bioguide_id" (VText id) = true.
Proof.
  unfold fk_violation. destruct (find _ cs) eqn:E; [discriminate|].
  intros _ Hin Hf. apply (find_none _ _ E) in Hin. simpl in Hin.
  rewrite Hf in Hin. simpl in Hin.
  destruct (references tb members "bioguide_id" (VText id)); [reflexivity|discriminate].
Qed.

End Unknown.

Section Unresolved.

Import BillScript.

Variable fault : nat -> bool.
Variable up : upstream.
Variable now : Z.
Variable stack_limit : nat.
Variable id : string.

Hypothesis never : never_supplied up id.

(** The stub of another member leaves [id] unknown. *)
Lemma member_stub_stays_unknown (member : Member.t) :
  Member.bioguideId member <> Some id ->
  respects (stays_unknown id) (insert_member_stub fault member).
Proof.
  intros Hid. unfold insert_member_stub. apply respects_insert; try exact _.
  intros tb k tb' ids E (Hm & Hb & Hc).
  destruct E as [target old _ _ _ -> _|before after old key sets [=] _ _ _ _ _ _ _
                |_ _ -> _ _]; [repeat split; assumption|].
  unfold member_unknown, references.
  rewrite set_table_same, !set_table_other by discriminate.
  split; [|split; assumption].
  rewrite existsb_app. unfold references in Hm. rewrite Hm. simpl.
  rewrite orb_false_r. apply vtext_neq. exact Hid.
Qed.

Lemma fetch_stays_unknown (id' : string) :
  respects (stays_unknown id) (fetch_missing_member fault up id').
Proof.
  unfold fetch_missing_member.
  destruct (get_member up id') as [|status|[member|]] eqn:E; respects_tac.
  apply member_stub_stays_unknown. exact (never _ _ E).
Qed.
Hint Resolve fetch_stays_unknown : resp.

(** The stub of a related bill names no sponsor. *)
Lemma related_stub_stays_unknown (congress type number title : value) :
  respects (stays_unknown id)
    (insert_returning fault bills ["congress"; "type"; "number"; "title"]
       [congress; type; number; title]
       (DoUpdate ["congress"; "type"; "number"] [excluded bills "title"])).
Proof.
  apply respects_insert_returning; try exact _.
  intros tb k tb' ids E Hu.
  destruct E as [target old0 [=] _ _ _ _|before after old key sets [= <- <-] Hrows _ _ _ -> _ _
                |_ _ -> _ _].
  - apply unknown_bill_replaced with (old := old); auto.
    rewrite apply_sets_other by reflexivity.
    destruct Hu as (_ & Hb & _). apply Hb. rewrite Hrows. apply in_elt.
  - apply unknown_bill_appended; auto. discriminate.
Qed.
Hint Resolve related_stub_stays_unknown : resp.

Lemma bill_sets_sponsor (old new : row) :
  field bills (apply_sets bills (bill_sets now) old new) "sponsor_bioguide_id"
  = field bills new "sponsor_bioguide_id".
Proof.
  unfold bill_sets, excluded. cbn [apply_sets fold_left fst snd].
  rewrite !field_set_other by discriminate.
  apply field_set_same. discriminate.
Qed.

(** What the bill upsert did when it went through, on tables where [id] is
    unknown: its bill is not sponsored by [id]. *)
Lemma bill_effect_unknown (bill : Bill.t) (k : Z) (tb tb' : tables) (ids : list value) :
  insert_effect bills (proposed now bill k)
    (DoUpdate ["congress"; "type"; "number"] (bill_sets now)) tb tb' ids ->
  member_unknown id tb ->
  sponsor0 bill <> Some id /\ member_unknown id tb'.
Proof.
  intros E Hu. destruct (proposed_key now bill k) as (_ & _ & _ & _ & Ps).
  assert (Hv : sponsor0 bill <> Some id ->
               field bills (proposed now bill k) "sponsor_bioguide_id" <> VText id).
  { rewrite Ps. destruct (sponsor0 bill); simpl; congruence. }
  destruct E as [target old0 [=] _ _ _ _
                |before after old key sets [= <- <-] Hrows _ _ _ -> Hfk _
                |_ _ -> Hfk _].
  - assert (Hold : field bills old "sponsor_bioguide_id" <> VText id).
    { destruct Hu as (_ & Hb & _). apply Hb. rewrite Hrows. apply in_elt. }
    assert (Hs : sponsor0 bill <> Some id).
    { intros Hs. destruct Hu as (Hm & _).
      apply fk_sponsor_unknown with (id := id) in Hfk.
      - unfold references in Hfk, Hm. rewrite set_table_other in Hfk by discriminate.
        congruence.
      - unfold changed_columns. apply filter_In. split; [simpl; tauto|].
        cbn [cname col_fk]. rewrite bill_sets_sponsor, Ps, Hs. simpl.
        apply negb_true_iff. destruct (value_eqb _ _) eqn:Ev; [|reflexivity].
        apply value_eqb_eq in Ev. contradiction.
      - rewrite bill_sets_sponsor, Ps, Hs. reflexivity. }
    split; [exact Hs|].
    apply unknown_bill_replaced with (old := old); auto.
    rewrite bill_sets_sponsor. auto.
  - assert (Hs : sponsor0 bill <> Some id).
    { intros Hs. destruct Hu as (Hm & _).
      apply fk_sponsor_unknown with (id := id) in Hfk.
      - unfold references in Hfk, Hm. rewrite set_table_other in Hfk by discriminate.
        congruence.
      - simpl. tauto.
      - rewrite Ps, Hs. reflexivity. }
    split; [exact Hs|]. apply unknown_bill_appended; auto.
Qed.

Lemma upsert_bill_stays_unknown (bill : Bill.t) :
  respects (stays_unknown id)
    (insert_returning fault bills bill_columns (bill_values now bill)
       (DoUpdate ["congress"; "type"; "number"] (bill_sets now))).
Proof.
  apply respects_insert_returning; try exact _.
  intros tb k tb' ids E Hu. fold (proposed now bill k) in E.
  exact (proj2 (bill_effect_unknown bill k tb tb' ids E Hu)).
Qed.
Hint Resolve upsert_bill_stays_unknown : resp.

(** What the INSERT of a cosponsorship did when it went through, on tables
    where [id] is unknown: it is not a cosponsorship of [id]. *)
Lemma cosponsor_effect_unknown (billId : value) (c : Cosponsor.t) (k : Z)
    (tb tb' : tables) (ids : list value) :
  insert_effect bill_cosponsors
    (build_row bill_cosponsors
       ["bill_id"; "member_bioguide_id"; "sponsorship_date";
        "is_original_cosponsor"; "sponsorship_withdrawn_date"]
       [billId; vtext (Cosponsor.bioguideId c); Cosponsor.sponsorshipDate c;
        Cosponsor.isOriginalCosponsor c; Cosponsor.sponsorshipWithdrawnDate c] k)
    (DoNothing None) tb tb' ids ->
  member_unknown id tb ->
  Cosponsor.bioguideId c <> Some id /\ member_unknown id tb'.
Proof.
  set (new := build_row _ _ _ _).
  assert (Pm : field bill_cosponsors new "member_bioguide_id"
               = vtext (Cosponsor.bioguideId c)) by reflexivity.
  intros E Hu.
  destruct E as [target old _ Hold Hc -> _|before after old key sets [=] _ _ _ _ _ _ _
                |_ _ -> Hfk _].
  - split; [|exact Hu]. intros Hs.
    destruct Hu as (_ & _ & Hu). apply (Hu old Hold).
    unfold conflicts in Hc. cbn [arbiters uniques schema_of existsb] in Hc.
    rewrite orb_false_r in Hc. unfold key_match in Hc. cbn [forallb] in Hc.
    rewrite andb_true_r in Hc. apply andb_prop in Hc. destruct Hc as [_ Hc].
    apply andb_prop in Hc. destruct Hc as [_ Hc]. apply value_eqb_eq in Hc.
    rewrite <- Hc, Pm, Hs. reflexivity.
  - assert (Hs : Cosponsor.bioguideId c <> Some id).
    { intros Hs. destruct Hu as (Hm & _).
      unfold fk_violation in Hfk.
      destruct (find _ (columns (schema_of bill_cosponsors))) eqn:Ef; [discriminate|].
      assert (Hin : In (col_fk "member_bioguide_id" true members "bioguide_id")
                       (columns (schema_of bill_cosponsors))) by (simpl; tauto).
      apply (find_none _ _ Ef) in Hin. cbn [cref cname col_fk] in Hin.
      rewrite Pm, Hs in Hin. unfold references in Hin, Hm.
      rewrite set_table_other in Hin by discriminate.
      simpl in Hin. rewrite Hm in Hin. discriminate. }
    split; [exact Hs|]. destruct Hu as (Hm & Hb & Hc).
    unfold member_unknown, references.
    rewrite set_table_same, !set_table_other by discriminate.
    split; [exact Hm|]. split; [exact Hb|].
    intros r Hr. apply in_app_or in Hr. destruct Hr as [Hr|[<-|[]]]; auto.
    rewrite Pm. destruct (Cosponsor.bioguideId c); simpl; congruence.
Qed.

Lemma cosponsor_stays_unknown (billId : value) (c : Cosponsor.t) :
  respects (stays_unknown id)
    (insert_ fault bill_cosponsors
       ["bill_id"; "member_bioguide_id"; "sponsorship_date";
        "is_original_cosponsor"; "sponsorship_withdrawn_date"]
       [billId; vtext (Cosponsor.bioguideId c); Cosponsor.sponsorshipDate c;
        Cosponsor.isOriginalCosponsor c; Cosponsor.sponsorshipWithdrawnDate c]
       (DoNothing None)).
Proof.
  apply respects_insert; try exact _.
  intros tb k tb' ids E Hu.
  exact (proj2 (cosponsor_effect_unknown billId c k tb tb' ids E Hu)).
Qed.
Hint Resolve cosponsor_stays_unknown : resp.

Lemma ensure_sponsors_stays_unknown (batch : list Bill.t) :
  respects (stays_unknown id) (ensure_sponsors fault up batch).
Proof. unfold ensure_sponsors, missing_members. respects_tac. Qed.

Lemma save_actions_stays_unknown (billId : value) (url : string) :
  respects (stays_unknown id) (save_actions fault up stack_limit billId url).
Proof. unfold save_actions, ensureCommitteeExists. respects_tac. Qed.

Lemma save_committees_stays_unknown (billId : value) (url : string) :
  respects (stays_unknown id) (save_committees fault up stack_limit billId url).
Proof. unfold save_committees, ensureCommitteeExists. respects_tac. Qed.

Lemma save_cosponsors_stays_unknown (billId : value) (url : string) :
  respects (stays_unknown id) (save_cosponsors fault up billId url).
Proof. unfold save_cosponsors, missing_members. respects_tac. Qed.

Hint Resolve save_actions_stays_unknown save_committees_stays_unknown
  save_cosponsors_stays_unknown : resp.

Lemma related_data_stays_unknown (bill : Bill.t) (billId : value) :
  respects (stays_unknown id) (save_related_data fault up stack_limit bill billId).
Proof.
  unfold save_related_data, with_url, with_list, save_reports, save_relatedBills,
    save_summaries, save_subjects, save_titles, save_textVersions,
    save_cboCostEstimates.
  respects_tac.
Qed.

Lemma save_bill_stays_unknown (bill : Bill.t) :
  respects (stays_unknown id) (save_bill fault up now stack_limit bill).
Proof.
  unfold save_bill, upsert_bill.
  apply respects_bind; try exact _.
  - apply respects_bind; try exact _.
    + apply upsert_bill_stays_unknown.
    + intros ids. apply respects_first_id; exact _.
  - intros billId. apply related_data_stays_unknown.
Qed.

(** A sequence that returns, from tables where [id] is unknown, ran its
    second part from such tables. *)
Lemma bind_ret_unknown {A B} (m : M A) (f : A -> M B) (s s' : session) (b : B) :
  respects (stays_unknown id) m ->
  member_unknown id (tbl s) ->
  bind m f s = (Ret b, s') ->
  exists a s1, member_unknown id (tbl s1) /\ f a s1 = (Ret b, s').
Proof.
  intros Hm Hu E. apply bind_ret in E. destruct E as (a & s1 & E1 & E2).
  exists a, s1. split; [exact (Hm _ _ _ E1 Hu)|exact E2].
Qed.

Ltac after_bind E Hu :=
  lazymatch type of E with
  | bind ?m ?f ?s = (Ret ?b, ?s') =>
      let Hm := fresh "Hm" in
      assert (Hm : respects (stays_unknown id) m);
      [|let a := fresh "a" in
        let s1 := fresh "s" in
        let Hu1 := fresh "Hu" in
        let E1 := fresh "E" in
        destruct (bind_ret_unknown m f s s' b Hm Hu E) as (a & s1 & Hu1 & E1);
        clear E Hm; rename E1 into E; clear Hu; rename Hu1 into Hu]
  end.

(** The cosponsors of a bill cannot all be stored when one of them is
    unknown. *)
Lemma save_cosponsors_unresolved (billId : value) (url : string) (c : Cosponsor.t)
    (s s' : session) :
  In c (list_cosponsors up url) -> Cosponsor.bioguideId c = Some id -> id <> "" ->
  member_unknown id (tbl s) ->
  save_cosponsors fault up billId url s <> (Ret tt, s').
Proof.
  intros Hin Hc Hid Hu E. cbv beta zeta delta [save_cosponsors] in E.
  after_bind E Hu; [unfold missing_members; respects_tac|].
  apply (for_of_reaches _ (member_unknown id) _ c) in E; auto.
  - destruct E as (s1 & s2 & Hu1 & E). cbv beta in E.
    rewrite Hc in E. unfold truthy_str, when in E.
    apply String.eqb_neq in Hid. rewrite Hid in E. cbn [negb] in E.
    rewrite <- Hc in E. apply insert_ret in E. destruct E as (ids & E & _).
    destruct (cosponsor_effect_unknown _ _ _ _ _ _ E Hu1) as [Hne _]. contradiction.
  - intros c'.
    lazymatch goal with
    | |- respects _ ?m => change (respects (stays_unknown id) m)
    end.
    respects_tac.
Qed.

(** A bill that names an unknown member cannot be stored in full. *)
Lemma save_bill_unresolved (bill : Bill.t) (s s' : session) :
  names_member up bill id ->
  member_unknown id (tbl s) ->
  save_bill fault up now stack_limit bill s <> (Ret tt, s').
Proof.
  intros [Hs|(url & c & Hurl & Hne & Hin & Hc & Hid)] Hu E; unfold save_bill in E.
  - apply bind_ret in E. destruct E as (billId & s1 & E & _).
    unfold upsert_bill in E. apply bind_ret in E. destruct E as (ids & s0 & E & _).
    apply insert_returning_ret in E. destruct E as (E & _).
    fold (proposed now bill (seqs s bills + 1)) in E.
    destruct (bill_effect_unknown _ _ _ _ _ E Hu) as [Hn _]. contradiction.
  - after_bind E Hu.
    { unfold upsert_bill. respects_tac. }
    cbv beta delta [save_related_data] in E.
    after_bind E Hu; [unfold with_url; respects_tac|].
    after_bind E Hu; [unfold with_url; respects_tac|].
    apply bind_ret in E. destruct E as ([] & s3 & E & _).
    rewrite Hurl in E. unfold with_url in E.
    apply String.eqb_neq in Hne. rewrite Hne in E.
    exact (save_cosponsors_unresolved _ _ _ _ _ Hin Hc Hid Hu E).
Qed.

(** ... and neither can a batch that holds such a bill. *)
Lemma batch_body_unresolved (billDataBatch : list (option Bill.t)) (bill : Bill.t)
    (s s' : session) :
  In (Some bill) billDataBatch ->
  names_member up bill id ->
  member_unknown id (tbl s) ->
  batch_body fault up now stack_limit billDataBatch s <> (Ret tt, s').
Proof.
  intros Hin Hn Hu E. unfold batch_body in E.
  destruct (defined_bills billDataBatch) as [batch|] eqn:Ed; [|discriminate].
  apply (defined_bills_in _ _ bill Ed) in Hin.
  after_bind E Hu; [apply ensure_sponsors_stays_unknown|].
  apply (for_of_reaches _ (member_unknown id) _ bill) in E; auto.
  - destruct E as (s1 & s2 & Hu1 & E).
    exact (save_bill_unresolved _ _ _ Hn Hu1 E).
  - intros b. apply save_bill_stays_unknown.
Qed.

(** C4, amended.  A member that a bill of the batch names, as sponsor
    or as cosponsor, and that cannot be resolved (it is not stored, no
    stored row refers to it, and the detail endpoint never answers with
    it) is not skipped: the batch writer returns normally, but nothing of
    the batch is committed, the tables are those before the call. *)
Theorem unresolved_member_rolls_back_batch (billDataBatch : list (option Bill.t))
    (bill : Bill.t) (s s' : session) (r : outcome unit) :
  snap s = None ->
  saveBillBatchToDb fault up now stack_limit billDataBatch s = (r, s') ->
  In (Some bill) billDataBatch ->
  names_member up bill id ->
  member_unknown id (tbl s) ->
  r = Ret tt /\ tbl s' = tbl s /\ history s' <> Committed :: history s.
Proof.
  intros Hs E Hin Hn Hu.
  destruct (saveBillBatchToDb_cases _ _ _ _ _ _ _ _ Hs E) as (Hr & _ & [->|[_ Hres]]).
  - split; [exact Hr|]. split; [reflexivity|]. apply history_not_extended.
  - destruct Hres as [Ht [Hh|Hh]|s2 EB _ _ _ _].
    + split; [exact Hr|]. split; [exact Ht|]. rewrite Hh. apply history_not_extended.
    + split; [exact Hr|]. split; [exact Ht|]. rewrite Hh. discriminate.
    + destruct (batch_body_unresolved billDataBatch bill (begun s) s2 Hin Hn Hu EB).
Qed.

End Unresolved.

Lemma unresolved_member_rolls_back_batch_witness :
  let run := BillScript.saveBillBatchToDb no_fault sample_upstream 1000 50
               sample_batch (connect empty_tables) in
  member_unknown "B000002" empty_tables
  /\ fst run = Ret tt
  /\ tbl (snd run) = empty_tables
  /\ history (snd run) <> [Committed].
Proof.
  intros run.
  assert (Hu : member_unknown "B000002" empty_tables).
  { split; [reflexivity|]. split; intros r []. }
  split; [exact Hu|].
  refine (unresolved_member_rolls_back_batch no_fault sample_upstream 1000 50
            "B000002" _ sample_batch (sample_bill 2 (Some "B000002"))
            (connect empty_tables) (snd run) (fst run) _ _ _ _ _).
  - intros id' m. simpl. destruct (String.eqb id' "A000001") eqn:E; [|discriminate].
    apply String.eqb_eq in E. subst id'. intros [= <-]. discriminate.
  - reflexivity.
  - apply surjective_pairing.
  - right. left. reflexivity.
  - left. reflexivity.
  - exact Hu.
Defined.

(** C4, as stated, fails: the sponsor B000002 of the second bill is not
    stored and the member endpoint answers 404.  The bill is not skipped;
    the first bill of the batch, which is stored when written alone, is
    rolled back with it. *)
Lemma unresolved_sponsor_drops_whole_batch :
  let alone := snd (BillScript.saveBillBatchToDb no_fault sample_upstream 1000 50
                      [Some (sample_bill 1 (Some "A000001"))] (connect empty_tables)) in
  let both := snd (BillScript.saveBillBatchToDb no_fault sample_upstream 1000 50
                     sample_batch (connect empty_tables)) in
  get_member sample_upstream "B000002" = HttpError 404
  /\ history alone = [Committed]
  /\ List.length (tbl alone bills) = 1%nat
  /\ history both = [RolledBack]
  /\ tbl both bills = []
  /\ tbl both members = [].
Proof.
  intros alone both. repeat split; reflexivity.
Qed.

(** The same with a cosponsor: the INSERT of the cosponsorship of C000003
    violates its foreign key, and the bill before it in the batch goes
    with the rollback. *)
Lemma unresolved_cosponsor_drops_whole_batch :
  let both := snd (BillScript.saveBillBatchToDb no_fault cosponsor_upstream 1000 50
                     [Some (sample_bill 1 (Some "A000001")); Some bill_with_cosponsors]
                     (connect empty_tables)) in
  names_member cosponsor_upstream bill_with_cosponsors "C000003"
  /\ errlog both = [ForeignKeyViolation bill_cosponsors "member_bioguide_id"]
  /\ history both = [RolledBack]
  /\ tbl both bills = []
  /\ tbl both bill_cosponsors = [].
Proof.
  intros both. split; [|repeat split; reflexivity].
  right. exists "https://api.congress.gov/v3/bill/119/hr/2/cosponsors".
  exists (Cosponsor.mk (Some "C000003") (VText "2025-01-03") (VBool true) VNull).
  repeat split; try discriminate. left. reflexivity.
Qed.

(* ================================================================== *)
(** * 24. Chamber inference, in closed form *)
(* ================================================================== *)

(** [inferChamber] returns exactly in two cases: the chamber the payload
    carries, when it is not empty, and otherwise the value of the first
    rule that matches.  The stack plays no part beyond its first frame,
    and 'Unknown' is an answer only when the payload says so. *)
Theorem inferChamber_returns (stack : nat) (c : Committee.t) (v : string) :
  BillScript.inferChamber stack c = Some v <->
  stack <> O /\
  (Committee.chamber c = Some v /\ v <> ""
   \/ truthy_str (Committee.chamber c) = false /\ chamber_rule c = Some v).
Proof.
  split.
  - destruct stack as [|n]; [discriminate|]. intros H. split; [discriminate|].
    destruct (truthy_str (Committee.chamber c)) eqn:Hc.
    + rewrite (inferChamber_given n c Hc) in H. left. split; [exact H|].
      rewrite H in Hc. simpl in Hc. intros ->. discriminate.
    + right. split; [reflexivity|].
      rewrite (inferChamber_frame n c Hc) in H.
      destruct (chamber_rule c) as [u|] eqn:Hr; [exact H|].
      rewrite (inferChamber_no_rule c Hc Hr) in H. discriminate.
  - intros [Hs [[Hc Hv]|[Hc Hr]]]; (destruct stack as [|n]; [contradiction|]).
    + rewrite inferChamber_given; [exact Hc|].
      rewrite Hc. simpl. apply negb_true_iff, String.eqb_neq. exact Hv.
    + rewrite (inferChamber_frame n c Hc), Hr. reflexivity.
Qed.

(* ================================================================== *)
(** * 25. ensureCommitteeExists *)
(* ================================================================== *)

Lemma not_extended {A} (l : list A) (x : A) : l <> x :: l.
Proof.
  intros H. apply (f_equal (@List.length _)) in H. simpl in H. lia.
Qed.

Lemma js_or_not_null (a b : value) : b <> VNull -> is_null (js_or a b) = false.
Proof.
  intros Hb. unfold js_or. destruct (truthy a) eqn:E.
  - destruct a; simpl in *; congruence.
  - destruct b; simpl; congruence.
Qed.

Section EnsureCommittee.

Import BillScript.

Variable fault : nat -> bool.
Variable stack_limit : nat.

(** A statement that is rejected adds to the log of the server. *)
Lemma insert_throws_logs t names vals oc (e : js_error) (s s' : session) :
  insert_ fault t names vals oc s = (Throw e, s') ->
  exists x, errlog s' = x :: errlog s.
Proof.
  unfold insert_, bind, client_query, raise.
  destruct (failed s); [intros [= _ <-]; simpl; eauto|].
  destruct (fault (nstmt s)); [intros [= _ <-]; simpl; eauto|].
  destruct (exec_insert t names vals oc (tbl s) (seqs s)) as [sq [x|[tb a]]].
  - intros [= _ <-]. simpl. eauto.
  - discriminate.
Qed.

(** [ensureCommitteeExists] never throws, whatever the database and the
    stack do: a payload without system code sends nothing, an overflow of
    [inferChamber] is caught before any statement is sent, and a rejected
    INSERT is logged and dropped.  Inside a transaction that last case
    leaves the transaction aborted all the same. *)
Theorem ensureCommitteeExists_never_throws (c : Committee.t) (s : session) :
  let run := ensureCommitteeExists fault stack_limit c s in
  fst run = Ret tt
  /\ (truthy_str (Committee.systemCode c) = false -> snd run = s)
  /\ (inferChamber stack_limit c = None -> snd run = s)
  /\ (forall t0, snap s = Some t0 -> errlog (snd run) <> errlog s ->
                 failed (snd run) = true).
Proof.
  intros run. subst run. split; [|split; [|split]].
  - unfold ensureCommitteeExists.
    destruct (truthy_str (Committee.systemCode c)); [|reflexivity]. simpl.
    unfold try_catch. destruct (inferChamber stack_limit c) as [ch|]; [|reflexivity].
    destruct (insert_ _ _ _ _ _ s) as [[[]|e] s1]; reflexivity.
  - intros H. unfold ensureCommitteeExists. rewrite H. reflexivity.
  - intros H. unfold ensureCommitteeExists. rewrite H.
    destruct (truthy_str (Committee.systemCode c)); reflexivity.
  - intros t0 Hs Hlog.
    destruct (ensureCommitteeExists fault stack_limit c s) as [r s'] eqn:E.
    destruct (safe_ensureCommitteeExists fault stack_limit c s r s' t0 Hs E)
      as [_ _ (new & Hnew & Hfail) _].
    simpl in *. apply Hfail. intros ->. apply Hlog. exact Hnew.
Qed.

Lemma sql_eq_sym (a b : value) : sql_eq a b = sql_eq b a.
Proof.
  unfold sql_eq. rewrite (value_eqb_sym a b).
  destruct (is_null a), (is_null b); reflexivity.
Qed.

(** No row that the arbiter let pass carries the code of the new row. *)
Lemma no_conflict_no_code (new : row) (code : string) (rows : list row) :
  field committees new "system_code" = VText code ->
  (forall r, In r rows -> conflicts committees [["system_code"]] new r = false) ->
  find (fun r => sql_eq (field committees r "system_code") (VText code)) rows = None.
Proof.
  intros Hn H. apply find_none_forall. intros x Hx. specialize (H x Hx).
  rewrite conflicts_one_column, Hn in H. rewrite sql_eq_sym. exact H.
Qed.

(** The upsert of [ensureCommitteeExists] writes the name it is given over
    the stored one.  The parameter is [committee.name || 'Unknown
    Committee'], never NULL, so the COALESCE of the statement never falls
    back on the stored name: a committee seen without its name is renamed
    'Unknown Committee'. *)
Theorem ensureCommitteeExists_overwrites_name (c : Committee.t) (code ch : string)
    (s s' : session) (r : outcome unit) :
  Committee.systemCode c = Some code -> code <> "" ->
  inferChamber stack_limit c = Some ch ->
  ensureCommitteeExists fault stack_limit c s = (r, s') ->
  errlog s' = errlog s ->
  stored_name (tbl s') code
  = Some (js_or (vtext (Committee.name c)) (VText "Unknown Committee")).
Proof.
  intros Hcode Hne Hch E Hlog. unfold ensureCommitteeExists in E.
  rewrite Hcode, Hch in E. simpl in E.
  apply String.eqb_neq in Hne. rewrite Hne in E. simpl in E.
  unfold try_catch in E.
  set (name := js_or (vtext (Committee.name c)) (VText "Unknown Committee")) in *.
  assert (Hname : is_null name = false) by (apply js_or_not_null; discriminate).
  destruct (insert_ fault committees _ _ _ s) as [[[]|e] s1] eqn:E1.
  - injection E as _ <-. apply insert_ret in E1. destruct E1 as (ids & E1 & _).
    set (new := build_row committees _ _ _) in E1.
    assert (Nc : field committees new "system_code" = VText code) by reflexivity.
    assert (Nn : field committees new "name" = name) by reflexivity.
    unfold stored_name, committee_row.
    destruct E1 as [target old0 [=] _ _ _ _
                   |before after old k sets [= <- <-] Hrows Hc Hbefore _ -> _ _
                   |Hnone _ -> _ _].
    + rewrite set_table_same, find_app_cases.
      rewrite (no_conflict_no_code new code before Nc Hbefore). cbn [find].
      rewrite conflicts_one_column, Nc, sql_eq_sym in Hc.
      rewrite apply_sets_other by reflexivity. rewrite Hc. cbn [option_map].
      f_equal. cbn [apply_sets fold_left fst snd].
      rewrite field_set_other by discriminate.
      rewrite field_set_same by discriminate.
      rewrite Nn. unfold coalesce. rewrite Hname. reflexivity.
    + rewrite set_table_same, find_app_cases.
      rewrite (no_conflict_no_code new code (tbl s committees) Nc Hnone). cbn [find].
      rewrite Nc, sql_eq_refl_text. cbn [option_map]. rewrite Nn. reflexivity.
  - injection E as _ <-. apply insert_throws_logs in E1. destruct E1 as (x & E1).
    rewrite E1 in Hlog. destruct (not_extended _ _ (eq_sym Hlog)).
Qed.

End EnsureCommittee.

Lemma ensureCommitteeExists_never_throws_witness :
  let s := begun (connect empty_tables) in
  let run := BillScript.ensureCommitteeExists no_fault 50 unmatched_committee s in
  fst run = Ret tt /\ snd run = s.
Proof.
  intros s run.
  destruct (ensureCommitteeExists_never_throws no_fault 50 unmatched_committee s)
    as (Hr & _ & Hover & _).
  split; [exact Hr|]. apply Hover. reflexivity.
Defined.

Lemma ensureCommitteeExists_overwrites_name_witness :
  let run := BillScript.ensureCommitteeExists no_fault 50 nameless_committee
               (connect house_committee_tables) in
  stored_name house_committee_tables "HSAG" = Some (VText "Agriculture")
  /\ stored_name (tbl (snd run)) "HSAG" = Some (VText "Unknown Committee").
Proof.
  intros run. split; [reflexivity|].
  apply (ensureCommitteeExists_overwrites_name no_fault 50 nameless_committee
           "HSAG" "House" (connect house_committee_tables) (snd run) (fst run)).
  - reflexivity.
  - discriminate.
  - reflexivity.
  - apply surjective_pairing.
  - reflexivity.
Defined.

(* ================================================================== *)
(** * 26. The batch loops of main *)
(* ================================================================== *)

Lemma concat_chunks {A} (fuel k : nat) (l : list A) :
  (0 < k)%nat -> (List.length l <= fuel)%nat -> List.concat (chunks fuel k l) = l.
Proof.
  intros Hk. revert l. induction fuel as [|fuel IH]; intros l H.
  - destruct l; [reflexivity|simpl in H; lia].
  - destruct l as [|x l]; [reflexivity|].
    cbn [chunks List.concat]. rewrite IH.
    + apply firstn_skipn.
    + rewrite length_skipn. cbn [List.length] in *. lia.
Qed.

(** The URLs fanned out are those of the batches fanned out. *)
Lemma fanned_out_fan_outs (tr : list event) : fanned_out tr = List.concat (fan_outs tr).
Proof.
  unfold fanned_out, fan_outs. induction (rev tr) as [|e l IH]; [reflexivity|].
  simpl. rewrite concat_app, <- IH. destruct e; simpl; rewrite ?app_nil_r; reflexivity.
Qed.

Lemma defined_bills_none (l : list (option Bill.t)) :
  In None l -> BillScript.defined_bills l = None.
Proof.
  induction l as [|[b|] l IH]; simpl; [tauto| |reflexivity].
  intros [H|H]; [discriminate|]. rewrite (IH H). reflexivity.
Qed.

Section BillLoop.

Import BillScript.

Variable fault : nat -> bool.
Variable now : nat -> Z.
Variable stack_limit : nat.
Variable get_bill : nat -> string -> response (option Bill.t).
Variable up : nat -> upstream.

(** When no detail fetch is answered 429, the cursor loop of the bill
    script ends within as many turns as there are URLs, and its fan-outs
    are exactly the consecutive batches of 15 of the work list (the last
    one shorter), each once and in order; so every URL is fanned out
    exactly once.  This holds whatever the detail fetches answer and
    whatever the batch writes store; the sub-resource listings a batch
    write awaits are given by the upstream of its round. *)
Theorem bill_loop_covers_work_list (billUrls : list string) (w : world) :
  never_limited get_bill ->
  exists w',
    main_loop fault now stack_limit get_bill up (List.length billUrls) billUrls 0 w
    = Some w'
    /\ fan_outs (trace w') = (fan_outs (trace w) ++ batches 15 billUrls)%list
    /\ fanned_out (trace w') = (fanned_out (trace w) ++ billUrls)%list.
Proof.
  intros H.
  destruct (bill_loop_batches fault now stack_limit get_bill up
              (List.length billUrls) billUrls 0 w) as (w' & E & Hf).
  - intros n url _. apply H.
  - lia.
  - unfold BATCH_SIZE. lia.
  - exists w'. split; [exact E|]. simpl in Hf. split; [exact Hf|].
    rewrite !fanned_out_fan_outs, Hf, concat_app. f_equal.
    apply concat_chunks; lia.
Qed.

End BillLoop.

Lemma bill_loop_covers_work_list_witness :
  exists w',
    BillScript.main_loop no_fault (fun _ => 1000) 50 always_down
      (fun _ => sample_upstream) 20 sample_urls 0 fresh_world = Some w'
    /\ fan_outs (trace w') = [firstn 15 sample_urls; skipn 15 sample_urls]
    /\ fanned_out (trace w') = sample_urls.
Proof.
  apply (bill_loop_covers_work_list no_fault (fun _ => 1000) 50 always_down
           (fun _ => sample_upstream) sample_urls fresh_world).
  intros n url. discriminate.
Defined.

Section BillLoopUndefined.

Import BillScript.

Variable fault : nat -> bool.
Variable now : nat -> Z.
Variable stack_limit : nat.
Variable get_bill : nat -> string -> response (option Bill.t).
Variable up : nat -> upstream.

(** A batch with an [undefined] entry: reading [b.sponsors] throws before
    any statement of the batch, and the catch rolls back. *)
Lemma saveBillBatchToDb_undefined (billDataBatch : list (option Bill.t)) (u : upstream)
    (t : Z) (s : session) :
  In None billDataBatch -> snap s = None ->
  let s' := snd (saveBillBatchToDb fault u t stack_limit billDataBatch s) in
  tbl s' = tbl s /\ seqs s' = seqs s /\ nstmt s' = (nstmt s + 2)%nat
  /\ history s' <> Committed :: history s.
Proof.
  intros Hin Hs. pose proof (defined_bills_none _ Hin) as Hd.
  destruct billDataBatch as [|b l]; [destruct Hin|].
  unfold saveBillBatchToDb, try_catch, bind, BEGIN, batch_body, raise, ROLLBACK, throw.
  rewrite Hd, Hs. destruct (fault (nstmt s)); simpl; rewrite ?Hs; simpl.
  - repeat split; try lia. apply history_not_extended.
  - repeat split; try lia. discriminate.
Qed.

(** The filter of [main] is [bill !== null]: an ok response whose body has
    no [bill] key yields [undefined], which passes it.  The batch write of
    that turn then fails on the first property access and is rolled back:
    no bill of the batch is stored, none is even sent to the database, and
    the loop moves on to the next batch. *)
Theorem main_iteration_undefined_bill (billUrls : list string) (i : Z) (w : world)
    (url : string) :
  In url (slice billUrls i (i + BATCH_SIZE)) ->
  get_bill (round w) url = HttpOk None ->
  ~ rate_limited get_bill BATCH_SIZE billUrls i w ->
  snap (sess w) = None ->
  let turn := main_iteration fault now stack_limit get_bill up billUrls i w in
  fst turn = i + BATCH_SIZE
  /\ tbl (sess (snd turn)) = tbl (sess w)
  /\ nstmt (sess (snd turn)) = (nstmt (sess w) + 2)%nat
  /\ history (sess (snd turn)) <> Committed :: history (sess w).
Proof.
  intros Hin Hget Hrate Hs turn. subst turn. unfold main_iteration.
  unfold rate_limited in Hrate. apply not_true_is_false in Hrate. rewrite Hrate.
  cbn [fst snd sess].
  set (batch := not_null _).
  assert (Hb : In None batch).
  { subst batch. revert Hin. generalize (slice billUrls i (i + BATCH_SIZE)).
    intros l. induction l as [|u l IH]; simpl; [tauto|].
    intros [->|H].
    - rewrite Hget. simpl. auto.
    - destruct (detail_of (get_bill (round w) u)); simpl; auto. }
  destruct (saveBillBatchToDb_undefined batch (up (round w)) (now (round w)) (sess w)
              Hb Hs) as (Ht & _ & Hn & Hh).
  auto.
Qed.

End BillLoopUndefined.

Lemma main_iteration_undefined_bill_witness :
  let turn := BillScript.main_iteration no_fault (fun _ => 1000) 50 bodies_without_bill
                (fun _ => sample_upstream) sample_urls 0 fresh_world in
  fst turn = 15
  /\ tbl (sess (snd turn)) = empty_tables
  /\ nstmt (sess (snd turn)) = 2%nat
  /\ history (sess (snd turn)) <> [Committed].
Proof.
  intros turn.
  apply (main_iteration_undefined_bill no_fault (fun _ => 1000) 50 bodies_without_bill
           (fun _ => sample_upstream) sample_urls 0 fresh_world
           "https://api.congress.gov/v3/bill/119/hr/1").
  - left. reflexivity.
  - reflexivity.
  - unfold rate_limited. vm_compute. discriminate.
  - reflexivity.
Defined.

Section MemberLoop.

Import MemberScript.

Variable fault : nat -> bool.
Variable get_member : nat -> string -> response (option Member.t).

(** The same for the member script: without a 429 the loop ends within
    as many turns as there are URLs, and its fan-outs are exactly the
    consecutive batches of 50 of the member URLs (the last one shorter),
    each once and in order. *)
Theorem member_loop_covers_urls (allMemberUrls : list string) (w : world) :
  never_limited get_member ->
  exists w',
    main_loop fault get_member (List.length allMemberUrls) allMemberUrls 0 w = Some w'
    /\ fan_outs (trace w') = (fan_outs (trace w) ++ batches 50 allMemberUrls)%list
    /\ fanned_out (trace w') = (fanned_out (trace w) ++ allMemberUrls)%list.
Proof.
  intros H.
  destruct (member_loop_batches fault get_member
              (List.length allMemberUrls) allMemberUrls 0 w) as (w' & E & Hf).
  - intros n url _. apply H.
  - lia.
  - unfold BATCH_SIZE. lia.
  - exists w'. split; [exact E|]. simpl in Hf. split; [exact Hf|].
    rewrite !fanned_out_fan_outs, Hf, concat_app. f_equal.
    apply concat_chunks; lia.
Qed.

End MemberLoop.

Lemma member_loop_covers_urls_witness :
  exists w',
    MemberScript.main_loop no_fault always_down 20 sample_urls 0 fresh_world = Some w'
    /\ fan_outs (trace w') = [sample_urls]
    /\ fanned_out (trace w') = sample_urls.
Proof.
  apply (member_loop_covers_urls no_fault always_down sample_urls fresh_world).
  intros n url. discriminate.
Defined.

(* ================================================================== *)
(** * 27. The planner only reads *)
(* ================================================================== *)

Section PlannerReads.

Import BillScript.

Variable fault : nat -> bool.
Variable API_KEY : string.

Lemma select_listed_reads (apiBills : list Listed.t) (s s' : session)
    (r : outcome (list row)) :
  select_listed fault apiBills s = (r, s') ->
  tbl s' = tbl s /\ snap s' = snap s /\ seqs s' = seqs s /\ history s' = history s.
Proof.
  unfold select_listed, client_query, raise, exec_select.
  destruct (failed s); [intros [= _ <-]; auto|].
  destruct (fault (nstmt s)); intros [= _ <-]; auto.
Qed.

Lemma walk_pages_reads (pages : list listing_page) (acc : list string) (s : session) :
  let s' := snd (walk_pages fault API_KEY pages acc s) in
  tbl s' = tbl s /\ snap s' = snap s /\ seqs s' = seqs s /\ history s' = history s.
Proof.
  revert acc s. induction pages as [|[date_now [|status|[[|b bs]|]]] rest IH];
    intros acc s; cbn [walk_pages]; try (simpl; tauto); try apply IH.
  destruct (select_listed fault (b :: bs) s) as [[rows|e] s1] eqn:E;
    apply select_listed_reads in E; destruct E as (Ht & Hs & Hq & Hh).
  - specialize (IH (acc ++ filter_page API_KEY (dbBillMap_of rows)
                                       (date_now - SEVEN_DAYS) (b :: bs))%list s1).
    cbv zeta in IH. rewrite <- Ht, <- Hs, <- Hq, <- Hh. exact IH.
  - simpl. auto.
Qed.

(** Whatever the listing and the database answer, the planner leaves the
    stored rows, the sequences and the transaction state as they were:
    it only reads, and opens no transaction. *)
Theorem fetchAndFilterBillUrls_only_reads (CONGRESS_TO_FETCH : option string)
    (pages : list listing_page) (s : session) :
  let s' := snd (fetchAndFilterBillUrls fault API_KEY CONGRESS_TO_FETCH pages s) in
  tbl s' = tbl s /\ snap s' = snap s /\ seqs s' = seqs s /\ history s' = history s.
Proof.
  unfold fetchAndFilterBillUrls.
  destruct (negb (truthy_str CONGRESS_TO_FETCH)); [simpl; auto|].
  apply walk_pages_reads.
Qed.

End PlannerReads.

(* ================================================================== *)
(** * 28. Reports of a committee *)
(* ================================================================== *)

Lemma update_row_other (t : table_name) sets (r : row) (c : string) :
  forallb (fun cf => negb (String.eqb (fst cf) c)) sets = true ->
  field t (update_row t sets r) c = field t r c.
Proof.
  unfold update_row. intros H.
  assert (G : forall acc,
             field t (fold_left (fun x cf => set_field t x (fst cf) (snd cf r)) sets acc) c
             = field t acc c).
  { induction sets as [|[c0 f] sets IH]; simpl; intros acc; [reflexivity|].
    simpl in H. apply andb_prop in H. destruct H as [Hc H]. rewrite IH by exact H.
    apply field_set_other. intros ->. rewrite String.eqb_refl in Hc. discriminate. }
  apply G.
Qed.

#[local] Instance only_congress_order c : TableOrder (only_congress c).
Proof.
  split.
  - intros tb. exists []. split; [symmetry; apply app_nil_r|intros v []].
  - intros t1 t2 t3 (a1 & E1 & H1) (a2 & E2 & H2). exists (a1 ++ a2)%list. split.
    + rewrite E2, E1, app_assoc. reflexivity.
    + intros v Hv. apply in_app_or in Hv. destruct Hv; auto.
Qed.

#[local] Instance only_congress_focus c :
  Focused (table_eqb committee_reports) (only_congress c).
Proof.
  intros tb tb' H. exists []. split; [|intros v []].
  unfold report_congresses. rewrite (H committee_reports eq_refl).
  symmetry. apply app_nil_r.
Qed.

Section Reports.

Import CommitteeScript.

Variable fault : nat -> bool.
Variable CONGRESS_TO_FETCH : option Z.
Variable get_report_detail : value -> value -> value -> response (option Report.t).

(** An UPDATE of the reports that does not assign [congress]. *)
Lemma report_update_keeps_congress sets wh :
  forallb (fun cf => negb (String.eqb (fst cf) "congress")) sets = true ->
  respects (only_congress CONGRESS_TO_FETCH)
           (client_query fault (exec_update committee_reports sets wh)).
Proof.
  intros Hsets. apply respects_query; try exact _. intros tb sq sq' tb' a E.
  apply exec_update_effect in E. exists []. split; [|intros v []].
  unfold report_congresses. rewrite E, set_table_same, map_map, app_nil_r.
  apply map_ext. intros r. destruct (wh r); [|reflexivity].
  apply update_row_other. exact Hsets.
Qed.

(** The upsert of a report of the congress being fetched. *)
Lemma report_upsert_congress (report : Report.t) (c : Z) :
  CONGRESS_TO_FETCH = Some c -> Report.congress report = VInt c ->
  respects (only_congress CONGRESS_TO_FETCH)
    (insert_returning fault committee_reports
       ["congress"; "chamber"; "type"; "number"; "part"; "citation"; "updated_at"]
       [Report.congress report; Report.chamber report; Report.type report;
        Report.number report; Report.part report; Report.citation report;
        Report.updateDate report]
       (DoUpdate ["citation"] [excluded committee_reports "updated_at"])).
Proof.
  intros HC Hc. apply respects_insert_returning; try exact _.
  intros tb k tb' ids E.
  set (new := build_row committee_reports _ _ _) in E.
  assert (Nc : field committee_reports new "congress" = Report.congress report)
    by reflexivity.
  destruct E as [target old0 [=] _ _ _ _|before after old key sets [= <- <-] Hrows _ _ _ -> _ _
                |_ _ -> _ _].
  - exists []. split; [|intros v []].
    unfold report_congresses. rewrite set_table_same, Hrows, !map_app, app_nil_r.
    simpl. rewrite apply_sets_other by reflexivity. reflexivity.
  - exists [VInt c]. split.
    + unfold report_congresses. rewrite set_table_same, map_app. simpl.
      rewrite Nc, Hc. reflexivity.
    + intros v [<-|[]]. rewrite HC. reflexivity.
Qed.

Lemma save_report_congress (systemCode : option string) (report : Report.t) :
  respects (only_congress CONGRESS_TO_FETCH)
           (save_report fault CONGRESS_TO_FETCH get_report_detail systemCode report).
Proof.
  unfold save_report.
  destruct CONGRESS_TO_FETCH as [c|] eqn:HC; [|apply respects_ret; exact _].
  destruct (value_eqb (Report.congress report) (VInt c)) eqn:Hc;
    [|apply respects_ret; exact _].
  apply value_eqb_eq in Hc. cbn [negb]. rewrite <- HC.
  apply respects_bind; try exact _.
  - apply report_upsert_congress with (c := c); assumption.
  - intros res. unfold save_report_detail, link_associated_bill.
    repeat first
      [ apply report_update_keeps_congress; reflexivity
      | respects_step ].
Qed.

Lemma walk_reports_congress (systemCode : option string)
    (pages : list (response (option (list Report.t)))) :
  respects (only_congress CONGRESS_TO_FETCH)
           (walk_reports fault CONGRESS_TO_FETCH get_report_detail systemCode pages).
Proof.
  induction pages as [|page pages IH]; simpl.
  - apply respects_ret; exact _.
  - destruct page as [|status|data].
    + apply respects_throw; exact _.
    + apply respects_ret; exact _.
    + apply respects_bind; try exact _; [|intros _; exact IH].
      destruct data as [reports|]; [|apply respects_ret; exact _].
      apply respects_for_of; try exact _. intros report.
      apply save_report_congress.
Qed.

(** The transaction of [processCommitteeReports] is all-or-nothing, the
    errors its inner try/catch logs and passes over included: once the
    server has rejected a statement, the tables after the call are the
    tables before it.  The call itself returns normally. *)
Theorem processCommitteeReports_atomic (systemCode : option string)
    (pages : list (response (option (list Report.t)))) (s s' : session)
    (r : outcome unit) :
  snap s = None ->
  processCommitteeReports fault CONGRESS_TO_FETCH get_report_detail systemCode pages s
  = (r, s') ->
  errlog s' <> errlog s ->
  tbl s' = tbl s /\ r = Ret tt /\ snap s' = None.
Proof.
  intros Hs E Hlog. unfold processCommitteeReports in E.
  apply transaction_cases in E; auto using safe_walk_reports.
  destruct E as (Hr & Hsn & _ & [Ht _|s2 _ _ _ He _]); [auto|contradiction].
Qed.

(** [processCommitteeReports] adds reports of the congress being fetched
    only, and changes the congress of no stored report; when
    CURRENT_CONGRESS is not a number, it adds none. *)
Theorem processCommitteeReports_only_current_congress (systemCode : option string)
    (pages : list (response (option (list Report.t)))) (s s' : session)
    (r : outcome unit) :
  snap s = None ->
  processCommitteeReports fault CONGRESS_TO_FETCH get_report_detail systemCode pages s
  = (r, s') ->
  only_congress CONGRESS_TO_FETCH (tbl s) (tbl s').
Proof.
  intros Hs E. unfold processCommitteeReports in E.
  apply transaction_cases in E; auto using safe_walk_reports.
  destruct E as (_ & _ & _ & [Ht _|s2 Hb _ Ht _ _]).
  - rewrite Ht. apply R_refl.
  - rewrite Ht. exact (walk_reports_congress systemCode pages _ _ _ Hb).
Qed.

End Reports.

Lemma processCommitteeReports_atomic_witness :
  let run := CommitteeScript.processCommitteeReports no_fault (Some 119)
               detail_with_bad_bill (Some "HSAG") report_pages
               (connect house_committee_tables) in
  errlog (snd run) = [NotNullViolation bills "congress"]
  /\ tbl (snd run) = house_committee_tables
  /\ history (snd run) = [RolledBack].
Proof.
  intros run. split; [reflexivity|]. split; [|reflexivity].
  apply (processCommitteeReports_atomic no_fault (Some 119) detail_with_bad_bill
           (Some "HSAG") report_pages (connect house_committee_tables)
           (snd run) (fst run)).
  - reflexivity.
  - apply surjective_pairing.
  - vm_compute. discriminate.
Defined.

Lemma processCommitteeReports_only_current_congress_witness :
  let run := CommitteeScript.processCommitteeReports no_fault (Some 119)
               no_detail (Some "HSAG") report_pages
               (connect house_committee_tables) in
  history (snd run) = [Committed]
  /\ report_congresses (tbl (snd run)) = [VInt 119]
  /\ only_congress (Some 119) house_committee_tables (tbl (snd run)).
Proof.
  intros run. split; [reflexivity|]. split; [reflexivity|].
  apply (processCommitteeReports_only_current_congress no_fault (Some 119) no_detail
           (Some "HSAG") report_pages (connect house_committee_tables)
           (snd run) (fst run)).
  - reflexivity.
  - apply surjective_pairing.
Defined.

(* ================================================================== *)
(** * 29. The member batch *)
(* ================================================================== *)

(** No row that the arbiter let pass carries the key of the new row. *)
Lemma no_conflict_no_key (t : table_name) (c : string) (new : row) (v : value)
    (rows : list row) :
  field t new c = v ->
  (forall r, In r rows -> conflicts t [[c]] new r = false) ->
  find (fun r => sql_eq (field t r c) v) rows = None.
Proof.
  intros Hn H. apply find_none_forall. intros x Hx. specialize (H x Hx).
  rewrite conflicts_one_column, Hn in H. rewrite sql_eq_sym. exact H.
Qed.

(** [SET c = EXCLUDED.c] for the columns of a list: each named cell reads
    what the proposed row carries. *)
Lemma apply_sets_excluded (t : table_name) (cols : list string) (old new : row)
    (c : string) :
  In c cols -> col_index (columns (schema_of t)) c <> None ->
  field t (apply_sets t (map (excluded t) cols) old new) c = field t new c.
Proof.
  intros Hin Hc. unfold apply_sets.
  assert (G : forall acc,
             field t (fold_left (fun r cf => set_field t r (fst cf) (snd cf old new))
                                (map (excluded t) cols) acc) c
             = if in_dec string_dec c cols then field t new c else field t acc c).
  { clear Hin. induction cols as [|c0 cols IH]; intros acc; [reflexivity|].
    cbn [map fold_left]. rewrite IH. cbn [excluded fst snd].
    destruct (in_dec string_dec c cols) as [H|H];
      destruct (in_dec string_dec c (c0 :: cols)) as [H'|H']; try reflexivity.
    - exfalso. apply H'. right. exact H.
    - destruct H' as [->|H']; [|contradiction]. apply field_set_same. exact Hc.
    - apply field_set_other. intros ->. apply H'. left. reflexivity. }
  rewrite G. destruct (in_dec string_dec c cols); [reflexivity|contradiction].
Qed.

#[local] Instance member_kept_order id : TableOrder (member_kept id).
Proof.
  split; unfold member_kept.
  - reflexivity.
  - intros a b c H1 H2. rewrite H2. exact H1.
Qed.

#[local] Instance member_kept_focus id : Focused (table_eqb members) (member_kept id).
Proof.
  intros tb tb' H. unfold member_kept, member_row. rewrite (H members eq_refl).
  reflexivity.
Qed.

Lemma respects_for_of_in {R : tables -> tables -> Prop} `{HR : TableOrder R} {A}
    (l : list A) (f : A -> M unit) :
  (forall x, In x l -> respects R (f x)) -> respects R (for_of l f).
Proof.
  induction l as [|x l IH]; intros H; simpl.
  - apply respects_ret; exact _.
  - apply respects_bind; try exact _.
    + apply H. left. reflexivity.
    + intros _. apply IH. intros y Hy. apply H. right. exact Hy.
Qed.

(** The same for a property of the tables, whatever it is. *)
Lemma respects_for_of_in_plain {A} (P : tables -> Prop) (l : list A)
    (f : A -> M unit) :
  (forall x, In x l -> respects (fun tb tb' => P tb -> P tb') (f x)) ->
  respects (fun tb tb' => P tb -> P tb') (for_of l f).
Proof.
  induction l as [|x l IH]; intros H s r s'; simpl.
  - intros [= _ <-]. auto.
  - unfold bind. destruct (f x s) as [[[]|e] s1] eqn:E; intros E2 HP.
    + refine (IH _ s1 r s' E2 _); [intros y Hy; apply H; right; exact Hy|].
      exact (H x (or_introl eq_refl) _ _ _ E HP).
    + injection E2 as _ <-. exact (H x (or_introl eq_refl) _ _ _ E HP).
Qed.

(** What a relation kept by a piece of script says of one of its runs. *)
Ltac run_respects E R H :=
  cbv beta in E;
  lazymatch type of E with
  | ?m ?s = (?r, ?s') =>
      assert (H : R (tbl s) (tbl s')); [refine ((_ : respects R m) s r s' E)|]
  end.

Section MemberBatch.

Import MemberScript.

Variable fault : nat -> bool.

(** [processMemberBatch] is all-or-nothing: once the server has rejected
    a statement of the batch, the tables after the call are the tables
    before it, for every member of the batch; the call returns
    normally. *)
Theorem processMemberBatch_atomic (membersData : list Member.t) (s s' : session)
    (r : outcome unit) :
  snap s = None ->
  processMemberBatch fault membersData s = (r, s') ->
  errlog s' <> errlog s ->
  tbl s' = tbl s /\ r = Ret tt /\ snap s' = None.
Proof.
  intros Hs E Hlog. unfold processMemberBatch in E.
  destruct membersData as [|m l]; [injection E as _ <-; contradiction|].
  apply transaction_cases in E; auto using safe_member_batch.
  destruct E as (Hr & Hsn & _ & [Ht _|s2 _ _ _ He _]); [auto|contradiction].
Qed.

(** The member upsert, with the cells of [member_cells]. *)
Lemma member_upsert_stores (member : Member.t) (id : string) (s s1 : session) :
  Member.bioguideId member = Some id ->
  insert_ fault members member_columns (map snd (member_cells member))
    (DoUpdate ["bioguide_id"]
       (map (excluded members)
            ["direct_order_name"; "inverted_order_name"; "first_name"; "middle_name";
             "last_name"; "suffix_name"; "nickname"; "honorific_name"; "birth_year";
             "death_year"; "official_url"; "depiction_image_url";
             "depiction_attribution"; "is_current_member"; "updated_at"])) s
  = (Ret tt, s1) ->
  stores_member (tbl s1) member id.
Proof.
  intros Hid E. apply insert_ret in E. destruct E as (ids & E & _).
  set (new := build_row members _ _ _) in E.
  assert (Nid : field members new "bioguide_id" = VText id).
  { subst new. cbv [member_cells]. rewrite Hid. reflexivity. }
  assert (Ncells : forall c v, In (c, v) (member_cells member) ->
                               field members new c = v).
  { intros c v Hin. subst new. cbv [member_cells member_columns combine] in Hin.
    repeat (destruct Hin as [[= <- <-]|Hin]; [reflexivity|]). destruct Hin. }
  unfold stores_member, member_row.
  destruct E as [target old0 [=] _ _ _ _
                |before after old k sets [= <- <-] Hrows Hc Hbefore _ -> _ _
                |Hnone _ -> _ _].
  - rewrite set_table_same, find_app_cases.
    rewrite (no_conflict_no_key members "bioguide_id" new (VText id) before Nid Hbefore).
    cbn [find]. rewrite conflicts_one_column, Nid, sql_eq_sym in Hc.
    rewrite apply_sets_other by reflexivity. rewrite Hc.
    eexists. split; [reflexivity|]. intros c v Hin.
    destruct (string_dec c "bioguide_id") as [->|Hne].
    + rewrite apply_sets_other by reflexivity.
      apply sql_eq_true in Hc. destruct Hc as [Hc _]. rewrite Hc.
      rewrite <- Nid. apply Ncells. exact Hin.
    + rewrite <- (Ncells c v Hin).
      apply (apply_sets_excluded members
               ["direct_order_name"; "inverted_order_name"; "first_name";
                "middle_name"; "last_name"; "suffix_name"; "nickname";
                "honorific_name"; "birth_year"; "death_year"; "official_url";
                "depiction_image_url"; "depiction_attribution"; "is_current_member";
                "updated_at"] old new c).
      * cbv [member_cells member_columns combine] in Hin.
        destruct Hin as [[= <- <-]|Hin]; [contradiction|].
        repeat (destruct Hin as [[= <- <-]|Hin]; [simpl; tauto|]). destruct Hin.
      * cbv [member_cells member_columns combine] in Hin.
        repeat (destruct Hin as [[= <- <-]|Hin]; [discriminate|]). destruct Hin.
  - rewrite set_table_same, find_app_cases.
    rewrite (no_conflict_no_key members "bioguide_id" new (VText id) _ Nid Hnone).
    cbn [find]. rewrite Nid, sql_eq_refl_text.
    eexists. split; [reflexivity|]. exact Ncells.
Qed.

(** The upsert of another member leaves the row of [id] alone. *)
Lemma member_upsert_keeps (id : string) names vals sets :
  (forall k, field members (build_row members names vals k) "bioguide_id"
             <> VText id) ->
  forallb (fun cf => negb (String.eqb (fst cf) "bioguide_id")) sets = true ->
  respects (member_kept id)
    (insert_ fault members names vals (DoUpdate ["bioguide_id"] sets)).
Proof.
  intros Hother Hsets. apply respects_insert; try exact _.
  intros tb k tb' ids E. specialize (Hother k).
  set (new := build_row members names vals k) in *.
  unfold member_kept, member_row.
  destruct E as [target old0 [=] _ _ _ _
                |before after old key sets0 [= <- <-] Hrows Hc _ _ -> _ _
                |_ _ -> _ _].
  - rewrite set_table_same, Hrows.
    pose proof (find_replace
                  (fun r => sql_eq (field members r "bioguide_id") (VText id))
                  (fun r => r) before after old
                  (apply_sets members sets old new)) as H.
    assert (Hid : forall o : option row, option_map (fun r => r) o = o)
      by (intros [x|]; reflexivity).
    rewrite !Hid in H. apply H.
    + rewrite apply_sets_other by exact Hsets. reflexivity.
    + intros _ Hold. exfalso. apply Hother.
      rewrite conflicts_one_column in Hc. apply sql_eq_true in Hc, Hold.
      destruct Hc as [Hc _], Hold as [Hold _]. congruence.
  - rewrite set_table_same, find_app_cases.
    destruct (find _ (tb members)) as [r|]; [reflexivity|]. cbn [find].
    destruct (sql_eq (field members new "bioguide_id") (VText id)) eqn:Eq;
      [|reflexivity].
    apply sql_eq_true in Eq. destruct Eq as [Eq _]. contradiction.
Qed.

Lemma save_member_keeps (id : string) (member : Member.t) :
  Member.bioguideId member <> Some id ->
  respects (member_kept id) (save_member fault member).
Proof.
  intros Hid. unfold save_member. apply respects_bind; try exact _.
  - apply member_upsert_keeps; [|reflexivity].
    intros k Hk.
    change (vtext (Member.bioguideId member) = VText id) in Hk.
    destruct (Member.bioguideId member); [|discriminate].
    injection Hk as ->. contradiction.
  - intros _. respects_tac.
Qed.

Lemma save_member_stores (member : Member.t) (id : string) (s s' : session) :
  Member.bioguideId member = Some id ->
  save_member fault member s = (Ret tt, s') ->
  stores_member (tbl s') member id.
Proof.
  intros Hid E. unfold save_member in E.
  apply bind_ret in E. destruct E as ([] & s1 & E1 & E2).
  pose proof (member_upsert_stores member id s s1 Hid E1) as (r & Hr & Hcells).
  run_respects E2 (member_kept id) Hk; [respects_tac|].
  exists r. split; [|exact Hcells]. rewrite Hk. exact Hr.
Qed.

Lemma member_batch_keeps (id : string) (l : list Member.t) :
  (forall m, In m l -> Member.bioguideId m <> Some id) ->
  respects (member_kept id) (for_of l (save_member fault)).
Proof.
  intros H. apply respects_for_of_in. intros m Hm.
  apply save_member_keeps. apply H. exact Hm.
Qed.

Lemma member_batch_stores (l : list Member.t) (member : Member.t) (id : string)
    (s s' : session) :
  NoDup (map Member.bioguideId l) ->
  In member l -> Member.bioguideId member = Some id ->
  for_of l (save_member fault) s = (Ret tt, s') ->
  stores_member (tbl s') member id.
Proof.
  revert s. induction l as [|a l IH]; intros s Hnd Hin Hid E; [destruct Hin|].
  simpl in E. apply bind_ret in E. destruct E as ([] & s1 & E1 & E2).
  simpl in Hnd. apply NoDup_cons_iff in Hnd. destruct Hnd as [Hfresh Hnd].
  destruct Hin as [->|Hin]; [|eauto].
  destruct (save_member_stores member id s s1 Hid E1) as (r & Hr & Hcells).
  exists r. split; [|exact Hcells]. rewrite <- Hr.
  refine (member_batch_keeps id l _ s1 (Ret tt) s' E2).
  intros m Hm Heq. apply Hfresh. rewrite Hid, <- Heq. apply in_map. exact Hm.
Qed.

(** Insert, then look up: after a batch that commits and names each
    member once, the row of every member of the batch reads, in each of
    the sixteen columns of the upsert, what the payload carries, whether
    the member was stored before (as a stub of the bill script, say) or
    not. *)
Theorem processMemberBatch_stores_payload (membersData : list Member.t)
    (member : Member.t) (id : string) (s s' : session) (r : outcome unit) :
  snap s = None ->
  processMemberBatch fault membersData s = (r, s') ->
  history s' = Committed :: history s ->
  NoDup (map Member.bioguideId membersData) ->
  In member membersData -> Member.bioguideId member = Some id ->
  stores_member (tbl s') member id.
Proof.
  intros Hs E Hh Hnd Hin Hid.
  destruct (processMemberBatch_cases _ _ _ _ _ Hs E) as [->|[_ [Hh'|Hh']|s2 EB _ Htb _ _]].
  - destruct (history_not_extended _ _ Hh).
  - rewrite Hh' in Hh. destruct (history_not_extended _ _ Hh).
  - rewrite Hh' in Hh. discriminate.
  - destruct (member_batch_stores membersData member id (begun s) s2 Hnd Hin Hid EB)
      as (row & Hrow & Hcells).
    exists row. split; [|exact Hcells]. unfold member_row. rewrite Htb. exact Hrow.
Qed.

End MemberBatch.

Lemma processMemberBatch_atomic_witness :
  let run := MemberScript.processMemberBatch no_fault
               [sample_senator; anonymous_member] (connect empty_tables) in
  errlog (snd run) = [NotNullViolation members "bioguide_id"]
  /\ tbl (snd run) = empty_tables.
Proof.
  intros run. split; [reflexivity|].
  apply (processMemberBatch_atomic no_fault [sample_senator; anonymous_member]
           (connect empty_tables) (snd run) (fst run)).
  - reflexivity.
  - apply surjective_pairing.
  - vm_compute. discriminate.
Defined.

Lemma processMemberBatch_stores_payload_witness :
  let run := MemberScript.processMemberBatch no_fault [sample_senator; full_member]
               (connect stub_tables) in
  option_map (fun r => field members r "direct_order_name")
             (member_row stub_tables "A000001") = Some VNull
  /\ stores_member (tbl (snd run)) full_member "A000001".
Proof.
  intros run. split; [reflexivity|].
  apply (processMemberBatch_stores_payload no_fault [sample_senator; full_member]
           full_member "A000001" (connect stub_tables) (snd run) (fst run)).
  - reflexivity.
  - apply surjective_pairing.
  - reflexivity.
  - repeat constructor; simpl; intuition discriminate.
  - right. left. reflexivity.
  - reflexivity.
Defined.

(* ================================================================== *)
(** * 30. The base upsert of committees *)
(* ================================================================== *)

Lemma update_rows_changes (t : table_name) sets wh (before after : list row) ch rows :
  update_rows t sets wh before after = inr (ch, rows) ->
  ch = map (fun r => (r, update_row t sets r)) (filter wh after).
Proof.
  revert before ch rows. induction after as [|r rest IH]; simpl; intros before ch rows.
  - intros [= <- _]. reflexivity.
  - destruct (wh r).
    + destruct (not_null_violation t (update_row t sets r)); [discriminate|].
      destruct (unique_violation t (update_row t sets r) (before ++ rest));
        [discriminate|].
      destruct (update_rows t sets wh (before ++ [update_row t sets r]) rest)
        as [e|[ch' rows']] eqn:E; [discriminate|].
      intros [= <- _]. simpl. f_equal. eapply IH; eauto.
    + apply IH.
Qed.

Lemma first_fk_violation_none (tb : tables) (t : table_name) (ch : list (row * row)) :
  first_fk_violation tb t ch = None ->
  forall old upd, In (old, upd) ch ->
                  fk_violation tb t (changed_columns t old upd) upd = None.
Proof.
  induction ch as [|[o u] ch IH]; simpl; [tauto|].
  destruct (fk_violation tb t (changed_columns t o u) u) eqn:E; [discriminate|].
  intros H old upd [[= <- <-]|Hin]; auto.
Qed.

(** An UPDATE that went through checked the foreign keys of every row it
    rewrote. *)
Lemma exec_update_checked (t : table_name) sets wh tb sq sq' tb' a :
  exec_update t sets wh tb sq = (sq', inr (tb', a)) ->
  forall r, In r (tb t) -> wh r = true ->
            fk_violation tb' t (changed_columns t r (update_row t sets r))
                         (update_row t sets r) = None.
Proof.
  unfold exec_update.
  destruct (update_rows t sets wh [] (tb t)) as [e|[ch rows]] eqn:E; [discriminate|].
  destruct (first_fk_violation _ t ch) eqn:Efk; [discriminate|].
  intros [= _ <- _] r Hin Hwh.
  apply update_rows_changes in E. subst ch.
  apply (first_fk_violation_none _ _ _ Efk).
  apply in_map_iff. exists r. split; [reflexivity|].
  apply filter_In. auto.
Qed.

Section BaseUpsert.

Import CommitteeScript.

Variable fault : nat -> bool.
Variable API_KEY : string.

Lemma pass1_urls (l : list Committee.t) (acc urls : list string) (s s' : session)
    (r : outcome unit) :
  pass1 fault API_KEY l acc s = ((r, urls), s') ->
  exists k, urls = (acc ++ map (detail_url API_KEY) (firstn k l))%list
            /\ (l <> [] -> (0 < k)%nat)
            /\ (k <= List.length l)%nat
            /\ (r = Ret tt -> k = List.length l)
            /\ (forall e, r = Throw e ->
                exists c s1,
                  nth_error l (k - 1) = Some c
                  /\ for_of (firstn (k - 1) l) (upsert_committee fault) s = (Ret tt, s1)
                  /\ upsert_committee fault c s1 = (Throw e, s')).
Proof.
  revert acc s. induction l as [|c l IH]; cbn [pass1]; intros acc s.
  - intros [= <- <- _]. exists O. simpl. rewrite app_nil_r.
    split; [reflexivity|]. split; [intros H; contradiction H; reflexivity|].
    split; [lia|]. split; [reflexivity|discriminate].
  - destruct (upsert_committee fault c s) as [[[]|e] s1] eqn:E0.
    + intros E. apply IH in E. destruct E as (k & -> & Hpos & Hle & Hk & Hthrow).
      exists (S k). split; [|split; [|split; [|split]]].
      * simpl. rewrite <- app_assoc. reflexivity.
      * intros _. apply Nat.lt_0_succ.
      * simpl. lia.
      * intros Hr. simpl. f_equal. auto.
      * intros e He. destruct (Hthrow e He) as (c' & s2 & Hn & Hf & Hu).
        assert (Hk0 : (0 < k)%nat).
        { destruct l as [|c0 l0]; [|apply Hpos; discriminate].
          destruct (k - 1)%nat; discriminate Hn. }
        exists c', s2. replace (S k - 1)%nat with (S (k - 1)) by lia.
        split; [exact Hn|]. split; [|exact Hu].
        cbn [firstn for_of]. unfold bind. rewrite E0. exact Hf.
    + intros [= <- <- <-]. exists 1%nat. simpl.
      split; [reflexivity|]. split; [auto|]. split; [lia|].
      split; [discriminate|]. intros e0 [= <-]. exists c, s. auto.
Qed.

(** [upsertBaseCommittees] pushes the detail URL of a committee before it
    sends its INSERT, and returns the array whatever became of the
    transaction.  On a connection fresh from the pool whose BEGIN goes
    through, the result is the detail URLs of a prefix of the listing,
    not empty when the listing is not.  It is the whole listing when the
    transaction commits; when it is shorter than the listing, it ends
    with the first committee whose INSERT of pass 1 was rejected, the
    INSERTs before it having gone through.  When the transaction does not
    commit, the tables are those before the call: the caller then holds
    detail URLs of committees that this call did not store. *)
Theorem upsertBaseCommittees_detail_urls (committeesData : list Committee.t)
    (s : session) :
  snap s = None ->
  fault (nstmt s) = false ->
  let run := upsertBaseCommittees fault API_KEY committeesData s in
  exists k,
    fst run = map (detail_url API_KEY) (firstn k committeesData)
    /\ (committeesData <> [] -> (0 < k)%nat)
    /\ (k <= List.length committeesData)%nat
    /\ ((k < List.length committeesData)%nat ->
        exists c s1 e s2,
          nth_error committeesData (k - 1) = Some c
          /\ for_of (firstn (k - 1) committeesData) (upsert_committee fault) (begun s)
             = (Ret tt, s1)
          /\ upsert_committee fault c s1 = (Throw e, s2))
    /\ (history (snd run) = Committed :: history s ->
        k = List.length committeesData)
    /\ (history (snd run) <> Committed :: history s -> tbl (snd run) = tbl s).
Proof.
  intros Hs Hf run.
  assert (Hback : history (snd run) <> Committed :: history s -> tbl (snd run) = tbl s).
  { intros Hh. subst run. rewrite upsertBaseCommittees_session in *.
    destruct (try_catch _ _ s) as [r s'] eqn:E. simpl in *.
    apply transaction_cases in E; auto using safe_two_passes.
    destruct E as (_ & _ & _ & [Ht _|s2 _ _ _ _ Hh']); [exact Ht|contradiction]. }
  subst run. unfold upsertBaseCommittees in *.
  destruct (BEGIN fault s) as [[[]|e] s0] eqn:EB.
  2:{ unfold BEGIN in EB. rewrite Hf in EB. destruct (snap s); discriminate. }
  unfold BEGIN in EB. rewrite Hf, Hs in EB. injection EB as <-.
  fold (begun s) in *.
  destruct (pass1 fault API_KEY committeesData [] (begun s)) as [[r urls] s1] eqn:E1.
  destruct (pass1_urls _ _ _ _ _ _ E1) as (k & Hu & Hpos & Hle & Hlen & Hthrow).
  exists k. destruct r as [[]|e]; cbn [fst snd] in *; (split; [exact Hu|]);
    (split; [exact Hpos|]); (split; [exact Hle|]).
  - split; [intros Hk; specialize (Hlen eq_refl); lia|].
    split; [auto|exact Hback].
  - split.
    + intros _. destruct (Hthrow e eq_refl) as (c & s2 & Hn & Hfor & Hup).
      exists c, s2, e, s1. auto.
    + split; [|exact Hback]. intros Hh. exfalso. apply pass1_for_of in E1.
      assert (Hsafe : txn_safe (for_of committeesData (upsert_committee fault))).
      { unfold upsert_committee. txn_safe_tac. }
      destruct (Hsafe (begun s) _ _ (tbl s) eq_refl E1) as [Hsn _ _ Hh1].
      unfold ROLLBACK in Hh. rewrite Hsn in Hh. cbn [snd history] in Hh.
      rewrite Hh1 in Hh. discriminate.
Qed.

(** Pass 1 on a committee other than [p] leaves [p] unknown. *)
Lemma upsert_committee_unknown (p : string) (c : Committee.t) :
  Committee.systemCode c <> Some p ->
  respects (fun tb tb' => committee_unknown p tb -> committee_unknown p tb')
           (upsert_committee fault c).
Proof.
  intros Hp. unfold upsert_committee. intros s r s' E.
  destruct r as [[]|e].
  2:{ unfold insert_, bind, client_query, raise in E.
      destruct (failed s); [injection E as _ <-; auto|].
      destruct (fault (nstmt s)); [injection E as _ <-; auto|].
      destruct (exec_insert _ _ _ _ _ _) as [sq [x|[tb a]]];
        [injection E as _ <-; auto|discriminate]. }
  apply insert_ret in E. destruct E as (ids & E & _). intros [Hcode Hpar].
  assert (Hv : vtext (Committee.systemCode c) <> VText p).
  { destruct (Committee.systemCode c); simpl; congruence. }
  destruct E as [target old0 [=] _ _ _ _
                |before after old k sets [= <- <-] Hrows _ _ _ -> _ _
                |_ _ -> _ _].
  - split; intros r Hr; rewrite set_table_same in Hr;
      apply in_app_or in Hr; destruct Hr as [Hr|[<-|Hr]];
      try (apply Hcode; rewrite Hrows; apply in_or_app; simpl; auto; fail);
      try (apply Hpar; rewrite Hrows; apply in_or_app; simpl; auto; fail).
    + rewrite apply_sets_other by reflexivity. apply Hcode. rewrite Hrows. apply in_elt.
    + rewrite apply_sets_other by reflexivity. apply Hpar. rewrite Hrows. apply in_elt.
  - split; intros r Hr; rewrite set_table_same in Hr;
      apply in_app_or in Hr; destruct Hr as [Hr|[<-|[]]]; auto;
      try (rewrite upsert_row_key; exact Hv);
      try (rewrite upsert_row_parent; discriminate).
Qed.

(** The UPDATE of pass 2, on tables where [p] is unknown: it changes no
    code, and when it names [p] as the parent it matched no row. *)
Lemma set_parent_effect (p p' : string) (code : value) (tb tb' : tables)
    (sq sq' : sequences) (a : unit) :
  exec_update committees [("parent_committee_system_code", fun _ => VText p')]
    (fun r => sql_eq (field committees r "system_code") code) tb sq
  = (sq', inr (tb', a)) ->
  committee_unknown p tb ->
  committee_unknown p tb'
  /\ (forall c, committee_row tb c <> None -> committee_row tb' c <> None)
  /\ (p' = p -> forall r, In r (tb committees) ->
                 sql_eq (field committees r "system_code") code = false).
Proof.
  intros E [Hcode Hpar].
  pose proof (exec_update_checked _ _ _ _ _ _ _ _ E) as Hfk.
  apply exec_update_effect in E.
  set (f := fun r : row => if sql_eq (field committees r "system_code") code
                           then update_row committees
                                  [("parent_committee_system_code",
                                    fun _ : row => VText p')] r
                           else r) in E.
  assert (Hkey : forall r, field committees (f r) "system_code"
                           = field committees r "system_code").
  { intros r. unfold f. destruct (sql_eq _ code); [|reflexivity].
    apply update_row_other. reflexivity. }
  assert (Hnone : p' = p -> forall r, In r (tb committees) ->
                  sql_eq (field committees r "system_code") code = false).
  { intros -> r Hr. destruct (sql_eq _ code) eqn:Hwh; [|reflexivity]. exfalso.
    specialize (Hfk r Hr Hwh). unfold fk_violation in Hfk.
    destruct (find _ (changed_columns committees r _)) eqn:Ef; [discriminate|].
    assert (Hin : In (col_fk "parent_committee_system_code" false committees
                             "system_code")
                     (changed_columns committees r
                        (update_row committees
                           [("parent_committee_system_code", fun _ : row => VText p)]
                           r))).
    { unfold changed_columns. apply filter_In. split; [simpl; tauto|].
      cbn [cname col_fk update_row fold_left fst snd].
      rewrite field_set_same by discriminate.
      apply negb_true_iff. destruct (value_eqb _ _) eqn:Ev; [|reflexivity].
      apply value_eqb_eq in Ev. destruct (Hpar r Hr Ev). }
    apply (find_none _ _ Ef) in Hin. cbn [cref cname col_fk] in Hin.
    cbn [update_row fold_left fst snd] in Hin.
    rewrite field_set_same in Hin by discriminate. simpl in Hin.
    apply negb_false_iff in Hin. unfold references in Hin.
    apply existsb_exists in Hin. destruct Hin as (x & Hx & Hv).
    rewrite E, set_table_same in Hx. apply in_map_iff in Hx.
    destruct Hx as (y & <- & Hy). rewrite Hkey in Hv. apply value_eqb_eq in Hv.
    exact (Hcode y Hy Hv). }
  split; [|split; [|exact Hnone]].
  - split; intros r Hr; rewrite E, set_table_same in Hr; apply in_map_iff in Hr;
      destruct Hr as (y & <- & Hy).
    + rewrite Hkey. auto.
    + unfold f. destruct (sql_eq (field committees y "system_code") code) eqn:Hwh;
        [|auto].
      cbn [update_row fold_left fst snd]. rewrite field_set_same by discriminate.
      intros [= ->]. rewrite (Hnone eq_refl y Hy) in Hwh. discriminate.
  - intros c Hc. unfold committee_row in *. rewrite E, set_table_same.
    rewrite find_map_same_key by (intros r; rewrite Hkey; reflexivity).
    destruct (find _ (tb committees)); [discriminate|contradiction].
Qed.

Lemma set_parent_unknown (p code : string) (c : Committee.t) :
  respects (fun tb tb' =>
              committee_unknown p tb /\ committee_row tb code <> None ->
              committee_unknown p tb' /\ committee_row tb' code <> None)
           (set_parent fault c).
Proof.
  unfold set_parent. destruct (declared_parent c) as [p'|].
  2:{ intros s r s' [= _ <-]. auto. }
  intros s r s' E [Hu Hrow]. unfold client_query, raise in E.
  destruct (failed s); [injection E as _ <-; auto|].
  destruct (fault (nstmt s)); [injection E as _ <-; auto|].
  destruct (exec_update _ _ _ _ _) as [sq [x|[tb a]]] eqn:Eu;
    injection E as _ <-; [auto|]. cbn [tbl].
  destruct (set_parent_effect p p' _ _ _ _ _ _ Eu Hu) as (Hu' & Hrows & _). auto.
Qed.

(** A subcommittee whose parent is stored nowhere stops pass 2. *)
Lemma set_parent_dangling (p code : string) (c : Committee.t) (s s' : session) :
  Committee.systemCode c = Some code -> declared_parent c = Some p ->
  committee_unknown p (tbl s) -> committee_row (tbl s) code <> None ->
  set_parent fault c s <> (Ret tt, s').
Proof.
  intros Hc Hp Hu Hrow E. unfold set_parent in E. rewrite Hp, Hc in E.
  apply client_query_ret in E. destruct E as (sq' & E & _).
  destruct (set_parent_effect p p _ _ _ _ _ _ E Hu) as (_ & _ & Hnone).
  apply Hrow. unfold committee_row. apply find_none_forall.
  intros r Hr. apply (Hnone eq_refl r Hr).
Qed.

(** The two passes protect against a parent listed after its child, not
    against a parent that is not listed: when a committee of the batch
    names a parent that is neither in the batch nor stored, the UPDATE of
    pass 2 violates the foreign key and the whole base upsert is rolled
    back.  No committee of the batch is stored. *)
Theorem upsertBaseCommittees_dangling_parent (committeesData : list Committee.t)
    (child : Committee.t) (code p : string) (s : session) :
  snap s = None ->
  In child committeesData ->
  Committee.systemCode child = Some code -> declared_parent child = Some p ->
  (forall c, In c committeesData -> Committee.systemCode c <> Some p) ->
  committee_unknown p (tbl s) ->
  let s' := snd (upsertBaseCommittees fault API_KEY committeesData s) in
  tbl s' = tbl s /\ history s' <> Committed :: history s.
Proof.
  intros Hs Hin Hcode Hp Hnot Hu s'. subst s'.
  rewrite upsertBaseCommittees_session.
  destruct (try_catch _ _ s) as [r s'] eqn:E. cbn [snd].
  apply transaction_cases in E; auto using safe_two_passes.
  destruct E as (_ & _ & _ & [Ht [Hh|Hh]|s2 EB _ _ _ _]).
  - split; [exact Ht|]. rewrite Hh. apply history_not_extended.
  - split; [exact Ht|]. rewrite Hh. discriminate.
  - exfalso. apply bind_ret in EB. destruct EB as ([] & s1 & E1 & E2).
    assert (Hu1 : committee_unknown p (tbl s1)).
    { assert (H1 : respects (fun tb tb' => committee_unknown p tb ->
                                           committee_unknown p tb')
                            (for_of committeesData (upsert_committee fault))).
      { apply respects_for_of_in_plain. intros c Hc.
        apply upsert_committee_unknown. apply Hnot. exact Hc. }
      exact (H1 _ _ _ E1 Hu). }
    destruct (pass1_stores fault _ _ _ E1 child Hin) as (code' & Hc' & Hrow).
    rewrite Hcode in Hc'. injection Hc' as <-.
    unfold pass2 in E2.
    apply (for_of_reaches _ (fun tb => committee_unknown p tb
                                       /\ committee_row tb code <> None)
                          _ child) in E2; auto.
    + destruct E2 as (s3 & s4 & [Hu3 Hrow3] & E3).
      exact (set_parent_dangling p code child s3 s4 Hcode Hp Hu3 Hrow3 E3).
    + intros c. apply set_parent_unknown.
Qed.

End BaseUpsert.

Lemma upsertBaseCommittees_detail_urls_witness :
  let run := CommitteeScript.upsertBaseCommittees no_fault "KEY" nameless_first_page
               (connect empty_tables) in
  history (snd run) = [RolledBack]
  /\ fst run = map (detail_url "KEY") (firstn 1 nameless_first_page)
  /\ exists k,
       fst run = map (detail_url "KEY") (firstn k nameless_first_page)
       /\ (0 < k)%nat
       /\ ((k < 2)%nat ->
           exists c s1 e s2,
             nth_error nameless_first_page (k - 1) = Some c
             /\ for_of (firstn (k - 1) nameless_first_page)
                  (CommitteeScript.upsert_committee no_fault)
                  (begun (connect empty_tables)) = (Ret tt, s1)
             /\ CommitteeScript.upsert_committee no_fault c s1 = (Throw e, s2))
       /\ tbl (snd run) = empty_tables.
Proof.
  intros run. split; [reflexivity|]. split; [reflexivity|].
  destruct (upsertBaseCommittees_detail_urls no_fault "KEY" nameless_first_page
              (connect empty_tables) eq_refl eq_refl)
    as (k & Hk & Hpos & _ & Hfirst & _ & Hback).
  exists k. split; [exact Hk|]. split; [apply Hpos; discriminate|].
  split; [exact Hfirst|]. apply Hback. discriminate.
Defined.

Lemma upsertBaseCommittees_dangling_parent_witness :
  let s' := snd (CommitteeScript.upsertBaseCommittees no_fault "KEY" orphan_page
                   (connect empty_tables)) in
  tbl s' = empty_tables /\ history s' <> [Committed].
Proof.
  intros s'.
  apply (upsertBaseCommittees_dangling_parent no_fault "KEY" orphan_page
           (nth 1 orphan_page unknown_chamber_payload) "HSAG00" "HSAG"
           (connect empty_tables)).
  - reflexivity.
  - right. left. reflexivity.
  - reflexivity.
  - reflexivity.
  - intros c [<-|[<-|[]]]; discriminate.
  - split; intros r [].
Defined.

(* ================================================================== *)
(** * 31. Paginated sub-endpoints *)
(* ================================================================== *)

Section Paginated.

Import BillScript.

Variable A : Type.
Variable API_KEY : string.
Variable fetch : nat -> string -> response (Page.t A).

(** While every request is answered 429, [fetchPaginatedSubEndpoint]
    does not return, however many turns it is given: it pauses and asks
    again, without a bound on the retries.  (The batch writer awaits it
    inside its open transaction.) *)
Theorem fetchPaginatedSubEndpoint_retries_forever (url : string) :
  (forall n u, fetch n u = HttpError 429) -> url <> "" ->
  forall fuel, fetchPaginatedSubEndpoint A API_KEY fetch fuel url = None.
Proof.
  intros H Hurl fuel. unfold fetchPaginatedSubEndpoint.
  generalize (@nil A) (@nil net_event) O.
  induction fuel as [|fuel IH]; intros items log n; cbn [paginate truthy_str].
  - apply String.eqb_neq in Hurl. rewrite Hurl. reflexivity.
  - apply String.eqb_neq in Hurl. rewrite Hurl. cbn [negb]. rewrite H.
    cbn [Z.eqb Pos.eqb]. apply IH.
Qed.

Lemma requested_get (url : string) (log : list net_event) :
  requested (Get url :: log) = (requested log ++ [url])%list.
Proof. unfold requested. simpl. rewrite flat_map_app. reflexivity. Qed.

Lemma requested_wait (ms : Z) (log : list net_event) :
  requested (Wait ms :: log) = requested log.
Proof. unfold requested. simpl. rewrite flat_map_app. simpl. apply app_nil_r. Qed.

Lemma answers_app (n : nat) (l1 l2 : list string) :
  answers fetch n (l1 ++ l2)
  = (answers fetch n l1 ++ answers fetch (List.length l1 + n) l2)%list.
Proof.
  revert n. induction l1 as [|u l1 IH]; intros n; [reflexivity|].
  simpl. rewrite IH. do 3 f_equal. lia.
Qed.

Lemma paginate_done (fuel n : nat) (nextUrl : option string) (items : list A)
    (log : list net_event) :
  truthy_str nextUrl = false ->
  paginate A API_KEY fetch fuel n nextUrl items log = Some (items, log).
Proof. intros H. destruct fuel; cbn [paginate]; rewrite H; reflexivity. Qed.

(** The loop from request [n] on: what it returns, and what it asked. *)
Lemma paginate_gathers (fuel n : nat) (nextUrl : option string) (items res : list A)
    (log log' : list net_event) :
  paginate A API_KEY fetch fuel n nextUrl items log = Some (res, log') ->
  exists urls,
    requested log' = (requested log ++ urls)%list
    /\ res = (items ++ flat_map carried (answers fetch n urls))%list
    /\ forallb goes_on (removelast (answers fetch n urls)) = true.
Proof.
  revert n nextUrl items log.
  induction fuel as [|fuel IH]; intros n nextUrl items log; cbn [paginate].
  - destruct (negb (truthy_str nextUrl)); [|discriminate].
    intros [= <- <-]. exists []. simpl. rewrite !app_nil_r. auto.
  - destruct (negb (truthy_str nextUrl)).
    { intros [= <- <-]. exists []. simpl. rewrite !app_nil_r. auto. }
    set (url := keyed API_KEY (match nextUrl with Some u => u | None => "" end)).
    destruct (fetch n url) as [|status|data] eqn:Ea.
    + intros [= <- <-]. exists [url]. rewrite requested_get. simpl.
      rewrite Ea. simpl. rewrite app_nil_r. auto.
    + destruct (Z.eqb status 429) eqn:Es.
      * intros E. apply IH in E. destruct E as (urls & Hreq & Hres & Hgo).
        exists (url :: urls). rewrite requested_wait, requested_get in Hreq.
        rewrite Hreq, <- app_assoc. split; [reflexivity|].
        cbn [answers flat_map]. rewrite Ea. cbn [carried app]. split; [exact Hres|].
        destruct urls as [|u urls]; [reflexivity|].
        cbn [answers removelast forallb] in *. rewrite Hgo. cbn [goes_on].
        rewrite Es. reflexivity.
      * intros [= <- <-]. exists [url]. rewrite requested_get. simpl.
        rewrite Ea. simpl. rewrite app_nil_r. auto.
    + destruct (truthy_str (Page.next data)) eqn:Hn.
      * intros E. apply IH in E. destruct E as (urls & Hreq & Hres & Hgo).
        exists (url :: urls). split; [|split].
        -- rewrite Hreq, requested_wait, requested_get, <- app_assoc. reflexivity.
        -- cbn [answers flat_map]. rewrite Ea. cbn [carried]. rewrite Hres.
           destruct (Page.items data); [rewrite <- app_assoc|]; reflexivity.
        -- destruct urls as [|u urls]; [reflexivity|].
           cbn [answers removelast forallb] in *. rewrite Hgo, Ea. cbn [goes_on].
           rewrite Hn. reflexivity.
      * rewrite (paginate_done fuel (S n) _ _ _ Hn). intros [= <- <-].
        exists [url]. rewrite requested_get. split; [reflexivity|].
        cbn [answers flat_map removelast forallb]. rewrite Ea. cbn [carried].
        split; [|reflexivity].
        destruct (Page.items data); rewrite ?app_nil_r; reflexivity.
Qed.

(** When [fetchPaginatedSubEndpoint] returns, the items it returns are
    those the ok answers to its requests carried, in the order of the
    requests: a retried request adds nothing, and nothing gathered is
    dropped.  Every answer but the last was an ok page naming a next one
    or a 429; so the walk ends at the first answer that is neither,
    whether the listing was complete or not, and the caller is given the
    items gathered so far without a sign of the failure. *)
Theorem fetchPaginatedSubEndpoint_gathers (fuel : nat) (url : string) (res : list A)
    (log : list net_event) :
  fetchPaginatedSubEndpoint A API_KEY fetch fuel url = Some (res, log) ->
  res = flat_map carried (answers fetch O (requested log))
  /\ forallb goes_on (removelast (answers fetch O (requested log))) = true.
Proof.
  unfold fetchPaginatedSubEndpoint. intros E. apply paginate_gathers in E.
  destruct E as (urls & Hreq & Hres & Hgo). simpl in Hreq, Hres.
  rewrite Hreq. auto.
Qed.

End Paginated.

Lemma fetchPaginatedSubEndpoint_retries_forever_witness :
  BillScript.fetchPaginatedSubEndpoint Z "KEY" always_limited 1000
    "https://api.congress.gov/v3/bill/119/hr/1/actions" = None.
Proof.
  apply (fetchPaginatedSubEndpoint_retries_forever Z "KEY" always_limited).
  - reflexivity.
  - discriminate.
Defined.

Lemma fetchPaginatedSubEndpoint_gathers_witness :
  let first := "https://api.congress.gov/v3/bill/119/hr/1/actions?api_key=KEY" in
  let second :=
    "https://api.congress.gov/v3/bill/119/hr/1/actions?offset=2&api_key=KEY" in
  let log := [BillScript.Get second; BillScript.Wait 5000; BillScript.Get second;
              BillScript.Wait 100; BillScript.Get first] in
  BillScript.fetchPaginatedSubEndpoint Z "KEY" two_pages 10
    "https://api.congress.gov/v3/bill/119/hr/1/actions" = Some ([1; 2], log)
  /\ [1; 2] = flat_map carried (answers two_pages O (requested log))
  /\ forallb goes_on (removelast (answers two_pages O (requested log))) = true.
Proof.
  intros first second log. split; [reflexivity|].
  apply (fetchPaginatedSubEndpoint_gathers Z "KEY" two_pages 10
           "https://api.congress.gov/v3/bill/119/hr/1/actions" [1; 2] log).
  reflexivity.
Defined.

(* ================================================================== *)
(** * 32. Details and history of a batch of committees *)
(* ================================================================== *)

#[local] Instance details_scope_order : TableOrder details_scope.
Proof.
  split.
  - intros tb. split; auto.
  - intros a b c [H1 H1'] [H2 H2']. split.
    + rewrite H2. exact H1.
    + intros t Hc Hh. rewrite H2', H1' by assumption. reflexivity.
Qed.

#[local] Instance details_scope_focus :
  Focused (fun t => negb (table_eqb committee_history t)) details_scope.
Proof.
  intros tb tb' H. split.
  - rewrite (H committees eq_refl). reflexivity.
  - intros t _ Hh. apply H. apply negb_true_iff, table_eqb_neq. congruence.
Qed.

Section Details.

Import CommitteeScript.

Variable fault : nat -> bool.
Variable API_KEY : string.
Variable CONGRESS_TO_FETCH : option Z.
Variable get_detail : string -> response (option CommitteeDetail.t).

Local Abbreviation turn :=
  (fun url => _ <- detail_turn fault API_KEY CONGRESS_TO_FETCH get_detail url ;; ret tt).

(** The statements of the loop are those of a for-of loop; the array of
    report URLs is bookkeeping on the side. *)
Lemma details_loop_for_of (l : list string) (acc data : list ReportUrlDatum.t)
    (s s' : session) (r : outcome unit) :
  details_loop fault API_KEY CONGRESS_TO_FETCH get_detail l acc s = ((r, data), s') ->
  for_of l turn s = (match r with Ret _ => Ret tt | Throw e => Throw e end, s').
Proof.
  revert acc s. induction l as [|u l IH]; simpl; intros acc s.
  - intros [= <- _ <-]. reflexivity.
  - unfold bind.
    destruct (detail_turn fault API_KEY CONGRESS_TO_FETCH get_detail u s)
      as [[pushed|e] s1].
    + unfold ret. apply IH.
    + intros [= <- _ <-]. reflexivity.
Qed.

Lemma safe_select_report_counts (code : value) :
  txn_safe (select_report_counts fault CONGRESS_TO_FETCH code).
Proof.
  unfold select_report_counts. destruct CONGRESS_TO_FETCH as [c|].
  - apply safe_query.
  - intros s r s' t0 Hs E. eapply safe_query; eauto.
Qed.
Hint Resolve safe_select_report_counts : txn.

Lemma safe_details (l : list string) : txn_safe (for_of l turn).
Proof. unfold detail_turn, save_detail. txn_safe_tac. Qed.

(** The session [processCommitteeDetailsBatch] leaves is that of one
    transaction around the loop. *)
Lemma processCommitteeDetailsBatch_session (l : list string) (s : session) :
  snd (processCommitteeDetailsBatch fault API_KEY CONGRESS_TO_FETCH get_detail l s) =
  snd (try_catch (BEGIN fault ;; for_of l turn ;; COMMIT fault) (fun _ => ROLLBACK) s).
Proof.
  unfold processCommitteeDetailsBatch, try_catch, bind.
  destruct (BEGIN fault s) as [[[]|e] s0]; [|reflexivity].
  destruct (details_loop _ _ _ _ l [] s0) as [[r data] s1] eqn:E1.
  apply details_loop_for_of in E1. unfold bind in E1. rewrite E1.
  destruct r as [[]|e]; [|reflexivity]. simpl.
  destruct (COMMIT fault s1) as [[[]|e] s3]; reflexivity.
Qed.

Lemma detail_update_scope (isCurrent updateDate : value) wh :
  respects details_scope
    (client_query fault
       (exec_update committees
          [("is_current", fun _ => isCurrent); ("updated_at", fun _ => updateDate)] wh)).
Proof.
  apply respects_query; try exact _. intros tb sq sq' tb' a E.
  apply exec_update_effect in E. rewrite E. split.
  - rewrite set_table_same, map_map. apply map_ext. intros r.
    destruct (wh r); [|reflexivity]. unfold committee_core.
    apply map_ext_in. intros c Hc. apply update_row_other.
    simpl in Hc. repeat (destruct Hc as [<-|Hc]; [reflexivity|]). destruct Hc.
  - intros t Hc _. apply set_table_other. congruence.
Qed.
Hint Resolve detail_update_scope : resp.

Lemma select_report_counts_scope (code : value) :
  respects details_scope (select_report_counts fault CONGRESS_TO_FETCH code).
Proof.
  unfold select_report_counts. destruct CONGRESS_TO_FETCH as [c|].
  - apply respects_query; try exact _. intros tb sq sq' tb' a [= _ <- _].
    apply R_refl.
  - intros s r s' E. revert E. apply respects_query; try exact _.
    intros tb sq sq' tb' a [=].
Qed.
Hint Resolve select_report_counts_scope : resp.

Lemma details_scope_loop (l : list string) : respects details_scope (for_of l turn).
Proof. unfold detail_turn, save_detail. respects_tac. Qed.

(** [processCommitteeDetailsBatch] writes [is_current] and [updated_at]
    only: whatever the details say and whatever fails, it adds and
    removes no committee, leaves the code, name, chamber, type and parent
    of every stored committee as they are, and touches no table but
    [committees] and [committee_history]. *)
Theorem processCommitteeDetailsBatch_scope (detailUrls : list string) (s : session) :
  snap s = None ->
  details_scope (tbl s)
    (tbl (snd (processCommitteeDetailsBatch fault API_KEY CONGRESS_TO_FETCH get_detail
                 detailUrls s))).
Proof.
  intros Hs. rewrite processCommitteeDetailsBatch_session.
  destruct (try_catch _ _ s) as [r s'] eqn:E. cbn [snd].
  apply transaction_cases in E; auto using safe_details.
  destruct E as (_ & _ & _ & [Ht _|s2 EB _ Ht _ _]); rewrite Ht.
  - apply R_refl.
  - exact (details_scope_loop detailUrls _ _ _ EB).
Qed.

(** A URL whose answer skips could as well not be in the batch. *)
Lemma details_loop_skips (l : list string) (acc : list ReportUrlDatum.t) (s : session) :
  details_loop fault API_KEY CONGRESS_TO_FETCH get_detail l acc s
  = details_loop fault API_KEY CONGRESS_TO_FETCH get_detail
      (filter (fun url => negb (detail_skipped get_detail url)) l) acc s.
Proof.
  revert acc s. induction l as [|url l IH]; intros acc s; [reflexivity|].
  cbn [filter]. unfold detail_skipped at 1.
  destruct (get_detail url) as [|status|[committee|]] eqn:Eg; cbn [negb details_loop];
    unfold detail_turn; rewrite Eg.
  - reflexivity.
  - unfold ret. rewrite app_nil_r. apply IH.
  - destruct (save_detail fault API_KEY CONGRESS_TO_FETCH committee s) as [[pushed|e] s1];
      [apply IH|reflexivity].
  - unfold ret. rewrite app_nil_r. apply IH.
Qed.

(** A response that is not ok, or an ok body without a committee, only
    skips its committee: the batch runs, and returns, exactly as the
    batch without that URL.  A fetch that throws (the connection drops,
    the body is not JSON) is inside the try of the transaction: it rolls
    back the updates of the whole batch. *)
Theorem processCommitteeDetailsBatch_network_failure (detailUrls : list string)
    (s : session) :
  let run := processCommitteeDetailsBatch fault API_KEY CONGRESS_TO_FETCH
               get_detail detailUrls s in
  (forall url,
      snap s = None ->
      In url detailUrls -> get_detail url = HttpFailure ->
      tbl (snd run) = tbl s /\ history (snd run) <> Committed :: history s)
  /\ run = processCommitteeDetailsBatch fault API_KEY CONGRESS_TO_FETCH get_detail
             (filter (fun url => negb (detail_skipped get_detail url)) detailUrls) s.
Proof.
  intros run. split.
  - intros url Hs Hin Hget. subst run. rewrite processCommitteeDetailsBatch_session.
    destruct (try_catch _ _ s) as [r s'] eqn:E. cbn [snd].
    apply transaction_cases in E; auto using safe_details.
    destruct E as (_ & _ & _ & [Ht [Hh|Hh]|s2 EB _ _ _ _]).
    + split; [exact Ht|]. rewrite Hh. apply history_not_extended.
    + split; [exact Ht|]. rewrite Hh. discriminate.
    + exfalso.
      apply (for_of_reaches _ (fun _ => True) _ url) in EB; auto.
      * destruct EB as (s3 & s4 & _ & E3). unfold bind, detail_turn in E3.
        rewrite Hget in E3. discriminate.
      * intros a s0 r0 s1 _ _. exact I.
  - subst run. unfold processCommitteeDetailsBatch.
    destruct (BEGIN fault s) as [[[]|e] s0]; [|reflexivity].
    rewrite <- details_loop_skips. reflexivity.
Qed.

(** A query that returns leaves the sequences where the statement put
    them. *)
Lemma client_query_ret_seqs {A} (q : tables -> sequences -> stmt_result A) s a s' :
  client_query fault q s = (Ret a, s') ->
  q (tbl s) (seqs s) = (seqs s', inr (tbl s', a)).
Proof.
  unfold client_query, raise.
  destruct (failed s); [discriminate|].
  destruct (fault (nstmt s)); [discriminate|].
  destruct (q (tbl s) (seqs s)) as [sq [e|[tb x]]]; [discriminate|].
  intros [= <- <-]. reflexivity.
Qed.

Lemma exec_insert_seqs t names vals oc tb sq sq' res :
  exec_insert t names vals oc tb sq = (sq', res) ->
  sq' = if has_serial t then bump sq t else sq.
Proof.
  unfold exec_insert.
  repeat match goal with
         | |- context [match ?x with _ => _ end] => destruct x
         end; intros [= <- _]; reflexivity.
Qed.

(** The INSERT of a history item, when it goes through, appends a row: the
    only unique index of [committee_history] is the one of its serial
    [id], which the sequence has just issued. *)
Lemma history_insert_appends (code name start_ end_ : value) (s s' : session) :
  insert_ fault committee_history
    ["committee_system_code"; "official_name"; "start_date"; "end_date"]
    [code; name; start_; end_] (DoNothing None) s = (Ret tt, s') ->
  history_ids_issued s ->
  history_ids_issued s'
  /\ List.length (tbl s' committee_history)
     = S (List.length (tbl s committee_history)).
Proof.
  unfold insert_. intros E Hissued. apply bind_ret in E.
  destruct E as (ids & s1 & E & [= <-]).
  apply client_query_ret_seqs in E.
  pose proof (exec_insert_seqs _ _ _ _ _ _ _ _ E) as Hsq. cbn [has_serial] in Hsq.
  change (has_serial committee_history) with true in Hsq. cbv iota in Hsq.
  apply exec_insert_effect in E.
  set (new := build_row committee_history _ _ _) in E.
  assert (Nid : field committee_history new "id"
                = VInt (seqs s committee_history + 1)) by reflexivity.
  destruct E as [target old _ Hold Hc _ _
                |before after old k sets [=] _ _ _ _ _ _ _
                |_ _ Ht _ _].
  - exfalso. destruct (Hissued old Hold) as (z & Hz & Hle).
    change (arbiters committee_history (DoNothing None)) with [["id"]] in Hc.
    rewrite conflicts_one_column, Nid, Hz in Hc.
    apply sql_eq_true in Hc. destruct Hc as [[= Hc] _]. lia.
  - split.
    + intros r Hr. rewrite Ht, set_table_same in Hr. rewrite Hsq.
      unfold bump. rewrite table_eqb_refl.
      apply in_app_or in Hr. destruct Hr as [Hr|[<-|[]]].
      * destruct (Hissued r Hr) as (z & Hz & Hle). exists z. split; [exact Hz|lia].
      * exists (seqs s committee_history + 1). split; [exact Nid|lia].
    + rewrite Ht, set_table_same, length_app. simpl. lia.
Qed.

Lemma history_items_append (code : value) (l : list HistoryItem.t) (s s' : session) :
  for_of l (fun historyItem =>
    when (truthy (HistoryItem.officialName historyItem))
      (insert_ fault committee_history
         ["committee_system_code"; "official_name"; "start_date"; "end_date"]
         [code; HistoryItem.officialName historyItem;
          HistoryItem.startDate historyItem; HistoryItem.endDate historyItem]
         (DoNothing None))) s = (Ret tt, s') ->
  history_ids_issued s ->
  history_ids_issued s'
  /\ List.length (tbl s' committee_history)
     = (List.length (tbl s committee_history)
        + List.length (filter (fun h => truthy (HistoryItem.officialName h)) l))%nat.
Proof.
  revert s. induction l as [|h l IH]; intros s E Hi.
  - injection E as <-. split; [exact Hi|]. simpl. lia.
  - cbn [for_of] in E. apply bind_ret in E. destruct E as ([] & s1 & E1 & E2).
    cbn [filter]. unfold when in E1.
    destruct (truthy (HistoryItem.officialName h)).
    + destruct (history_insert_appends _ _ _ _ _ _ E1 Hi) as [Hi1 Hl1].
      destruct (IH s1 E2 Hi1) as [Hi' Hl']. split; [exact Hi'|].
      rewrite Hl', Hl1. simpl. lia.
    + injection E1 as <-. apply IH; assumption.
Qed.

Lemma detail_turn_appends (url : string) (s s' : session)
    (pushed : list ReportUrlDatum.t) :
  detail_turn fault API_KEY CONGRESS_TO_FETCH get_detail url s = (Ret pushed, s') ->
  history_ids_issued s ->
  history_ids_issued s'
  /\ List.length (tbl s' committee_history)
     = (List.length (tbl s committee_history)
        + match get_detail url with
          | HttpOk (Some committee) => named_items committee
          | _ => O
          end)%nat.
Proof.
  unfold detail_turn. intros E Hi.
  destruct (get_detail url) as [|status|[committee|]];
    try discriminate; try (injection E as _ <-; split; [exact Hi|lia]).
  unfold save_detail in E.
  apply bind_ret in E. destruct E as ([] & s1 & E1 & E).
  apply bind_ret in E. destruct E as ([] & s2 & E2 & E3).
  (* the UPDATE of the committee *)
  apply client_query_ret_seqs in E1.
  assert (H1 : tbl s1 committee_history = tbl s committee_history
               /\ seqs s1 = seqs s).
  { split.
    - eapply exec_update_other; [exact E1|discriminate].
    - unfold exec_update in E1.
      destruct (update_rows _ _ _ _ _) as [e|[ch rows]]; [discriminate|].
      destruct (first_fk_violation _ _ _); [discriminate|].
      injection E1 as <- _. reflexivity. }
  destruct H1 as [Ht1 Hq1].
  assert (Hi1 : history_ids_issued s1).
  { intros r Hr. rewrite Ht1 in Hr. rewrite Hq1. apply Hi. exact Hr. }
  (* the history *)
  assert (H2 : history_ids_issued s2
               /\ List.length (tbl s2 committee_history)
                  = (List.length (tbl s1 committee_history) + named_items committee)%nat).
  { unfold named_items. destruct (CommitteeDetail.history committee) as [l|].
    - exact (history_items_append _ l s1 s2 E2 Hi1).
    - injection E2 as <-. split; [exact Hi1|lia]. }
  destruct H2 as [Hi2 Hl2]. rewrite Ht1 in Hl2. rewrite <- Hl2.
  (* the count of the reports *)
  assert (H3 : tbl s' = tbl s2 /\ seqs s' = seqs s2).
  { destruct (CommitteeDetail.reports committee) as [reports|];
      [|injection E3 as _ <-; auto].
    destruct (Reports.url reports) as [baseUrl|]; [|injection E3 as _ <-; auto].
    destruct (String.eqb baseUrl ""); [injection E3 as _ <-; auto|].
    apply bind_ret in E3. destruct E3 as (counts & s3 & E3 & E4).
    assert (H : tbl s3 = tbl s2 /\ seqs s3 = seqs s2).
    { unfold select_report_counts in E3. destruct CONGRESS_TO_FETCH as [c|];
        apply client_query_ret_seqs in E3; [|discriminate].
      injection E3 as <- <-. auto. }
    destruct (_ || _); injection E4 as _ <-; exact H. }
  destruct H3 as [Ht3 Hq3]. split; [|rewrite Ht3; lia].
  intros r Hr. rewrite Ht3 in Hr. rewrite Hq3. apply Hi2. exact Hr.
Qed.

Lemma details_append (l : list string) (s s' : session) :
  for_of l turn s = (Ret tt, s') ->
  history_ids_issued s ->
  history_ids_issued s'
  /\ List.length (tbl s' committee_history)
     = (List.length (tbl s committee_history) + named_history get_detail l)%nat.
Proof.
  revert s. induction l as [|u l IH]; intros s E Hi.
  - injection E as <-. split; [exact Hi|]. simpl. lia.
  - cbn [for_of] in E. apply bind_ret in E. destruct E as ([] & s1 & E1 & E2).
    apply bind_ret in E1. destruct E1 as (pushed & s0 & E1 & [= <-]).
    destruct (detail_turn_appends u s s0 pushed E1 Hi) as [Hi1 Hl1].
    destruct (IH s0 E2 Hi1) as [Hi' Hl']. split; [exact Hi'|].
    rewrite Hl', Hl1. simpl. lia.
Qed.

(** The history of a committee is appended, never merged: the INSERT says
    ON CONFLICT DO NOTHING, but [committee_history] has no unique
    constraint besides its serial id, so no conflict ever arises.  Every
    batch that commits adds one row for each named history item of the
    details it fetched, whatever is stored already: running the script
    again stores the whole history again. *)
Theorem processCommitteeDetailsBatch_appends_history (detailUrls : list string)
    (s : session) :
  snap s = None -> history_ids_issued s ->
  let s' := snd (processCommitteeDetailsBatch fault API_KEY CONGRESS_TO_FETCH
                   get_detail detailUrls s) in
  history s' = Committed :: history s ->
  List.length (tbl s' committee_history)
  = (List.length (tbl s committee_history) + named_history get_detail detailUrls)%nat.
Proof.
  intros Hs Hi s'. subst s'. rewrite processCommitteeDetailsBatch_session.
  destruct (try_catch _ _ s) as [r s'] eqn:E. cbn [snd]. intros Hh.
  apply transaction_cases in E; auto using safe_details.
  destruct E as (_ & _ & _ & [Ht [Hh'|Hh']|s2 EB _ Ht _ _]).
  - rewrite Hh' in Hh. destruct (history_not_extended _ _ Hh).
  - rewrite Hh' in Hh. discriminate.
  - destruct (details_append detailUrls (begun s) s2 EB Hi) as [_ Hl2].
    rewrite Ht. exact Hl2.
Qed.

End Details.

Lemma processCommitteeDetailsBatch_scope_witness :
  let run := CommitteeScript.processCommitteeDetailsBatch no_fault "KEY" (Some 119)
               detail_endpoint [hsag_url] (connect house_committee_tables) in
  history (snd run) = [Committed]
  /\ tbl (snd run) committees
     = [[VText "HSAG"; VText "Agriculture"; VText "House"; VNull; VNull; VBool true;
         VText "2025-01-03"]]
  /\ details_scope house_committee_tables (tbl (snd run)).
Proof.
  intros run. split; [reflexivity|]. split; [reflexivity|].
  apply (processCommitteeDetailsBatch_scope no_fault "KEY" (Some 119) detail_endpoint
           [hsag_url] (connect house_committee_tables)).
  reflexivity.
Defined.

Lemma processCommitteeDetailsBatch_network_failure_witness :
  let down := "https://down.example/&api_key=KEY" in
  let s' := snd (CommitteeScript.processCommitteeDetailsBatch no_fault "KEY" (Some 119)
                   detail_endpoint [hsag_url; down] (connect house_committee_tables)) in
  let refused := CommitteeScript.processCommitteeDetailsBatch no_fault "KEY" (Some 119)
                   refusing_endpoint [down; hsag_url] (connect house_committee_tables) in
  (tbl s' = house_committee_tables /\ history s' <> [Committed])
  /\ refused = CommitteeScript.processCommitteeDetailsBatch no_fault "KEY" (Some 119)
                 refusing_endpoint [hsag_url] (connect house_committee_tables)
  /\ history (snd refused) = [Committed]
  /\ List.length (tbl (snd refused) committee_history) = 1%nat.
Proof.
  intros down s' refused. split; [|split; [|split; reflexivity]].
  - apply (proj1 (processCommitteeDetailsBatch_network_failure no_fault "KEY" (Some 119)
                    detail_endpoint [hsag_url; down] (connect house_committee_tables))
             down).
    + reflexivity.
    + right. left. reflexivity.
    + reflexivity.
  - apply (proj2 (processCommitteeDetailsBatch_network_failure no_fault "KEY" (Some 119)
                    refusing_endpoint [down; hsag_url]
                    (connect house_committee_tables))).
Defined.

Lemma processCommitteeDetailsBatch_appends_history_witness :
  let first := snd (CommitteeScript.processCommitteeDetailsBatch no_fault "KEY"
                      (Some 119) detail_endpoint [hsag_url]
                      (connect house_committee_tables)) in
  let second := snd (CommitteeScript.processCommitteeDetailsBatch no_fault "KEY"
                       (Some 119) detail_endpoint [hsag_url] first) in
  List.length (tbl first committee_history) = 1%nat
  /\ List.length (tbl second committee_history) = 2%nat.
Proof.
  intros first second. split; [reflexivity|].
  refine (processCommitteeDetailsBatch_appends_history no_fault "KEY" (Some 119)
            detail_endpoint [hsag_url] first eq_refl _ eq_refl).
  intros r [<-|[]]. exists 1. split; [reflexivity|]. vm_compute. discriminate.
Defined.

(* ================================================================== *)
(** * 33. The listings of members and of committees *)
(* ================================================================== *)

Lemma replies_snoc {B} (fetch : nat -> string -> response B) (n : nat)
    (urls : list string) (url : string) :
  replies fetch n (urls ++ [url])
  = (replies fetch n urls ++ [fetch (List.length urls + n)%nat url])%list.
Proof.
  revert n. induction urls as [|u urls IH]; intros n; [reflexivity|].
  simpl. rewrite IH. rewrite Nat.add_succ_r. reflexivity.
Qed.

Lemma removelast_snoc {B} (l : list B) (x : B) : removelast (l ++ [x]) = l.
Proof. apply removelast_last. Qed.

Section MemberListing.

Import MemberScript.

Variable list_page : nat -> string -> response (option (list (option string)) * option string).
Variable API_KEY : string.

(** The loop from request [n] on, [asked] being the [n] requests made
    before and [memberUrls] what their answers carried. *)
Lemma walk_members_gathers (fuel : nat) (nextUrl : option string)
    (memberUrls res : list string) (asked log : list string) :
  walk_members list_page API_KEY fuel (List.length asked) nextUrl memberUrls asked
  = Some (res, log) ->
  memberUrls
  = flat_map (fun a => map (member_url API_KEY) (listed a))
             (replies list_page O (rev asked)) ->
  forallb names_next (replies list_page O (rev asked)) = true ->
  res = flat_map (fun a => map (member_url API_KEY) (listed a))
                 (replies list_page O (rev log))
  /\ forallb names_next (removelast (replies list_page O (rev log))) = true
  /\ (List.length log <= List.length asked + fuel)%nat.
Proof.
  revert nextUrl memberUrls asked.
  induction fuel as [|fuel IH]; intros nextUrl memberUrls asked;
    cbn [walk_members]; destruct nextUrl as [url|].
  - discriminate.
  - intros [= <- <-] Hm Hg. split; [exact Hm|]. split; [|lia].
    destruct (rev asked) as [|u l] eqn:E using rev_ind; [reflexivity|].
    rewrite replies_snoc, removelast_snoc.
    rewrite replies_snoc, forallb_app in Hg. apply andb_true_iff in Hg. tauto.
  - destruct (list_page (List.length asked) url) as [|status|[members_ next]] eqn:Ea.
    + intros [= <- <-] Hm Hg. cbn [rev]. rewrite replies_snoc, removelast_snoc.
      rewrite flat_map_app, length_rev, Nat.add_0_r, Ea. cbn [flat_map listed map].
      rewrite !app_nil_r. split; [exact Hm|]. split; [exact Hg|]. simpl. lia.
    + intros [= <- <-] Hm Hg. cbn [rev]. rewrite replies_snoc, removelast_snoc.
      rewrite flat_map_app, length_rev, Nat.add_0_r, Ea. cbn [flat_map listed map].
      rewrite !app_nil_r. split; [exact Hm|]. split; [exact Hg|]. simpl. lia.
    + assert (Hrep : replies list_page O (rev (url :: asked))
                     = (replies list_page O (rev asked)
                        ++ [HttpOk (members_, next)])%list).
      { cbn [rev]. rewrite replies_snoc, length_rev, Nat.add_0_r, Ea. reflexivity. }
      destruct (truthy_str next) eqn:Hn.
      * intros E Hm Hg.
        change (S (List.length asked)) with (List.length (url :: asked)) in E.
        apply IH in E.
        -- destruct E as (Hres & Hgo & Hlen). split; [exact Hres|].
           split; [exact Hgo|]. simpl in Hlen. lia.
        -- rewrite Hrep, flat_map_app. cbn [flat_map listed]. rewrite app_nil_r.
           destruct members_; [rewrite Hm; reflexivity|].
           simpl. rewrite app_nil_r. exact Hm.
        -- rewrite Hrep, forallb_app, Hg. cbn [forallb names_next]. rewrite Hn.
           reflexivity.
      * destruct fuel; cbn [walk_members]; intros [= <- <-] Hm Hg;
          (rewrite Hrep, removelast_snoc, flat_map_app; cbn [flat_map listed];
           rewrite app_nil_r; split;
           [destruct members_; [rewrite Hm; reflexivity|];
            simpl; rewrite app_nil_r; exact Hm
           |split; [exact Hg|simpl; lia]]).
  - intros [= <- <-] Hm Hg. split; [exact Hm|]. split; [|lia].
    destruct (rev asked) as [|u l] eqn:E using rev_ind; [reflexivity|].
    rewrite replies_snoc, removelast_snoc.
    rewrite replies_snoc, forallb_app in Hg. apply andb_true_iff in Hg. tauto.
Qed.

(** When [fetchAllMemberUrls] returns, the URLs it returns are those of
    the members on the ok pages it was answered, each with the key
    appended, in the order of the requests.  Every answer but the last was
    an ok page naming a next one: the walk ends at the first answer that
    is anything else, a 429 included, which is not asked again, and the
    members of the pages after it are left out of the run without a sign
    to the caller. *)
Theorem fetchAllMemberUrls_gathers (BASE_API_URL : string)
    (CONGRESS_TO_FETCH : option string) (fuel : nat) (urls asked : list string) :
  fetchAllMemberUrls list_page API_KEY BASE_API_URL CONGRESS_TO_FETCH fuel
  = Some (urls, asked) ->
  let pages := replies list_page O (rev asked) in
  urls = flat_map (fun a => map (member_url API_KEY) (listed a)) pages
  /\ forallb names_next (removelast pages) = true
  /\ (List.length asked <= fuel)%nat.
Proof.
  unfold fetchAllMemberUrls.
  destruct (negb (truthy_str CONGRESS_TO_FETCH)).
  - intros [= <- <-]. simpl. repeat split. lia.
  - intros E.
    apply (walk_members_gathers fuel _ [] urls [] asked) in E; [|reflexivity..].
    exact E.
Qed.

End MemberListing.

Lemma fetchAllMemberUrls_gathers_witness :
  let first :=
    "https://api.congress.gov/v3/member/congress/119?api_key=KEY&limit=250" in
  let second :=
    "https://api.congress.gov/v3/member/congress/119?offset=250&api_key=KEY" in
  let urls := ["https://api.congress.gov/v3/member/A000370?format=json&api_key=KEY"] in
  let pages := replies limited_listing O (rev [second; first]) in
  MemberScript.fetchAllMemberUrls limited_listing "KEY" "https://api.congress.gov/v3"
    (Some "119") 10 = Some (urls, [second; first])
  /\ urls = flat_map (fun a => map (member_url "KEY") (listed a)) pages
  /\ forallb names_next (removelast pages) = true
  /\ (List.length [second; first] <= 10)%nat.
Proof.
  intros first second urls pages. split; [reflexivity|].
  apply (fetchAllMemberUrls_gathers limited_listing "KEY" "https://api.congress.gov/v3"
           (Some "119") 10 urls [second; first]).
  reflexivity.
Defined.

Section CommitteeListing.

Import CommitteeScript.

Variable list_page : nat -> string -> response (option (list Committee.t) * option string).
Variable API_KEY : string.

(** The loop from request [n] on, [asked] being the [n] requests made
    before and [allCommittees] what their answers carried. *)
Lemma walk_committees_gathers (fuel : nat) (nextUrl : option string)
    (allCommittees res : list Committee.t) (asked log : list string) :
  walk_committees API_KEY list_page fuel (List.length asked) nextUrl allCommittees asked
  = Some (res, log) ->
  allCommittees = flat_map listed (replies list_page O (rev asked)) ->
  forallb names_next (replies list_page O (rev asked)) = true ->
  res = flat_map listed (replies list_page O (rev log))
  /\ forallb names_next (removelast (replies list_page O (rev log))) = true
  /\ (List.length log <= List.length asked + fuel)%nat.
Proof.
  revert nextUrl allCommittees asked.
  induction fuel as [|fuel IH]; intros nextUrl allCommittees asked;
    cbn [walk_committees]; destruct nextUrl as [url|].
  - discriminate.
  - intros [= <- <-] Hm Hg. split; [exact Hm|]. split; [|lia].
    destruct (rev asked) as [|u l] eqn:E using rev_ind; [reflexivity|].
    rewrite replies_snoc, removelast_snoc.
    rewrite replies_snoc, forallb_app in Hg. apply andb_true_iff in Hg. tauto.
  - destruct (list_page (List.length asked) url) as [|status|[committees_ next]] eqn:Ea.
    + intros [= <- <-] Hm Hg. cbn [rev]. rewrite replies_snoc, removelast_snoc.
      rewrite flat_map_app, length_rev, Nat.add_0_r, Ea. cbn [flat_map listed].
      rewrite !app_nil_r. split; [exact Hm|]. split; [exact Hg|]. simpl. lia.
    + intros [= <- <-] Hm Hg. cbn [rev]. rewrite replies_snoc, removelast_snoc.
      rewrite flat_map_app, length_rev, Nat.add_0_r, Ea. cbn [flat_map listed].
      rewrite !app_nil_r. split; [exact Hm|]. split; [exact Hg|]. simpl. lia.
    + assert (Hrep : replies list_page O (rev (url :: asked))
                     = (replies list_page O (rev asked)
                        ++ [HttpOk (committees_, next)])%list).
      { cbn [rev]. rewrite replies_snoc, length_rev, Nat.add_0_r, Ea. reflexivity. }
      destruct (truthy_str next) eqn:Hn.
      * intros E Hm Hg.
        change (S (List.length asked)) with (List.length (url :: asked)) in E.
        apply IH in E.
        -- destruct E as (Hres & Hgo & Hlen). split; [exact Hres|].
           split; [exact Hgo|]. simpl in Hlen. lia.
        -- rewrite Hrep, flat_map_app. cbn [flat_map listed]. rewrite app_nil_r.
           destruct committees_; [rewrite Hm; reflexivity|].
           rewrite app_nil_r. exact Hm.
        -- rewrite Hrep, forallb_app, Hg. cbn [forallb names_next]. rewrite Hn.
           reflexivity.
      * destruct fuel; cbn [walk_committees]; intros [= <- <-] Hm Hg;
          (rewrite Hrep, removelast_snoc, flat_map_app; cbn [flat_map listed];
           rewrite app_nil_r; split;
           [destruct committees_; [rewrite Hm; reflexivity|];
            rewrite app_nil_r; exact Hm
           |split; [exact Hg|simpl; lia]]).
  - intros [= <- <-] Hm Hg. split; [exact Hm|]. split; [|lia].
    destruct (rev asked) as [|u l] eqn:E using rev_ind; [reflexivity|].
    rewrite replies_snoc, removelast_snoc.
    rewrite replies_snoc, forallb_app in Hg. apply andb_true_iff in Hg. tauto.
Qed.

(** When [fetchAllCommittees] returns, the committees it returns are
    those of the ok pages it was answered, in the order of the requests,
    and every answer but the last was an ok page naming a next one.  So a
    page that fails, or a next link that is empty, ends the listing where
    it stands: [main] then upserts and details the committees gathered so
    far as if they were all of them. *)
Theorem fetchAllCommittees_gathers (BASE_API_URL : string)
    (CURRENT_CONGRESS : option string) (fuel : nat)
    (committeesData : list Committee.t) (asked : list string) :
  fetchAllCommittees API_KEY list_page BASE_API_URL CURRENT_CONGRESS fuel
  = Some (committeesData, asked) ->
  let pages := replies list_page O (rev asked) in
  committeesData = flat_map listed pages
  /\ forallb names_next (removelast pages) = true
  /\ (List.length asked <= fuel)%nat.
Proof.
  unfold fetchAllCommittees.
  destruct (negb (truthy_str CURRENT_CONGRESS)).
  - intros [= <- <-]. simpl. repeat split. lia.
  - intros E.
    apply (walk_committees_gathers fuel _ [] committeesData [] asked) in E;
      [|reflexivity..].
    exact E.
Qed.

End CommitteeListing.

Lemma fetchAllCommittees_gathers_witness :
  let first := "https://api.congress.gov/v3/committee/119?api_key=KEY&limit=250" in
  let second := "https://api.congress.gov/v3/committee/119?offset=250&api_key=KEY" in
  let pages := replies committee_listing O (rev [second; first]) in
  CommitteeScript.fetchAllCommittees "KEY" committee_listing "https://api.congress.gov/v3"
    (Some "119") 10 = Some (orphan_page, [second; first])
  /\ orphan_page = flat_map listed pages
  /\ forallb names_next (removelast pages) = true
  /\ (List.length [second; first] <= 10)%nat.
Proof.
  intros first second pages. split; [reflexivity|].
  apply (fetchAllCommittees_gathers committee_listing "KEY" "https://api.congress.gov/v3"
           (Some "119") 10 orphan_page [second; first]).
  reflexivity.
Defined.

(* ================================================================== *)
(** * 34. A batch and the planner run that follows *)
(* ================================================================== *)

#[local] Instance unique_kept_order : TableOrder unique_kept.
Proof.
  split.
  - intros tb H. exact H.
  - intros a b c Hab Hbc H. auto.
Qed.

#[local] Instance unique_kept_focus : Focused (table_eqb bills) unique_kept.
Proof.
  intros tb tb' H Hu c t n. rewrite (H bills (table_eqb_refl _)). apply Hu.
Qed.

Lemma filter_none {A} (p : A -> bool) (l : list A) :
  (forall x, In x l -> p x = false) -> filter p l = [].
Proof.
  induction l as [|x l IH]; simpl; intros H; [reflexivity|].
  rewrite (H x) by auto. apply IH. auto.
Qed.

(** A row replaced by one with the same key leaves the key unique. *)
Lemma unique_replace (tb : tables) (before after : list row) (old upd : row) :
  tb bills = (before ++ old :: after)%list ->
  field bills upd "congress" = field bills old "congress" ->
  field bills upd "type" = field bills old "type" ->
  field bills upd "number" = field bills old "number" ->
  unique_kept tb (set_table tb bills (before ++ upd :: after)).
Proof.
  intros Hrows Hc Ht Hn Hu c t n. specialize (Hu c t n).
  rewrite set_table_same. rewrite Hrows in Hu.
  rewrite filter_app in *. cbn [filter] in *.
  assert (Hm : bill_matches c t n upd = bill_matches c t n old).
  { unfold bill_matches. rewrite Hc, Ht, Hn. reflexivity. }
  rewrite Hm. destruct (bill_matches c t n old); rewrite length_app in *; exact Hu.
Qed.

(** A row appended where no stored row has its key leaves the key unique. *)
Lemma unique_append (tb : tables) (new : row) :
  (forall r, In r (tb bills) ->
             conflicts bills [["congress"; "type"; "number"]] new r = false) ->
  unique_kept tb (set_table tb bills (tb bills ++ [new])).
Proof.
  intros Hnone Hu c t n. specialize (Hu c t n).
  rewrite set_table_same, filter_app, length_app. cbn [filter].
  destruct (bill_matches c t n new) eqn:Em; [|simpl; lia].
  rewrite filter_none; [simpl; lia|].
  intros r Hr. specialize (Hnone r Hr). rewrite bill_conflict_matches in Hnone.
  unfold bill_matches in Em. apply andb_prop in Em. destruct Em as [Em H3].
  apply andb_prop in Em. destruct Em as [H1 H2].
  apply sql_eq_true in H1, H2, H3.
  destruct H1 as [H1 N1], H2 as [H2 N2], H3 as [H3 N3].
  rewrite <- H1, <- H2, <- H3.
  destruct (field bills new "congress"); [contradiction N1; reflexivity|..];
    destruct (field bills new "type"); try (contradiction N2; reflexivity);
    destruct (field bills new "number"); try (contradiction N3; reflexivity);
    simpl in Hnone; rewrite ?andb_true_r in Hnone; exact Hnone.
Qed.

Section NextPlan.

Import BillScript.

Variable fault : nat -> bool.
Variable up : upstream.
Variable now : Z.
Variable stack_limit : nat.

Lemma related_stub_keeps_unique (congress type number title : value) :
  respects unique_kept
    (insert_returning fault bills ["congress"; "type"; "number"; "title"]
       [congress; type; number; title]
       (DoUpdate ["congress"; "type"; "number"] [excluded bills "title"])).
Proof.
  apply respects_insert_returning; try exact _.
  intros tb k tb' ids E.
  destruct E as [target old0 [=] _ _ _ _|before after old key sets [= <- <-] Hrows _ _ _ -> _ _
                |Hnone _ -> _ _].
  - apply unique_replace with (old := old); auto;
      apply apply_sets_other; reflexivity.
  - apply unique_append. exact Hnone.
Qed.

Lemma upsert_bill_keeps_unique (bill : Bill.t) :
  respects unique_kept
    (insert_returning fault bills bill_columns (bill_values now bill)
       (DoUpdate ["congress"; "type"; "number"] (bill_sets now))).
Proof.
  apply respects_insert_returning; try exact _.
  intros tb k tb' ids E. fold (proposed now bill k) in E.
  destruct E as [target old0 [=] _ _ _ _|before after old key sets [= <- <-] Hrows _ _ _ -> _ _
                |Hnone _ -> _ _].
  - destruct (bill_sets_key now old (proposed now bill k)) as (Sc & St & Sn & _).
    apply unique_replace with (old := old); auto.
  - apply unique_append. exact Hnone.
Qed.

Hint Resolve related_stub_keeps_unique : resp.

Lemma save_bill_keeps_unique (bill : Bill.t) :
  respects unique_kept (save_bill fault up now stack_limit bill).
Proof.
  unfold save_bill, upsert_bill.
  apply respects_bind; try exact _.
  - apply respects_bind; try exact _.
    + apply upsert_bill_keeps_unique.
    + intros ids. apply respects_first_id; exact _.
  - intros billId.
    unfold save_related_data, with_url, with_list, save_actions, save_committees,
      save_cosponsors, save_reports, save_relatedBills, save_summaries, save_subjects,
      save_titles, save_textVersions, save_cboCostEstimates, ensureCommitteeExists,
      missing_members, fetch_missing_member, insert_member_stub.
    respects_tac.
Qed.

Lemma batch_body_keeps_unique (billDataBatch : list (option Bill.t)) :
  respects unique_kept (batch_body fault up now stack_limit billDataBatch).
Proof.
  unfold batch_body. destruct (defined_bills billDataBatch) as [batch|].
  - apply respects_bind; try exact _.
    + unfold ensure_sponsors, missing_members, fetch_missing_member, insert_member_stub.
      respects_tac.
    + intros _. apply respects_for_of; try exact _. apply save_bill_keeps_unique.
  - apply respects_throw; exact _.
Qed.

End NextPlan.

Section NextPlanRun.

Import BillScript.

Variable fault : nat -> bool.
Variable up : upstream.
Variable now : Z.
Variable stack_limit : nat.

(** The batch writer leaves the natural key of bills unique. *)
Lemma saveBillBatchToDb_keeps_unique (billDataBatch : list (option Bill.t))
    (s s' : session) (r : outcome unit) :
  snap s = None ->
  saveBillBatchToDb fault up now stack_limit billDataBatch s = (r, s') ->
  bills_unique (tbl s) -> bills_unique (tbl s').
Proof.
  intros Hs E Hu.
  destruct (saveBillBatchToDb_cases _ _ _ _ _ _ _ _ Hs E) as (_ & _ & [->|[_ Hres]]);
    [exact Hu|].
  destruct Hres as [Ht _|s2 Hb _ Ht _ _]; rewrite Ht; [exact Hu|].
  apply batch_body_keeps_unique in Hb. apply Hb. exact Hu.
Qed.

(** After a batch that committed, a run of the planner whose clock is
    less than seven days past the NOW() of that transaction plans no
    record of the batch: every URL of its work list is that of a listed
    bill that was not in the batch.  (The bills table satisfies its UNIQUE
    constraint before the batch, the listing has natural-number
    identifiers and no query of the planner fails.) *)
Theorem committed_batch_not_planned_again (billDataBatch : list (option Bill.t))
    (s s' : session) (r : outcome unit)
    (planner_fault : nat -> bool) (API_KEY : string)
    (CONGRESS_TO_FETCH : option string) (pages : list listing_page) :
  snap s = None ->
  bills_unique (tbl s) ->
  saveBillBatchToDb fault up now stack_limit billDataBatch s = (r, s') ->
  history s' = Committed :: history s ->
  (forall n, planner_fault n = false) ->
  well_formed_listing pages ->
  (forall page, In page (walked pages) -> fst page - SEVEN_DAYS < now) ->
  forall u,
    In u (fst (fetchAndFilterBillUrls planner_fault API_KEY CONGRESS_TO_FETCH pages s')) ->
    exists page l,
      In page (walked pages) /\ In l (snd page)
      /\ u = (Listed.url l ++ "&api_key=" ++ API_KEY)%string
      /\ ~ listed_in_batch billDataBatch l.
Proof.
  intros Hs Hu E Hh Hpf Hwf Hclock u Hin.
  assert (Hu' := saveBillBatchToDb_keeps_unique _ _ _ _ Hs E Hu).
  destruct (saveBillBatchToDb_cases _ _ _ _ _ _ _ _ Hs E) as (_ & _ & [->|[Hf Hres]]).
  { destruct (history_not_extended _ _ Hh). }
  destruct Hres as [_ [Hh'|Hh']|s2 Hb _ Ht _ _].
  { rewrite Hh' in Hh. destruct (history_not_extended _ _ Hh). }
  { rewrite Hh' in Hh. discriminate. }
  assert (Hst : forall b, In (Some b) billDataBatch ->
                watermark (tbl s') (Bill.congress b) (Bill.type b) (Bill.number b)
                = VTime now).
  { unfold batch_body in Hb.
    destruct (defined_bills billDataBatch) as [batch|] eqn:Ed; [|discriminate].
    unfold bind in Hb.
    destruct (ensure_sponsors fault up batch (begun s)) as [[[]|e] s1] eqn:E1;
      [|discriminate].
    intros b Hb0. unfold watermark, bill_row. rewrite Ht.
    apply (batch_stamps fault up now stack_limit batch s1 s2 Hb).
    eapply defined_bills_in; eauto. }
  unfold fetchAndFilterBillUrls in Hin.
  destruct (negb (truthy_str CONGRESS_TO_FETCH)); [destruct Hin|].
  rewrite (walk_pages_work_list planner_fault API_KEY Hpf pages [] s' Hf Hu' Hwf) in Hin.
  simpl in Hin. unfold work_list in Hin. apply in_flat_map in Hin.
  destruct Hin as (page & Hpage & Hin). apply in_map_iff in Hin.
  destruct Hin as (l & <- & Hl). apply filter_In in Hl. destruct Hl as [Hl Hdue].
  exists page, l. repeat split; auto.
  intros (b & Hb0 & Hc & Hty & Hn).
  specialize (Hst b Hb0). rewrite Hc, Hty, Hn in Hst.
  unfold due in Hdue. rewrite Hst in Hdue.
  specialize (Hclock page Hpage). apply Z.ltb_lt in Hclock.
  rewrite Hclock in Hdue. discriminate.
Qed.

End NextPlanRun.

Lemma committed_batch_not_planned_again_witness :
  let s' := snd (BillScript.saveBillBatchToDb no_fault related_upstream (10 * day) 50
                   [Some bill_with_related] (connect empty_tables)) in
  fst (BillScript.fetchAndFilterBillUrls no_fault "KEY" (Some "119")
         (next_listing (12 * day)) s')
  = ["https://api.congress.gov/v3/bill/119/hr/2?format=json&api_key=KEY"]
  /\ forall u,
       In u (fst (BillScript.fetchAndFilterBillUrls no_fault "KEY" (Some "119")
                    (next_listing (12 * day)) s')) ->
       exists page l,
         In page (walked (next_listing (12 * day))) /\ In l (snd page)
         /\ u = (BillScript.Listed.url l ++ "&api_key=" ++ "KEY")%string
         /\ ~ listed_in_batch [Some bill_with_related] l.
Proof.
  intros s'. split; [reflexivity|].
  refine (committed_batch_not_planned_again no_fault related_upstream (10 * day) 50
            [Some bill_with_related] (connect empty_tables) s' _ no_fault "KEY"
            (Some "119") (next_listing (12 * day)) eq_refl _ (surjective_pairing _)
            eq_refl (fun _ => eq_refl) _ _).
  - intros c t n. simpl. lia.
  - intros page b [<-|[]] [<-|[<-|[]]]; simpl; lia.
  - intros page [<-|[]]. reflexivity.
Defined.

(* ================================================================== *)
(** * 35. Reports fetched inside the batch *)
(* ================================================================== *)

Section ReportFetch.

Import BillScript.

Variable fault : nat -> bool.
Variable up : upstream.
Variable now : Z.
Variable stack_limit : nat.

Lemma for_of_runs {A} (f : A -> M unit) (l : list A) (x : A) (s s' : session) :
  In x l -> for_of l f s = (Ret tt, s') ->
  exists s1 s2, f x s1 = (Ret tt, s2).
Proof.
  intros Hin E.
  destruct (for_of_reaches f (fun _ => True) l x s s') as (s1 & s2 & _ & H); auto.
  - intros a s0 r0 s1 _ _. exact I.
  - exists s1, s2. exact H.
Qed.

(** The report loop does not return when the fetch of one of its stubs
    throws. *)
Lemma save_reports_throws (billId : value) (stubs : list ReportStub.t)
    (stub : ReportStub.t) (url : string) (s s' : session) :
  In stub stubs -> ReportStub.url stub = Some url -> url <> "" ->
  get_report up url = HttpFailure ->
  save_reports fault up billId stubs s <> (Ret tt, s').
Proof.
  intros Hin Hurl Hne Hget E. unfold save_reports in E.
  apply (for_of_runs _ _ stub) in E; [|exact Hin].
  destruct E as (s1 & s2 & E). rewrite Hurl in E.
  apply String.eqb_neq in Hne. rewrite Hne, Hget in E. discriminate.
Qed.

(** A stub that is passed over could as well not be in the list. *)
Lemma save_reports_skips (billId : value) (stubs : list ReportStub.t) (s : session) :
  save_reports fault up billId stubs s
  = save_reports fault up billId
      (filter (fun stub => negb (report_skipped up stub)) stubs) s.
Proof.
  unfold save_reports.
  match goal with |- for_of _ ?f _ = _ => set (body := f) end.
  revert s. induction stubs as [|stub stubs IH]; intros s; [reflexivity|].
  cbn [filter].
  destruct (report_skipped up stub) eqn:Esk; cbn [negb for_of]; unfold bind.
  - assert (Hb : body stub s = (Ret tt, s)).
    { unfold body, report_skipped in *.
      destruct (ReportStub.url stub) as [url|]; [|reflexivity].
      destruct (String.eqb url ""); [reflexivity|].
      destruct (get_report up url) as [|status|[x|]]; try discriminate; reflexivity. }
    rewrite Hb. apply IH.
  - destruct (body stub s) as [[[]|e] s1]; [apply IH|reflexivity].
Qed.

Lemma save_bill_skips (bill : Bill.t) (s : session) :
  save_bill fault up now stack_limit (without_skipped_reports up bill) s
  = save_bill fault up now stack_limit bill s.
Proof.
  unfold save_bill, bind.
  change (upsert_bill fault now (without_skipped_reports up bill))
    with (upsert_bill fault now bill).
  destruct (upsert_bill fault now bill s) as [[billId|e] s1]; [|reflexivity].
  unfold save_related_data, bind.
  cbn [without_skipped_reports Bill.actions_url Bill.committees_url Bill.cosponsors_url
       Bill.committeeReports Bill.relatedBills_url Bill.summaries_url Bill.subjects_url
       Bill.titles_url Bill.textVersions_url Bill.cboCostEstimates].
  repeat match goal with
         | |- match with_url ?o ?k ?x with _ => _ end
              = match with_url ?o ?k ?x with _ => _ end =>
             destruct (with_url o k x) as [[[]|?] ?]; [|reflexivity]
         end.
  destruct (Bill.committeeReports bill) as [stubs|]; cbn [option_map with_list];
    [rewrite <- save_reports_skips|]; reflexivity.
Qed.

Lemma for_of_skips (batch : list Bill.t) (s : session) :
  for_of (map (without_skipped_reports up) batch) (save_bill fault up now stack_limit) s
  = for_of batch (save_bill fault up now stack_limit) s.
Proof.
  revert s. induction batch as [|b batch IH]; intros s; [reflexivity|].
  cbn [map for_of]. unfold bind. rewrite save_bill_skips.
  destruct (save_bill fault up now stack_limit b s) as [[[]|e] s1];
    [apply IH|reflexivity].
Qed.

Lemma defined_bills_skips (l : list (option Bill.t)) :
  defined_bills (map (option_map (without_skipped_reports up)) l)
  = option_map (map (without_skipped_reports up)) (defined_bills l).
Proof.
  induction l as [|[b|] l IH]; [reflexivity| |reflexivity].
  cbn [map option_map defined_bills]. rewrite IH.
  destruct (defined_bills l); reflexivity.
Qed.

Lemma batch_body_skips (billDataBatch : list (option Bill.t)) (s : session) :
  batch_body fault up now stack_limit
    (map (option_map (without_skipped_reports up)) billDataBatch) s
  = batch_body fault up now stack_limit billDataBatch s.
Proof.
  unfold batch_body. rewrite defined_bills_skips.
  destruct (defined_bills billDataBatch) as [batch|]; cbn [option_map]; [|reflexivity].
  unfold bind, ensure_sponsors. rewrite map_map.
  change (map (fun x => sponsor0 (without_skipped_reports up x)) batch)
    with (map sponsor0 batch).
  match goal with
  | |- match ?m s with _ => _ end = match ?m s with _ => _ end =>
      destruct (m s) as [[[]|e] s1]; [apply for_of_skips|reflexivity]
  end.
Qed.

(** The report details of a bill are fetched inside the transaction of
    its batch, outside any try of their own.  A stub without URL, a
    response that is not ok, or an ok body without a report only skips
    the report: the batch runs exactly as the batch without these stubs.
    But when the fetch itself throws (the connection drops, the body is
    not JSON) for a report of any bill of the batch, the whole batch is
    rolled back: no bill of it is stored or stamped, and the call still
    returns normally. *)
Theorem report_fetch_failure_rolls_back_batch (billDataBatch : list (option Bill.t))
    (s s' : session) (r : outcome unit) :
  snap s = None ->
  saveBillBatchToDb fault up now stack_limit billDataBatch s = (r, s') ->
  (forall (bill : Bill.t) (stubs : list ReportStub.t) (stub : ReportStub.t)
          (url : string),
      In (Some bill) billDataBatch ->
      Bill.committeeReports bill = Some stubs ->
      In stub stubs -> ReportStub.url stub = Some url -> url <> "" ->
      get_report up url = HttpFailure ->
      tbl s' = tbl s /\ history s' <> Committed :: history s /\ r = Ret tt)
  /\ saveBillBatchToDb fault up now stack_limit
       (map (option_map (without_skipped_reports up)) billDataBatch) s = (r, s').
Proof.
  intros Hs E. split.
  - intros bill stubs stub url Hbill Hrep Hstub Hurl Hne Hget.
    destruct (saveBillBatchToDb_cases _ _ _ _ _ _ _ _ Hs E) as (Hr & _ & [->|[_ Hres]]).
    { destruct billDataBatch; [destruct Hbill|]. repeat split; auto.
      apply history_not_extended. }
    destruct Hres as [Ht [Hh|Hh]|s2 Hb _ _ _ _].
    + repeat split; auto. rewrite Hh. apply history_not_extended.
    + repeat split; auto. rewrite Hh. discriminate.
    + exfalso. unfold batch_body in Hb.
      destruct (defined_bills billDataBatch) as [batch|] eqn:Ed; [|discriminate].
      apply bind_ret in Hb. destruct Hb as ([] & s1 & _ & Hb).
      apply (for_of_runs _ _ bill) in Hb; [|eapply defined_bills_in; eauto].
      destruct Hb as (s3 & s4 & Hb). unfold save_bill in Hb.
      apply bind_ret in Hb. destruct Hb as (billId & s5 & _ & Hb).
      unfold save_related_data in Hb.
      do 3 (apply bind_ret in Hb; destruct Hb as ([] & ? & _ & Hb)).
      apply bind_ret in Hb. destruct Hb as ([] & s6 & Hb & _).
      rewrite Hrep in Hb. cbn [with_list] in Hb.
      exact (save_reports_throws billId stubs stub url _ _ Hstub Hurl Hne Hget Hb).
  - rewrite <- E. unfold saveBillBatchToDb.
    destruct billDataBatch as [|b l]; [reflexivity|]. cbn [map].
    unfold try_catch, bind.
    destruct (BEGIN fault s) as [[[]|e] s0]; [|reflexivity].
    change (option_map (without_skipped_reports up) b
            :: map (option_map (without_skipped_reports up)) l)
      with (map (option_map (without_skipped_reports up)) (b :: l)).
    rewrite batch_body_skips. reflexivity.
Qed.

End ReportFetch.

Lemma report_fetch_failure_rolls_back_batch_witness :
  let batch := [Some plain_bill; Some bill_with_report] in
  let dropped := BillScript.saveBillBatchToDb no_fault dropping_upstream 1000 50 batch
                   (connect empty_tables) in
  let refused := BillScript.saveBillBatchToDb no_fault sample_upstream 1000 50 batch
                   (connect empty_tables) in
  (tbl (snd dropped) = empty_tables /\ history (snd dropped) <> [Committed]
   /\ fst dropped = Ret tt)
  /\ BillScript.saveBillBatchToDb no_fault sample_upstream 1000 50
       (map (option_map (without_skipped_reports sample_upstream)) batch)
       (connect empty_tables) = (fst refused, snd refused)
  /\ Bill.committeeReports (without_skipped_reports sample_upstream bill_with_report)
     = Some []
  /\ history (snd refused) = [Committed]
  /\ List.length (tbl (snd refused) bills) = 2%nat.
Proof.
  intros batch dropped refused. split; [|split; [|repeat split; reflexivity]].
  - refine (proj1 (report_fetch_failure_rolls_back_batch no_fault dropping_upstream
                     1000 50 batch (connect empty_tables) (snd dropped) (fst dropped)
                     eq_refl (surjective_pairing _))
              bill_with_report [hrpt5] hrpt5
              "https://api.congress.gov/v3/committee-report/119/hrpt/5?format=json"
              _ eq_refl _ eq_refl _ eq_refl).
    + right. left. reflexivity.
    + left. reflexivity.
    + discriminate.
  - exact (proj2 (report_fetch_failure_rolls_back_batch no_fault sample_upstream
                    1000 50 batch (connect empty_tables) (snd refused) (fst refused)
                    eq_refl (surjective_pairing _))).
Defined.

(* ================================================================== *)
(** * 36. Titles written through related bills *)
(* ================================================================== *)

#[local] Instance title_from_listing_order rels rb :
  TableOrder (title_from_listing rels rb).
Proof.
  split.
  - intros tb H. exact H.
  - intros a b c Hab Hbc H. auto.
Qed.

#[local] Instance title_from_listing_focus rels rb :
  Focused (table_eqb bills) (title_from_listing rels rb).
Proof.
  intros tb tb' H (a & Ha & Hs & Ht). exists a. repeat split; try apply Hs; auto.
  unfold bill_title, bill_row in *. rewrite (H bills (table_eqb_refl _)). exact Ht.
Qed.

(** What a conflict on the natural key says of the two rows. *)
Lemma bill_conflict_true (new r : row) :
  conflicts bills [["congress"; "type"; "number"]] new r = true ->
  bill_matches (field bills new "congress") (field bills new "type")
               (field bills new "number") r = true
  /\ is_null (field bills new "congress") = false
  /\ is_null (field bills new "type") = false
  /\ is_null (field bills new "number") = false.
Proof.
  rewrite bill_conflict_matches. intros H.
  apply andb_prop in H. destruct H as [H N3]. apply andb_prop in H.
  destruct H as [H N2]. apply andb_prop in H. destruct H as [H N1].
  apply negb_true_iff in N1, N2, N3. auto.
Qed.

Lemma bill_matches_self (r : row) :
  is_null (field bills r "congress") = false ->
  is_null (field bills r "type") = false ->
  is_null (field bills r "number") = false ->
  bill_matches (field bills r "congress") (field bills r "type")
               (field bills r "number") r = true.
Proof.
  intros N1 N2 N3. unfold bill_matches, sql_eq.
  rewrite N1, N2, N3, !value_eqb_refl. reflexivity.
Qed.

(** After an upsert on the natural key that keeps the key cells, the
    lookup by the key of the proposed row finds the row written. *)
Lemma upserted_bill_found (new : row) sets (tb tb' : tables) (ids : list value) :
  (forall old, field bills (apply_sets bills sets old new) "congress"
               = field bills old "congress"
               /\ field bills (apply_sets bills sets old new) "type"
                  = field bills old "type"
               /\ field bills (apply_sets bills sets old new) "number"
                  = field bills old "number") ->
  insert_effect bills new (DoUpdate ["congress"; "type"; "number"] sets) tb tb' ids ->
  bill_row tb' (field bills new "congress") (field bills new "type")
           (field bills new "number") = Some new
  \/ exists old, bill_row tb' (field bills new "congress") (field bills new "type")
                          (field bills new "number")
                 = Some (apply_sets bills sets old new).
Proof.
  intros Hkey E.
  destruct E as [target old0 [=] _ _ _ _|before after old key sets' [= <- <-] Hrows Hc Hb _ -> _ _
                |Hnone Hnn -> _ _].
  - right. exists old. destruct (Hkey old) as (Sc & St & Sn).
    apply bill_conflict_true in Hc. destruct Hc as (Hm & N1 & N2 & N3).
    unfold bill_row. rewrite set_table_same, find_app_cases.
    rewrite find_none_forall.
    + simpl.
      assert (Hm' : bill_matches (field bills new "congress") (field bills new "type")
                      (field bills new "number") (apply_sets bills sets old new) = true).
      { unfold bill_matches in *. rewrite Sc, St, Sn. exact Hm. }
      rewrite Hm'. reflexivity.
    + intros r Hr. specialize (Hb r Hr). rewrite bill_conflict_matches in Hb.
      rewrite N1, N2, N3 in Hb. simpl in Hb. rewrite !andb_true_r in Hb. exact Hb.
  - left.
    assert (Hnz : is_null (field bills new "congress") = false
                  /\ is_null (field bills new "type") = false
                  /\ is_null (field bills new "number") = false).
    { unfold not_null_violation in Hnn.
      destruct (find _ (columns (schema_of bills))) eqn:Ef; [discriminate|].
      pose proof (find_none _ _ Ef) as H.
      split; [|split].
      - exact (H _ (or_intror (or_introl eq_refl))).
      - exact (H _ (or_intror (or_intror (or_introl eq_refl)))).
      - exact (H _ (or_intror (or_intror (or_intror (or_introl eq_refl))))). }
    destruct Hnz as (N1 & N2 & N3).
    unfold bill_row. rewrite set_table_same, find_app_cases.
    rewrite find_none_forall.
    + simpl. rewrite bill_matches_self by assumption. reflexivity.
    + intros r Hr. specialize (Hnone r Hr). cbn [arbiters] in Hnone.
      rewrite bill_conflict_matches, N1, N2, N3 in Hnone.
      simpl in Hnone. rewrite !andb_true_r in Hnone. exact Hnone.
Qed.

Section RelatedTitles.

Import BillScript.

Variable fault : nat -> bool.
Variable up : upstream.

Local Abbreviation stub a :=
  (insert_returning fault bills ["congress"; "type"; "number"; "title"]
     [RelatedBill.congress a; RelatedBill.type a; RelatedBill.number a;
      js_or (RelatedBill.title a) (VText "Untitled Bill")]
     (DoUpdate ["congress"; "type"; "number"] [excluded bills "title"])).

Local Abbreviation stub_row a k :=
  (build_row bills ["congress"; "type"; "number"; "title"]
     [RelatedBill.congress a; RelatedBill.type a; RelatedBill.number a;
      js_or (RelatedBill.title a) (VText "Untitled Bill")] k).

Lemma stub_row_cells (a : RelatedBill.t) (k : Z) :
  field bills (stub_row a k) "congress" = RelatedBill.congress a
  /\ field bills (stub_row a k) "type" = RelatedBill.type a
  /\ field bills (stub_row a k) "number" = RelatedBill.number a
  /\ field bills (stub_row a k) "title" = stub_title a.
Proof. repeat split; reflexivity. Qed.

Lemma stub_sets_cells (old new : row) :
  field bills (apply_sets bills [excluded bills "title"] old new) "congress"
  = field bills old "congress"
  /\ field bills (apply_sets bills [excluded bills "title"] old new) "type"
     = field bills old "type"
  /\ field bills (apply_sets bills [excluded bills "title"] old new) "number"
     = field bills old "number".
Proof. repeat split; apply apply_sets_other; reflexivity. Qed.

Lemma stub_sets_title (old new : row) :
  field bills (apply_sets bills [excluded bills "title"] old new) "title"
  = field bills new "title".
Proof.
  cbn [apply_sets fold_left fst snd excluded]. apply field_set_same. discriminate.
Qed.

(** The stub statement, when it returns, has stored its title. *)
Lemma stub_stores_title (a : RelatedBill.t) (s s1 : session) (ids : list value) :
  stub a s = (Ret ids, s1) ->
  bill_title (tbl s1) (RelatedBill.congress a) (RelatedBill.type a)
             (RelatedBill.number a) = Some (stub_title a).
Proof.
  intros E. apply insert_returning_ret in E. destruct E as (E & _).
  destruct (stub_row_cells a (seqs s bills + 1)) as (Pc & Pt & Pn & Pti).
  apply upserted_bill_found in E; [|intros old; apply stub_sets_cells].
  rewrite Pc, Pt, Pn in E. unfold bill_title.
  destruct E as [E|(old & E)]; rewrite E; simpl; [|rewrite stub_sets_title];
    rewrite Pti; reflexivity.
Qed.

(** A title that came from the listing is replaced by one that came from
    the listing only. *)
Lemma stub_keeps_listing_title (rels : list RelatedBill.t) (rb a : RelatedBill.t) :
  In a rels -> respects (title_from_listing rels rb) (stub a).
Proof.
  intros Ha. apply respects_insert_returning; try exact _.
  intros tb k tb' ids E (a0 & Ha0 & Hs0 & Ht).
  destruct (stub_row_cells a k) as (Pc & Pt & Pn & Pti).
  destruct E as [target old0 [=] _ _ _ _|before after old key sets [= <- <-] Hrows Hc _ _ -> _ _
                |_ _ -> _ _].
  - destruct (stub_sets_cells old (stub_row a k)) as (Sc & St & Sn).
    assert (Hm : forall c t n,
               bill_matches c t n (apply_sets bills [excluded bills "title"] old
                                     (stub_row a k))
               = bill_matches c t n old).
    { intros. unfold bill_matches. rewrite Sc, St, Sn. reflexivity. }
    unfold bill_title, bill_row in Ht. rewrite Hrows, find_app_cases in Ht.
    destruct (find _ before) as [r|] eqn:Eb.
    + exists a0. repeat split; try apply Hs0; auto.
      unfold bill_title, bill_row. rewrite set_table_same, find_app_cases, Eb.
      exact Ht.
    + cbn [find] in Ht.
      destruct (bill_matches (RelatedBill.congress rb) (RelatedBill.type rb)
                  (RelatedBill.number rb) old) eqn:Eo.
      * exists a. apply bill_conflict_true in Hc. destruct Hc as (Hc & _).
        rewrite Pc, Pt, Pn in Hc.
        destruct (bill_matches_key _ _ _ _ _ _ _ Hc Eo) as (Kc & Kt & Kn).
        split; [exact Ha|]. split; [split; auto|].
        unfold bill_title, bill_row.
        rewrite set_table_same, find_app_cases, Eb. cbn [find].
        rewrite Hm, Eo. simpl. rewrite stub_sets_title, Pti. reflexivity.
      * exists a0. repeat split; try apply Hs0; auto.
        unfold bill_title, bill_row.
        rewrite set_table_same, find_app_cases, Eb. cbn [find].
        rewrite Hm, Eo. exact Ht.
  - exists a0. repeat split; try apply Hs0; auto.
    unfold bill_title, bill_row in *. rewrite set_table_same, find_app_cases.
    destruct (find _ (tb bills)) as [r|]; [exact Ht|discriminate].
Qed.

End RelatedTitles.

Section RelatedTitlesLoop.

Import BillScript.

Variable fault : nat -> bool.
Variable up : upstream.

(** When the related-bills step of a bill returns, every bill that its
    listing names is stored under the title that an entry of the listing
    gives it, which is 'Untitled Bill' when that entry carries none.  The
    statement that looks up the id of the related bill writes its title:
    the title the bill had from its own processing does not survive. *)
Theorem save_relatedBills_overwrites_title (billId : value) (url : string)
    (rb : RelatedBill.t) (s s' : session) :
  save_relatedBills fault up billId url s = (Ret tt, s') ->
  In rb (list_relatedBills up url) ->
  titled_by (list_relatedBills up url) rb (tbl s').
Proof.
  unfold save_relatedBills. set (rels := list_relatedBills up url).
  match goal with |- for_of _ ?f _ = _ -> _ => set (step := f) end.
  assert (Hstep : forall x, In x rels -> respects (title_from_listing rels rb) (step x)).
  { intros x Hx. unfold step. apply respects_bind; try exact _.
    - apply stub_keeps_listing_title. exact Hx.
    - intros ids. respects_tac. }
  intros E Hin.
  assert (G : forall l s0, (forall x, In x l -> In x rels) -> In rb l ->
                           for_of l step s0 = (Ret tt, s') ->
                           titled_by rels rb (tbl s')).
  { induction l as [|a l IH]; intros s0 Hl Hi E0; [destruct Hi|].
    cbn [for_of] in E0. apply bind_ret in E0. destruct E0 as ([] & s1 & E1 & E2).
    destruct Hi as [->|Hi].
    2:{ apply (IH s1); auto. intros x Hx. apply Hl. right. exact Hx. }
    assert (H1 : titled_by rels rb (tbl s1)).
    { unfold step in E1. apply bind_ret in E1. destruct E1 as (ids & s2 & Es & E1).
      apply stub_stores_title in Es.
      run_respects E1 (title_from_listing rels rb) Hk; [respects_tac|].
      apply Hk. exists rb. split; [apply Hl; left; reflexivity|].
      split; [repeat split|exact Es]. }
    run_respects E2 (title_from_listing rels rb) Hk.
    { apply respects_for_of_in; try exact _.
      intros x Hx. apply Hstep. apply Hl. right. exact Hx. }
    exact (Hk H1). }
  apply (G rels s); auto.
Qed.

End RelatedTitlesLoop.

Lemma save_relatedBills_overwrites_title_witness :
  let url := "https://api.congress.gov/v3/bill/119/hr/1/relatedbills" in
  let run := BillScript.save_relatedBills no_fault untitled_upstream (VInt 2) url
               (connect titled_tables) in
  bill_title titled_tables (VInt 119) (VText "s") (VInt 7)
  = Some (VText "Clean Water Act")
  /\ bill_title (tbl (snd run)) (VInt 119) (VText "s") (VInt 7)
     = Some (VText "Untitled Bill")
  /\ List.length (tbl (snd run) related_bills) = 1%nat
  /\ titled_by (list_relatedBills untitled_upstream url) untitled_related
               (tbl (snd run)).
Proof.
  intros url run. split; [reflexivity|]. split; [reflexivity|].
  split; [reflexivity|].
  apply (save_relatedBills_overwrites_title no_fault untitled_upstream (VInt 2) url
           untitled_related (connect titled_tables) (snd run)).
  - reflexivity.
  - left. reflexivity.
Defined.

(* ================================================================== *)
(** * 37. The chamber, between the two scripts *)
(* ================================================================== *)

Section ListingChamber.

Import CommitteeScript.

Variable fault : nat -> bool.
Variable API_KEY : string.

(** Pass 1 on one committee, when the statement went through: the stored
    chamber is the chamber of the listing, whatever was stored. *)
Lemma upsert_committee_chamber (c : Committee.t) (code : string) (s s1 : session) :
  upsert_committee fault c s = (Ret tt, s1) ->
  Committee.systemCode c = Some code ->
  stored_chamber (tbl s1) code = Some (vtext (Committee.chamber c)).
Proof.
  unfold upsert_committee. intros E Hcode. apply insert_ret in E.
  destruct E as (ids & E & _).
  set (new := build_row committees _ _ _) in E.
  assert (Nc : field committees new "system_code" = VText code).
  { subst new. rewrite upsert_row_key, Hcode. reflexivity. }
  assert (Nh : field committees new "chamber" = vtext (Committee.chamber c))
    by reflexivity.
  unfold stored_chamber, committee_row.
  destruct E as [target old0 [=] _ _ _ _
                |before after old k sets [= <- <-] Hrows Hc Hbefore _ -> _ _
                |Hnone _ -> _ _].
  - rewrite set_table_same, find_app_cases.
    rewrite (no_conflict_no_code new code before Nc Hbefore). cbn [find].
    rewrite conflicts_one_column, Nc, sql_eq_sym in Hc.
    rewrite apply_sets_other by reflexivity. rewrite Hc. cbn [option_map].
    f_equal. cbn [apply_sets fold_left fst snd excluded].
    rewrite field_set_other by discriminate.
    rewrite field_set_same by discriminate. exact Nh.
  - rewrite set_table_same, find_app_cases.
    rewrite (no_conflict_no_code new code (tbl s committees) Nc Hnone). cbn [find].
    rewrite Nc, sql_eq_refl_text. cbn [option_map]. rewrite Nh. reflexivity.
Qed.

(** Pass 1 on a committee with another code leaves the chamber alone. *)
Lemma upsert_committee_other_chamber (c : Committee.t) (code : string)
    (s s1 : session) :
  upsert_committee fault c s = (Ret tt, s1) ->
  Committee.systemCode c <> Some code ->
  stored_chamber (tbl s1) code = stored_chamber (tbl s) code.
Proof.
  unfold upsert_committee. intros E Hne. apply insert_ret in E.
  destruct E as (ids & E & _).
  set (new := build_row committees _ _ _) in E.
  assert (Nc : field committees new "system_code" = vtext (Committee.systemCode c))
    by (subst new; apply upsert_row_key).
  unfold stored_chamber, committee_row.
  destruct E as [target old0 [=] _ _ _ _
                |before after old k sets [= <- <-] Hrows Hc _ _ -> _ _
                |_ _ -> _ _].
  - rewrite set_table_same, Hrows. apply find_replace.
    + rewrite apply_sets_other by reflexivity. reflexivity.
    + intros _ Hp. exfalso. rewrite conflicts_one_column, Nc in Hc.
      apply sql_eq_true in Hc, Hp. destruct Hc as [Hc _], Hp as [Hp _].
      rewrite Hp in Hc. destruct (Committee.systemCode c) as [c0|]; [|discriminate].
      injection Hc as ->. contradiction Hne. reflexivity.
  - rewrite set_table_same, find_app_cases.
    destruct (find _ (tbl s committees)); [reflexivity|]. cbn [find].
    rewrite Nc. destruct (Committee.systemCode c) as [c0|]; [|reflexivity].
    simpl. rewrite sql_eq_text. destruct (String.eqb_spec c0 code) as [->|_];
      [contradiction Hne; reflexivity|reflexivity].
Qed.

Lemma pass1_other_chamber (l : list Committee.t) (code : string) (s s1 : session) :
  for_of l (upsert_committee fault) s = (Ret tt, s1) ->
  (forall c, In c l -> Committee.systemCode c <> Some code) ->
  stored_chamber (tbl s1) code = stored_chamber (tbl s) code.
Proof.
  revert s. induction l as [|c l IH]; intros s E Hl.
  - injection E as <-. reflexivity.
  - cbn [for_of] in E. apply bind_ret in E. destruct E as ([] & s0 & E0 & E).
    rewrite (IH _ E) by (intros c' Hc'; apply Hl; right; exact Hc').
    apply (upsert_committee_other_chamber c code s s0 E0).
    apply Hl. left. reflexivity.
Qed.

Lemma pass1_chamber (l : list Committee.t) (c : Committee.t) (code : string)
    (s s1 : session) :
  for_of l (upsert_committee fault) s = (Ret tt, s1) ->
  NoDup (map Committee.systemCode l) ->
  In c l -> Committee.systemCode c = Some code ->
  stored_chamber (tbl s1) code = Some (vtext (Committee.chamber c)).
Proof.
  revert s. induction l as [|c0 l IH]; intros s E Hnd Hin Hcode; [destruct Hin|].
  cbn [for_of] in E. apply bind_ret in E. destruct E as ([] & s0 & E0 & E).
  inversion Hnd as [|? ? Hnotin Hnd']. subst.
  destruct Hin as [->|Hin]; [|eapply IH; eauto].
  rewrite (pass1_other_chamber l code s0 s1 E).
  - exact (upsert_committee_chamber c code s s0 E0 Hcode).
  - intros c' Hc' Hx. apply Hnotin. rewrite Hcode, <- Hx. apply in_map. exact Hc'.
Qed.

(** Pass 2 writes parent pointers only. *)
Lemma pass2_chamber (l : list Committee.t) (code : string) (s s1 : session) :
  pass2 fault l s = (Ret tt, s1) ->
  stored_chamber (tbl s1) code = stored_chamber (tbl s) code.
Proof.
  unfold pass2. revert s. induction l as [|c l IH]; intros s E.
  - injection E as <-. reflexivity.
  - cbn [for_of] in E. apply bind_ret in E. destruct E as ([] & s0 & E0 & E).
    rewrite (IH _ E). apply set_parent_tables in E0.
    destruct (declared_parent c) as [p|]; [|rewrite E0; reflexivity].
    unfold stored_chamber, committee_row. rewrite E0, set_table_same.
    rewrite find_map_same_key.
    + destruct (find _ (tbl s committees)) as [r|]; [|reflexivity]. simpl.
      destruct (sql_eq _ (vtext _)); [|reflexivity].
      rewrite field_set_other by discriminate. reflexivity.
    + intros r. destruct (sql_eq _ (vtext _)); [|reflexivity].
      rewrite field_set_other by discriminate. reflexivity.
Qed.

(** The base upsert of the committee script, when it commits on a batch
    that names each committee once, stores for every committee of the
    batch the chamber the listing carries. *)
Lemma upsertBaseCommittees_stores_chamber (committeesData : list Committee.t)
    (s : session) (c : Committee.t) (code : string) :
  let s' := snd (upsertBaseCommittees fault API_KEY committeesData s) in
  snap s = None ->
  history s' = Committed :: history s ->
  NoDup (map Committee.systemCode committeesData) ->
  In c committeesData -> Committee.systemCode c = Some code ->
  stored_chamber (tbl s') code = Some (vtext (Committee.chamber c)).
Proof.
  intros s' Hs Hh Hnd Hin Hcode. subst s'.
  rewrite upsertBaseCommittees_session in *.
  destruct (try_catch _ _ s) as [r s'] eqn:E. simpl in *.
  apply transaction_cases in E; auto using safe_two_passes.
  destruct E as (_ & _ & _ & [_ [Hh'|Hh']|s2 Hb _ Ht _ _]).
  - rewrite Hh' in Hh. destruct (history_not_extended _ _ Hh).
  - rewrite Hh' in Hh. discriminate.
  - apply bind_ret in Hb. destruct Hb as ([] & s1 & E1 & E2).
    unfold stored_chamber, committee_row. rewrite Ht.
    fold (committee_row (tbl s2) code). fold (stored_chamber (tbl s2) code).
    rewrite (pass2_chamber _ _ _ _ E2).
    exact (pass1_chamber _ c code _ _ E1 Hnd Hin Hcode).
Qed.

End ListingChamber.

(** C5, as amended.  Whatever a batch write of the bill script does, a
    committee whose stored chamber is not 'Unknown' keeps that chamber:
    the stub upsert of [ensureCommitteeExists], the one place where a
    chamber is inferred, replaces the stored value only while it is
    'Unknown'.  The committee script infers nothing: when its base upsert
    commits on a batch that names each committee once, the stored chamber
    of every committee of the batch is the chamber the listing carries,
    whatever was stored before. *)
Theorem saveBillBatchToDb_keeps_known_chamber (fault : nat -> bool) :
  (forall (up : upstream) (now : Z) (stack_limit : nat)
          (billDataBatch : list (option Bill.t)) (s s' : session) (r : outcome unit)
          (code : string) (v : value),
      snap s = None ->
      BillScript.saveBillBatchToDb fault up now stack_limit billDataBatch s = (r, s') ->
      stored_chamber (tbl s) code = Some v ->
      v <> VText "Unknown" ->
      stored_chamber (tbl s') code = Some v)
  /\
  (forall (API_KEY : string) (committeesData : list Committee.t) (s : session)
          (c : Committee.t) (code : string),
      let s' := snd (CommitteeScript.upsertBaseCommittees fault API_KEY committeesData s) in
      snap s = None ->
      history s' = Committed :: history s ->
      NoDup (map Committee.systemCode committeesData) ->
      In c committeesData -> Committee.systemCode c = Some code ->
      stored_chamber (tbl s') code = Some (vtext (Committee.chamber c))).
Proof.
  split.
  - intros. eapply bill_batch_keeps_known_chamber; eauto.
  - intros. apply upsertBaseCommittees_stores_chamber; auto.
Qed.

Lemma saveBillBatchToDb_keeps_known_chamber_witness :
  let run := BillScript.saveBillBatchToDb no_fault unknown_chamber_upstream 1000 50
               [Some bill_with_actions] (connect house_committee_tables) in
  let listed := snd (CommitteeScript.upsertBaseCommittees no_fault "KEY"
                       [unknown_chamber_payload] (connect house_committee_tables)) in
  history (snd run) = [Committed]
  /\ List.length (tbl (snd run) bill_action_committees) = 1%nat
  /\ stored_chamber (tbl (snd run)) "HSAG" = Some (VText "House")
  /\ stored_chamber (tbl listed) "HSAG" = Some (VText "Unknown").
Proof.
  intros run listed. split; [reflexivity|]. split; [reflexivity|]. split.
  - apply (proj1 (saveBillBatchToDb_keeps_known_chamber no_fault)
             unknown_chamber_upstream 1000 50%nat [Some bill_with_actions]
             (connect house_committee_tables) (snd run) (fst run)).
    + reflexivity.
    + apply surjective_pairing.
    + reflexivity.
    + discriminate.
  - apply (proj2 (saveBillBatchToDb_keeps_known_chamber no_fault) "KEY"
             [unknown_chamber_payload] (connect house_committee_tables)
             unknown_chamber_payload "HSAG").
    + reflexivity.
    + reflexivity.
    + repeat constructor. simpl. tauto.
    + left. reflexivity.
    + reflexivity.
Defined.
